(* ===== verification/_CoqProject ===== *)
-Q . S2P
Prelude.v
Types.v
Posix.v
PosixFacts.v
Crc.v
Bitmap.v
BitmapFacts.v
Codec.v
Storage.v
Layout.v
StorageFacts.v
ExtentIO.v
Lifecycle.v
FirstFit.v
BitmapSpec.v
System.v
SystemFacts.v
Demo.v
Spec.v
Refinement.v
Accounting.v
BitmapProps.v
StorageProps.v
SystemProps.v
Typing.v
Session.v
Interleave.v
Critical.v
CallShapes.v
InterleaveFacts.v
Simulation.v
CallBounds.v
InterleaveProps.v
ExampleUsage.v
ExampleProps.v
Findings.v
CacheTypes.v
CacheState.v
Cache.v
CacheLinks.v
CacheSpec.v
CacheView.v
CacheLists.v
CacheWf.v
CacheFacts.v
CacheWalks.v
CacheOps.v
CacheGet.v
CacheSystem.v
CacheLifecycle.v
CacheSteps.v
CacheInv.v
CacheHeld.v
CacheContent.v
CacheOrder.v
CacheReach.v
CacheDemo.v
CacheProps.v
CacheBackground.v
CacheThreads.v
CacheDiscipline.v
CacheOrdered.v
CacheAvoids.v
CacheAloof.v
CacheConcurrent.v
CacheRaces.v
CacheClients.v
CacheWp.v
CacheGhost.v
CacheRules.v
CacheLocking.v
CacheOwned.v
CacheShifts.v
CacheAccess.v
CacheListRules.v
CacheFind.v
CacheEvict.v
CacheCalls.v
CacheSafety.v
CacheMemory.v
