(* ===== verification/Prelude.v ===== *)
(** * KANEK Extents Storage (KES): a verification library

    KES is a C library in two independent layers.  [src/kes_storage.c], with
    [src/kes_bitmap.c], hands out extents (runs of blocks) of a file or device
    and reads and writes them; any number of handles, of any number of
    processes, may work on one file.  [src/kes_cache.c] caches extents in
    memory over two callbacks that its client supplies, for any number of
    threads.  This library models both, function by function, and proves what
    they promise; it also proves where they do not keep the promise.

    ** The bitmap ([src/kes_bitmap.c], [include/kes/kes_bitmap.h])

    [Bitmap]: [struct kes_bitmap] and every function.  A memory access is an
    [option], [None] when it leaves the [data] allocation, so that totality of
    an operation is memory safety.  [BitmapFacts]: the invariant (buffer size,
    exact free counter) and the effect of every function; [FirstFit]: first fit
    stated without code; [BitmapSpec], [BitmapProps]: the bitmap refines a
    finite set of block numbers, the search is first fit, ranges are exact,
    saving and loading is a round trip.

    ** The storage layer ([src/kes_storage.c], [include/kes/kes_types.h],
    [include/kes/kes_storage.h])

    [Types]: constants, structs, macros.  [Posix]: what the code uses of the
    operating system -- files behind descriptors, offsets, advisory locks,
    memory, a mutex.  A program is a tree of system calls, branching on their
    results; [perform] is the kernel, where a fault decides whether a call
    fails or comes up short; [run] executes a program alone, with a script of
    faults, and a blocked lock and undefined behaviour are outcomes of their
    own.  [PosixFacts]: the program logic of [run].
    [Crc]: the checksum, a function of a separate library, as a class.
    [Codec]: the on-disk descriptor as bytes.  [Storage]: every function of
    [kes_storage.c].  [Layout]: well-formed files.  [StorageFacts],
    [ExtentIO], [Lifecycle]: specifications of all operations under any
    faults; [StorageProps]: the resulting theorems about single calls.
    [System]: several handles on one file as a labelled step relation, one
    operation per step; [SystemFacts]: its invariant, by rule induction.  [Spec]: what a storage
    promises, as an abstract store of blocks, bytes and a next identifier;
    [Refinement]: fault-free runs refine it; [Accounting]: no block leaks.
    [SystemProps]: the theorems about shared storages.  [Typing]: every
    function keeps every value in the range of its C type, on any image.
    [Demo]: a small concrete storage.  [Findings]: where the code departs from
    its intent.

    Operations side by side: in [Interleave] a step is one system call of one
    process, under any fault, or the death of a process at any point.
    [Critical]: a program's view of its own descriptor, and why a critical
    section commutes with transfers of user bytes.  [CallShapes]: every
    operation is nothing, one [lseek] and one transfer within an extent, or a
    critical section under [flock] that touches descriptor and bitmap only.
    [InterleaveFacts] relates the two systems, [Simulation] shows that each
    step of [Interleave] is matched in [System] (an operation takes effect
    when it returns; one that is killed inside its critical section has met
    failures from there on), [CallBounds] counts system calls.
    [InterleaveProps]: linearizability and crash safety, safety of the extents
    at every moment, progress, and the bound.  The theorems about [System]
    thereby hold of processes that run side by side.

    ** A client ([src/examples/example_kes_usage.c])

    [Session]: what one process that is alone on a file can compute after every
    successful call: which blocks are allocated, the extent it gets next, the
    counters, the content.  [ExampleUsage]: the example program, with its
    output and its exits; [ExampleProps]: under any faults it prints exactly
    what it should and exits with 0, or exits with 1 because of a fault; what
    it leaves can be read by another process.

    ** The extent cache ([src/kes_cache.c], [include/kes/kes_cache.h])

    [CacheTypes]: constants, identifiers, hash, configuration, statistics,
    entries.  [CacheState]: memory with pointers (entries, LRU links, hash
    links, pins, buffers), locks, allocation, callbacks, and programs as
    sequences of atomic steps.  [Cache]: every function as such a program, with
    every lock operation and every pin of the source.

    One call at a time: [CacheLinks] (doubly linked lists in a map),
    [CacheSpec] (a reference cache: entries and a recency list, no pointers or
    locks), [CacheView], [CacheLists], [CacheFacts], [CacheWalks], [CacheOps],
    [CacheGet], [CacheSystem], [CacheLifecycle], [CacheBackground]: every
    operation, and what one background thread does, run alone,
    implements the reference, without undefined behaviour and without
    blocking; [CacheWf] is the invariant of the reference.  [CacheSteps]
    decomposes operations into elementary changes; [CacheInv] (statistics and
    limits), [CacheHeld] (extents in use stay), [CacheContent] (transparency),
    [CacheOrder] (what leaves) are invariants of these.  [CacheReach] puts
    them together from [kes_cache_create] on; [CacheDemo] is a concrete cache;
    [CacheProps] states the theorems.

    Concurrent calls: [CacheThreads] interleaves the programs of any number of
    clients and background threads step by step, and defines the lock
    discipline (entry, then bucket, then cache lock; a load is awaited with
    empty hands; every load begun is finished; memory is changed under the
    lock that protects it, or while nobody else knows it).  [CacheDiscipline]
    and [CacheOrdered] show that every operation follows it; [CacheConcurrent]
    concludes that there is no deadlock, and gives two schedules of allowed
    calls that end in a use after free and in a lost update.  [CacheAvoids] and
    [CacheAloof] show that no operation touches an entry that another thread
    has allocated and not published; [CacheRaces] concludes that no two
    threads are ever about to change the same memory, and that the buffer and
    the identity of a published entry are fixed.

    Memory safety of concurrent calls, in the separation logic of Iris:
    [CacheClients] are clients that decide on each call by earlier results, and
    what makes them careful; [CacheWp] is a program logic for the programs of
    [CacheState], with its adequacy; [CacheGhost] says who owns what (links and
    heads go with the lock that protects them, counters in memory are the
    claims that threads own); [CacheRules], [CacheLocking], [CacheOwned],
    [CacheShifts], [CacheAccess] and [CacheListRules] are its rules for memory,
    locks, the life of an entry and lists; [CacheFind], [CacheEvict] and
    [CacheCalls] specify the functions of [kes_cache.c] in it; [CacheSafety]
    sets up a new cache with all its threads, and [CacheMemory] draws the
    conclusions: no step of careful threads is undefined behaviour, the lists
    are intact whenever no lock is held, and the threads finish.

    ** Bounds and fuel

    Unsigned C arithmetic wraps explicitly ([u8] ... [u64] below).  The bitmap
    search runs on fuel [S total_bits]: each of its loops visits strictly
    increasing positions below [total_bits], and [BitmapFacts] shows that the
    fuel is never used up.  Walks of the LRU list and of hash chains get the
    number of entries in memory when they start: a list without repetition
    that nobody else changes is not longer, and the refinement theorems show
    that a walk then ends by itself.  Under concurrency a list may be reordered
    under a walk; [threads_finish] therefore names the thread that has
    walked further as an outcome.  No operation on an extent makes more than
    eleven system calls ([operations_bounded]).  A background thread makes an arbitrary but
    fixed number of rounds.

    ** Not modelled

    The CRC-32C function (outside the repository) beyond being a function;
    tracing; the order of bytes on big-endian machines; a loss of power (a
    written byte is written: [fsync] has no other effect than its result).  A
    single [read] or [write] is atomic.  Creating, opening and closing are
    among the operations of [System], not of [Interleave]; there, handles are
    open from the start and a process leaves by being killed.  A background
    thread of the cache may wake at any time: there is no clock behind
    [pthread_cond_timedwait].  Atomic steps of cache threads are sequentially consistent: a data race in the C sense is
    only visible as an interleaving.  The refinement theorems of the cache are
    about calls that do not overlap; overlapping calls are covered by the
    theorems on deadlock, on races and on memory safety, where
    [kes_cache_start], [kes_cache_stop] and [kes_cache_destroy] are not among
    the overlapping calls.  Memory safety of overlapping calls is proved for
    devices whose reads succeed: the retry of a failed load does use freed
    memory ([retry_race_use_after_free]).  Races between reads and writes are
    left open.  What the terminal shows of a [printf] of the example (only its
    arguments are recorded), and the tests, which are further clients. *)
From Stdlib Require Export ZArith Lia.
From stdpp Require Export base tactics numbers strings option gmap list.

Global Open Scope Z_scope.

(** ** Machine integers *)

(** C's unsigned arithmetic is arithmetic modulo [2^w]; every place where the
    code can wrap applies one of these reductions. *)
Definition u8 (x : Z) : Z := x mod 2 ^ 8.
Definition u16 (x : Z) : Z := x mod 2 ^ 16.
Definition u32 (x : Z) : Z := x mod 2 ^ 32.
Definition u64 (x : Z) : Z := x mod 2 ^ 64.

(** Conversion of a 64-bit unsigned value to a signed one ([off_t],
    [ssize_t]): two's complement. *)
Definition i64 (x : Z) : Z :=
  let y := u64 x in if y <? 2 ^ 63 then y else y - 2 ^ 64.

Lemma u32_small x : 0 <= x < 2 ^ 32 -> u32 x = x.
Proof. apply Z.mod_small. Qed.
Lemma u64_small x : 0 <= x < 2 ^ 64 -> u64 x = x.
Proof. apply Z.mod_small. Qed.
Lemma u32_range x : 0 <= u32 x < 2 ^ 32.
Proof. by apply Z.mod_pos_bound. Qed.
Lemma u64_range x : 0 <= u64 x < 2 ^ 64.
Proof. by apply Z.mod_pos_bound. Qed.
Lemma i64_small x : 0 <= x < 2 ^ 63 -> i64 x = x.
Proof.
  intros Hx. unfold i64. rewrite u64_small by lia.
  by destruct (Z.ltb_spec x (2 ^ 63)); lia.
Qed.

(** Rewrites every wrap-around whose argument [lia] bounds. *)
Ltac wrap_step :=
  match goal with
  | |- context [u64 ?x] => rewrite (u64_small x) by lia
  | |- context [u32 ?x] => rewrite (u32_small x) by lia
  | |- context [i64 ?x] => rewrite (i64_small x) by lia
  | H : context [u64 ?x] |- _ => rewrite (u64_small x) in H by lia
  | H : context [u32 ?x] |- _ => rewrite (u32_small x) in H by lia
  | H : context [i64 ?x] |- _ => rewrite (i64_small x) in H by lia
  end.
Ltac wrap := repeat wrap_step.

(** Case analysis on a boolean integer comparison or equality test. *)
Ltac zcase :=
  match goal with
  | |- context [Z.ltb ?a ?b] => destruct (Z.ltb_spec a b)
  | |- context [Z.leb ?a ?b] => destruct (Z.leb_spec a b)
  | |- context [Z.eqb ?a ?b] => destruct (Z.eqb_spec a b)
  end.

(** ** Counting the indices below a bound that satisfy a test *)

Fixpoint count_bits (f : Z -> bool) (n : nat) : Z :=
  match n with
  | O => 0
  | S n' => count_bits f n' + Z.b2z (f (Z.of_nat n'))
  end.

Section count_bits.
Implicit Types (f g : Z -> bool) (n m : nat).

Lemma count_bits_ext f g n :
  (forall i, 0 <= i < Z.of_nat n -> f i = g i) -> count_bits f n = count_bits g n.
Proof.
  induction n as [|n IH]; intros Hfg; simpl; [done|].
  rewrite IH by (intros; apply Hfg; lia). by rewrite Hfg by lia.
Qed.

Lemma count_bits_range f n : 0 <= count_bits f n <= Z.of_nat n.
Proof.
  induction n as [|n IH]; [done|]. cbn [count_bits].
  destruct (f (Z.of_nat n)); cbn [Z.b2z]; lia.
Qed.

Lemma count_bits_false f n :
  (forall i, 0 <= i < Z.of_nat n -> f i = false) -> count_bits f n = 0.
Proof.
  induction n as [|n IH]; intros Hf; simpl; [done|].
  rewrite IH by (intros; apply Hf; lia). by rewrite Hf by lia.
Qed.

(** Turning one index on adds one to the count. *)
Lemma count_bits_on f g n k :
  0 <= k < Z.of_nat n -> f k = false -> g k = true ->
  (forall i, 0 <= i < Z.of_nat n -> i ≠ k -> g i = f i) ->
  count_bits g n = count_bits f n + 1.
Proof.
  induction n as [|n IH]; intros Hk Hf Hg Hfg; [lia|]. cbn [count_bits].
  destruct (decide (k = Z.of_nat n)) as [->|Hne].
  - rewrite (count_bits_ext g f) by (intros; apply Hfg; lia).
    rewrite Hf, Hg; cbn [Z.b2z]; lia.
  - rewrite IH by (auto with lia || (intros; apply Hfg; lia)).
    rewrite Hfg by lia. lia.
Qed.

(** Turning a whole run on adds its length. *)
Lemma count_bits_run_on f g n a m :
  0 <= a -> a + Z.of_nat m <= Z.of_nat n ->
  (forall i, a <= i < a + Z.of_nat m -> f i = false /\ g i = true) ->
  (forall i, 0 <= i < Z.of_nat n -> ~ (a <= i < a + Z.of_nat m) -> g i = f i) ->
  count_bits g n = count_bits f n + Z.of_nat m.
Proof.
  intros Ha. revert g. induction m as [|m IH]; intros g Hm Hrun Hout.
  { rewrite (count_bits_ext g f) by (intros; apply Hout; lia). lia. }
  set (h := fun i => if i =? a + Z.of_nat m then false else g i).
  rewrite (count_bits_on h g n (a + Z.of_nat m)).
  - rewrite (IH h); [lia|lia| |]; intros i Hi; unfold h.
    + destruct (Z.eqb_spec i (a + Z.of_nat m)); [lia|]. apply Hrun; lia.
    + intros Hni. destruct (Z.eqb_spec i (a + Z.of_nat m)) as [->|].
      * symmetry. apply Hrun; lia.
      * apply Hout; lia.
  - lia.
  - unfold h. by rewrite Z.eqb_refl.
  - apply Hrun; lia.
  - intros i Hi Hne. unfold h. by destruct (Z.eqb_spec i (a + Z.of_nat m)).
Qed.

Lemma count_bits_app f n m :
  count_bits f (n + m) = count_bits f n + count_bits (fun i => f (i + Z.of_nat n)) m.
Proof.
  induction m as [|m IH]; [rewrite Nat.add_0_r; simpl; lia|].
  rewrite Nat.add_succ_r; cbn [count_bits]; rewrite IH.
  replace (Z.of_nat (n + m)) with (Z.of_nat m + Z.of_nat n) by lia. lia.
Qed.

(** The count is the number of elements an explicit filter keeps. *)
Lemma count_bits_filter f n :
  count_bits f n = Z.of_nat (length (filter (fun i => f i = true) (seqZ 0 (Z.of_nat n)))).
Proof.
  induction n as [|n IH]; [done|]. cbn [count_bits].
  rewrite seqZ_S, Z.add_0_l, list.filter_app, length_app, IH, filter_cons, filter_nil.
  destruct (f (Z.of_nat n)); case_decide; simpl in *; try done; lia.
Qed.
End count_bits.

(** ** Slices of byte sequences and writes at an offset *)

(** [slice pos n l]: the [n] bytes of [l] from [pos] on (fewer at the end). *)
Definition slice (pos n : nat) (l : list Z) : list Z := take n (drop pos l).

(** [pad_to n l]: [l] extended with zero bytes to length at least [n], what a
    file becomes when something is written past its end. *)
Definition pad_to (n : nat) (l : list Z) : list Z := l ++ replicate (n - length l) 0.

(** [splice pos bs l]: [l] with the bytes [bs] written at offset [pos]. *)
Definition splice (pos : nat) (bs l : list Z) : list Z :=
  let l' := pad_to pos l in take pos l' ++ bs ++ drop (pos + length bs) l'.

Section slices.
Implicit Types (l bs : list Z) (pos n : nat).

Lemma length_slice pos n l : (length (slice pos n l) <= n)%nat.
Proof. unfold slice. rewrite length_take. lia. Qed.

Lemma length_slice_exact pos n l :
  (pos + n <= length l)%nat -> length (slice pos n l) = n.
Proof. intros. unfold slice. rewrite length_take, length_drop. lia. Qed.

Lemma length_pad_to n l : length (pad_to n l) = Nat.max n (length l).
Proof. unfold pad_to. rewrite length_app, length_replicate. lia. Qed.

Lemma pad_to_id n l : (n <= length l)%nat -> pad_to n l = l.
Proof.
  intros. unfold pad_to. replace (n - length l)%nat with 0%nat by lia.
  by rewrite app_nil_r.
Qed.

Lemma length_splice pos bs l :
  length (splice pos bs l) = Nat.max (pos + length bs) (length l).
Proof.
  unfold splice. rewrite !length_app, length_take, length_drop, length_pad_to. lia.
Qed.

Lemma lookup_slice pos n l i :
  (i < n)%nat -> slice pos n l !! i = l !! (pos + i)%nat.
Proof. intros. unfold slice. by rewrite lookup_take_lt, lookup_drop by lia. Qed.

Lemma lookup_pad_to_lt n l i : (i < length l)%nat -> pad_to n l !! i = l !! i.
Proof. intros. unfold pad_to. by rewrite lookup_app_l. Qed.

(** Writing nothing inside the sequence changes nothing. *)
Lemma splice_nil pos l : (pos <= length l)%nat -> splice pos [] l = l.
Proof.
  intros. unfold splice. rewrite pad_to_id by done. cbn [length].
  by rewrite app_nil_l, Nat.add_0_r, take_drop.
Qed.

(** A slice of a slice. *)
Lemma slice_of_slice p n q k l :
  (q + k <= n)%nat -> slice q k (slice p n l) = slice (p + q) k l.
Proof.
  intros. unfold slice. rewrite skipn_firstn_comm, take_take, drop_drop.
  f_equal; lia || (f_equal; lia).
Qed.

(** Inside the written range the new bytes are read back. *)
Lemma lookup_splice_in pos bs l i :
  (pos <= i < pos + length bs)%nat -> splice pos bs l !! i = bs !! (i - pos)%nat.
Proof.
  intros. unfold splice.
  assert (length (take pos (pad_to pos l)) = pos) as Hlen
    by (rewrite length_take, length_pad_to; lia).
  rewrite lookup_app_r, Hlen by lia. by rewrite lookup_app_l by lia.
Qed.

(** Outside it the old ones are. *)
Lemma lookup_splice_out pos bs l i :
  (i < length l)%nat -> (i < pos \/ pos + length bs <= i)%nat ->
  splice pos bs l !! i = l !! i.
Proof.
  intros Hi Hout. unfold splice.
  assert (length (take pos (pad_to pos l)) = pos) as Hlen
    by (rewrite length_take, length_pad_to; lia).
  destruct Hout as [Hlt|Hge].
  - rewrite lookup_app_l by lia. rewrite lookup_take_lt by lia.
    by apply lookup_pad_to_lt.
  - rewrite lookup_app_r by lia. rewrite lookup_app_r by lia.
    rewrite Hlen, lookup_drop.
    replace (pos + length bs + (i - pos - length bs))%nat with i by lia.
    by apply lookup_pad_to_lt.
Qed.

Lemma slice_splice_same pos bs l : slice pos (length bs) (splice pos bs l) = bs.
Proof.
  apply list_eq; intros i. destruct (decide (i < length bs)%nat) as [Hi|Hi].
  - rewrite lookup_slice, lookup_splice_in by lia. f_equal; lia.
  - rewrite !lookup_ge_None_2; [done|lia|].
    pose proof (length_slice pos (length bs) (splice pos bs l)); lia.
Qed.

Lemma slice_splice_disjoint pos bs l p n :
  (p + n <= length l)%nat -> (p + n <= pos \/ pos + length bs <= p)%nat ->
  slice p n (splice pos bs l) = slice p n l.
Proof.
  intros Hlen Hd. apply list_eq; intros i. destruct (decide (i < n)%nat) as [Hi|Hi].
  - rewrite !lookup_slice by done. apply lookup_splice_out; lia.
  - rewrite !lookup_ge_None_2; [done| |];
      pose proof (length_slice p n l);
      pose proof (length_slice p n (splice pos bs l)); lia.
Qed.

(** Writes to disjoint ranges inside the sequence commute. *)
Lemma splice_comm p q xs ys l :
  (p + length xs <= length l)%nat -> (q + length ys <= length l)%nat ->
  (p + length xs <= q \/ q + length ys <= p)%nat ->
  splice p xs (splice q ys l) = splice q ys (splice p xs l).
Proof.
  intros Hp Hq Hd. apply list_eq; intros i.
  destruct (decide (i < length l)%nat) as [Hi|Hi].
  2:{ rewrite !lookup_ge_None_2; [done|..]; rewrite !length_splice; lia. }
  destruct (decide (p <= i < p + length xs)%nat) as [Hin|Hout].
  - rewrite lookup_splice_in, lookup_splice_out, lookup_splice_in;
      rewrite ?length_splice; [done|lia..].
  - rewrite lookup_splice_out by (rewrite ?length_splice; lia).
    destruct (decide (q <= i < q + length ys)%nat) as [Hin'|Hout'].
    + rewrite !lookup_splice_in by lia. done.
    + rewrite !lookup_splice_out by (rewrite ?length_splice; lia). done.
Qed.

(** Writing back the bytes that are already there changes nothing. *)
Lemma splice_slice_id pos n l :
  (pos + n <= length l)%nat -> splice pos (slice pos n l) l = l.
Proof.
  intros Hlen. pose proof (length_slice_exact pos n l Hlen) as Hn.
  unfold splice. rewrite pad_to_id by lia. rewrite Hn. unfold slice.
  rewrite <-(take_drop pos l) at 4. f_equal.
  rewrite <-(take_drop n (drop pos l)) at 2. by rewrite drop_drop.
Qed.

Lemma slice_all l : slice 0 (length l) l = l.
Proof. unfold slice. by rewrite drop_0, firstn_all. Qed.
(** A write inside a window, seen through the window. *)
Lemma slice_of_splice p n q bs l :
  (q + length bs <= n)%nat -> (p + n <= length l)%nat ->
  slice p n (splice (p + q) bs l) = splice q bs (slice p n l).
Proof.
  intros Hq Hn. assert (length (slice p n l) = n) as Hl by (by apply length_slice_exact).
  apply list_eq. intros i. destruct (decide (i < n)%nat) as [Hi|Hi].
  - rewrite lookup_slice by done.
    destruct (decide (q <= i < q + length bs)%nat) as [Hin|Hout].
    + rewrite !lookup_splice_in by lia. f_equal. lia.
    + rewrite lookup_splice_out by lia. rewrite lookup_splice_out by lia.
      by rewrite lookup_slice.
  - rewrite !lookup_ge_None_2; [done|rewrite length_splice; lia|].
    pose proof (length_slice p n (splice (p + q) bs l)). lia.
Qed.
End slices.


Lemma Forall_slice (P : Z -> Prop) pos n l : Forall P l -> Forall P (slice pos n l).
Proof. intros. unfold slice. by apply Forall_take, Forall_drop. Qed.

Lemma Forall_splice (P : Z -> Prop) pos bs l :
  P 0 -> Forall P bs -> Forall P l -> Forall P (splice pos bs l).
Proof.
  intros H0 Hbs Hl. unfold splice, pad_to.
  assert (Forall P (l ++ replicate (pos - length l) 0)) as Hp
    by (apply Forall_app; split; [done|by apply Forall_replicate]).
  apply Forall_app; split; [by apply Forall_take|].
  apply Forall_app; split; [done|by apply Forall_drop].
Qed.

Definition is_byte (b : Z) : Prop := 0 <= b < 256.

Lemma is_byte_0 : is_byte 0.
Proof. by split. Qed.

(** ** Filters that keep everything, or nothing *)

Lemma filter_keeps_all {A} (P : A -> Prop) `{forall x, Decision (P x)} (l : list A) :
  Forall P l -> filter P l = l.
Proof. induction 1 as [|x l Hx _ IH]; [done|]. by rewrite filter_cons_True, IH. Qed.
Lemma filter_keeps_none {A} (P : A -> Prop) `{forall x, Decision (P x)} (l : list A) :
  Forall (fun x => ~ P x) l -> filter P l = [].
Proof. induction 1 as [|x l Hx _ IH]; [done|]. by rewrite filter_cons_False, IH. Qed.
