(* ===== verification/Types.v ===== *)
(** * Constants and data of [include/kes/kes_types.h]

    Return codes, limits, flags, the allocation strategies and the plain
    structs shared by the storage layer.  Unsigned fields are [Z]; the
    operations that compute them write their wrap-around out. *)
From S2P Require Import Prelude.

(** ** Version and return codes *)

Definition KES_VERSION_MAJOR : Z := 2.
Definition KES_VERSION_MINOR : Z := 0.
Definition KES_VERSION_PATCH : Z := 0.

Definition KES_SUCCESS : Z := 0.
Definition KES_ERROR_INVALID : Z := -1.
Definition KES_ERROR_NOMEM : Z := -2.
Definition KES_ERROR_NOTFOUND : Z := -3.
Definition KES_ERROR_EXISTS : Z := -4.
Definition KES_ERROR_IO : Z := -5.
Definition KES_ERROR_NOSPACE : Z := -6.
Definition KES_ERROR_CORRUPT : Z := -7.
Definition KES_ERROR_BUSY : Z := -8.

(** ** Magic number and block sizes *)

Definition KES_MAGIC_NUMBER : Z := 0x4B455353.
Definition KES_DEFAULT_BLOCK_SIZE : Z := 8192.
Definition KES_MIN_BLOCK_SIZE : Z := 4096.
Definition KES_MAX_BLOCK_SIZE : Z := 65536.

(** ** Storage flags *)

Definition KES_STORAGE_READONLY : Z := 0x01.
Definition KES_STORAGE_CREATE : Z := 0x02.
Definition KES_STORAGE_TRUNCATE : Z := 0x04.
Definition KES_STORAGE_SYNC : Z := 0x08.

(** [flags & bit], used as a condition. *)
Definition has_flag (flags bit : Z) : bool := negb (Z.land flags bit =? 0).

(** ** Allocation strategies *)

Inductive kes_allocation_strategy :=
  | KES_ALLOC_FIRST_FIT
  | KES_ALLOC_BEST_FIT
  | KES_ALLOC_WORST_FIT
  | KES_ALLOC_NEXT_FIT.

#[export] Instance kes_allocation_strategy_eq_dec : EqDecision kes_allocation_strategy.
Proof. solve_decision. Defined.

(** ** Structs *)

(** [kes_extent_descriptor_t]. *)
Record kes_extent_descriptor := mkExtent {
  ext_start_block : Z;
  ext_block_count : Z;
  ext_flags : Z;
  ext_extent_id : Z
}.

#[export] Instance kes_extent_descriptor_eq_dec : EqDecision kes_extent_descriptor.
Proof. solve_decision. Defined.

(** [kes_storage_descriptor_t], the on-disk descriptor.  [desc_pad] holds the
    four alignment bytes the LP64 ABI inserts after [block_size]; they belong
    to the 112 bytes that are read and written. *)
Record kes_storage_descriptor := mkDesc {
  desc_magic : Z;
  desc_version_major : Z;
  desc_version_minor : Z;
  desc_block_size : Z;
  desc_pad : Z;
  desc_total_blocks : Z;
  desc_bitmap_start_block : Z;
  desc_bitmap_blocks : Z;
  desc_user_start_block : Z;
  desc_user_blocks : Z;
  desc_free_blocks : Z;
  desc_used_blocks : Z;
  desc_next_extent_id : Z;
  desc_bitmap_checksum : Z;
  desc_reserved : list Z
}.

(** [kes_storage_config_t]; [cfg_device_path] is [None] for a null pointer. *)
Record kes_storage_config := mkConfig {
  cfg_device_path : option string;
  cfg_device_size : Z;
  cfg_block_size : Z;
  cfg_flags : Z;
  cfg_strategy : kes_allocation_strategy
}.

(** [kes_extent_request_t]. *)
Record kes_extent_request := mkRequest {
  req_block_count : Z;
  req_alignment : Z;
  req_hint_block : Z;
  req_flags : Z
}.

(** [kes_storage_stats_t]. *)
Record kes_storage_stats := mkStats {
  st_total_blocks : Z;
  st_free_blocks : Z;
  st_used_blocks : Z;
  st_allocated_extents : Z;
  st_fragmentation : Z;
  st_reads_completed : Z;
  st_writes_completed : Z;
  st_bytes_read : Z;
  st_bytes_written : Z
}.

(** What [calloc] leaves in a struct. *)
Definition zero_desc : kes_storage_descriptor :=
  mkDesc 0 0 0 0 0 0 0 0 0 0 0 0 0 0 (replicate 28 0).
Definition zero_stats : kes_storage_stats := mkStats 0 0 0 0 0 0 0 0 0.

(** ** Utility macros *)

(** [KES_BYTES_TO_BLOCKS] on 64-bit operands; C leaves division by zero
    undefined. *)
Definition KES_BYTES_TO_BLOCKS (bytes block_size : Z) : option Z :=
  if block_size =? 0 then None
  else Some (u64 (u64 (bytes + block_size) - 1) / block_size).

(** [KES_IS_POWER_OF_2] on a 32-bit operand. *)
Definition KES_IS_POWER_OF_2 (x : Z) : bool :=
  negb (x =? 0) && (Z.land x (u32 (x - 1)) =? 0).
