(* ===== verification/Posix.v ===== *)
(** * The operating system the library runs on

    The library's only effects are the C library's and the kernel's: files
    reached through descriptors ([open], [lseek], [read], [write], [fsync],
    [flock], [close]), zeroed allocation and a non-recursive mutex.  This file
    models what the source uses of them, as documented by POSIX: a world of
    files and open file descriptions, in which every call that may fail
    consults a script of faults.  Quantifying over scripts covers every
    combination of failed, short and successful calls.

    The code itself is a tree of system calls: what it does between two calls
    is a function of the answers it got.  Run alone it is a function of the
    world ([run]); the processes of [Interleave] take the calls of several
    trees in turn. *)
From S2P Require Import Prelude.

(** ** Results of a computation *)

(** [Undefined]: the C program has undefined behaviour here (an access out of
    the bounds of an allocation, a division by zero, ...).  [Blocked]: the
    calling thread waits for a lock nobody will release. *)
Inductive res (A : Type) :=
  | Done (a : A)
  | Undefined
  | Blocked.
Arguments Done {A} a.
Arguments Undefined {A}.
Arguments Blocked {A}.

(** One planned outcome of a system call. *)
Inductive fault :=
  | FNone              (* the call succeeds *)
  | FErr               (* the call fails: -1, or NULL for an allocation *)
  | FShort (n : Z).    (* [read]/[write] transfer at most [n] bytes *)

Inductive lock_mode := LOCK_SH | LOCK_EX.
#[export] Instance lock_mode_eq_dec : EqDecision lock_mode.
Proof. solve_decision. Defined.

(** An open file description. *)
Record ofd := mkOfd {
  ofd_path : string;
  ofd_writable : bool;
  ofd_pos : Z;
  ofd_lock : option lock_mode
}.

Record world := mkWorld {
  w_files : gmap string (list Z);
  w_fds : gmap Z ofd;
  w_next_fd : Z;
  w_script : list fault
}.

Definition set_files (fs : gmap string (list Z)) (w : world) : world :=
  mkWorld fs (w_fds w) (w_next_fd w) (w_script w).
Definition set_fds (fds : gmap Z ofd) (w : world) : world :=
  mkWorld (w_files w) fds (w_next_fd w) (w_script w).
Definition set_script (s : list fault) (w : world) : world :=
  mkWorld (w_files w) (w_fds w) (w_next_fd w) s.
Definition set_pos (p : Z) (o : ofd) : ofd :=
  mkOfd (ofd_path o) (ofd_writable o) p (ofd_lock o).
Definition set_lock (l : option lock_mode) (o : ofd) : ofd :=
  mkOfd (ofd_path o) (ofd_writable o) (ofd_pos o) l.

(** ** System calls *)

Record open_flags := mkOpenFlags {
  O_WRITABLE : bool;   (* O_RDWR; [false] is O_RDONLY *)
  O_CREAT : bool;
  O_TRUNC : bool;
  O_SYNC : bool        (* durability only: no effect in this model *)
}.

Inductive syscall :=
  | Calloc (n : Z)
  | Mutex_init
  | Open (path : string) (fl : open_flags)
  | Close (fd : Z)
  | Lseek (fd off : Z)             (* SEEK_SET, with a signed offset *)
  | Read (fd n : Z)
  | Write (fd : Z) (bs : list Z)
  | Fsync (fd : Z)
  | Flock (fd : Z) (m : lock_mode)
  | Flock_un (fd : Z).

(** What a call returns: [None] is a null pointer, [read] also delivers the
    bytes placed at the start of the buffer. *)
Definition answer (c : syscall) : Type :=
  match c with
  | Calloc _ => option (list Z)
  | Read _ _ => Z * list Z
  | Close _ | Flock_un _ => ()
  | _ => Z
  end.

(** Calls whose result is never looked at do not fail. *)
Definition may_fail (c : syscall) : bool :=
  match c with Close _ | Flock_un _ => false | _ => true end.

(** [calloc(n, 1)]. *)
Definition do_calloc (n : Z) (f : fault) : option (list Z) :=
  match f with FErr => None | _ => Some (replicate (Z.to_nat n) 0) end.

(** [pthread_mutex_init]: zero on success. *)
Definition do_mutex_init (f : fault) : Z := match f with FErr => 12 | _ => 0 end.

(** [open]: a fresh descriptor, or -1. *)
Definition do_open (path : string) (fl : open_flags) (f : fault) (w : world) : Z * world :=
  let fd := w_next_fd w in
  let opened fs :=
    (fd, mkWorld fs (<[fd := mkOfd path (O_WRITABLE fl) 0 None]> (w_fds w)) (fd + 1) (w_script w)) in
  match f, w_files w !! path with
  | FErr, _ => (-1, w)
  | _, None => if O_CREAT fl then opened (<[path := []]> (w_files w)) else (-1, w)
  | _, Some data => opened (if O_TRUNC fl then <[path := []]> (w_files w) else w_files w)
  end.

(** [close]: frees the descriptor and with it the description's lock. *)
Definition do_close (fd : Z) (w : world) : world := set_fds (delete fd (w_fds w)) w.

Definition do_lseek (fd off : Z) (f : fault) (w : world) : Z * world :=
  match f, w_fds w !! fd with
  | FErr, _ | _, None => (-1, w)
  | _, Some o =>
      if off <? 0 then (-1, w) else (off, set_fds (<[fd := set_pos off o]> (w_fds w)) w)
  end.

(** How many bytes the planned fault lets through. *)
Definition limit (f : fault) (n : Z) : Z :=
  match f with FShort k => Z.min n (Z.max 0 k) | _ => n end.

Definition do_read (fd n : Z) (f : fault) (w : world) : (Z * list Z) * world :=
  match f, w_fds w !! fd with
  | FErr, _ | _, None => ((-1, []), w)
  | _, Some o =>
      let data := default [] (w_files w !! ofd_path o) in
      let bs := slice (Z.to_nat (ofd_pos o)) (Z.to_nat (limit f n)) data in
      let k := Z.of_nat (length bs) in
      ((k, bs), set_fds (<[fd := set_pos (ofd_pos o + k) o]> (w_fds w)) w)
  end.

(** [write(fd, bs, length bs)]. *)
Definition do_write (fd : Z) (bs : list Z) (f : fault) (w : world) : Z * world :=
  match f, w_fds w !! fd with
  | FErr, _ | _, None => (-1, w)
  | _, Some o =>
      if negb (ofd_writable o) then (-1, w)
      else
        let bs' := take (Z.to_nat (limit f (Z.of_nat (length bs)))) bs in
        let k := Z.of_nat (length bs') in
        let data := default [] (w_files w !! ofd_path o) in
        (k, mkWorld
          (if k =? 0 then w_files w
           else <[ofd_path o := splice (Z.to_nat (ofd_pos o)) bs' data]> (w_files w))
          (<[fd := set_pos (ofd_pos o + k) o]> (w_fds w)) (w_next_fd w) (w_script w))
  end.

Definition do_fsync (f : fault) : Z := match f with FErr => -1 | _ => 0 end.

(** Whether another description of the same file holds a lock that excludes
    [m]. *)
Definition lock_conflict (w : world) (fd : Z) (o : ofd) (m : lock_mode) : Prop :=
  map_Exists (fun fd' o' => fd' ≠ fd /\ ofd_path o' = ofd_path o /\
                (ofd_lock o' = Some LOCK_EX \/ (m = LOCK_EX /\ ofd_lock o' = Some LOCK_SH)))
    (w_fds w).
#[export] Instance lock_conflict_dec w fd o m : Decision (lock_conflict w fd o m).
Proof. apply _. Defined.

(** [flock(fd, LOCK_SH)] / [flock(fd, LOCK_EX)]: [None] while another
    description holds an incompatible lock. *)
Definition do_flock (fd : Z) (m : lock_mode) (f : fault) (w : world) : option (Z * world) :=
  match f, w_fds w !! fd with
  | FErr, _ | _, None => Some (-1, w)
  | _, Some o =>
      if decide (lock_conflict w fd o m) then None
      else Some (0, set_fds (<[fd := set_lock (Some m) o]> (w_fds w)) w)
  end.

(** [flock(fd, LOCK_UN)]; its result is never looked at. *)
Definition do_flock_un (fd : Z) (w : world) : world :=
  match w_fds w !! fd with
  | None => w
  | Some o => set_fds (<[fd := set_lock None o]> (w_fds w)) w
  end.

(** One system call under a fault; [None]: the caller has to wait. *)
Definition perform (c : syscall) (f : fault) (w : world) : option (answer c * world) :=
  match c with
  | Calloc n => Some (do_calloc n f, w)
  | Mutex_init => Some (do_mutex_init f, w)
  | Open path fl => Some (do_open path fl f w)
  | Close fd => Some (tt, do_close fd w)
  | Lseek fd off => Some (do_lseek fd off f w)
  | Read fd n => Some (do_read fd n f w)
  | Write fd bs => Some (do_write fd bs f w)
  | Fsync _ => Some (do_fsync f, w)
  | Flock fd m => do_flock fd m f w
  | Flock_un fd => Some (tt, do_flock_un fd w)
  end.

(** ** The monad of the code: trees of system calls *)

(** [Stuck]: undefined behaviour.  [Hang]: the mutex is already held, so that
    locking it never returns in a sequential run. *)
Inductive M (A : Type) : Type :=
  | Ret (a : A)
  | Sys (c : syscall) (k : answer c -> M A)
  | Stuck
  | Hang.
Arguments Ret {A} a.
Arguments Sys {A} c k.
Arguments Stuck {A}.
Arguments Hang {A}.

Definition ret {A} (a : A) : M A := Ret a.
Fixpoint bind {A B} (m : M A) (k : A -> M B) {struct m} : M B :=
  match m with
  | Ret a => k a
  | Sys c j => Sys c (fun b => bind (j b) k)
  | Stuck => Stuck
  | Hang => Hang
  end.
Definition undefined {A} : M A := Stuck.
Definition blocked {A} : M A := Hang.

(** Memory operations that may be undefined are [option]s; they do not touch
    the world. *)
Definition lift {A} (o : option A) : M A :=
  match o with Some a => ret a | None => undefined end.

Declare Scope kes_scope.
Delimit Scope kes_scope with kes.
Notation "'let*' x ':=' m 'in' k" := (bind m (fun x => k))
  (at level 10, x pattern, m at level 100, k at level 200,
   format "'[v' 'let*'  x  ':='  m  'in' '/' k ']'") : kes_scope.
Notation "m ';;;' k" := (bind m (fun _ => k))
  (at level 100, right associativity, format "'[v' m ';;;' '/' k ']'") : kes_scope.
Global Open Scope kes_scope.

Definition syscall_tree (c : syscall) : M (answer c) := Sys c Ret.

Definition calloc (n : Z) : M (option (list Z)) := syscall_tree (Calloc n).
Definition pthread_mutex_init : M Z := syscall_tree Mutex_init.
Definition pthread_mutex_lock (held : bool) : M bool :=
  if held then blocked else ret true.
Definition pthread_mutex_unlock (held : bool) : M bool := ret false.
Definition sys_open (path : string) (fl : open_flags) : M Z := syscall_tree (Open path fl).
Definition sys_close (fd : Z) : M () := syscall_tree (Close fd).
Definition lseek (fd off : Z) : M Z := syscall_tree (Lseek fd off).
Definition sys_read (fd n : Z) : M (Z * list Z) := syscall_tree (Read fd n).
Definition sys_write (fd : Z) (bs : list Z) : M Z := syscall_tree (Write fd bs).
Definition fsync (fd : Z) : M Z := syscall_tree (Fsync fd).
Definition flock (fd : Z) (m : lock_mode) : M Z := syscall_tree (Flock fd m).
Definition flock_un (fd : Z) : M () := syscall_tree (Flock_un fd).

(** ** A program alone with the world *)

(** The fault planned for the next call: the script holds one per call that
    may fail, and calls past its end succeed. *)
Definition draw (c : syscall) (w : world) : fault * world :=
  match may_fail c, w_script w with
  | true, f :: s => (f, set_script s w)
  | _, _ => (FNone, w)
  end.

Fixpoint run {A} (m : M A) (w : world) : res (A * world) :=
  match m with
  | Ret a => Done (a, w)
  | Sys c k =>
      let '(f, w') := draw c w in
      match perform c f w' with
      | Some (b, w'') => run (k b) w''
      | None => Blocked
      end
  | Stuck => Undefined
  | Hang => Blocked
  end.
Coercion run : M >-> Funclass.
