(* ===== verification/PosixFacts.v ===== *)
(** * Reasoning about computations over the world

    A total-correctness weakest precondition for the monad of [Posix], and one
    rule per system call (or idiomatic sequence of calls) of the source, for
    any script of faults. *)
From S2P Require Import Prelude Posix.

(** ** Weakest preconditions *)

(** The computation returns (no undefined behaviour, no endless wait) and its
    result satisfies [Q]. *)
Definition wp {A} (m : M A) (w : world) (Q : A -> world -> Prop) : Prop :=
  match run m w with Done (a, w') => Q a w' | Undefined | Blocked => False end.

Lemma wp_ret {A} (a : A) w (Q : A -> world -> Prop) : Q a w -> wp (ret a) w Q.
Proof. done. Qed.

Lemma run_seq {A B} (m : M A) (k : A -> M B) w :
  run (bind m k) w =
  match run m w with
  | Done (a, w') => run (k a) w'
  | Undefined => Undefined
  | Blocked => Blocked
  end.
Proof.
  revert w. induction m as [a|c j IH| |]; intros w; cbn; [done| |done|done].
  destruct (draw c w) as [f w1]. destruct (perform c f w1) as [[b w2]|]; [apply IH|done].
Qed.

Lemma wp_bind {A B} (m : M A) (k : A -> M B) w Q :
  wp m w (fun a w' => wp (k a) w' Q) -> wp (bind m k) w Q.
Proof. unfold wp. rewrite run_seq. by destruct (run m w) as [[a w']| |]. Qed.

Lemma wp_mono {A} (m : M A) w (P Q : A -> world -> Prop) :
  wp m w P -> (forall a w', P a w' -> Q a w') -> wp m w Q.
Proof. unfold wp. destruct (run m w) as [[a w']| |]; auto. Qed.

Lemma wp_lift {A} (o : option A) (a : A) w (Q : A -> world -> Prop) :
  o = Some a -> Q a w -> wp (lift o) w Q.
Proof. by intros ->. Qed.

(** A computation that satisfies a precondition does produce a result. *)
Lemma wp_done {A} (m : M A) w Q : wp m w Q -> exists a w', m w = Done (a, w') /\ Q a w'.
Proof. unfold wp. destruct (run m w) as [[a w']| |]; naive_solver. Qed.

Lemma wp_elim {A} (m : M A) w Q a w' : wp m w Q -> m w = Done (a, w') -> Q a w'.
Proof. unfold wp. intros H E. by rewrite E in H. Qed.

Ltac wp_bind := apply wp_bind.
Ltac wp_ret := apply wp_ret.

(** ** What a call may change *)

(** The part of an open file description that outlives a call: everything but
    its position. *)
Abbreviation attrs := (gmap Z (string * bool * option lock_mode)).
Definition ofd_attr (o : ofd) : string * bool * option lock_mode :=
  (ofd_path o, ofd_writable o, ofd_lock o).
Definition fd_attrs (w : world) : attrs := ofd_attr <$> w_fds w.

(** Descriptor numbers are non-negative and handed out in increasing order. *)
Definition world_ok (w : world) : Prop :=
  0 <= w_next_fd w /\
  forall fd a, fd_attrs w !! fd = Some a -> 0 <= fd < w_next_fd w.

Lemma world_ok_same w w' :
  fd_attrs w' = fd_attrs w -> w_next_fd w' = w_next_fd w -> world_ok w -> world_ok w'.
Proof. unfold world_ok. by intros -> ->. Qed.

(** No fault is planned. *)
Definition quiet (w : world) : Prop := w_script w = [].

(** [w'] comes after [w], with files [fs] and descriptors [at']. *)
Record evolves (w w' : world) (fs : gmap string (list Z)) (at' : attrs) : Prop := {
  ev_files : w_files w' = fs;
  ev_attrs : fd_attrs w' = at';
  ev_ok : world_ok w -> world_ok w';
  ev_quiet : quiet w -> quiet w'
}.

(** Nothing but positions changed. *)
Abbreviation same_world w w' := (evolves w w' (w_files w) (fd_attrs w)).

Lemma evolves_refl w : same_world w w.
Proof. by split. Qed.

Lemma evolves_trans w w1 w2 fs1 at1 fs2 at2 :
  evolves w w1 fs1 at1 -> evolves w1 w2 fs2 at2 -> evolves w w2 fs2 at2.
Proof. intros [? ? ? ?] [? ? ? ?]. split; auto. Qed.

(** Reading through a [same_world]. *)
Lemma same_world_trans w w1 w2 fs at2 :
  same_world w w1 -> evolves w1 w2 fs at2 -> evolves w w2 fs at2.
Proof. apply evolves_trans. Qed.

Lemma noisy_back w w' fs at' : evolves w w' fs at' -> ~ quiet w' -> ~ quiet w.
Proof. intros [? ? ? Hq]. auto. Qed.

Create HintDb posix discriminated.
#[export] Hint Resolve evolves_refl evolves_trans noisy_back : posix.

Lemma fd_attrs_lookup w fd a :
  fd_attrs w !! fd = Some a ->
  exists pos, w_fds w !! fd = Some (mkOfd a.1.1 a.1.2 pos a.2).
Proof.
  unfold fd_attrs. rewrite lookup_fmap. intros (o & Ho & ->)%fmap_Some_1.
  exists (ofd_pos o). rewrite Ho. by destruct o.
Qed.

Lemma fd_attrs_set_pos w fd o p :
  w_fds w !! fd = Some o ->
  ofd_attr <$> (<[fd := set_pos p o]> (w_fds w)) = fd_attrs w.
Proof.
  intros Ho. rewrite fmap_insert. change (ofd_attr (set_pos p o)) with (ofd_attr o).
  unfold fd_attrs. apply insert_id. by rewrite lookup_fmap, Ho.
Qed.

(** ** Rules *)

Lemma draw_spec c w :
  exists f w', draw c w = (f, w') /\
    same_world w w' /\ w_fds w' = w_fds w /\ (quiet w -> f = FNone).
Proof.
  unfold draw. destruct (may_fail c), (w_script w) as [|f s] eqn:E;
    eexists _, _; (split; [reflexivity|]); try by split_and!; auto with posix.
  split_and!; [|done|unfold quiet; congruence].
  split; [done..|by apply world_ok_same|]. unfold quiet. congruence.
Qed.

(** A system call, whatever its fault. *)
Lemma wp_sys c w (Q : answer c -> world -> Prop) :
  (forall w' f, same_world w w' -> w_fds w' = w_fds w -> (quiet w -> f = FNone) ->
     match perform c f w' with Some (b, w'') => Q b w'' | None => False end) ->
  wp (syscall_tree c) w Q.
Proof.
  unfold wp, syscall_tree. intros H. cbn.
  destruct (draw_spec c w) as (f & w' & -> & Hw & Hfds & Hq).
  specialize (H w' f Hw Hfds Hq). by destruct (perform c f w') as [[b w'']|].
Qed.

Lemma wp_calloc n w (Q : option (list Z) -> world -> Prop) :
  (forall w', same_world w w' -> Q (Some (replicate (Z.to_nat n) 0)) w') ->
  (forall w', same_world w w' -> ~ quiet w -> Q None w') ->
  wp (calloc n) w Q.
Proof.
  intros Hok Hno. apply (wp_sys (Calloc n)). intros w' [] Hw _ Hq; cbn; auto.
  apply Hno; [done|]. intros Hquiet. by specialize (Hq Hquiet).
Qed.

Lemma wp_mutex_init w (Q : Z -> world -> Prop) :
  (forall w', same_world w w' -> Q 0 w') ->
  (forall w', same_world w w' -> ~ quiet w -> Q 12 w') ->
  wp pthread_mutex_init w Q.
Proof.
  intros Hok Hno. apply (wp_sys (Mutex_init)). intros w' [] Hw _ Hq; cbn; auto.
  apply Hno; [done|]. intros Hquiet. by specialize (Hq Hquiet).
Qed.

Lemma wp_fsync fd w (Q : Z -> world -> Prop) :
  (forall w', same_world w w' -> Q 0 w') ->
  (forall w', same_world w w' -> ~ quiet w -> Q (-1) w') ->
  wp (fsync fd) w Q.
Proof.
  intros Hok Hno. apply (wp_sys (Fsync fd)). intros w' [] Hw _ Hq; cbn; auto.
  apply Hno; [done|]. intros Hquiet. by specialize (Hq Hquiet).
Qed.

(** [lseek] to a non-negative offset. *)
Lemma wp_lseek fd off w a (Q : Z -> world -> Prop) :
  fd_attrs w !! fd = Some a -> 0 <= off ->
  (forall w', same_world w w' -> w_fds w' !! fd = Some (mkOfd a.1.1 a.1.2 off a.2) ->
     Q off w') ->
  (forall w', same_world w w' -> ~ quiet w -> Q (-1) w') ->
  wp (lseek fd off) w Q.
Proof.
  intros Ha Hoff Hok Hno. apply (wp_sys (Lseek fd off)). intros w' f Hw Hfds Hq. cbn. unfold do_lseek.
  destruct (fd_attrs_lookup _ _ _ Ha) as [pos Hpos]. rewrite <-Hfds in Hpos.
  assert (f ≠ FErr -> Q off (set_fds (<[fd := mkOfd a.1.1 a.1.2 off a.2]> (w_fds w')) w')) as Hgo.
  { intros _. apply Hok.
    - destruct Hw as [H1 H2 H3 H4]. pose proof (fd_attrs_set_pos _ _ _ off Hpos) as Hs.
      split; [done|by rewrite <-H2|intros Hok0; by apply (world_ok_same w'); auto|done].
    - cbn. by rewrite lookup_insert_eq. }
  rewrite Hpos. destruct (Z.ltb_spec off 0); [lia|].
  destruct f; try (by apply Hgo).
  apply Hno; [done|]. intros Hquiet. by specialize (Hq Hquiet).
Qed.

(** [lseek] to a negative offset always fails. *)
Lemma wp_lseek_neg fd off w (Q : Z -> world -> Prop) :
  off < 0 -> (forall w', same_world w w' -> Q (-1) w') -> wp (lseek fd off) w Q.
Proof.
  intros Hoff HQ. apply (wp_sys (Lseek fd off)). intros w' f Hw _ _. cbn. unfold do_lseek.
  destruct (Z.ltb_spec off 0); [|lia]. destruct f, (w_fds w' !! fd); by apply HQ.
Qed.

Lemma limit_range f n : 0 <= n -> 0 <= limit f n <= n.
Proof. destruct f; simpl; lia. Qed.

(** [read] from wherever the position is. *)
Lemma wp_read_any fd n w a f (Q : Z * list Z -> world -> Prop) :
  fd_attrs w !! fd = Some a -> w_files w !! a.1.1 = Some f -> 0 <= n ->
  (forall w' k bs, same_world w w' ->
     (k = -1 /\ bs = []) \/
     (exists p m, 0 <= m <= n /\ bs = slice p (Z.to_nat m) f /\ k = Z.of_nat (length bs)) ->
     Q (k, bs) w') ->
  wp (sys_read fd n) w Q.
Proof.
  intros Ha Hf Hn HQ. apply (wp_sys (Read fd n)). intros w1 fl Hw Hfds _. cbn. unfold do_read.
  destruct (fd_attrs_lookup _ _ _ Ha) as [pos Hpos].
  rewrite Hfds, Hpos. cbn [ofd_path ofd_pos].
  assert (let bs := slice (Z.to_nat pos) (Z.to_nat (limit fl n)) (default [] (w_files w1 !! a.1.1)) in
    Q (Z.of_nat (length bs), bs)
      (set_fds (<[fd := set_pos (pos + Z.of_nat (length bs)) (mkOfd a.1.1 a.1.2 pos a.2)]> (w_fds w)) w1))
    as Hgo.
  { cbv zeta. pose proof Hw as [H1 H2 H3 H4].
    rewrite H1, Hf. cbn [default]. apply HQ.
    - pose proof (fd_attrs_set_pos w fd _
        (pos + Z.of_nat (length (slice (Z.to_nat pos) (Z.to_nat (limit fl n)) f))) Hpos) as Hs.
      split; [done|done|intros Hok0; apply (world_ok_same w1); [by rewrite H2|done|auto]|done].
    - right. pose proof (limit_range fl n Hn).
      by exists (Z.to_nat pos), (limit fl n). }
  destruct fl; try exact Hgo. apply HQ; [done|by left].
Qed.

(** The outcome of reading [n] bytes at [off] of a file with content [f]. *)
Definition read_outcome (noisy : Prop) (f : list Z) (off n k : Z) (bs : list Z) : Prop :=
  (k = -1 /\ bs = [] /\ noisy) \/
  exists m, 0 <= m <= n /\ bs = slice (Z.to_nat off) (Z.to_nat m) f /\
            k = Z.of_nat (length bs) /\ (m < n -> noisy).

Lemma limit_quiet (P : Prop) f n : (P -> f = FNone) -> limit f n < n -> ~ P.
Proof. intros H Hlt HP. rewrite (H HP) in Hlt. simpl in Hlt. lia. Qed.

(** Seek, give up if that fails, then read: the shape of every load. *)
Lemma wp_seek_read {A} fd off n w a f (K1 : M A) (K2 : Z * list Z -> M A) Q :
  fd_attrs w !! fd = Some a -> w_files w !! a.1.1 = Some f -> 0 <= off -> 0 <= n ->
  (forall w', same_world w w' -> ~ quiet w -> wp K1 w' Q) ->
  (forall w' k bs, same_world w w' -> read_outcome (~ quiet w) f off n k bs ->
     wp (K2 (k, bs)) w' Q) ->
  wp (let* o := lseek fd off in if negb (o =? off) then K1 else bind (sys_read fd n) K2) w Q.
Proof.
  intros Ha Hf Hoff Hn Hno Hok. wp_bind. eapply wp_lseek; [done|done| |].
  2:{ intros w' Hw Hq. destruct (Z.eqb_spec (-1) off); [lia|]. by apply Hno. }
  intros w1 Hw1 Hfd. rewrite Z.eqb_refl. cbn [negb]. wp_bind.
  apply (wp_sys (Read fd n)). intros w2 fl Hw2 Hfds Hq. cbn. unfold do_read.
  assert (quiet w -> fl = FNone) as Hq' by (intros; apply Hq; by eapply ev_quiet).
  assert (same_world w w2) as Hww.
  { eapply evolves_trans; [exact Hw1|]. destruct Hw1 as [<- <- _ _]. exact Hw2. }
  rewrite Hfds, Hfd.
  assert (w_files w2 !! a.1.1 = Some f) as Hf2 by (by destruct Hww as [-> _ _ _]).
  assert (let bs := slice (Z.to_nat off) (Z.to_nat (limit fl n)) (default [] (w_files w2 !! a.1.1)) in
    wp (K2 (Z.of_nat (length bs), bs))
      (set_fds (<[fd := set_pos (off + Z.of_nat (length bs)) (mkOfd a.1.1 a.1.2 off a.2)]> (w_fds w1)) w2) Q)
    as Hgo.
  { rewrite Hf2. cbv zeta. cbn [default]. apply Hok.
    - destruct Hww as [H1 H2 H3 H4]. rewrite <-Hfds in Hfd |- *.
      pose proof (fd_attrs_set_pos _ _ _
        (off + Z.of_nat (length (slice (Z.to_nat off) (Z.to_nat (limit fl n)) f))) Hfd) as Hs.
      split; [done|by rewrite <-H2|intros Hok0; by apply (world_ok_same w2); auto|done].
    - right. exists (limit fl n). split_and!; [apply limit_range; lia..|done|done|].
      intros Hlt. by eapply limit_quiet. }
  destruct fl; try exact Hgo. apply Hok; [done|]. left.
  split_and!; [done|done|]. intros Hquiet. by specialize (Hq' Hquiet).
Qed.

(** The outcome of writing [bs] at [off] over a file with content [f]: what was
    transferred is a prefix of [bs]. *)
Definition write_outcome (noisy : Prop) (f : list Z) (off : Z) (bs : list Z) (k : Z)
    (f' : list Z) : Prop :=
  (k < Z.of_nat (length bs) /\ noisy /\ f' = f) \/
  exists m, 0 <= m <= Z.of_nat (length bs) /\ k = m /\
            f' = splice (Z.to_nat off) (take (Z.to_nat m) bs) f /\
            (m < Z.of_nat (length bs) -> noisy).

(** Seek, give up if that fails, then write: the shape of every save. *)
Lemma wp_seek_write {A} fd off bs w path lk f (K1 : M A) (K2 : Z -> M A) Q :
  fd_attrs w !! fd = Some (path, true, lk) -> w_files w !! path = Some f -> 0 <= off ->
  (bs = [] -> off <= Z.of_nat (length f)) ->
  (forall w', same_world w w' -> ~ quiet w -> wp K1 w' Q) ->
  (forall w' k f', evolves w w' (<[path := f']> (w_files w)) (fd_attrs w) ->
     write_outcome (~ quiet w) f off bs k f' -> wp (K2 k) w' Q) ->
  wp (let* o := lseek fd off in if negb (o =? off) then K1 else bind (sys_write fd bs) K2) w Q.
Proof.
  intros Ha Hf Hoff Hbs Hno Hok. wp_bind. eapply wp_lseek; [done|done| |].
  2:{ intros w' Hw Hq. destruct (Z.eqb_spec (-1) off); [lia|]. by apply Hno. }
  intros w1 Hw1 Hfd. rewrite Z.eqb_refl. cbn [negb]. wp_bind.
  apply (wp_sys (Write fd bs)). intros w2 fl Hw2 Hfds Hq. cbn. unfold do_write.
  assert (quiet w -> fl = FNone) as Hq' by (intros; apply Hq; by eapply ev_quiet).
  assert (same_world w w2) as Hww.
  { eapply evolves_trans; [exact Hw1|]. destruct Hw1 as [<- <- _ _]. exact Hw2. }
  rewrite Hfds, Hfd. cbn in Hfd |- *.
  assert (w_files w2 !! path = Some f) as Hf2 by (by destruct Hww as [-> _ _ _]).
  pose proof (limit_range fl (Z.of_nat (length bs)) ltac:(lia)) as Hlim.
  set (bs' := take (Z.to_nat (limit fl (Z.of_nat (length bs)))) bs).
  assert (Z.of_nat (length bs') = limit fl (Z.of_nat (length bs))) as Hbs'.
  { unfold bs'. rewrite length_take. lia. }
  assert (forall f', evolves w
      (mkWorld (<[path := f']> (w_files w2))
         (<[fd := mkOfd path true (off + Z.of_nat (length bs')) lk]> (w_fds w1))
         (w_next_fd w2) (w_script w2)) (<[path := f']> (w_files w)) (fd_attrs w)) as Hev.
  { intros f'. destruct Hww as [H1 H2 H3 H4]. rewrite <-Hfds in Hfd |- *.
    pose proof (fd_attrs_set_pos _ _ _ (off + Z.of_nat (length bs')) Hfd) as Hs.
    split; [cbn; congruence|by rewrite <-H2|intros Hok0; apply (world_ok_same w2); auto|done]. }
  assert (wp (K2 (Z.of_nat (length bs')))
    (mkWorld
      (if Z.of_nat (length bs') =? 0 then w_files w2
       else <[path := splice (Z.to_nat off) bs' (default [] (w_files w2 !! path))]> (w_files w2))
      (<[fd := mkOfd path true (off + Z.of_nat (length bs')) lk]> (w_fds w1))
      (w_next_fd w2) (w_script w2)) Q) as Hgo.
  { rewrite Hf2. cbn [default].
    destruct (Z.eqb_spec (Z.of_nat (length bs')) 0) as [Hz|Hnz].
    - rewrite <-(insert_id (w_files w2) path f) by done.
      apply (Hok _ _ f); [apply Hev|]. destruct (decide (bs = [])) as [->|Hne].
      + right. exists 0. rewrite take_0, splice_nil by (specialize (Hbs eq_refl); lia).
        split_and!; [done..|cbn; lia].
      + assert (1 <= Z.of_nat (length bs)) by (destruct bs; [done|cbn; lia]).
        left. split_and!; [lia| |done].
        apply (limit_quiet _ fl (Z.of_nat (length bs)) Hq'). lia.
    - eapply Hok; [apply Hev|]. right. exists (limit fl (Z.of_nat (length bs))).
      split_and!; [lia|lia|done|done|]. intros Hlt. by eapply limit_quiet. }
  destruct fl; try exact Hgo. apply (Hok _ _ f).
  - rewrite insert_id; [done|]. by destruct Hww as [<- _ _ _].
  - left. split_and!; [lia| |done]. intros Hquiet. by specialize (Hq' Hquiet).
Qed.

(** No other description of [path] holds a lock: what every critical section
    finds and restores. *)
Definition unlocked_elsewhere (w : world) (fd : Z) (path : string) : Prop :=
  forall fd' a, fd' ≠ fd -> fd_attrs w !! fd' = Some a -> a.1.1 = path -> a.2 = None.

Lemma no_lock_conflict w fd o m :
  unlocked_elsewhere w fd (ofd_path o) -> ~ lock_conflict w fd o m.
Proof.
  intros Hfree (fd' & o' & Ho' & Hne & Hp & Hl).
  assert (ofd_lock o' = None) as Hn.
  { apply (Hfree fd' (ofd_attr o')); [done| |done]. unfold fd_attrs.
    by rewrite lookup_fmap, Ho'. }
  rewrite Hn in Hl. by destruct Hl as [?|[_ ?]].
Qed.

Lemma wp_flock fd m w path wr lk (Q : Z -> world -> Prop) :
  fd_attrs w !! fd = Some (path, wr, lk) -> unlocked_elsewhere w fd path ->
  (forall w', evolves w w' (w_files w) (<[fd := (path, wr, Some m)]> (fd_attrs w)) ->
     Q 0 w') ->
  (forall w', same_world w w' -> ~ quiet w -> Q (-1) w') ->
  wp (flock fd m) w Q.
Proof.
  intros Ha Hfree Hok Hno. apply (wp_sys (Flock fd m)). intros w' f Hw Hfds Hq. cbn. unfold do_flock.
  destruct (fd_attrs_lookup _ _ _ Ha) as [pos Hpos]. rewrite <-Hfds in Hpos. cbn in Hpos. rewrite Hpos.
  rewrite decide_False.
  2:{ apply no_lock_conflict. destruct Hw as [_ H2 _ _]. cbn. unfold unlocked_elsewhere. by rewrite H2. }
  assert (Q 0 (set_fds (<[fd := mkOfd path wr pos (Some m)]> (w_fds w')) w')) as Hgo.
  { destruct Hw as [H1 H2 H3 H4]. apply Hok. split.
    - done.
    - unfold fd_attrs. cbn. rewrite fmap_insert. fold (fd_attrs w'). by rewrite H2.
    - intros [Hn Hr]%H3. split; [done|]. intros fd' a. unfold fd_attrs. cbn.
      rewrite fmap_insert. destruct (decide (fd = fd')) as [<-|Hne].
      + intros _. apply (Hr fd (path, wr, lk)). by rewrite H2.
      + rewrite lookup_insert_ne by done. apply Hr.
    - done. }
  destruct f; try exact Hgo. apply Hno; [done|]. intros Hquiet. by specialize (Hq Hquiet).
Qed.

Lemma wp_flock_un fd w path wr lk (Q : () -> world -> Prop) :
  fd_attrs w !! fd = Some (path, wr, lk) ->
  (forall w', evolves w w' (w_files w) (<[fd := (path, wr, None)]> (fd_attrs w)) -> Q tt w') ->
  wp (flock_un fd) w Q.
Proof.
  intros Ha Hok. unfold wp, flock_un, syscall_tree. cbn. unfold do_flock_un.
  destruct (fd_attrs_lookup _ _ _ Ha) as [pos Hpos]. cbn in Hpos. rewrite Hpos.
  apply Hok. split; [done| | |done].
  - unfold fd_attrs. cbn. by rewrite fmap_insert.
  - intros [Hn Hr]. split; [done|]. intros fd' a. unfold fd_attrs. cbn.
    rewrite fmap_insert. destruct (decide (fd = fd')) as [<-|Hne].
    + intros _. apply (Hr fd _ Ha).
    + rewrite lookup_insert_ne by done. apply Hr.
Qed.

Lemma do_close_evolves fd w :
  evolves w (do_close fd w) (w_files w) (delete fd (fd_attrs w)).
Proof.
  split; [done| | |done].
  - unfold fd_attrs. cbn. apply fmap_delete.
  - intros [Hn Hr]. split; [done|]. intros fd' a. unfold fd_attrs. cbn.
    rewrite fmap_delete, lookup_delete_Some. intros [_ Ha]. by eapply Hr.
Qed.

Lemma wp_close fd w (Q : () -> world -> Prop) :
  (forall w', evolves w w' (w_files w) (delete fd (fd_attrs w)) -> Q tt w') ->
  wp (sys_close fd) w Q.
Proof. intros Hok. apply Hok, do_close_evolves. Qed.

(** The files after a successful [open]. *)
Definition opened_files (path : string) (fl : open_flags) (fs : gmap string (list Z))
    : gmap string (list Z) :=
  match fs !! path with
  | None => <[path := []]> fs
  | Some _ => if O_TRUNC fl then <[path := []]> fs else fs
  end.

Lemma wp_open path fl w (Q : Z -> world -> Prop) :
  world_ok w ->
  (forall w' fd, 0 <= fd -> fd_attrs w !! fd = None ->
     evolves w w' (opened_files path fl (w_files w))
       (<[fd := (path, O_WRITABLE fl, None)]> (fd_attrs w)) ->
     (is_Some (w_files w !! path) \/ O_CREAT fl = true) -> Q fd w') ->
  (forall w', same_world w w' ->
     (quiet w -> w_files w !! path = None /\ O_CREAT fl = false) -> Q (-1) w') ->
  wp (sys_open path fl) w Q.
Proof.
  intros Hwok Hok Hno. apply (wp_sys (Open path fl)). intros w' f Hw Hfds Hq. cbn. unfold do_open.
  pose proof Hw as [H1 H2 H3 H4]. rewrite H1.
  destruct (H3 Hwok) as [Hn Hr].
  assert (fd_attrs w !! w_next_fd w' = None) as Hfresh.
  { destruct (fd_attrs w !! w_next_fd w') as [a|] eqn:E; [|done].
    rewrite <-H2 in E. specialize (Hr _ _ E). lia. }
  assert (forall fs, evolves w
     (mkWorld fs (<[w_next_fd w' := mkOfd path (O_WRITABLE fl) 0 None]> (w_fds w'))
        (w_next_fd w' + 1) (w_script w')) fs
     (<[w_next_fd w' := (path, O_WRITABLE fl, None)]> (fd_attrs w))) as Hev.
  { intros fs. split; [done| | |done].
    - unfold fd_attrs. cbn. rewrite fmap_insert. fold (fd_attrs w'). by rewrite H2.
    - intros _. split; [cbn; lia|]. intros fd' a. unfold fd_attrs. cbn.
      rewrite fmap_insert. fold (fd_attrs w'). rewrite lookup_insert_Some.
      intros [[<- _]|[_ Ha]]; [lia|]. specialize (Hr _ _ Ha). lia. }
  pose proof (Hok _ _ Hn Hfresh (Hev _)) as Hgo. clear Hok. unfold opened_files in Hgo.
  destruct f; destruct (w_files w !! path) as [data|] eqn:Ep;
    try (apply Hno; [done|]; intros Hquiet; by specialize (Hq Hquiet));
    try (apply Hgo; eauto);
    (destruct (O_CREAT fl) eqn:Ec; [apply Hgo; eauto|by apply Hno]).
Qed.
