(* ===== verification/Crc.v ===== *)
(** * The checksum interface

    [kfl_crc32c] comes from the separate [kanek_foundations] library
    ([crc32c.h]); it is not part of this repository, so it is a parameter of
    the model.  All the storage layer relies on is that it is a function of
    its seed and of the bytes whose result is a [uint32_t]. *)
From S2P Require Import Prelude.

Class Crc32c := {
  kfl_crc32c : Z -> list Z -> Z;
  kfl_crc32c_range : forall seed bs, 0 <= kfl_crc32c seed bs < 2 ^ 32
}.
