(* ===== verification/Bitmap.v ===== *)
(** * The block bitmap: [src/kes_bitmap.c]

    The data structure and every function of the file, statement by
    statement.  Operations take and return the bitmap the pointer argument
    points to, [None] being a null pointer; [option] results are the C
    program's memory accesses: [None] when an access is out of the bounds of
    the [data] allocation. *)
From S2P Require Import Prelude Types Posix Crc.

(** [struct kes_bitmap]; [bm_data] is the allocation [data] points to. *)
Record kes_bitmap := mkBitmap {
  bm_data : list Z;
  bm_total_bits : Z;
  bm_total_bytes : Z;
  bm_free_bits : Z;
  bm_search_hint : Z
}.

(** ** Macros *)

Definition BITS_PER_BYTE : Z := 8.
Definition BIT_BYTE_INDEX (bit : Z) : Z := bit / BITS_PER_BYTE.
Definition BIT_OFFSET (bit : Z) : Z := bit mod BITS_PER_BYTE.
Definition BIT_MASK (bit : Z) : Z := u8 (Z.shiftl 1 (BIT_OFFSET bit)).

(** [bitmap->data[idx]]. *)
Definition bm_byte (bm : kes_bitmap) (idx : Z) : option Z := bm_data bm !! Z.to_nat idx.
(** [bitmap->data[idx] = b], at an index already accessed. *)
Definition bm_write (bm : kes_bitmap) (idx b free_bits : Z) : kes_bitmap :=
  mkBitmap (<[Z.to_nat idx := b]> (bm_data bm)) (bm_total_bits bm) (bm_total_bytes bm)
    free_bits (bm_search_hint bm).
Definition bm_set_hint (bm : kes_bitmap) (h : Z) : kes_bitmap :=
  mkBitmap (bm_data bm) (bm_total_bits bm) (bm_total_bytes bm) (bm_free_bits bm) h.

(** ** Population count *)

Definition popcount_table : list Z :=
  [0;1;1;2;1;2;2;3;1;2;2;3;2;3;3;4;1;2;2;3;2;3;3;4;2;3;3;4;3;4;4;5;
   1;2;2;3;2;3;3;4;2;3;3;4;3;4;4;5;2;3;3;4;3;4;4;5;3;4;4;5;4;5;5;6;
   1;2;2;3;2;3;3;4;2;3;3;4;3;4;4;5;2;3;3;4;3;4;4;5;3;4;4;5;4;5;5;6;
   2;3;3;4;3;4;4;5;3;4;4;5;4;5;5;6;3;4;4;5;4;5;5;6;4;5;5;6;5;6;6;7;
   1;2;2;3;2;3;3;4;2;3;3;4;3;4;4;5;2;3;3;4;3;4;4;5;3;4;4;5;4;5;5;6;
   2;3;3;4;3;4;4;5;3;4;4;5;4;5;5;6;3;4;4;5;4;5;5;6;4;5;5;6;5;6;6;7;
   2;3;3;4;3;4;4;5;3;4;4;5;4;5;5;6;3;4;4;5;4;5;5;6;4;5;5;6;5;6;6;7;
   3;4;4;5;4;5;5;6;4;5;5;6;5;6;6;7;4;5;5;6;5;6;6;7;5;6;6;7;6;7;7;8].

Definition popcount_byte (byte : Z) : option Z := popcount_table !! Z.to_nat byte.

(** The loop of [count_used_bits]: [n] bytes from index [i] on. *)
Fixpoint count_used_from (bm : kes_bitmap) (i : Z) (n : nat) (used_count : Z) : option Z :=
  match n with
  | O => Some used_count
  | S n' =>
      b ← bm_byte bm i;
      c ← popcount_byte b;
      count_used_from bm (i + 1) n' (u64 (used_count + c))
  end.
Definition count_used_bits (bm : kes_bitmap) : option Z :=
  count_used_from bm 0 (Z.to_nat (bm_total_bytes bm)) 0.

(** ** Creation and destruction *)

(** [kes_bitmap_create(total_blocks, &bitmap)]; [out_ok] says whether the
    output pointer is non-null. *)
Definition kes_bitmap_create (total_blocks : Z) (out_ok : bool) : M (Z * option kes_bitmap) :=
  if negb out_ok || (total_blocks =? 0) then ret (KES_ERROR_INVALID, None)
  else
    let* bm := calloc 40 in
    match bm with
    | None => ret (KES_ERROR_NOMEM, None)
    | Some _ =>
        let total_bytes := u64 (u64 (total_blocks + BITS_PER_BYTE) - 1) / BITS_PER_BYTE in
        let* data := calloc total_bytes in
        match data with
        | None => ret (KES_ERROR_NOMEM, None)
        | Some d => ret (KES_SUCCESS, Some (mkBitmap d total_blocks total_bytes total_blocks 0))
        end
    end.

(** Nothing of the bitmap is left to use afterwards. *)
Definition kes_bitmap_destroy (bitmap : option kes_bitmap) : option kes_bitmap := None.

(** ** Single bits *)

Definition kes_bitmap_set (bitmap : option kes_bitmap) (bit_index : Z)
    : option (Z * option kes_bitmap) :=
  match bitmap with
  | None => Some (KES_ERROR_INVALID, None)
  | Some bm =>
      if bm_total_bits bm <=? bit_index then Some (KES_ERROR_INVALID, Some bm)
      else
        let byte_idx := BIT_BYTE_INDEX bit_index in
        let bit_mask := BIT_MASK bit_index in
        b ← bm_byte bm byte_idx;
        if negb (Z.land b bit_mask =? 0) then Some (KES_SUCCESS, Some bm)
        else Some (KES_SUCCESS,
                   Some (bm_write bm byte_idx (u8 (Z.lor b bit_mask))
                           (u64 (bm_free_bits bm - 1))))
  end.

Definition kes_bitmap_clear (bitmap : option kes_bitmap) (bit_index : Z)
    : option (Z * option kes_bitmap) :=
  match bitmap with
  | None => Some (KES_ERROR_INVALID, None)
  | Some bm =>
      if bm_total_bits bm <=? bit_index then Some (KES_ERROR_INVALID, Some bm)
      else
        let byte_idx := BIT_BYTE_INDEX bit_index in
        let bit_mask := BIT_MASK bit_index in
        b ← bm_byte bm byte_idx;
        if Z.land b bit_mask =? 0 then Some (KES_SUCCESS, Some bm)
        else Some (KES_SUCCESS,
                   Some (bm_write bm byte_idx (u8 (Z.land b (Z.lnot bit_mask)))
                           (u64 (bm_free_bits bm + 1))))
  end.

Definition kes_bitmap_test (bitmap : option kes_bitmap) (bit_index : Z) : option bool :=
  match bitmap with
  | None => Some false
  | Some bm =>
      if bm_total_bits bm <=? bit_index then Some false
      else
        b ← bm_byte bm (BIT_BYTE_INDEX bit_index);
        Some (negb (Z.land b (BIT_MASK bit_index) =? 0))
  end.

(** ** Ranges *)

(** The loop shared by [kes_bitmap_set_range] and [kes_bitmap_clear_range]:
    [op] on the [n] bits from [start_bit + i] on, stopping at the first
    failure. *)
Fixpoint range_loop (op : option kes_bitmap -> Z -> option (Z * option kes_bitmap))
    (bitmap : option kes_bitmap) (start_bit i : Z) (n : nat)
    : option (Z * option kes_bitmap) :=
  match n with
  | O => Some (KES_SUCCESS, bitmap)
  | S n' =>
      '(result, bitmap') ← op bitmap (u64 (start_bit + i));
      if negb (result =? KES_SUCCESS) then Some (result, bitmap')
      else range_loop op bitmap' start_bit (i + 1) n'
  end.

Definition kes_bitmap_set_range (bitmap : option kes_bitmap) (start_bit bit_count : Z)
    : option (Z * option kes_bitmap) :=
  match bitmap with
  | None => Some (KES_ERROR_INVALID, None)
  | Some bm =>
      if (bm_total_bits bm <=? start_bit) || (bm_total_bits bm <? u64 (start_bit + bit_count))
      then Some (KES_ERROR_INVALID, bitmap)
      else range_loop kes_bitmap_set bitmap start_bit 0 (Z.to_nat bit_count)
  end.

Definition kes_bitmap_clear_range (bitmap : option kes_bitmap) (start_bit bit_count : Z)
    : option (Z * option kes_bitmap) :=
  match bitmap with
  | None => Some (KES_ERROR_INVALID, None)
  | Some bm =>
      if (bm_total_bits bm <=? start_bit) || (bm_total_bits bm <? u64 (start_bit + bit_count))
      then Some (KES_ERROR_INVALID, bitmap)
      else range_loop kes_bitmap_clear bitmap start_bit 0 (Z.to_nat bit_count)
  end.

(** ** First-fit search *)

(** The inner loop of [kes_bitmap_find_free]: are the [n] bits from
    [start + i] on all clear? *)
Fixpoint run_is_free (bm : kes_bitmap) (start i : Z) (n : nat) : option bool :=
  match n with
  | O => Some true
  | S n' =>
      t ← kes_bitmap_test (Some bm) (u64 (start + i));
      if (t : bool) then Some false else run_is_free bm start (i + 1) n'
  end.

(** One of its two outer loops: candidates from [start] on while
    [continue start] holds.  [fuel] bounds the iterations: it is at most the
    number of bits plus one for the bitmaps the library builds (a candidate at
    [total_bits] is always accepted because [kes_bitmap_test] answers [false]
    out of range); running out of it is reported as undefined. *)
Fixpoint scan_loop (bm : kes_bitmap) (bit_count : Z) (continue : Z -> bool)
    (fuel : nat) (start : Z) : option (option Z) :=
  if negb (continue start) then Some None
  else
    match fuel with
    | O => None
    | S fuel' =>
        found ← run_is_free bm start 0 (Z.to_nat bit_count);
        if (found : bool) then Some (Some start)
        else scan_loop bm bit_count continue fuel' (u64 (start + 1))
    end.

Definition scan_fuel (bm : kes_bitmap) : nat := S (Z.to_nat (bm_total_bits bm)).

(** The result code, the bitmap with its hint updated, and what is stored
    through [found_start]. *)
Definition kes_bitmap_find_free (bitmap : option kes_bitmap) (bit_count start_hint : Z)
    (found_start_ok : bool) : option (Z * option kes_bitmap * option Z) :=
  match bitmap with
  | None => Some (KES_ERROR_INVALID, None, None)
  | Some bm =>
      if (bit_count =? 0) || negb found_start_ok then Some (KES_ERROR_INVALID, bitmap, None)
      else if bm_free_bits bm <? bit_count then Some (KES_ERROR_NOSPACE, bitmap, None)
      else
        let search_start := if bm_total_bits bm <=? start_hint then 0 else start_hint in
        let last := u64 (bm_total_bits bm - bit_count) in
        let found s := Some (KES_SUCCESS, Some (bm_set_hint bm (u64 (s + bit_count))), Some s) in
        first ← scan_loop bm bit_count (fun s => s <=? last) (scan_fuel bm) search_start;
        match first with
        | Some s => found s
        | None =>
            if 0 <? search_start then
              second ← scan_loop bm bit_count (fun s => (s <? search_start) && (s <=? last))
                         (scan_fuel bm) 0;
              match second with
              | Some s => found s
              | None => Some (KES_ERROR_NOSPACE, bitmap, None)
              end
            else Some (KES_ERROR_NOSPACE, bitmap, None)
        end
  end.

(** ** Statistics *)

(** [kes_bitmap_get_stats]: the code and the values of [*total_bits],
    [*free_bits] and [*used_bits] (each written only when its pointer is
    non-null). *)
Definition kes_bitmap_get_stats (bitmap : option kes_bitmap) (total_ok free_ok used_ok : bool)
    : Z * (option Z * option Z * option Z) :=
  match bitmap with
  | None => (KES_ERROR_INVALID, (None, None, None))
  | Some bm =>
      (KES_SUCCESS,
        (if total_ok then Some (bm_total_bits bm) else None,
         if free_ok then Some (bm_free_bits bm) else None,
         if used_ok then Some (u64 (bm_total_bits bm - bm_free_bits bm)) else None))
  end.

(** ** Persistence *)

(** The first [total_bytes] bytes of the buffer, as [write] and the checksum
    read them. *)
Definition bm_bytes (bm : kes_bitmap) : option (list Z) :=
  if Z.of_nat (length (bm_data bm)) <? bm_total_bytes bm then None
  else Some (take (Z.to_nat (bm_total_bytes bm)) (bm_data bm)).

Definition kes_bitmap_load (bitmap : option kes_bitmap) (fd offset : Z)
    : M (Z * option kes_bitmap) :=
  match bitmap with
  | None => ret (KES_ERROR_INVALID, None)
  | Some bm =>
      if fd <? 0 then ret (KES_ERROR_INVALID, bitmap)
      else
        let* off := lseek fd offset in
        if negb (off =? offset) then ret (KES_ERROR_IO, bitmap)
        else
          let* (bytes_read, bs) := sys_read fd (bm_total_bytes bm) in
          if (length (bm_data bm) <? length bs)%nat then undefined
          else
            let bm1 := mkBitmap (splice 0 bs (bm_data bm)) (bm_total_bits bm)
                         (bm_total_bytes bm) (bm_free_bits bm) (bm_search_hint bm) in
            if negb (bytes_read =? i64 (bm_total_bytes bm)) then ret (KES_ERROR_IO, Some bm1)
            else
              let* used_bits := lift (count_used_bits bm1) in
              ret (KES_SUCCESS,
                   Some (mkBitmap (bm_data bm1) (bm_total_bits bm1) (bm_total_bytes bm1)
                           (u64 (bm_total_bits bm1 - used_bits)) (bm_search_hint bm1)))
  end.

Definition kes_bitmap_save (bitmap : option kes_bitmap) (fd offset : Z) : M Z :=
  match bitmap with
  | None => ret KES_ERROR_INVALID
  | Some bm =>
      if fd <? 0 then ret KES_ERROR_INVALID
      else
        let* off := lseek fd offset in
        if negb (off =? offset) then ret KES_ERROR_IO
        else
          let* bs := lift (bm_bytes bm) in
          let* bytes_written := sys_write fd bs in
          if negb (bytes_written =? i64 (bm_total_bytes bm)) then ret KES_ERROR_IO
          else ret KES_SUCCESS
  end.

(** The code and what is stored through [checksum]. *)
Definition kes_bitmap_checksum `{Crc32c} (bitmap : option kes_bitmap) (checksum_ok : bool)
    : option (Z * option Z) :=
  match bitmap with
  | None => Some (KES_ERROR_INVALID, None)
  | Some bm =>
      if negb checksum_ok then Some (KES_ERROR_INVALID, None)
      else
        bs ← bm_bytes bm;
        Some (KES_SUCCESS, Some (kfl_crc32c 0 bs))
  end.
