(* ===== verification/BitmapFacts.v ===== *)
(** * Correctness of the block bitmap

    The abstraction of a bitmap as a function from bit numbers to booleans,
    its well-formedness invariant, and what every function of
    [src/kes_bitmap.c] does in terms of them. *)
From S2P Require Import Prelude Types Posix PosixFacts Crc Bitmap.

(** ** Bits of a byte sequence *)

Definition bit_at (data : list Z) (i : Z) : bool :=
  Z.testbit (default 0 (data !! Z.to_nat (i / 8))) (i mod 8).

(** The abstraction: is block [i] in use? *)
Definition bm_bit (bm : kes_bitmap) (i : Z) : bool := bit_at (bm_data bm) i.

Lemma byte_bit_out b k : is_byte b -> 8 <= k -> Z.testbit b k = false.
Proof.
  intros [Hb1 Hb2] Hk. destruct (decide (b = 0)) as [->|]; [apply Z.bits_0|].
  apply Z.bits_above_log2; [lia|]. apply Z.log2_lt_pow2; [lia|].
  apply Z.lt_le_trans with (2 ^ 8); [lia|]. apply Z.pow_le_mono_r; lia.
Qed.

Lemma byte_from_bits b :
  0 <= b -> (forall k, 8 <= k -> Z.testbit b k = false) -> is_byte b.
Proof.
  intros Hb Hbits. split; [done|]. change 256 with (2 ^ 8).
  destruct (decide (b = 0)) as [->|]; [done|].
  apply Z.log2_lt_pow2; [lia|]. destruct (Z.lt_ge_cases (Z.log2 b) 8) as [|Hge]; [done|].
  exfalso. specialize (Hbits _ Hge). rewrite Z.bit_log2 in Hbits; [done|lia].
Qed.

Lemma BIT_MASK_pow2 i : BIT_MASK i = 2 ^ (i mod 8).
Proof.
  unfold BIT_MASK, BIT_OFFSET, BITS_PER_BYTE.
  pose proof (Z.mod_pos_bound i 8 ltac:(lia)).
  rewrite Z.shiftl_mul_pow2, Z.mul_1_l by lia. apply Z.mod_small.
  split; [apply Z.pow_nonneg; lia|]. apply Z.pow_lt_mono_r; lia.
Qed.

Lemma mask_bit i k : 0 <= k -> Z.testbit (BIT_MASK i) k = (k =? i mod 8).
Proof.
  intros. pose proof (Z.mod_pos_bound i 8 ltac:(lia)).
  rewrite BIT_MASK_pow2, Z.pow2_bits_eqb by lia. apply Z.eqb_sym.
Qed.

(** The test [data[byte] & mask]. *)
Lemma land_mask_test b i : (Z.land b (BIT_MASK i) =? 0) = negb (Z.testbit b (i mod 8)).
Proof.
  pose proof (Z.mod_pos_bound i 8 ltac:(lia)).
  assert (Z.testbit (Z.land b (BIT_MASK i)) (i mod 8) = Z.testbit b (i mod 8)) as Hb.
  { rewrite Z.land_spec, mask_bit, Z.eqb_refl, andb_true_r by lia. done. }
  destruct (Z.eqb_spec (Z.land b (BIT_MASK i)) 0) as [H0|H0].
  - rewrite H0, Z.bits_0 in Hb. by rewrite <-Hb.
  - destruct (Z.testbit b (i mod 8)) eqn:Ht; [done|]. exfalso. apply H0.
    apply Z.bits_inj'; intros k Hk. rewrite Z.land_spec, mask_bit, Z.bits_0 by done.
    destruct (Z.eqb_spec k (i mod 8)) as [->|]; [by rewrite Ht|apply andb_false_r].
Qed.

Lemma lor_mask_bits b i :
  is_byte b ->
  is_byte (u8 (Z.lor b (BIT_MASK i))) /\
  forall k, 0 <= k < 8 ->
    Z.testbit (u8 (Z.lor b (BIT_MASK i))) k = (k =? i mod 8) || Z.testbit b k.
Proof.
  intros Hb. pose proof (Z.mod_pos_bound i 8 ltac:(lia)).
  split; [by apply Z.mod_pos_bound|]. intros k Hk. unfold u8.
  rewrite Z.mod_pow2_bits_low, Z.lor_spec, mask_bit by lia. apply orb_comm.
Qed.

Lemma land_lnot_mask_bits b i :
  is_byte b ->
  is_byte (u8 (Z.land b (Z.lnot (BIT_MASK i)))) /\
  forall k, 0 <= k < 8 ->
    Z.testbit (u8 (Z.land b (Z.lnot (BIT_MASK i)))) k =
      negb (k =? i mod 8) && Z.testbit b k.
Proof.
  intros Hb. pose proof (Z.mod_pos_bound i 8 ltac:(lia)).
  split; [by apply Z.mod_pos_bound|]. intros k Hk. unfold u8.
  rewrite Z.mod_pow2_bits_low, Z.land_spec, Z.lnot_spec, mask_bit by lia.
  apply andb_comm.
Qed.

(** Writing one byte changes the eight bits it holds and no other. *)
Lemma bit_at_write data i b j :
  0 <= i -> 0 <= j -> (Z.to_nat (i / 8) < length data)%nat ->
  bit_at (<[Z.to_nat (i / 8) := b]> data) j =
    if j / 8 =? i / 8 then Z.testbit b (j mod 8) else bit_at data j.
Proof.
  intros Hi Hj Hlen. unfold bit_at.
  pose proof (Z.div_pos i 8 ltac:(lia) ltac:(lia)).
  pose proof (Z.div_pos j 8 ltac:(lia) ltac:(lia)).
  destruct (Z.eqb_spec (j / 8) (i / 8)) as [->|Hne].
  - by rewrite list_lookup_insert_eq.
  - rewrite list_lookup_insert_ne by lia. done.
Qed.

(** Same byte and same offset means same bit. *)
Lemma same_bit i j : i / 8 = j / 8 -> i mod 8 = j mod 8 -> i = j.
Proof. intros. rewrite (Z.div_mod i 8), (Z.div_mod j 8); lia. Qed.

(** ** Invariants *)

(** Everything memory safety needs. *)
Record bm_shape (bm : kes_bitmap) : Prop := {
  sh_total : 0 < bm_total_bits bm < 2 ^ 62;
  sh_bytes : bm_total_bytes bm = (bm_total_bits bm + 7) / 8;
  sh_len : Z.of_nat (length (bm_data bm)) = bm_total_bytes bm;
  sh_byte : Forall is_byte (bm_data bm)
}.

(** Number of blocks in use. *)
Definition bm_used (bm : kes_bitmap) : Z :=
  count_bits (bm_bit bm) (Z.to_nat (bm_total_bits bm)).

(** The full invariant: the bits past [total_bits] are clear and [free_bits]
    is exact. *)
Record bm_wf (bm : kes_bitmap) : Prop := {
  wf_shape : bm_shape bm;
  wf_pad : forall i, bm_total_bits bm <= i < 8 * bm_total_bytes bm -> bm_bit bm i = false;
  wf_free : bm_free_bits bm = bm_total_bits bm - bm_used bm
}.

(** Two states of one bitmap object between which only bits and counters
    move. *)
Definition same_geom (bm bm' : kes_bitmap) : Prop :=
  bm_total_bits bm' = bm_total_bits bm /\ bm_total_bytes bm' = bm_total_bytes bm /\
  bm_search_hint bm' = bm_search_hint bm.

#[export] Instance same_geom_preorder : PreOrder same_geom.
Proof.
  split; [by intros ?|]. intros x y z (?&?&?) (?&?&?).
  unfold same_geom. by split_and!; etrans.
Qed.

Create HintDb kes discriminated.
#[export] Hint Resolve wf_shape : kes.

Lemma bm_used_range bm : 0 < bm_total_bits bm -> 0 <= bm_used bm <= bm_total_bits bm.
Proof.
  intros. pose proof (count_bits_range (bm_bit bm) (Z.to_nat (bm_total_bits bm))).
  unfold bm_used. lia.
Qed.

Lemma wf_free_range bm : bm_wf bm -> 0 <= bm_free_bits bm <= bm_total_bits bm.
Proof.
  intros [Hs _ ->]. pose proof (sh_total _ Hs). pose proof (bm_used_range bm). lia.
Qed.

Lemma byte_index_bound bm i :
  bm_shape bm -> 0 <= i < bm_total_bits bm ->
  (Z.to_nat (i / 8) < length (bm_data bm))%nat.
Proof.
  intros [? Hb Hl _] Hi.
  assert (i / 8 < (bm_total_bits bm + 7) / 8) as Hlt.
  { apply Z.div_lt_upper_bound; [lia|].
    pose proof (Z.div_mod (bm_total_bits bm + 7) 8 ltac:(lia)).
    pose proof (Z.mod_pos_bound (bm_total_bits bm + 7) 8 ltac:(lia)). lia. }
  pose proof (Z.div_pos i 8 ltac:(lia) ltac:(lia)). lia.
Qed.

(** In range, the byte access of every operation is inside the allocation. *)
Lemma bm_byte_in bm i :
  bm_shape bm -> 0 <= i < bm_total_bits bm ->
  exists b, bm_byte bm (BIT_BYTE_INDEX i) = Some b /\ is_byte b /\
            Z.testbit b (i mod 8) = bm_bit bm i.
Proof.
  intros Hs Hi. pose proof (byte_index_bound bm i Hs Hi) as Hlt.
  destruct (lookup_lt_is_Some_2 _ _ Hlt) as [b Hb].
  exists b. unfold bm_byte, BIT_BYTE_INDEX, BITS_PER_BYTE, bm_bit, bit_at. rewrite Hb.
  split_and!; [done| |done]. eapply Forall_lookup_1; [apply sh_byte, Hs|done].
Qed.

(** ** Single-bit operations *)

Lemma bm_write_bit bm i b fr j :
  bm_shape bm -> 0 <= i < bm_total_bits bm -> 0 <= j ->
  bm_bit (bm_write bm (BIT_BYTE_INDEX i) b fr) j =
    if j / 8 =? i / 8 then Z.testbit b (j mod 8) else bm_bit bm j.
Proof.
  intros Hs Hi Hj. unfold bm_bit, bm_write, BIT_BYTE_INDEX, BITS_PER_BYTE. cbn [bm_data].
  apply bit_at_write; [lia|done|]. by apply byte_index_bound.
Qed.

Lemma bm_write_shape bm i b fr :
  bm_shape bm -> is_byte b -> bm_shape (bm_write bm i b fr).
Proof.
  intros [Ht Hb Hl Hf] Hbyte. split; cbn [bm_write bm_data bm_total_bits bm_total_bytes].
  - done.
  - done.
  - by rewrite length_insert.
  - by apply Forall_insert.
Qed.

(** What [kes_bitmap_set] ([v = true]) and [kes_bitmap_clear] ([v = false])
    have in common. *)
Definition bit_op_spec (op : option kes_bitmap -> Z -> option (Z * option kes_bitmap))
    (v : bool) : Prop :=
  forall bm i, bm_shape bm -> 0 <= i < bm_total_bits bm ->
  exists bm', op (Some bm) i = Some (KES_SUCCESS, Some bm') /\
    bm_shape bm' /\ same_geom bm bm' /\
    (forall j, 0 <= j -> bm_bit bm' j = if j =? i then v else bm_bit bm j) /\
    bm_free_bits bm' =
      if Bool.eqb (bm_bit bm i) v then bm_free_bits bm
      else u64 (bm_free_bits bm + (if v then -1 else 1)).

(** The case where the bit already has its value: nothing is written. *)
Lemma bit_op_noop bm i v :
  bm_bit bm i = v -> forall j, bm_bit bm j = if j =? i then v else bm_bit bm j.
Proof. intros Hv j. by destruct (Z.eqb_spec j i) as [->|]. Qed.

Lemma bit_op_write bm i b fr v :
  bm_shape bm -> 0 <= i < bm_total_bits bm ->
  (forall k, 0 <= k < 8 ->
     Z.testbit b k = if k =? i mod 8 then v else Z.testbit (default 0 (bm_data bm !! Z.to_nat (i / 8))) k) ->
  forall j, 0 <= j ->
    bm_bit (bm_write bm (BIT_BYTE_INDEX i) b fr) j = if j =? i then v else bm_bit bm j.
Proof.
  intros Hs Hi Hb j Hj. rewrite bm_write_bit by done.
  pose proof (Z.mod_pos_bound j 8 ltac:(lia)).
  destruct (Z.eqb_spec (j / 8) (i / 8)) as [He|He].
  - rewrite Hb by lia. destruct (Z.eqb_spec (j mod 8) (i mod 8)) as [Hm|Hm].
    + by rewrite (same_bit j i He Hm), Z.eqb_refl.
    + destruct (Z.eqb_spec j i) as [->|]; [done|]. unfold bm_bit, bit_at. by rewrite He.
  - by destruct (Z.eqb_spec j i) as [->|].
Qed.

Lemma set_spec : bit_op_spec kes_bitmap_set true.
Proof.
  intros bm i Hs Hi. destruct (bm_byte_in bm i Hs Hi) as (b & Hb & Hbyte & Hbit).
  unfold kes_bitmap_set. destruct (Z.leb_spec (bm_total_bits bm) i); [lia|].
  rewrite Hb. cbn [mbind option_bind]. rewrite land_mask_test, negb_involutive, Hbit.
  destruct (bm_bit bm i) eqn:E; cbn [Bool.eqb].
  - exists bm. split_and!; auto using bit_op_noop. by eapply same_geom_preorder.
  - destruct (lor_mask_bits b i Hbyte) as [Hb' Hbits].
    eexists. split_and!; [done|by apply bm_write_shape|done| |done].
    apply bit_op_write; [done..|]. intros k Hk. rewrite Hbits by done.
    unfold bm_byte, BIT_BYTE_INDEX, BITS_PER_BYTE in Hb. rewrite Hb. cbn [default].
    by destruct (k =? i mod 8).
Qed.

Lemma clear_spec : bit_op_spec kes_bitmap_clear false.
Proof.
  intros bm i Hs Hi. destruct (bm_byte_in bm i Hs Hi) as (b & Hb & Hbyte & Hbit).
  unfold kes_bitmap_clear. destruct (Z.leb_spec (bm_total_bits bm) i); [lia|].
  rewrite Hb. cbn [mbind option_bind]. rewrite land_mask_test, Hbit.
  destruct (bm_bit bm i) eqn:E; cbn [Bool.eqb negb].
  - destruct (land_lnot_mask_bits b i Hbyte) as [Hb' Hbits].
    eexists. split_and!; [done|by apply bm_write_shape|done| |done].
    apply bit_op_write; [done..|]. intros k Hk. rewrite Hbits by done.
    unfold bm_byte, BIT_BYTE_INDEX, BITS_PER_BYTE in Hb. rewrite Hb. cbn [default].
    by destruct (k =? i mod 8).
  - exists bm. split_and!; auto using bit_op_noop. by eapply same_geom_preorder.
Qed.

Lemma test_spec bm i :
  bm_shape bm -> 0 <= i ->
  kes_bitmap_test (Some bm) i = Some ((i <? bm_total_bits bm) && bm_bit bm i).
Proof.
  intros Hs Hi. unfold kes_bitmap_test.
  destruct (Z.leb_spec (bm_total_bits bm) i) as [Hge|Hlt].
  - by destruct (Z.ltb_spec i (bm_total_bits bm)); [lia|].
  - destruct (Z.ltb_spec i (bm_total_bits bm)); [|lia].
    destruct (bm_byte_in bm i Hs ltac:(lia)) as (b & Hb & _ & Hbit).
    rewrite Hb. cbn [mbind option_bind]. by rewrite land_mask_test, negb_involutive, Hbit.
Qed.

(** The full invariant survives a point update whose counter is adjusted the
    way the two operations do it. *)
Lemma wf_point_update bm bm' i v :
  bm_wf bm -> bm_shape bm' -> same_geom bm bm' -> 0 <= i < bm_total_bits bm ->
  (forall j, 0 <= j -> bm_bit bm' j = if j =? i then v else bm_bit bm j) ->
  bm_free_bits bm' =
    (if Bool.eqb (bm_bit bm i) v then bm_free_bits bm
     else u64 (bm_free_bits bm + (if v then -1 else 1))) ->
  bm_wf bm'.
Proof.
  intros Hwf Hs' (Ht & Hby & _) Hi Hbits Hfree.
  pose proof (wf_free_range _ Hwf) as Hfr. pose proof (sh_total _ Hs') as Htot.
  pose proof (bm_used_range bm' ltac:(lia)) as Hur.
  destruct Hwf as [Hs Hpad Hf].
  split; [done| |].
  - intros j Hj. rewrite Hbits by lia. destruct (Z.eqb_spec j i); [lia|].
    apply Hpad. lia.
  - rewrite Hfree. unfold bm_used in *. rewrite Ht in *.
    destruct (bm_bit bm i) eqn:E, v; cbn [Bool.eqb].
    + rewrite Hf. f_equal. apply count_bits_ext. intros j Hj.
      rewrite Hbits by lia. by destruct (Z.eqb_spec j i) as [->|].
    + assert (count_bits (bm_bit bm) (Z.to_nat (bm_total_bits bm)) =
              count_bits (bm_bit bm') (Z.to_nat (bm_total_bits bm)) + 1) as Hc.
      { apply (count_bits_on _ _ _ i); [lia| |done|].
        - rewrite Hbits by lia. by rewrite Z.eqb_refl.
        - intros j Hj Hne. rewrite Hbits by lia. by destruct (Z.eqb_spec j i). }
      rewrite u64_small; lia.
    + assert (count_bits (bm_bit bm') (Z.to_nat (bm_total_bits bm)) =
              count_bits (bm_bit bm) (Z.to_nat (bm_total_bits bm)) + 1) as Hc.
      { apply (count_bits_on _ _ _ i); [lia|done| |].
        - rewrite Hbits by lia. by rewrite Z.eqb_refl.
        - intros j Hj Hne. rewrite Hbits by lia. by destruct (Z.eqb_spec j i). }
      rewrite u64_small; lia.
    + rewrite Hf. f_equal. apply count_bits_ext. intros j Hj.
      rewrite Hbits by lia. by destruct (Z.eqb_spec j i) as [->|].
Qed.

(** ** Range operations *)

Section range_loop.
Context (op : option kes_bitmap -> Z -> option (Z * option kes_bitmap)) (v : bool).
Context (Hop : bit_op_spec op v).

(** One pass over [n] in-range bits starting at [s + i]. *)
Lemma range_loop_spec n bm s i :
  bm_shape bm -> 0 <= s -> 0 <= i -> s + i + Z.of_nat n <= bm_total_bits bm ->
  exists bm', range_loop op (Some bm) s i n = Some (KES_SUCCESS, Some bm') /\
    bm_shape bm' /\ same_geom bm bm' /\
    (forall j, 0 <= j -> bm_bit bm' j =
       if bool_decide (s + i <= j < s + i + Z.of_nat n) then v else bm_bit bm j) /\
    (bm_wf bm -> bm_wf bm').
Proof.
  revert bm i. induction n as [|n IH]; intros bm i Hs H0s Hi Hle; cbn [range_loop].
  { exists bm. split_and!; [done..| |done]. intros j Hj.
    by rewrite bool_decide_eq_false_2 by lia. }
  pose proof (sh_total _ Hs). rewrite u64_small by lia.
  destruct (Hop bm (s + i) Hs ltac:(lia)) as (b1 & Hr & Hs1 & Hg1 & Hb1 & Hf1).
  rewrite Hr. cbn [mbind option_bind]. rewrite Z.eqb_refl. cbn [negb].
  destruct (IH b1 (i + 1) Hs1 H0s ltac:(lia)) as (b2 & Hr2 & Hs2 & Hg2 & Hb2 & Hw2).
  { destruct Hg1 as (-> & _). lia. }
  exists b2. split_and!; [done|done|by etrans| |].
  - intros j Hj. rewrite Hb2, Hb1 by done.
    destruct (Z.eqb_spec j (s + i)); repeat case_bool_decide; try done; lia.
  - intros Hwf. apply Hw2. apply (wf_point_update bm b1 (s + i) v); [done|done|done|lia|done|done].
Qed.
End range_loop.

(** The guard the two range functions share. *)
Definition range_ok (bm : kes_bitmap) (s n : Z) : Prop :=
  s < bm_total_bits bm /\ u64 (s + n) <= bm_total_bits bm.

Lemma range_guard bm s n :
  (bm_total_bits bm <=? s) || (bm_total_bits bm <? u64 (s + n)) =
    negb (bool_decide (range_ok bm s n)).
Proof.
  unfold range_ok. destruct (Z.leb_spec (bm_total_bits bm) s);
    destruct (Z.ltb_spec (bm_total_bits bm) (u64 (s + n))); case_bool_decide;
    try done; lia.
Qed.

(** For 32-bit counts the guard means what it says: no wrap-around. *)
Lemma range_ok_iff bm s n :
  bm_shape bm -> 0 <= s < 2 ^ 64 -> 0 <= n < 2 ^ 32 ->
  range_ok bm s n <-> s < bm_total_bits bm /\ s + n <= bm_total_bits bm.
Proof.
  intros Hs H1 H2. unfold range_ok. pose proof (sh_total _ Hs).
  split; intros [Ha Hb]; (split; [done|]); rewrite u64_small in * by lia; done.
Qed.

(** Exact effect of a range operation on every bit. *)
Definition range_post (bm bm' : kes_bitmap) (s n : Z) (v : bool) : Prop :=
  bm_shape bm' /\ same_geom bm bm' /\
  (forall j, 0 <= j -> bm_bit bm' j = if bool_decide (s <= j < s + n) then v else bm_bit bm j) /\
  (bm_wf bm -> bm_wf bm').

Lemma range_op_spec op v bm s n :
  bit_op_spec op v -> bm_shape bm -> 0 <= s < 2 ^ 64 -> 0 <= n < 2 ^ 32 ->
  range_ok bm s n ->
  exists bm', range_loop op (Some bm) s 0 (Z.to_nat n) = Some (KES_SUCCESS, Some bm') /\
              range_post bm bm' s n v.
Proof.
  intros Hop Hs H1 H2 Hok. pose proof Hok as [Ha Hb]%range_ok_iff; [|done..].
  destruct (range_loop_spec op v Hop (Z.to_nat n) bm s 0) as (bm' & Hr & ? & ? & Hbits & ?);
    [done|lia|lia|lia|].
  exists bm'. split; [done|]. split_and!; [done..| |done].
  intros j Hj. rewrite Hbits by done. rewrite Z.add_0_r, Z2Nat.id by lia. done.
Qed.

Lemma set_range_spec bm s n :
  bm_shape bm -> 0 <= s < 2 ^ 64 -> 0 <= n < 2 ^ 32 -> range_ok bm s n ->
  exists bm', kes_bitmap_set_range (Some bm) s n = Some (KES_SUCCESS, Some bm') /\
              range_post bm bm' s n true.
Proof.
  intros Hs H1 H2 Hok. unfold kes_bitmap_set_range.
  rewrite range_guard, bool_decide_eq_true_2 by done.
  apply range_op_spec; auto using set_spec.
Qed.

Lemma clear_range_spec bm s n :
  bm_shape bm -> 0 <= s < 2 ^ 64 -> 0 <= n < 2 ^ 32 -> range_ok bm s n ->
  exists bm', kes_bitmap_clear_range (Some bm) s n = Some (KES_SUCCESS, Some bm') /\
              range_post bm bm' s n false.
Proof.
  intros Hs H1 H2 Hok. unfold kes_bitmap_clear_range.
  rewrite range_guard, bool_decide_eq_true_2 by done.
  apply range_op_spec; auto using clear_spec.
Qed.

(** Out of range, both refuse and leave the bitmap alone. *)
Lemma range_reject bm s n :
  ~ range_ok bm s n ->
  kes_bitmap_set_range (Some bm) s n = Some (KES_ERROR_INVALID, Some bm) /\
  kes_bitmap_clear_range (Some bm) s n = Some (KES_ERROR_INVALID, Some bm).
Proof.
  intros Hno. unfold kes_bitmap_set_range, kes_bitmap_clear_range.
  by rewrite range_guard, bool_decide_eq_false_2.
Qed.

(** Effect on the number of blocks in use, for runs of one value. *)
Lemma range_post_used bm bm' s n :
  range_post bm bm' s n true -> 0 <= s -> 0 <= n -> s + n <= bm_total_bits bm ->
  (forall j, s <= j < s + n -> bm_bit bm j = false) ->
  bm_used bm' = bm_used bm + n.
Proof.
  intros (_ & (Ht & _) & Hbits & _) Hs Hn Hle Hrun. unfold bm_used. rewrite Ht.
  rewrite (count_bits_run_on (bm_bit bm) _ _ s (Z.to_nat n)); [lia|lia|lia| |].
  - intros i Hi. rewrite Hbits, bool_decide_eq_true_2 by lia. split; [apply Hrun; lia|done].
  - intros i Hi Hout. rewrite Hbits, bool_decide_eq_false_2 by lia. done.
Qed.

Lemma range_post_unused bm bm' s n :
  range_post bm bm' s n false -> 0 <= s -> 0 <= n -> s + n <= bm_total_bits bm ->
  (forall j, s <= j < s + n -> bm_bit bm j = true) ->
  bm_used bm' = bm_used bm - n.
Proof.
  intros (_ & (Ht & _) & Hbits & _) Hs Hn Hle Hrun. unfold bm_used. rewrite Ht.
  rewrite (count_bits_run_on (bm_bit bm') (bm_bit bm) _ s (Z.to_nat n)); [lia|lia|lia| |].
  - intros i Hi. rewrite Hbits, bool_decide_eq_true_2 by lia. split; [done|apply Hrun; lia].
  - intros i Hi Hout. by rewrite Hbits, bool_decide_eq_false_2 by lia.
Qed.

(** ** First-fit search *)

(** [n] clear bits from [s] on, all in range. *)
Definition free_run (bm : kes_bitmap) (s n : Z) : Prop :=
  0 <= s /\ s + n <= bm_total_bits bm /\ forall j, s <= j < s + n -> bm_bit bm j = false.

Lemma run_is_free_spec bm s i n :
  bm_shape bm -> 0 <= s -> 0 <= i -> s + i + Z.of_nat n <= bm_total_bits bm ->
  exists r, run_is_free bm s i n = Some r /\
    (r = true <-> forall j, s + i <= j < s + i + Z.of_nat n -> bm_bit bm j = false).
Proof.
  intros Hs H0s. pose proof (sh_total _ Hs).
  revert i. induction n as [|n IH]; intros i Hi Hle; cbn [run_is_free].
  { exists true. split; [done|]. split; [intros _; lia|done]. }
  rewrite u64_small, test_spec by (done || lia). cbn [mbind option_bind].
  destruct (Z.ltb_spec (s + i) (bm_total_bits bm)); [|lia]. cbn [andb].
  destruct (bm_bit bm (s + i)) eqn:E.
  - exists false. split; [done|]. split; [done|]. intros Hall.
    rewrite Hall in E by lia. done.
  - destruct (IH (i + 1)) as (r & Hr & Hiff); [lia|lia|]. exists r. split; [done|].
    rewrite Hiff. split; intros Hall j Hj.
    + destruct (decide (j = s + i)) as [->|]; [done|]. apply Hall; lia.
    + apply Hall; lia.
Qed.

(** The scan returns the first candidate in [start, last] that [continue]
    admits and that starts a free run, if there is one. *)
Lemma scan_loop_spec bm k continue last fuel start :
  bm_shape bm -> 0 < k -> last + k <= bm_total_bits bm -> 0 <= start ->
  (forall s, 0 <= s -> continue s = true <-> s <= last) ->
  (last - start < Z.of_nat fuel) ->
  exists r, scan_loop bm k continue fuel start = Some r /\
    match r with
    | Some s => start <= s <= last /\ free_run bm s k /\
                forall s', start <= s' < s -> ~ free_run bm s' k
    | None => forall s', start <= s' <= last -> ~ free_run bm s' k
    end.
Proof.
  intros Hs Hk Hlast Hstart Hcont. pose proof (sh_total _ Hs).
  revert start Hstart. induction fuel as [|fuel IH]; intros start Hstart Hfuel;
    cbn [scan_loop]; destruct (continue start) eqn:Ec; cbn [negb].
  - apply Hcont in Ec; lia.
  - exists None. split; [done|]. intros s' Hs'.
    assert (continue start = true) by (apply Hcont; lia). congruence.
  - apply Hcont in Ec; [|lia].
    destruct (run_is_free_spec bm start 0 (Z.to_nat k)) as (r & Hr & Hiff); [done|lia..|].
    rewrite Hr. cbn [mbind option_bind].
    rewrite Z.add_0_r, Z2Nat.id in Hiff by lia. destruct r.
    + exists (Some start). split; [done|]. split_and!; [lia|lia| |lia].
      split_and!; [lia|lia|by apply Hiff].
    + rewrite u64_small by lia.
      destruct (IH (start + 1)) as (r & Hr' & Hpost); [lia|lia|]. exists r. split; [done|].
      assert (~ free_run bm start k) as Hno by (intros (_ & _ & Hall); by apply Hiff in Hall).
      destruct r as [s|].
      * destruct Hpost as (Hb & Hf & Hmin). split_and!; [lia|lia|done|].
        intros s' Hs'. destruct (decide (s' = start)) as [->|]; [done|]. apply Hmin; lia.
      * intros s' Hs'. destruct (decide (s' = start)) as [->|]; [done|]. apply Hpost; lia.
  - exists None. split; [done|]. intros s' Hs'.
    assert (continue start = true) by (apply Hcont; lia). congruence.
Qed.

(** Where the search starts. *)
Definition search_from (bm : kes_bitmap) (hint : Z) : Z :=
  if bm_total_bits bm <=? hint then 0 else hint.

(** [s] comes before [s'] in the order in which [find_free] tries candidates:
    from the hint to the end, then from the beginning. *)
Definition tried_before (h s s' : Z) : Prop :=
  (h <= s /\ (s < s' \/ s' < h)) \/ (s < s' /\ s' < h).

(** Complete behaviour of [kes_bitmap_find_free] on a well-formed bitmap. *)
Lemma find_free_spec bm k hint :
  bm_wf bm -> 0 < k < 2 ^ 32 -> 0 <= hint ->
  (exists s, kes_bitmap_find_free (Some bm) k hint true =
       Some (KES_SUCCESS, Some (bm_set_hint bm (s + k)), Some s) /\
     free_run bm s k /\
     forall s', tried_before (search_from bm hint) s' s -> ~ free_run bm s' k) \/
  (kes_bitmap_find_free (Some bm) k hint true = Some (KES_ERROR_NOSPACE, Some bm, None) /\
     forall s, ~ free_run bm s k).
Proof.
  intros Hwf Hk Hhint. pose proof (wf_shape _ Hwf) as Hs. pose proof (sh_total _ Hs) as Ht.
  pose proof (wf_free_range _ Hwf) as Hfr.
  unfold kes_bitmap_find_free. destruct (Z.eqb_spec k 0); [lia|]. cbn [orb negb].
  destruct (Z.ltb_spec (bm_free_bits bm) k) as [Hfew|Henough].
  { right. split; [done|]. intros s (H1 & H2 & Hrun).
    set (f := fun i => bool_decide (s <= i < s + k) || bm_bit bm i).
    assert (count_bits f (Z.to_nat (bm_total_bits bm)) = bm_used bm + k) as Hc.
    { rewrite (count_bits_run_on (bm_bit bm) f _ s (Z.to_nat k)); [unfold bm_used; lia|lia|lia| |].
      - intros i Hi. split; [apply Hrun; lia|]. unfold f. by rewrite bool_decide_eq_true_2 by lia.
      - intros i Hi Ho. unfold f. by rewrite bool_decide_eq_false_2 by lia. }
    pose proof (count_bits_range f (Z.to_nat (bm_total_bits bm))).
    pose proof (wf_free _ Hwf). lia. }
  rewrite (u64_small (bm_total_bits bm - k)) by lia.
  set (h := if bm_total_bits bm <=? hint then 0 else hint).
  assert (0 <= h < bm_total_bits bm) as Hh by (unfold h; zcase; lia).
  destruct (scan_loop_spec bm k (fun s => s <=? bm_total_bits bm - k) (bm_total_bits bm - k)
              (scan_fuel bm) h) as (r1 & Hr1 & Hp1);
    [done|lia|lia|lia|intros; apply Z.leb_le|unfold scan_fuel; lia|].
  rewrite Hr1. cbn [mbind option_bind]. destruct r1 as [s|].
  { left. exists s. destruct Hp1 as (Hb & Hf & Hmin). rewrite u64_small by lia.
    split_and!; [done|done|]. unfold search_from. fold h. intros s' Hb' Hf'.
    unfold tried_before in Hb'. apply (Hmin s'); [lia|done]. }
  assert (forall s', h <= s' -> ~ free_run bm s' k) as Hhi.
  { intros s' Hs' Hf'. apply (Hp1 s'); [|done]. destruct Hf' as (_ & ? & _). lia. }
  destruct (Z.ltb_spec 0 h) as [Hpos|Hz].
  - destruct (scan_loop_spec bm k (fun s => (s <? h) && (s <=? bm_total_bits bm - k))
                (Z.min (h - 1) (bm_total_bits bm - k)) (scan_fuel bm) 0) as (r2 & Hr2 & Hp2);
      [done|lia|lia|lia| |unfold scan_fuel; lia|].
    { intros s _. rewrite andb_true_iff, Z.ltb_lt, Z.leb_le. lia. }
    rewrite Hr2. cbn [mbind option_bind]. destruct r2 as [s|].
    + left. exists s. destruct Hp2 as (Hb & Hf & Hmin). rewrite u64_small by lia.
      split_and!; [done|done|]. unfold search_from. fold h. intros s' Hb' Hf'.
      unfold tried_before in Hb'. destruct (Z.lt_ge_cases s' h) as [Hlt|Hge].
      * destruct Hf' as (? & ?). apply (Hmin s'); [lia|by split].
      * by apply (Hhi s' Hge).
    + right. split; [done|]. intros s Hf. destruct (Z.lt_ge_cases s h) as [Hlt|Hge].
      * pose proof Hf as (? & ? & _). apply (Hp2 s); [lia|done].
      * by apply (Hhi s Hge).
  - right. split; [done|]. intros s Hf. pose proof Hf as (? & _). apply (Hhi s); [lia|done].
Qed.

(** ** Population count *)

(** The 256-entry table is the number of set bits of its index. *)
Lemma popcount_byte_bits b :
  is_byte b -> popcount_byte b = Some (count_bits (Z.testbit b) 8).
Proof.
  intros Hb.
  assert (forallb (fun x => bool_decide (popcount_byte x = Some (count_bits (Z.testbit x) 8)))
            (seqZ 0 256) = true) as Hall by (vm_compute; reflexivity).
  rewrite forallb_forall in Hall. eapply bool_decide_eq_true_1. apply (Hall b).
  apply list_elem_of_In, elem_of_seqZ. unfold is_byte in Hb. lia.
Qed.

(** The bits of the first [i + 1] bytes are those of the first [i] and those of
    byte [i]. *)
Lemma count_bits_byte data i b :
  data !! i = Some b ->
  count_bits (bit_at data) (8 * (i + 1)) =
    count_bits (bit_at data) (8 * i) + count_bits (Z.testbit b) 8.
Proof.
  intros Hb. replace (8 * (i + 1))%nat with (8 * i + 8)%nat by lia.
  rewrite count_bits_app. f_equal. apply count_bits_ext. intros k Hk.
  unfold bit_at. replace (k + Z.of_nat (8 * i)) with (k + Z.of_nat i * 8) by lia.
  rewrite Z.div_add, Z.mod_add, Z.div_small, Z.mod_small by lia.
  by rewrite Z.add_0_l, Nat2Z.id, Hb.
Qed.

Lemma count_used_from_spec bm i n acc :
  Forall is_byte (bm_data bm) -> (i + n <= length (bm_data bm))%nat ->
  Z.of_nat (length (bm_data bm)) < 2 ^ 60 ->
  acc = count_bits (bm_bit bm) (8 * i) ->
  count_used_from bm (Z.of_nat i) n acc = Some (count_bits (bm_bit bm) (8 * (i + n))).
Proof.
  intros Hbytes. revert i acc. induction n as [|n IH]; intros i acc Hlen Hmax ->;
    cbn [count_used_from].
  { by rewrite Nat.add_0_r. }
  destruct (lookup_lt_is_Some_2 (bm_data bm) i ltac:(lia)) as [b Hb].
  unfold bm_byte at 1. rewrite Nat2Z.id, Hb. cbn [mbind option_bind].
  rewrite popcount_byte_bits by (by eapply Forall_lookup_1). cbn [mbind option_bind].
  pose proof (count_bits_range (bm_bit bm) (8 * (i + 1))) as Hr.
  pose proof (count_bits_byte (bm_data bm) i b Hb) as Hc.
  change (bit_at (bm_data bm)) with (bm_bit bm) in Hc.
  rewrite <-Hc. rewrite u64_small by lia.
  replace (Z.of_nat i + 1) with (Z.of_nat (i + 1)) by lia.
  rewrite IH; [|lia|done|done]. do 2 f_equal. lia.
Qed.

(** Bits recorded in [n] bytes of data. *)
Definition data_used (data : list Z) : Z := count_bits (bit_at data) (8 * length data).

Lemma count_used_bits_spec bm :
  bm_shape bm -> count_used_bits bm = Some (data_used (bm_data bm)).
Proof.
  intros [Ht Hb Hl Hf]. unfold count_used_bits. rewrite <-Hl, Nat2Z.id.
  apply (count_used_from_spec bm 0); [done|lia| |done].
  rewrite Hl, Hb. apply Z.div_lt_upper_bound; lia.
Qed.

(** With clear padding the recount is the number of blocks in use. *)
Lemma data_used_wf bm :
  bm_shape bm ->
  (forall i, bm_total_bits bm <= i < 8 * bm_total_bytes bm -> bm_bit bm i = false) ->
  data_used (bm_data bm) = bm_used bm.
Proof.
  intros [Ht Hb Hl _] Hpad. unfold data_used, bm_used.
  pose proof (Z.div_mod (bm_total_bits bm + 7) 8 ltac:(lia)).
  pose proof (Z.mod_pos_bound (bm_total_bits bm + 7) 8 ltac:(lia)).
  replace (8 * length (bm_data bm))%nat
    with (Z.to_nat (bm_total_bits bm) +
          (8 * length (bm_data bm) - Z.to_nat (bm_total_bits bm)))%nat by lia.
  rewrite count_bits_app. change (bit_at (bm_data bm)) with (bm_bit bm).
  rewrite (count_bits_false (fun i => bm_bit bm (i + Z.of_nat (Z.to_nat (bm_total_bits bm))))).
  - lia.
  - intros i Hi. apply Hpad. lia.
Qed.

(** ** Creation *)

Definition fresh_bitmap (n : Z) : kes_bitmap :=
  mkBitmap (replicate (Z.to_nat ((n + 7) / 8)) 0) n ((n + 7) / 8) n 0.

Lemma fresh_bit n i : bm_bit (fresh_bitmap n) i = false.
Proof.
  unfold bm_bit, bit_at, fresh_bitmap. cbn [bm_data].
  destruct (replicate _ _ !! _) as [b|] eqn:E; cbn [default];
    [apply lookup_replicate in E as [-> _]|]; apply Z.bits_0.
Qed.

Lemma fresh_wf n : 0 < n < 2 ^ 62 -> bm_wf (fresh_bitmap n).
Proof.
  intros Hn. pose proof (Z.div_pos (n + 7) 8 ltac:(lia) ltac:(lia)).
  split; [split| |]; cbn [fresh_bitmap bm_data bm_total_bits bm_total_bytes bm_free_bits].
  - done.
  - done.
  - rewrite length_replicate. lia.
  - apply Forall_replicate. unfold is_byte; lia.
  - intros; apply fresh_bit.
  - unfold bm_used. rewrite count_bits_false by (intros; apply fresh_bit). lia.
Qed.

Lemma kes_bitmap_create_spec n w (Q : Z * option kes_bitmap -> world -> Prop) :
  0 < n < 2 ^ 62 ->
  (forall w', same_world w w' -> Q (KES_SUCCESS, Some (fresh_bitmap n)) w') ->
  (forall w', same_world w w' -> ~ quiet w -> Q (KES_ERROR_NOMEM, None) w') ->
  wp (kes_bitmap_create n true) w Q.
Proof.
  intros Hn Hok Hno. unfold kes_bitmap_create, BITS_PER_BYTE. cbn [negb orb].
  destruct (Z.eqb_spec n 0); [lia|].
  rewrite (u64_small (n + 8)) by lia. rewrite u64_small by lia.
  replace (n + 8 - 1) with (n + 7) by lia.
  wp_bind. apply wp_calloc; [|intros; wp_ret; eauto].
  intros w1 Hw1. wp_bind. apply wp_calloc.
  - intros w2 Hw2. wp_ret. apply Hok. destruct Hw1 as [<- <- ? ?], Hw2. split; auto.
  - intros w2 Hw2 Hq. wp_ret. apply Hno.
    + destruct Hw1 as [<- <- ? ?], Hw2. split; auto.
    + by eapply noisy_back.
Qed.

(** ** Persistence *)

(** The bitmap after its data was replaced by [data] and recounted. *)
Definition reloaded (bm : kes_bitmap) (data : list Z) : kes_bitmap :=
  mkBitmap data (bm_total_bits bm) (bm_total_bytes bm)
    (u64 (bm_total_bits bm - data_used data)) (bm_search_hint bm).

Lemma shape_with_data bm data fr h :
  bm_shape bm -> length data = length (bm_data bm) -> Forall is_byte data ->
  bm_shape (mkBitmap data (bm_total_bits bm) (bm_total_bytes bm) fr h).
Proof. intros [? ? ? ?] Hl ?. split; cbn; [done..| |done]. by rewrite Hl. Qed.

(** What a load may leave behind. *)
Definition load_post (w : world) (bm : kes_bitmap) (f : list Z) (off code : Z)
    (bm' : kes_bitmap) : Prop :=
  bm_shape bm' /\ same_geom bm bm' /\
  ((code = KES_SUCCESS /\ off + bm_total_bytes bm <= Z.of_nat (length f) /\
    bm' = reloaded bm (slice (Z.to_nat off) (Z.to_nat (bm_total_bytes bm)) f)) \/
   (code = KES_ERROR_IO /\
    (quiet w -> Z.of_nat (length f) < off + bm_total_bytes bm))).

Lemma shape_bytes_range bm :
  bm_shape bm -> 0 < bm_total_bytes bm < 2 ^ 60.
Proof.
  intros [Ht -> _ _]. split; [|apply Z.div_lt_upper_bound; lia].
  apply Z.div_str_pos. lia.
Qed.

Lemma kes_bitmap_load_spec bm fd off w a f (Q : Z * option kes_bitmap -> world -> Prop) :
  bm_shape bm -> 0 <= fd -> 0 <= off ->
  fd_attrs w !! fd = Some a -> w_files w !! a.1.1 = Some f -> Forall is_byte f ->
  (forall w' code bm', same_world w w' -> load_post w bm f off code bm' ->
     Q (code, Some bm') w') ->
  wp (kes_bitmap_load (Some bm) fd off) w Q.
Proof.
  intros Hs Hfd Hoff Ha Hf Hbytes HQ. pose proof (shape_bytes_range _ Hs) as Htb.
  pose proof (sh_len _ Hs) as Hlen.
  unfold kes_bitmap_load. destruct (Z.ltb_spec fd 0); [lia|].
  apply (wp_seek_read fd off (bm_total_bytes bm) w a f); [done|done|lia|lia| |].
  { intros w' Hw Hq. wp_ret. apply HQ; [done|]. split_and!; [done|by split|]. by right. }
  intros w' k bs Hw Hout. cbn [fst snd].
  assert (length bs <= length (bm_data bm))%nat as Hbs.
  { destruct Hout as [(_ & -> & _)|(m & Hm & -> & _ & _)]; [cbn; lia|].
    pose proof (length_slice (Z.to_nat off) (Z.to_nat m) f). lia. }
  destruct (Nat.ltb_spec (length (bm_data bm)) (length bs)); [lia|].
  set (bm1 := mkBitmap _ _ _ _ _).
  assert (Forall is_byte bs) as Hbsb.
  { destruct Hout as [(_ & -> & _)|(m & _ & -> & _)]; [constructor|by apply Forall_slice]. }
  assert (bm_shape bm1) as Hs1.
  { apply shape_with_data; [done| |].
    - rewrite length_splice. lia.
    - apply Forall_splice; [unfold is_byte; lia|done|apply sh_byte, Hs]. }
  rewrite i64_small by lia. destruct (Z.eqb_spec k (bm_total_bytes bm)) as [Hk|Hk]; cbn [negb].
  - destruct Hout as [(-> & _ & _)|(m & Hm & Hbs' & Hkl & _)]; [lia|].
    assert (splice 0 bs (bm_data bm) = bs) as Hsp.
    { unfold splice. rewrite pad_to_id by lia. rewrite drop_ge by lia.
      by rewrite take_0, app_nil_r. }
    pose proof (length_slice (Z.to_nat off) (Z.to_nat m) f) as Hle. rewrite <-Hbs' in Hle.
    assert (m = bm_total_bytes bm) as -> by lia.
    wp_bind. eapply wp_lift; [by apply count_used_bits_spec|]. wp_ret. apply HQ; [done|].
    unfold bm1. cbn [bm_data bm_total_bits bm_total_bytes bm_search_hint].
    rewrite Hsp. split_and!; [by apply shape_with_data; [done|lia|done]|done|]. left.
    split_and!; [done| |].
    + rewrite Hbs' in Hkl. unfold slice in Hkl. rewrite length_take, length_drop in Hkl. lia.
    + unfold reloaded. by rewrite <-Hbs'.
  - wp_ret. apply HQ; [done|]. split_and!; [done|done|]. right. split; [done|].
    intros Hquiet. destruct Hout as [(_ & _ & Hno)|(m & Hm & Hbs' & Hkl & Hno)]; [done|].
    assert (m = bm_total_bytes bm) as -> by (destruct (Z.lt_ge_cases m (bm_total_bytes bm)); [by destruct Hno|lia]).
    rewrite Hbs' in Hkl. unfold slice in Hkl. rewrite length_take, length_drop in Hkl. lia.
Qed.

(** ** Loading into a buffer of any size

    What an image nobody vouches for can do: [bm_total_bits] is whatever the
    descriptor said, and only the buffer is known to match [bm_total_bytes]. *)

Record buf_ok (bm : kes_bitmap) : Prop := {
  bo_bytes : 0 <= bm_total_bytes bm < 2 ^ 62;
  bo_len : Z.of_nat (length (bm_data bm)) = bm_total_bytes bm;
  bo_byte : Forall is_byte (bm_data bm)
}.

Lemma count_used_from_defined bm i n acc :
  Forall is_byte (bm_data bm) -> (i + n <= length (bm_data bm))%nat ->
  exists c, count_used_from bm (Z.of_nat i) n acc = Some c.
Proof.
  intros Hbytes. revert i acc. induction n as [|n IH]; intros i acc Hlen; cbn [count_used_from].
  { by exists acc. }
  destruct (lookup_lt_is_Some_2 (bm_data bm) i ltac:(lia)) as [b Hb].
  unfold bm_byte at 1. rewrite Nat2Z.id, Hb. cbn [mbind option_bind].
  rewrite popcount_byte_bits by (by eapply Forall_lookup_1). cbn [mbind option_bind].
  replace (Z.of_nat i + 1) with (Z.of_nat (S i)) by lia. apply IH. lia.
Qed.

Lemma count_used_bits_defined bm : buf_ok bm -> exists c, count_used_bits bm = Some c.
Proof.
  intros [? Hl Hb]. unfold count_used_bits. rewrite <-Hl, Nat2Z.id.
  by apply (count_used_from_defined bm 0).
Qed.

Definition load_any_post (w : world) (bm : kes_bitmap) (f : list Z) (off code : Z)
    (bm' : kes_bitmap) : Prop :=
  buf_ok bm' /\ same_geom bm bm' /\
  ((code = KES_SUCCESS /\
    (0 <= off -> bm_data bm' = slice (Z.to_nat off) (Z.to_nat (bm_total_bytes bm)) f)) \/
   (code = KES_ERROR_IO /\
    (quiet w -> off < 0 \/ Z.of_nat (length f) < off + bm_total_bytes bm))).

(** The bytes [read] placed in the buffer, and what is left of the old ones. *)
Lemma buf_after_read bm bs fr :
  buf_ok bm -> Forall is_byte bs -> (length bs <= length (bm_data bm))%nat ->
  buf_ok (mkBitmap (splice 0 bs (bm_data bm)) (bm_total_bits bm) (bm_total_bytes bm) fr
            (bm_search_hint bm)).
Proof.
  intros [? Hl Hb] Hbs Hlen. split; cbn; [done| |].
  - rewrite length_splice. lia.
  - by apply Forall_splice; [apply is_byte_0|..].
Qed.

(** The part of the load after the seek, whatever the position. *)
Lemma load_tail bm w bs k (Q : Z * option kes_bitmap -> world -> Prop) :
  buf_ok bm -> Forall is_byte bs -> (length bs <= length (bm_data bm))%nat ->
  (k = bm_total_bytes bm -> k = Z.of_nat (length bs)) ->
  (forall code bm', buf_ok bm' -> same_geom bm bm' ->
     (code = KES_SUCCESS /\ k = bm_total_bytes bm /\ bm_data bm' = bs) \/
     (code = KES_ERROR_IO /\ k ≠ bm_total_bytes bm) -> Q (code, Some bm') w) ->
  wp (if (length (bm_data bm) <? length bs)%nat then undefined
      else
        let bm1 := mkBitmap (splice 0 bs (bm_data bm)) (bm_total_bits bm)
                     (bm_total_bytes bm) (bm_free_bits bm) (bm_search_hint bm) in
        if negb (k =? i64 (bm_total_bytes bm)) then ret (KES_ERROR_IO, Some bm1)
        else
          let* used_bits := lift (count_used_bits bm1) in
          ret (KES_SUCCESS,
               Some (mkBitmap (bm_data bm1) (bm_total_bits bm1) (bm_total_bytes bm1)
                       (u64 (bm_total_bits bm1 - used_bits)) (bm_search_hint bm1)))) w Q.
Proof.
  intros Hb Hbs Hlen Hk HQ. destruct (Nat.ltb_spec (length (bm_data bm)) (length bs)); [lia|].
  cbv zeta. set (bm1 := mkBitmap _ _ _ (bm_free_bits bm) _).
  assert (buf_ok bm1) as Hb1 by (by apply buf_after_read).
  pose proof (bo_bytes _ Hb). rewrite i64_small by lia.
  destruct (Z.eqb_spec k (bm_total_bytes bm)) as [He|Hne]; cbn [negb].
  - destruct (count_used_bits_defined bm1 Hb1) as [c Hc].
    wp_bind. eapply wp_lift; [done|]. wp_ret. pose proof (bo_len _ Hb).
    assert (splice 0 bs (bm_data bm) = bs) as Hsp.
    { unfold splice. rewrite pad_to_id by lia. rewrite drop_ge by lia.
      by rewrite take_0, app_nil_r. }
    apply HQ; [by apply (buf_after_read bm)|by split|left; by split_and!].
  - wp_ret. apply HQ; [done|by split|by right].
Qed.

Lemma kes_bitmap_load_any bm fd off w a f (Q : Z * option kes_bitmap -> world -> Prop) :
  buf_ok bm -> 0 <= fd ->
  fd_attrs w !! fd = Some a -> w_files w !! a.1.1 = Some f -> Forall is_byte f ->
  (forall w' code bm', same_world w w' -> load_any_post w bm f off code bm' ->
     Q (code, Some bm') w') ->
  wp (kes_bitmap_load (Some bm) fd off) w Q.
Proof.
  intros Hb Hfd Ha Hf Hbytes HQ. pose proof Hb as [Htb Hlen _].
  unfold kes_bitmap_load. destruct (Z.ltb_spec fd 0); [lia|].
  destruct (Z.lt_ge_cases off 0) as [Hneg|Hoff].
  - wp_bind. apply wp_lseek_neg; [done|]. intros w1 Hw1.
    destruct (Z.eqb_spec (-1) off) as [He|]; cbn [negb].
    2:{ wp_ret. apply HQ; [done|]. split_and!; [done|by split|]. right. split; [done|by left]. }
    wp_bind. eapply (wp_read_any fd _ w1 a f).
    { by destruct Hw1 as [_ -> _ _]. } { by destruct Hw1 as [-> _ _ _]. } { lia. }
    intros w2 k bs Hw2 Hout. apply load_tail; [done| | | |].
    + destruct Hout as [[_ ->]|(p & m & _ & -> & _)]; [constructor|by apply Forall_slice].
    + destruct Hout as [[_ ->]|(p & m & ? & -> & _)]; [cbn; lia|].
      pose proof (length_slice p (Z.to_nat m) f). lia.
    + intros ->. destruct Hout as [[? _]|(_ & _ & _ & _ & ?)]; [lia|done].
    + intros code bm' Hb' Hg Hc. apply HQ.
      { eapply evolves_trans; [exact Hw1|]. by destruct Hw1 as [<- <- _ _]. }
      split_and!; [done|done|]. destruct Hc as [(-> & _ & _)|[-> _]]; [left|right].
      * split; [done|]. lia.
      * split; [done|]. by left.
  - apply (wp_seek_read fd off (bm_total_bytes bm) w a f); [done|done|lia|lia| |].
    { intros w' Hw Hq. wp_ret. apply HQ; [done|]. split_and!; [done|by split|]. by right. }
    intros w' k bs Hw Hout. apply load_tail; [done| | | |].
    + destruct Hout as [(_ & -> & _)|(m & _ & -> & _)]; [constructor|by apply Forall_slice].
    + destruct Hout as [(_ & -> & _)|(m & Hm & -> & _ & _)]; [cbn; lia|].
      pose proof (length_slice (Z.to_nat off) (Z.to_nat m) f). lia.
    + intros ->. destruct Hout as [(? & _)|(_ & _ & _ & ? & _)]; [lia|done].
    + intros code bm' Hb' Hg Hc. apply HQ; [done|]. split_and!; [done|done|].
      destruct Hc as [(-> & Hk & Hd)|[-> Hk]]; [left|right]; (split; [done|]).
      * intros _. rewrite Hd. destruct Hout as [(? & _)|(m & Hm & Hbs & Hkl & _)]; [lia|].
        pose proof (length_slice (Z.to_nat off) (Z.to_nat m) f) as Hle. rewrite <-Hbs in Hle.
        by assert (m = bm_total_bytes bm) as -> by lia.
      * intros Hquiet. right. destruct Hout as [(_ & _ & Hno)|(m & Hm & Hbs & Hkl & Hno)]; [done|].
        assert (m = bm_total_bytes bm) as ->
          by (destruct (Z.lt_ge_cases m (bm_total_bytes bm)); [by destruct Hno|lia]).
        rewrite Hbs in Hkl. unfold slice in Hkl. rewrite length_take, length_drop in Hkl. lia.
Qed.

(** What a save may leave in the file: everything, or a prefix. *)
Definition save_post (w : world) (bs f : list Z) (off code : Z) (f' : list Z) : Prop :=
  (code = KES_SUCCESS /\ f' = splice (Z.to_nat off) bs f) \/
  (code = KES_ERROR_IO /\ ~ quiet w /\
   (f' = f \/ exists m, f' = splice (Z.to_nat off) (take m bs) f)).

Lemma write_outcome_save w f off bs k f' :
  write_outcome (~ quiet w) f off bs k f' ->
  save_post w bs f off (if k =? Z.of_nat (length bs) then KES_SUCCESS else KES_ERROR_IO) f'.
Proof.
  intros [(Hk & Hq & ->)|(m & Hm & -> & -> & Hq)].
  - destruct (Z.eqb_spec k (Z.of_nat (length bs))); [lia|]. right. auto.
  - destruct (Z.eqb_spec m (Z.of_nat (length bs))) as [->|].
    + left. by rewrite Nat2Z.id, firstn_all.
    + right. split_and!; [done|apply Hq; lia|eauto].
Qed.

Lemma kes_bitmap_save_spec bm fd off w path lk f (Q : Z -> world -> Prop) :
  bm_shape bm -> 0 <= fd -> 0 <= off ->
  fd_attrs w !! fd = Some (path, true, lk) -> w_files w !! path = Some f ->
  (forall w' code f', evolves w w' (<[path := f']> (w_files w)) (fd_attrs w) ->
     save_post w (bm_data bm) f off code f' -> Q code w') ->
  wp (kes_bitmap_save (Some bm) fd off) w Q.
Proof.
  intros Hs Hfd Hoff Ha Hf HQ. pose proof (shape_bytes_range _ Hs) as Htb.
  pose proof (sh_len _ Hs) as Hlen.
  unfold kes_bitmap_save. destruct (Z.ltb_spec fd 0); [lia|].
  assert (bm_bytes bm = Some (bm_data bm)) as Hb.
  { unfold bm_bytes. destruct (Z.ltb_spec (Z.of_nat (length (bm_data bm))) (bm_total_bytes bm)); [lia|].
    rewrite <-Hlen, Nat2Z.id. by rewrite firstn_all. }
  rewrite Hb. unfold lift. change (bind (ret ?x) ?k) with (k x).
  eapply (wp_seek_write fd off (bm_data bm)); [done|done|lia| | |].
  { intros E. rewrite E in Hlen. cbn in Hlen. lia. }
  { intros w' Hw Hq. wp_ret. apply (HQ _ _ f).
    - by rewrite insert_id.
    - right. auto. }
  intros w' k f' Hw Hout. rewrite i64_small by lia. rewrite <-Hlen.
  apply write_outcome_save in Hout.
  destruct (Z.eqb_spec k (Z.of_nat (length (bm_data bm)))); cbn [negb]; wp_ret; by eapply HQ.
Qed.

Lemma kes_bitmap_checksum_spec `{Crc32c} bm :
  bm_shape bm ->
  kes_bitmap_checksum (Some bm) true = Some (KES_SUCCESS, Some (kfl_crc32c 0 (bm_data bm))).
Proof.
  intros Hs. unfold kes_bitmap_checksum. cbn [negb].
  pose proof (sh_len _ Hs) as Hlen. unfold bm_bytes.
  destruct (Z.ltb_spec (Z.of_nat (length (bm_data bm))) (bm_total_bytes bm)); [lia|].
  cbn [mbind option_bind]. by rewrite <-Hlen, Nat2Z.id, firstn_all.
Qed.
