(* ===== verification/Codec.v ===== *)
(** * The on-disk descriptor as bytes

    [save_storage_descriptor] and [load_storage_descriptor] move the raw
    object representation of [kes_storage_descriptor_t]: on the little-endian
    LP64 platforms the library targets, 112 bytes with four bytes of padding
    after [block_size].  [encode_desc] and [decode_desc] are that layout. *)
From S2P Require Import Prelude Types.

(** ** Little-endian integers *)

Fixpoint le_encode (n : nat) (z : Z) : list Z :=
  match n with
  | O => []
  | S n' => z mod 256 :: le_encode n' (z / 256)
  end.

Fixpoint le_decode (bs : list Z) : Z :=
  match bs with
  | [] => 0
  | b :: bs' => b + 256 * le_decode bs'
  end.

Lemma length_le_encode n z : length (le_encode n z) = n.
Proof. revert z. induction n as [|n IH]; intros z; simpl; auto. Qed.

Lemma le_encode_bytes n z : Forall is_byte (le_encode n z).
Proof.
  revert z. induction n as [|n IH]; intros z; simpl; constructor; auto.
  by apply Z.mod_pos_bound.
Qed.

Lemma le_decode_encode n z : 0 <= z < 256 ^ Z.of_nat n -> le_decode (le_encode n z) = z.
Proof.
  revert z. induction n as [|n IH]; intros z Hz; cbn [le_encode le_decode].
  { change (256 ^ Z.of_nat 0) with 1 in Hz. lia. }
  rewrite Nat2Z.inj_succ, Z.pow_succ_r in Hz by lia.
  rewrite IH; [pose proof (Z.div_mod z 256); lia|].
  split; [apply Z.div_pos; lia|apply Z.div_lt_upper_bound; lia].
Qed.

Lemma le_encode_decode bs :
  Forall is_byte bs -> le_encode (length bs) (le_decode bs) = bs.
Proof.
  induction 1 as [|b bs Hb _ IH]; [done|]. cbn [length le_encode le_decode].
  unfold is_byte in Hb. rewrite (Z.mul_comm 256), Z.mod_add, Z.div_add by lia.
  rewrite Z.mod_small, Z.div_small by lia. by rewrite Z.add_0_l, IH.
Qed.

Lemma le_decode_range bs :
  Forall is_byte bs -> 0 <= le_decode bs < 256 ^ Z.of_nat (length bs).
Proof.
  induction 1 as [|b bs Hb _ IH]; [done|]. cbn [length le_decode].
  rewrite Nat2Z.inj_succ, Z.pow_succ_r by lia. unfold is_byte in Hb. lia.
Qed.

(** ** The struct *)

Definition sizeof_desc : Z := 112.

Definition encode_desc (d : kes_storage_descriptor) : list Z :=
  le_encode 4 (desc_magic d) ++ le_encode 2 (desc_version_major d) ++
  le_encode 2 (desc_version_minor d) ++ le_encode 4 (desc_block_size d) ++
  le_encode 4 (desc_pad d) ++ le_encode 8 (desc_total_blocks d) ++
  le_encode 8 (desc_bitmap_start_block d) ++ le_encode 8 (desc_bitmap_blocks d) ++
  le_encode 8 (desc_user_start_block d) ++ le_encode 8 (desc_user_blocks d) ++
  le_encode 8 (desc_free_blocks d) ++ le_encode 8 (desc_used_blocks d) ++
  le_encode 8 (desc_next_extent_id d) ++ le_encode 4 (desc_bitmap_checksum d) ++
  desc_reserved d.

Definition field (pos n : nat) (bs : list Z) : Z := le_decode (slice pos n bs).

Definition decode_desc (bs : list Z) : kes_storage_descriptor :=
  mkDesc (field 0 4 bs) (field 4 2 bs) (field 6 2 bs) (field 8 4 bs) (field 12 4 bs)
    (field 16 8 bs) (field 24 8 bs) (field 32 8 bs) (field 40 8 bs) (field 48 8 bs)
    (field 56 8 bs) (field 64 8 bs) (field 72 8 bs) (field 80 4 bs) (slice 84 28 bs).

(** Every field within its C type. *)
Record desc_ok (d : kes_storage_descriptor) : Prop := {
  ok_magic : 0 <= desc_magic d < 256 ^ 4;
  ok_major : 0 <= desc_version_major d < 256 ^ 2;
  ok_minor : 0 <= desc_version_minor d < 256 ^ 2;
  ok_block_size : 0 <= desc_block_size d < 256 ^ 4;
  ok_pad : 0 <= desc_pad d < 256 ^ 4;
  ok_total_blocks : 0 <= desc_total_blocks d < 256 ^ 8;
  ok_bitmap_start : 0 <= desc_bitmap_start_block d < 256 ^ 8;
  ok_bitmap_blocks : 0 <= desc_bitmap_blocks d < 256 ^ 8;
  ok_user_start : 0 <= desc_user_start_block d < 256 ^ 8;
  ok_user_blocks : 0 <= desc_user_blocks d < 256 ^ 8;
  ok_free_blocks : 0 <= desc_free_blocks d < 256 ^ 8;
  ok_used_blocks : 0 <= desc_used_blocks d < 256 ^ 8;
  ok_next_id : 0 <= desc_next_extent_id d < 256 ^ 8;
  ok_checksum : 0 <= desc_bitmap_checksum d < 256 ^ 4;
  ok_reserved : length (desc_reserved d) = 28%nat /\ Forall is_byte (desc_reserved d)
}.

Lemma length_encode_desc d :
  length (desc_reserved d) = 28%nat -> length (encode_desc d) = 112%nat.
Proof.
  intros Hr. unfold encode_desc. rewrite !length_app, !length_le_encode. by rewrite Hr.
Qed.

Lemma encode_desc_bytes d : desc_ok d -> Forall is_byte (encode_desc d).
Proof.
  intros [? ? ? ? ? ? ? ? ? ? ? ? ? ? [_ Hr]]. unfold encode_desc.
  rewrite !Forall_app. split_and!; auto using le_encode_bytes.
Qed.

(** Reading a field out of a concatenation: skip the fields before it. *)
Lemma field_skip pos n l bs m :
  length l = m -> (m <= pos)%nat -> field pos n (l ++ bs) = field (pos - m) n bs.
Proof.
  intros <- Hle. unfold field, slice. by rewrite drop_app_ge.
Qed.

Lemma field_here n l bs : length l = n -> field 0 n (l ++ bs) = le_decode l.
Proof. intros <-. unfold field, slice. by rewrite drop_0, take_app_length. Qed.

Tactic Notation "desc_proj" "in" "*" :=
  cbn [desc_magic desc_version_major desc_version_minor desc_block_size desc_pad
       desc_total_blocks desc_bitmap_start_block desc_bitmap_blocks desc_user_start_block
       desc_user_blocks desc_free_blocks desc_used_blocks desc_next_extent_id
       desc_bitmap_checksum desc_reserved] in *.
Ltac desc_proj := desc_proj in *.

Ltac field_tac :=
  repeat (rewrite (field_skip _ _ _ _ _ (length_le_encode _ _)) by (simpl; lia));
  cbn [Nat.sub]; rewrite (field_here _ _ _ (length_le_encode _ _));
  apply le_decode_encode; assumption.

(** What is stored is what is loaded. *)
Lemma decode_encode_desc d : desc_ok d -> decode_desc (encode_desc d) = d.
Proof.
  intros [? ? ? ? ? ? ? ? ? ? ? ? ? ? [Hr _]]. destruct d as [a b c d e f g h i j k l m n r].
  desc_proj in *. unfold decode_desc. f_equal; unfold encode_desc; desc_proj; [field_tac..|].
  rewrite !app_assoc. unfold slice. rewrite drop_app_ge.
  - rewrite !length_app, !length_le_encode. cbn [Nat.sub Nat.add]. rewrite drop_0.
    by rewrite <-Hr, firstn_all.
  - rewrite !length_app, !length_le_encode. lia.
Qed.

Lemma field_bytes pos n bs :
  Forall is_byte bs -> (pos + n <= length bs)%nat ->
  le_encode n (field pos n bs) = slice pos n bs /\ 0 <= field pos n bs < 256 ^ Z.of_nat n.
Proof.
  intros Hb Hlen. pose proof (length_slice_exact pos n bs Hlen) as Hl. unfold field.
  pose proof (le_encode_decode (slice pos n bs) (Forall_slice _ _ _ _ Hb)) as He.
  pose proof (le_decode_range (slice pos n bs) (Forall_slice _ _ _ _ Hb)) as Hr.
  rewrite Hl in He, Hr. done.
Qed.

Lemma decode_desc_ok bs :
  Forall is_byte bs -> (112 <= length bs)%nat -> desc_ok (decode_desc bs).
Proof.
  intros Hb Hlen. split; unfold decode_desc; desc_proj;
    try match goal with
        | |- 0 <= field ?p ?n _ < _ => exact (proj2 (field_bytes p n bs Hb ltac:(lia)))
        end.
  split; [apply length_slice_exact; lia|by apply Forall_slice].
Qed.

Lemma slice_app pos n m bs : slice pos n bs ++ slice (pos + n) m bs = slice pos (n + m) bs.
Proof.
  unfold slice. rewrite <-drop_drop. by rewrite take_take_drop.
Qed.

(** The descriptor holds all the information of its 112 bytes. *)
Lemma encode_decode_desc bs :
  Forall is_byte bs -> (112 <= length bs)%nat -> encode_desc (decode_desc bs) = slice 0 112 bs.
Proof.
  intros Hb Hlen. unfold encode_desc, decode_desc. desc_proj.
  rewrite !(fun p n H => proj1 (field_bytes p n bs Hb H)) by lia.
  repeat (rewrite slice_app; cbn [Nat.add]). done.
Qed.
