(* ===== verification/Storage.v ===== *)
(** * The storage layer: [src/kes_storage.c]

    Every function of the file over the world of [Posix].  A handle
    ([kes_storage_t]) is a record passed in and out; a null pointer argument
    is [None]; a non-null output pointer is a [true] flag or the cell's old
    content.  [TRACE_*] logging has no effect on the state and is left out. *)
From Stdlib Require Import SpecFloat.
From S2P Require Import Prelude Types Posix Crc Bitmap Codec.

(** ** The handle *)

(** [struct kes_storage]; [sto_lock] is whether the mutex is held. *)
Record kes_storage := mkStorage {
  sto_fd : Z;
  sto_desc : kes_storage_descriptor;
  sto_bitmap : option kes_bitmap;
  sto_strategy : kes_allocation_strategy;
  sto_lock : bool;
  sto_stats : kes_storage_stats;
  sto_readonly : bool;
  sto_sync_writes : bool
}.

Definition set_desc (d : kes_storage_descriptor) (s : kes_storage) : kes_storage :=
  mkStorage (sto_fd s) d (sto_bitmap s) (sto_strategy s) (sto_lock s) (sto_stats s)
    (sto_readonly s) (sto_sync_writes s).
Definition set_bitmap (b : option kes_bitmap) (s : kes_storage) : kes_storage :=
  mkStorage (sto_fd s) (sto_desc s) b (sto_strategy s) (sto_lock s) (sto_stats s)
    (sto_readonly s) (sto_sync_writes s).
Definition set_held (h : bool) (s : kes_storage) : kes_storage :=
  mkStorage (sto_fd s) (sto_desc s) (sto_bitmap s) (sto_strategy s) h (sto_stats s)
    (sto_readonly s) (sto_sync_writes s).
Definition set_stats (t : kes_storage_stats) (s : kes_storage) : kes_storage :=
  mkStorage (sto_fd s) (sto_desc s) (sto_bitmap s) (sto_strategy s) (sto_lock s) t
    (sto_readonly s) (sto_sync_writes s).

(** Assignments to descriptor fields. *)
Definition set_checksum (c : Z) (d : kes_storage_descriptor) : kes_storage_descriptor :=
  mkDesc (desc_magic d) (desc_version_major d) (desc_version_minor d) (desc_block_size d)
    (desc_pad d) (desc_total_blocks d) (desc_bitmap_start_block d) (desc_bitmap_blocks d)
    (desc_user_start_block d) (desc_user_blocks d) (desc_free_blocks d) (desc_used_blocks d)
    (desc_next_extent_id d) c (desc_reserved d).
Definition set_counts (free used next_id : Z) (d : kes_storage_descriptor)
    : kes_storage_descriptor :=
  mkDesc (desc_magic d) (desc_version_major d) (desc_version_minor d) (desc_block_size d)
    (desc_pad d) (desc_total_blocks d) (desc_bitmap_start_block d) (desc_bitmap_blocks d)
    (desc_user_start_block d) (desc_user_blocks d) free used next_id
    (desc_bitmap_checksum d) (desc_reserved d).

(** Assignments to statistics. *)
Definition set_allocated (n : Z) (t : kes_storage_stats) : kes_storage_stats :=
  mkStats (st_total_blocks t) (st_free_blocks t) (st_used_blocks t) n (st_fragmentation t)
    (st_reads_completed t) (st_writes_completed t) (st_bytes_read t) (st_bytes_written t).
Definition count_read (n : Z) (t : kes_storage_stats) : kes_storage_stats :=
  mkStats (st_total_blocks t) (st_free_blocks t) (st_used_blocks t) (st_allocated_extents t)
    (st_fragmentation t) (u64 (st_reads_completed t + 1)) (st_writes_completed t)
    (u64 (st_bytes_read t + n)) (st_bytes_written t).
Definition count_write (n : Z) (t : kes_storage_stats) : kes_storage_stats :=
  mkStats (st_total_blocks t) (st_free_blocks t) (st_used_blocks t) (st_allocated_extents t)
    (st_fragmentation t) (st_reads_completed t) (u64 (st_writes_completed t + 1))
    (st_bytes_read t) (u64 (st_bytes_written t + n)).

(** ** Configuration and layout *)

Definition validate_config (config : option kes_storage_config) : Z :=
  match config with
  | None => KES_ERROR_INVALID
  | Some c =>
      match cfg_device_path c with
      | None => KES_ERROR_INVALID
      | Some _ =>
          if negb (KES_IS_POWER_OF_2 (cfg_block_size c)) ||
             (cfg_block_size c <? KES_MIN_BLOCK_SIZE) ||
             (KES_MAX_BLOCK_SIZE <? cfg_block_size c)
          then KES_ERROR_INVALID
          else if cfg_device_size c <? u32 (cfg_block_size c * 10) then KES_ERROR_INVALID
          else if decide (cfg_strategy c = KES_ALLOC_FIRST_FIT) then KES_SUCCESS
          else KES_ERROR_INVALID
      end
  end.

Definition kes_config_validate (config : option kes_storage_config) : Z :=
  validate_config config.

Definition calculate_bitmap_blocks (total_blocks block_size : Z) : Z :=
  let bitmap_bytes := u64 (total_blocks + 7) / 8 in
  u64 (u64 (bitmap_bytes + block_size) - 1) / block_size.

(** Layout: [descriptor] [user data] [bitmap]. *)
Definition init_storage_descriptor (d : kes_storage_descriptor) (size : Z)
    : kes_storage_descriptor :=
  let block_size := KES_DEFAULT_BLOCK_SIZE in
  let total_blocks := size / block_size in
  let bitmap_blocks := calculate_bitmap_blocks total_blocks block_size in
  let bitmap_start_block := u64 (total_blocks - bitmap_blocks) in
  let user_start_block := 1 in
  let user_blocks := u64 (bitmap_start_block - user_start_block) in
  mkDesc KES_MAGIC_NUMBER KES_VERSION_MAJOR KES_VERSION_MINOR block_size (desc_pad d)
    total_blocks bitmap_start_block bitmap_blocks user_start_block user_blocks
    user_blocks 0 1 (desc_bitmap_checksum d) (desc_reserved d).

(** ** Descriptor I/O *)

(** The bytes read land on the struct even when the call then fails. *)
Definition load_storage_descriptor (sto : kes_storage) : M (Z * kes_storage) :=
  let* off := lseek (sto_fd sto) 0 in
  if negb (off =? 0) then ret (KES_ERROR_IO, sto)
  else
    let* (bytes_read, bs) := sys_read (sto_fd sto) sizeof_desc in
    let d := decode_desc (splice 0 bs (encode_desc (sto_desc sto))) in
    let sto := set_desc d sto in
    if negb (bytes_read =? sizeof_desc) then ret (KES_ERROR_IO, sto)
    else if negb (desc_magic d =? KES_MAGIC_NUMBER) then ret (KES_ERROR_CORRUPT, sto)
    else if negb (desc_version_major d =? KES_VERSION_MAJOR) then ret (KES_ERROR_CORRUPT, sto)
    else ret (KES_SUCCESS, sto).

Definition save_storage_descriptor (sto : kes_storage) : M Z :=
  let* off := lseek (sto_fd sto) 0 in
  if negb (off =? 0) then ret KES_ERROR_IO
  else
    let* bytes_written := sys_write (sto_fd sto) (encode_desc (sto_desc sto)) in
    if negb (bytes_written =? sizeof_desc) then ret KES_ERROR_IO
    else ret KES_SUCCESS.

(** [storage->desc.bitmap_start_block * storage->desc.block_size] as an
    [off_t]. *)
Definition bitmap_offset (d : kes_storage_descriptor) : Z :=
  i64 (u64 (desc_bitmap_start_block d * desc_block_size d)).

(** The reload that opens the critical sections of [kes_storage_sync],
    [kes_extent_allocate] and [kes_extent_free]: descriptor, then bitmap. *)
Definition reload_metadata (sto : kes_storage) : M (Z * kes_storage) :=
  let* (result, sto) := load_storage_descriptor sto in
  if result =? KES_SUCCESS then
    let* (result, bm) := kes_bitmap_load (sto_bitmap sto) (sto_fd sto)
                           (bitmap_offset (sto_desc sto)) in
    ret (result, set_bitmap bm sto)
  else ret (result, sto).

Section with_crc.
Context `{Crc32c}.

(** Checksum of the in-memory bitmap into the descriptor. *)
Definition refresh_checksum (sto : kes_storage) : M (Z * kes_storage) :=
  let* (result, checksum) := lift (kes_bitmap_checksum (sto_bitmap sto) true) in
  match checksum with
  | Some c => ret (result, set_desc (set_checksum c (sto_desc sto)) sto)
  | None => ret (result, sto)
  end.

(** The write-back that ends the three critical sections: bitmap, checksum,
    descriptor, [fsync], each only if the previous ones succeeded. *)
Definition persist_metadata (sto : kes_storage) : M (Z * kes_storage) :=
  let* result := kes_bitmap_save (sto_bitmap sto) (sto_fd sto) (bitmap_offset (sto_desc sto)) in
  if negb (result =? KES_SUCCESS) then ret (result, sto)
  else
    let* (result, sto) := refresh_checksum sto in
    if negb (result =? KES_SUCCESS) then ret (result, sto)
    else
      let* result := save_storage_descriptor sto in
      if negb (result =? KES_SUCCESS) then ret (result, sto)
      else
        let* r := fsync (sto_fd sto) in
        ret (if r =? 0 then KES_SUCCESS else KES_ERROR_IO, sto).

(** ** Lifecycle *)

Definition kes_storage_create (config : option kes_storage_config) (storage_ok : bool)
    : M (Z * option kes_storage) :=
  match config with
  | None => ret (KES_ERROR_INVALID, None)
  | Some c =>
    if negb storage_ok then ret (KES_ERROR_INVALID, None)
    else
    let result := validate_config config in
    if negb (result =? KES_SUCCESS) then ret (result, None)
    else
    let* mem := calloc 320 in
    match mem with
    | None => ret (KES_ERROR_NOMEM, None)
    | Some _ =>
      let* r := pthread_mutex_init in
      if negb (r =? 0) then ret (KES_ERROR_NOMEM, None)
      else
      let flags := mkOpenFlags true (has_flag (cfg_flags c) KES_STORAGE_CREATE)
                     (has_flag (cfg_flags c) KES_STORAGE_TRUNCATE)
                     (has_flag (cfg_flags c) KES_STORAGE_SYNC) in
      let* fd := sys_open (default "" (cfg_device_path c)) flags in
      if fd <? 0 then ret (KES_ERROR_IO, None)
      else
      let desc := init_storage_descriptor zero_desc (cfg_device_size c) in
      let sto := mkStorage fd desc None (cfg_strategy c) false zero_stats
                   (has_flag (cfg_flags c) KES_STORAGE_READONLY)
                   (has_flag (cfg_flags c) KES_STORAGE_SYNC) in
      let* (result, bm) := kes_bitmap_create (desc_user_blocks desc) true in
      let sto := set_bitmap bm sto in
      if negb (result =? KES_SUCCESS) then sys_close fd ;;; ret (result, None)
      else
      let* (result, sto) := refresh_checksum sto in
      if negb (result =? KES_SUCCESS) then sys_close fd ;;; ret (result, None)
      else
      let* result := kes_bitmap_save (sto_bitmap sto) fd (bitmap_offset (sto_desc sto)) in
      if negb (result =? KES_SUCCESS) then sys_close fd ;;; ret (result, None)
      else
      let* result := save_storage_descriptor sto in
      if negb (result =? KES_SUCCESS) then sys_close fd ;;; ret (result, None)
      else ret (KES_SUCCESS, Some sto)
    end
  end.

Definition kes_storage_open (device_path : option string) (flags : Z) (storage_ok : bool)
    : M (Z * option kes_storage) :=
  match device_path with
  | None => ret (KES_ERROR_INVALID, None)
  | Some path =>
    if negb storage_ok then ret (KES_ERROR_INVALID, None)
    else
    let* mem := calloc 320 in
    match mem with
    | None => ret (KES_ERROR_NOMEM, None)
    | Some _ =>
      let* r := pthread_mutex_init in
      if negb (r =? 0) then ret (KES_ERROR_NOMEM, None)
      else
      let readonly := has_flag flags KES_STORAGE_READONLY in
      let* fd := sys_open path (mkOpenFlags (negb readonly) false false
                                  (has_flag flags KES_STORAGE_SYNC)) in
      if fd <? 0 then ret (KES_ERROR_IO, None)
      else
      let sto := mkStorage fd zero_desc None KES_ALLOC_FIRST_FIT false zero_stats
                   readonly (has_flag flags KES_STORAGE_SYNC) in
      let* l := flock fd LOCK_SH in
      if negb (l =? 0) then sys_close fd ;;; ret (KES_ERROR_IO, None)
      else
      let fail code := flock_un fd ;;; sys_close fd ;;; ret (code, None) in
      let* (result, sto) := load_storage_descriptor sto in
      if negb (result =? KES_SUCCESS) then fail result
      else
      let* (result, bm) := kes_bitmap_create (desc_user_blocks (sto_desc sto)) true in
      let sto := set_bitmap bm sto in
      if negb (result =? KES_SUCCESS) then fail result
      else
      let* (result, bm) := kes_bitmap_load (sto_bitmap sto) fd
                             (bitmap_offset (sto_desc sto)) in
      let sto := set_bitmap bm sto in
      if negb (result =? KES_SUCCESS) then fail result
      else
      let* (result, computed_checksum) := lift (kes_bitmap_checksum (sto_bitmap sto) true) in
      let result :=
        if (result =? KES_SUCCESS) &&
           negb (default 0 computed_checksum =? desc_bitmap_checksum (sto_desc sto))
        then KES_ERROR_CORRUPT else result in
      if negb (result =? KES_SUCCESS) then fail result
      else flock_un fd ;;; ret (KES_SUCCESS, Some sto)
    end
  end.

(** The reload of [kes_storage_close]: its results are not looked at beyond
    skipping the bitmap when the descriptor could not be loaded. *)
Definition close_reload (sto : kes_storage) : M kes_storage :=
  let* (result, sto) := load_storage_descriptor sto in
  if result =? KES_SUCCESS then
    let* (_, bm) := kes_bitmap_load (sto_bitmap sto) (sto_fd sto)
                      (bitmap_offset (sto_desc sto)) in
    ret (set_bitmap bm sto)
  else ret sto.

(** Its write-back: every step is attempted whatever the previous ones
    returned. *)
Definition close_flush (sto : kes_storage) : M kes_storage :=
  let* _ := kes_bitmap_save (sto_bitmap sto) (sto_fd sto) (bitmap_offset (sto_desc sto)) in
  let* (_, sto) := refresh_checksum sto in
  let* _ := save_storage_descriptor sto in
  let* _ := fsync (sto_fd sto) in
  flock_un (sto_fd sto) ;;; ret sto.

Definition kes_storage_close (storage : option kes_storage) : M Z :=
  match storage with
  | None => ret KES_ERROR_INVALID
  | Some sto =>
    let* held := pthread_mutex_lock (sto_lock sto) in
    let* sto :=
      if sto_readonly sto then ret sto
      else
        let* l := flock (sto_fd sto) LOCK_EX in
        if l =? 0 then
          let* sto := close_reload sto in
          close_flush sto
        else ret sto in
    sys_close (sto_fd sto) ;;;
    let* _ := pthread_mutex_unlock held in
    ret KES_SUCCESS
  end.

Definition kes_storage_sync (storage : option kes_storage) : M (Z * option kes_storage) :=
  match storage with
  | None => ret (KES_ERROR_INVALID, None)
  | Some sto =>
    if sto_readonly sto then ret (KES_ERROR_INVALID, storage)
    else
    let* held := pthread_mutex_lock (sto_lock sto) in
    let sto := set_held held sto in
    let* l := flock (sto_fd sto) LOCK_EX in
    if negb (l =? 0) then
      let* held := pthread_mutex_unlock held in
      ret (KES_ERROR_IO, Some (set_held held sto))
    else
    let* (result, sto) := reload_metadata sto in
    let* (result, sto) :=
      if result =? KES_SUCCESS then persist_metadata sto else ret (result, sto) in
    flock_un (sto_fd sto) ;;;
    let* held := pthread_mutex_unlock held in
    ret (result, Some (set_held held sto))
  end.

(** ** Extents *)

Definition allocate_extent_first_fit (sto : kes_storage) (req : kes_extent_request)
    (ext : kes_extent_descriptor) : M (Z * kes_storage * kes_extent_descriptor) :=
  let* (result, bm, found) :=
    lift (kes_bitmap_find_free (sto_bitmap sto) (req_block_count req) (req_hint_block req) true) in
  let sto := set_bitmap bm sto in
  if negb (result =? KES_SUCCESS) then ret (result, sto, ext)
  else
    let found_start := default 0 found in
    let* (result, bm) :=
      lift (kes_bitmap_set_range (sto_bitmap sto) found_start (req_block_count req)) in
    let sto := set_bitmap bm sto in
    if negb (result =? KES_SUCCESS) then ret (result, sto, ext)
    else ret (KES_SUCCESS, sto,
              mkExtent found_start (req_block_count req) (req_flags req) 0).

(** Statistics and identifier after a successful allocation. *)
Definition account_allocation (sto : kes_storage) (req : kes_extent_request)
    (ext : kes_extent_descriptor) : kes_storage * kes_extent_descriptor :=
  let d := sto_desc sto in
  let t := sto_stats sto in
  let next := u64 (desc_next_extent_id d + 1) in
  (set_stats (set_allocated (u64 (st_allocated_extents t + 1)) t)
     (set_desc (set_counts (u64 (desc_free_blocks d - req_block_count req))
                  (u64 (desc_used_blocks d + req_block_count req)) next d) sto),
   mkExtent (ext_start_block ext) (ext_block_count ext) (ext_flags ext) next).

Definition kes_extent_allocate (storage : option kes_storage)
    (request : option kes_extent_request) (extent : option kes_extent_descriptor)
    : M (Z * option kes_storage * option kes_extent_descriptor) :=
  match storage, request, extent with
  | Some sto, Some req, Some ext =>
    if sto_readonly sto then ret (KES_ERROR_INVALID, storage, extent)
    else if req_block_count req =? 0 then ret (KES_ERROR_INVALID, storage, extent)
    else
    let* held := pthread_mutex_lock (sto_lock sto) in
    let sto := set_held held sto in
    let* l := flock (sto_fd sto) LOCK_EX in
    if negb (l =? 0) then
      let* held := pthread_mutex_unlock held in
      ret (KES_ERROR_IO, Some (set_held held sto), extent)
    else
    let* (result, sto) := reload_metadata sto in
    let* (result, sto, ext) :=
      if result =? KES_SUCCESS then
        match sto_strategy sto with
        | KES_ALLOC_FIRST_FIT => allocate_extent_first_fit sto req ext
        | _ => allocate_extent_first_fit sto req ext
        end
      else ret (result, sto, ext) in
    let '(sto, ext) :=
      if result =? KES_SUCCESS then account_allocation sto req ext else (sto, ext) in
    let* (result, sto) :=
      if result =? KES_SUCCESS then persist_metadata sto else ret (result, sto) in
    flock_un (sto_fd sto) ;;;
    let* held := pthread_mutex_unlock held in
    ret (result, Some (set_held held sto), Some ext)
  | _, _, _ => ret (KES_ERROR_INVALID, storage, extent)
  end.

(** The double-free check: are all [n] blocks from [start + i] on allocated? *)
Fixpoint all_allocated (bitmap : option kes_bitmap) (start i : Z) (n : nat) : option bool :=
  match n with
  | O => Some true
  | S n' =>
      t ← kes_bitmap_test bitmap (u64 (start + i));
      if (t : bool) then all_allocated bitmap start (i + 1) n' else Some false
  end.

Definition account_free (sto : kes_storage) (ext : kes_extent_descriptor) : kes_storage :=
  let d := sto_desc sto in
  let t := sto_stats sto in
  set_stats (set_allocated (u64 (st_allocated_extents t - 1)) t)
    (set_desc (set_counts (u64 (desc_free_blocks d + ext_block_count ext))
                 (u64 (desc_used_blocks d - ext_block_count ext))
                 (desc_next_extent_id d) d) sto).

Definition kes_extent_free (storage : option kes_storage)
    (extent : option kes_extent_descriptor) : M (Z * option kes_storage) :=
  match storage, extent with
  | Some sto, Some ext =>
    if sto_readonly sto then ret (KES_ERROR_INVALID, storage)
    else
    let* held := pthread_mutex_lock (sto_lock sto) in
    let sto := set_held held sto in
    let* l := flock (sto_fd sto) LOCK_EX in
    if negb (l =? 0) then
      let* held := pthread_mutex_unlock held in
      ret (KES_ERROR_IO, Some (set_held held sto))
    else
    let finish (r : Z * kes_storage) :=
      flock_un (sto_fd (r.2)) ;;;
      let* held := pthread_mutex_unlock held in
      ret (r.1, Some (set_held held (r.2))) in
    let* (result, sto) := reload_metadata sto in
    if negb (result =? KES_SUCCESS) then finish (result, sto)
    else
    let* allocated := lift (all_allocated (sto_bitmap sto) (ext_start_block ext) 0
                              (Z.to_nat (ext_block_count ext))) in
    if negb allocated then finish (KES_ERROR_NOTFOUND, sto)
    else
    let* (result, bm) := lift (kes_bitmap_clear_range (sto_bitmap sto) (ext_start_block ext)
                                 (ext_block_count ext)) in
    let sto := set_bitmap bm sto in
    let sto := if result =? KES_SUCCESS then account_free sto ext else sto in
    let* r := if result =? KES_SUCCESS then persist_metadata sto else ret (result, sto) in
    finish r
  | _, _ => ret (KES_ERROR_INVALID, storage)
  end.

(** First byte of the extent in the file, and its size. *)
Definition extent_start_byte (d : kes_storage_descriptor) (ext : kes_extent_descriptor) : Z :=
  u64 (u64 (desc_user_start_block d + ext_start_block ext) * desc_block_size d).
Definition extent_size (d : kes_storage_descriptor) (ext : kes_extent_descriptor) : Z :=
  u64 (ext_block_count ext * desc_block_size d).

(** The code, the handle, and the bytes placed in the buffer. *)
Definition kes_extent_read (storage : option kes_storage)
    (extent : option kes_extent_descriptor) (buffer_ok : bool) (size offset : Z)
    : M (Z * option kes_storage * list Z) :=
  match storage, extent with
  | Some sto, Some ext =>
    if negb buffer_ok then ret (KES_ERROR_INVALID, storage, [])
    else
    let file_offset := i64 (extent_start_byte (sto_desc sto) ext + offset) in
    if extent_size (sto_desc sto) ext <? u64 (offset + size)
    then ret (KES_ERROR_INVALID, storage, [])
    else
    let* held := pthread_mutex_lock (sto_lock sto) in
    let sto := set_held held sto in
    let* off := lseek (sto_fd sto) file_offset in
    if negb (off =? file_offset) then
      let* held := pthread_mutex_unlock held in
      ret (KES_ERROR_IO, Some (set_held held sto), [])
    else
    let* (bytes_read, bs) := sys_read (sto_fd sto) size in
    if negb (bytes_read =? i64 size) then
      let* held := pthread_mutex_unlock held in
      ret (KES_ERROR_IO, Some (set_held held sto), bs)
    else
    let sto := set_stats (count_read size (sto_stats sto)) sto in
    let* held := pthread_mutex_unlock held in
    ret (KES_SUCCESS, Some (set_held held sto), bs)
  | _, _ => ret (KES_ERROR_INVALID, storage, [])
  end.

(** [buffer] is the memory the caller passes; reading [size] bytes from a
    smaller one is undefined. *)
Definition kes_extent_write (storage : option kes_storage)
    (extent : option kes_extent_descriptor) (buffer : option (list Z)) (size offset : Z)
    : M (Z * option kes_storage) :=
  match storage, extent, buffer with
  | Some sto, Some ext, Some buf =>
    if sto_readonly sto then ret (KES_ERROR_INVALID, storage)
    else
    let file_offset := i64 (extent_start_byte (sto_desc sto) ext + offset) in
    if extent_size (sto_desc sto) ext <? u64 (offset + size)
    then ret (KES_ERROR_INVALID, storage)
    else
    let* held := pthread_mutex_lock (sto_lock sto) in
    let sto := set_held held sto in
    let* off := lseek (sto_fd sto) file_offset in
    if negb (off =? file_offset) then
      let* held := pthread_mutex_unlock held in
      ret (KES_ERROR_IO, Some (set_held held sto))
    else if Z.of_nat (length buf) <? size then undefined
    else
    let* bytes_written := sys_write (sto_fd sto) (take (Z.to_nat size) buf) in
    if negb (bytes_written =? i64 size) then
      let* held := pthread_mutex_unlock held in
      ret (KES_ERROR_IO, Some (set_held held sto))
    else
    let sto := set_stats (count_write size (sto_stats sto)) sto in
    let* held := pthread_mutex_unlock held in
    ret (KES_SUCCESS, Some (set_held held sto))
  | _, _, _ => ret (KES_ERROR_INVALID, storage)
  end.

End with_crc.

(** ** Statistics and information *)

(** C's conversions between [uint64_t] and [double] (IEEE binary64, round to
    nearest even); converting a value outside [uint64_t] back is undefined. *)
Definition u64_to_double (z : Z) : spec_float := binary_normalize 53 1024 z 0 false.
Definition double_to_u64 (x : spec_float) : option Z :=
  match x with
  | S754_zero _ => Some 0
  | S754_finite s m e =>
      let t := if 0 <=? e then Z.pos m * 2 ^ e else Z.pos m / 2 ^ (- e) in
      if s then (if t =? 0 then Some 0 else None)
      else (if t <? 2 ^ 64 then Some t else None)
  | _ => None
  end.

(** [(uint64_t)(100.0 * (allocated_extents - 1) / used_blocks)]. *)
Definition fragmentation_of (allocated_extents used_blocks : Z) : option Z :=
  double_to_u64
    (SFdiv 53 1024
       (SFmul 53 1024 (u64_to_double 100) (u64_to_double (u64 (allocated_extents - 1))))
       (u64_to_double used_blocks)).

Definition kes_storage_get_stats (storage : option kes_storage) (stats_ok : bool)
    : M (Z * option kes_storage * option kes_storage_stats) :=
  match storage with
  | None => ret (KES_ERROR_INVALID, None, None)
  | Some sto =>
    if negb stats_ok then ret (KES_ERROR_INVALID, storage, None)
    else
    let* held := pthread_mutex_lock (sto_lock sto) in
    let sto := set_held held sto in
    let t := sto_stats sto in
    let d := sto_desc sto in
    let* fragmentation :=
      if (0 <? desc_used_blocks d) && (0 <? st_allocated_extents t)
      then lift (fragmentation_of (st_allocated_extents t) (desc_used_blocks d))
      else ret 0 in
    let stats := mkStats (desc_total_blocks d) (desc_free_blocks d) (desc_used_blocks d)
                   (st_allocated_extents t) fragmentation (st_reads_completed t)
                   (st_writes_completed t) (st_bytes_read t) (st_bytes_written t) in
    let* held := pthread_mutex_unlock held in
    ret (KES_SUCCESS, Some (set_held held sto), Some stats)
  end.

Definition kes_storage_get_descriptor (storage : option kes_storage) (descriptor_ok : bool)
    : M (Z * option kes_storage * option kes_storage_descriptor) :=
  match storage with
  | None => ret (KES_ERROR_INVALID, None, None)
  | Some sto =>
    if negb descriptor_ok then ret (KES_ERROR_INVALID, storage, None)
    else
    let* held := pthread_mutex_lock (sto_lock sto) in
    let* held := pthread_mutex_unlock held in
    ret (KES_SUCCESS, Some (set_held held sto), Some (sto_desc sto))
  end.

(** ** Utilities *)

(** What is stored through each non-null pointer. *)
Definition kes_get_version (major_ok minor_ok patch_ok : bool)
    : option Z * option Z * option Z :=
  (if major_ok then Some KES_VERSION_MAJOR else None,
   if minor_ok then Some KES_VERSION_MINOR else None,
   if patch_ok then Some KES_VERSION_PATCH else None).

Definition error_strings : list string :=
  ["Success"; "Invalid parameters"; "Out of memory"; "Resource not found";
   "Resource already exists"; "I/O error"; "No space available";
   "Data corruption detected"; "Resource busy"]%string.

(** Negating the least [int] is undefined. *)
Definition kes_get_error_string (error_code : Z) : option string :=
  if error_code =? - 2 ^ 31 then None
  else
    let index := - error_code in
    if (index <? 0) || (Z.of_nat (length error_strings) <=? index)
    then Some "Unknown error"%string
    else error_strings !! Z.to_nat index.

Definition kes_calculate_blocks_needed (byte_size block_size : Z) : option Z :=
  u32 <$> KES_BYTES_TO_BLOCKS byte_size block_size.

Definition kes_calculate_extent_size (extent : option kes_extent_descriptor) : Z :=
  match extent with
  | None => 0
  | Some e => u64 (ext_block_count e * KES_DEFAULT_BLOCK_SIZE)
  end.
