(* ===== verification/Layout.v ===== *)
(** * The storage file: layout, invariants, and how metadata I/O affects it

    A KES file is a descriptor in block 0, the user blocks, and the block
    bitmap.  This file defines when a file is well formed with respect to a
    descriptor's layout, the abstraction of its bitmap region, and shows that
    every complete or partial write of metadata respects both. *)
From S2P Require Import Prelude Types Posix PosixFacts Crc Bitmap BitmapFacts Codec Storage.

(** ** The fields that never change *)

Definition layout (d : kes_storage_descriptor) : Z * Z * Z * Z * Z * Z :=
  (desc_magic d, desc_version_major d, desc_block_size d, desc_bitmap_start_block d,
   desc_user_start_block d, desc_user_blocks d).

(** Bytes of the bitmap region that are used. *)
Definition map_bytes (d : kes_storage_descriptor) : Z := (desc_user_blocks d + 7) / 8.
(** Its offset, without wrap-around. *)
Definition map_offset (d : kes_storage_descriptor) : Z :=
  desc_bitmap_start_block d * desc_block_size d.

(** A layout whose parts do not overlap and whose offsets fit a file offset. *)
Record layout_ok (d : kes_storage_descriptor) : Prop := {
  lo_desc : desc_ok d;
  lo_magic : desc_magic d = KES_MAGIC_NUMBER;
  lo_version : desc_version_major d = KES_VERSION_MAJOR;
  lo_block : sizeof_desc <= desc_block_size d;
  lo_user_start : 1 <= desc_user_start_block d;
  lo_user_blocks : 0 < desc_user_blocks d < 2 ^ 62;
  lo_order : desc_user_start_block d + desc_user_blocks d <= desc_bitmap_start_block d;
  lo_end : map_offset d + map_bytes d < 2 ^ 63
}.

Lemma layout_eq d d' :
  layout d' = layout d ->
  desc_magic d' = desc_magic d /\ desc_version_major d' = desc_version_major d /\
  desc_block_size d' = desc_block_size d /\
  desc_bitmap_start_block d' = desc_bitmap_start_block d /\
  desc_user_start_block d' = desc_user_start_block d /\
  desc_user_blocks d' = desc_user_blocks d.
Proof. unfold layout. intros [=]. done. Qed.

Lemma layout_ok_transfer d d' : layout_ok d -> desc_ok d' -> layout d' = layout d -> layout_ok d'.
Proof.
  intros [] Hd (H1 & H2 & H3 & H4 & H5 & H6)%layout_eq.
  split; rewrite ?H1, ?H2, ?H3, ?H4, ?H5, ?H6; try done.
  unfold map_offset, map_bytes. by rewrite H3, H4, H6.
Qed.

Lemma layout_set_counts d a b c : layout (set_counts a b c d) = layout d.
Proof. done. Qed.
Lemma layout_set_checksum d c : layout (set_checksum c d) = layout d.
Proof. done. Qed.

Section layout_arith.
Context (d : kes_storage_descriptor) (Hd : layout_ok d).

Lemma map_bytes_pos : 0 < map_bytes d < 2 ^ 60.
Proof.
  destruct Hd. unfold map_bytes. split; [apply Z.div_str_pos; lia|].
  apply Z.div_lt_upper_bound; lia.
Qed.

Lemma map_bytes_cover : desc_user_blocks d <= 8 * map_bytes d < desc_user_blocks d + 8.
Proof.
  unfold map_bytes. pose proof (Z.div_mod (desc_user_blocks d + 7) 8 ltac:(lia)).
  pose proof (Z.mod_pos_bound (desc_user_blocks d + 7) 8 ltac:(lia)). lia.
Qed.

(** The bitmap lies past the descriptor block and past the user blocks. *)
Lemma map_offset_past :
  (desc_user_start_block d + desc_user_blocks d) * desc_block_size d <= map_offset d.
Proof. destruct Hd. unfold map_offset, sizeof_desc in *. nia. Qed.

Lemma map_offset_range : sizeof_desc < map_offset d < 2 ^ 63.
Proof.
  destruct Hd. pose proof map_bytes_pos. pose proof map_offset_past.
  unfold sizeof_desc in *. split; [nia|lia].
Qed.

Lemma bitmap_offset_exact : bitmap_offset d = map_offset d.
Proof.
  pose proof map_offset_range. unfold bitmap_offset.
  change (desc_bitmap_start_block d * desc_block_size d) with (map_offset d).
  unfold sizeof_desc in *. by wrap.
Qed.
End layout_arith.

Lemma bitmap_offset_layout d d' : layout d' = layout d -> bitmap_offset d' = bitmap_offset d.
Proof. intros (_ & _ & H3 & H4 & _)%layout_eq. unfold bitmap_offset. by rewrite H3, H4. Qed.

(** ** The bitmap region of a file *)

Definition disk_map (d : kes_storage_descriptor) (f : list Z) : list Z :=
  slice (Z.to_nat (map_offset d)) (Z.to_nat (map_bytes d)) f.

(** Is user block [i] allocated according to the file? *)
Definition disk_bit (d : kes_storage_descriptor) (f : list Z) (i : Z) : bool :=
  bit_at (disk_map d f) i.

Definition disk_used (d : kes_storage_descriptor) (f : list Z) : Z :=
  count_bits (disk_bit d f) (Z.to_nat (desc_user_blocks d)).

(** A file laid out as [d] says. *)
Record disk_ok (d : kes_storage_descriptor) (f : list Z) : Prop := {
  dk_bytes : Forall is_byte f;
  dk_length : map_offset d + map_bytes d <= Z.of_nat (length f);
  dk_layout : layout (decode_desc f) = layout d;
  dk_pad : forall i, desc_user_blocks d <= i < 8 * map_bytes d -> disk_bit d f i = false
}.

(** Moreover the descriptor's counters and checksum agree with the bitmap. *)
Record disk_sound `{Crc32c} (d : kes_storage_descriptor) (f : list Z) : Prop := {
  ds_ok : disk_ok d f;
  ds_used : desc_used_blocks (decode_desc f) = disk_used d f;
  ds_free : desc_free_blocks (decode_desc f) = desc_user_blocks d - disk_used d f;
  ds_crc : desc_bitmap_checksum (decode_desc f) = kfl_crc32c 0 (disk_map d f)
}.

Lemma disk_used_range d f :
  0 < desc_user_blocks d -> 0 <= disk_used d f <= desc_user_blocks d.
Proof.
  intros. pose proof (count_bits_range (disk_bit d f) (Z.to_nat (desc_user_blocks d))).
  unfold disk_used. lia.
Qed.

Lemma disk_ok_long d f : layout_ok d -> disk_ok d f -> (112 <= length f)%nat.
Proof.
  intros Hd [_ Hl _ _]. pose proof (map_offset_range d Hd). pose proof (map_bytes_pos d Hd).
  unfold sizeof_desc in *. lia.
Qed.

Lemma disk_desc_ok d f : layout_ok d -> disk_ok d f -> desc_ok (decode_desc f).
Proof.
  intros Hd Hf. apply decode_desc_ok; [apply Hf|by eapply disk_ok_long].
Qed.

(** ** Descriptors read or written in part *)

Lemma slice_slice p n m (l : list Z) :
  (p + n <= m)%nat -> slice p n (slice 0 m l) = slice p n l.
Proof.
  intros. unfold slice. rewrite drop_0, skipn_firstn_comm, take_take.
  f_equal. lia.
Qed.

(** Only the first 112 bytes matter. *)
Lemma decode_desc_prefix f : decode_desc (slice 0 112 f) = decode_desc f.
Proof. unfold decode_desc, field. by rewrite !slice_slice by lia. Qed.

Lemma decode_desc_ext f g : slice 0 112 f = slice 0 112 g -> decode_desc f = decode_desc g.
Proof. intros E. by rewrite <-(decode_desc_prefix f), E, decode_desc_prefix. Qed.

(** A field whose bytes two sequences share keeps them under any mixture. *)
Lemma field_mix p n k A B :
  Forall is_byte A -> Forall is_byte B -> (p + n <= length A <= length B)%nat ->
  field p n A = field p n B -> field p n (splice 0 (take k A) B) = field p n B.
Proof.
  intros HA HB Hlen Heq.
  assert (slice p n A = slice p n B) as Hs.
  { destruct (field_bytes p n A HA) as [<- _]; [lia|].
    destruct (field_bytes p n B HB) as [<- _]; [lia|]. by rewrite Heq. }
  unfold field. f_equal. apply list_eq. intros i.
  destruct (decide (i < n)%nat) as [Hi|Hi].
  - rewrite !lookup_slice by done.
    destruct (decide (p + i < length (take k A))%nat) as [Hk|Hk].
    + rewrite lookup_splice_in by lia. rewrite Nat.sub_0_r.
      rewrite length_take in Hk. rewrite lookup_take_lt by lia.
      apply (f_equal (.!! i)) in Hs. by rewrite !lookup_slice in Hs.
    + apply lookup_splice_out; [lia|]. right. lia.
  - rewrite !lookup_ge_None_2; [done| |];
      [pose proof (length_slice p n B)|pose proof (length_slice p n (splice 0 (take k A) B))]; lia.
Qed.

Lemma layout_mix k A B :
  Forall is_byte A -> Forall is_byte B -> length A = 112%nat -> (112 <= length B)%nat ->
  layout (decode_desc A) = layout (decode_desc B) ->
  layout (decode_desc (splice 0 (take k A) B)) = layout (decode_desc B).
Proof.
  intros HA HB HlA HlB (H1 & H2 & H3 & H4 & H5 & H6)%layout_eq.
  unfold layout, decode_desc in *. desc_proj.
  by rewrite !field_mix by (assumption || lia || (cbn; lia)).
Qed.

(** ** Bytes read or written in part *)

Lemma take_splice_lookup pos k bs l i :
  (pos + length bs <= length l)%nat ->
  splice pos (take k bs) l !! i = l !! i \/
  (pos <= i < pos + length bs)%nat /\ splice pos (take k bs) l !! i = bs !! (i - pos)%nat.
Proof.
  intros Hlen. destruct (decide (pos <= i < pos + length (take k bs))%nat) as [Hin|Hout].
  - right. rewrite length_take in Hin. split; [lia|].
    rewrite lookup_splice_in by (rewrite length_take; lia). by rewrite lookup_take_lt by lia.
  - left. destruct (decide (i < length l)%nat) as [Hi|Hi].
    + apply lookup_splice_out; lia.
    + rewrite !lookup_ge_None_2; [done|lia|]. rewrite length_splice, length_take. lia.
Qed.

(** Effect of a (possibly partial) write of the bitmap on the bitmap region:
    every bit is the old or the new one. *)
Lemma disk_bit_map_write d f data k i :
  layout_ok d -> disk_ok d f -> Z.of_nat (length data) = map_bytes d -> 0 <= i ->
  disk_bit d (splice (Z.to_nat (map_offset d)) (take k data) f) i = disk_bit d f i \/
  disk_bit d (splice (Z.to_nat (map_offset d)) (take k data) f) i = bit_at data i.
Proof.
  intros Hd [_ Hl _ _] Hlen Hi. pose proof (map_bytes_pos d Hd). pose proof (map_offset_range d Hd).
  pose proof (Z.div_pos i 8 Hi ltac:(lia)). unfold sizeof_desc in *.
  unfold disk_bit, disk_map, bit_at.
  destruct (decide (i / 8 < map_bytes d)) as [Hlt|Hge].
  - rewrite !lookup_slice by lia.
    destruct (take_splice_lookup (Z.to_nat (map_offset d)) k data f
                (Z.to_nat (map_offset d) + Z.to_nat (i / 8))) as [->|[_ ->]]; [lia|by left|].
    right. do 3 f_equal. lia.
  - left. rewrite !lookup_ge_None_2; [done| |];
      [pose proof (length_slice (Z.to_nat (map_offset d)) (Z.to_nat (map_bytes d)) f)
      |pose proof (length_slice (Z.to_nat (map_offset d)) (Z.to_nat (map_bytes d))
         (splice (Z.to_nat (map_offset d)) (take k data) f))]; lia.
Qed.

(** The region a write at [pos] leaves alone. *)
Definition user_area_same (d : kes_storage_descriptor) (f f' : list Z) : Prop :=
  forall p n, (112 <= p)%nat -> (p + n <= Z.to_nat (map_offset d))%nat ->
  slice p n f' = slice p n f.

#[export] Instance user_area_same_preorder d : PreOrder (user_area_same d).
Proof. split; [by intros ? ?|]. intros f g h H1 H2 p n Hp Hn. by rewrite H2, H1. Qed.

(** Descriptor writes (whole or partial) touch neither area past byte 112. *)
Lemma desc_write_area p n bs f :
  (112 <= p)%nat -> (length bs <= 112)%nat -> (p + n <= length f)%nat ->
  slice p n (splice 0 bs f) = slice p n f.
Proof. intros. apply slice_splice_disjoint; [done|lia]. Qed.

Lemma disk_map_desc_write d f bs :
  layout_ok d -> disk_ok d f -> (length bs <= 112)%nat ->
  disk_map d (splice 0 bs f) = disk_map d f.
Proof.
  intros Hd [_ Hl _ _] Hbs. pose proof (map_bytes_pos d Hd). pose proof (map_offset_range d Hd).
  unfold sizeof_desc in *. apply desc_write_area; lia.
Qed.

Lemma map_write_area d f data p n :
  layout_ok d -> disk_ok d f -> (p + n <= Z.to_nat (map_offset d))%nat ->
  slice p n (splice (Z.to_nat (map_offset d)) data f) = slice p n f.
Proof.
  intros Hd [_ Hl _ _] Hp. pose proof (map_bytes_pos d Hd). pose proof (map_offset_range d Hd).
  unfold sizeof_desc in *. apply slice_splice_disjoint; lia.
Qed.

(** A whole bitmap written at its place is what the region then holds. *)
Lemma disk_map_map_write d f data :
  Z.of_nat (length data) = map_bytes d ->
  disk_map d (splice (Z.to_nat (map_offset d)) data f) = data.
Proof.
  intros Hlen. unfold disk_map. replace (Z.to_nat (map_bytes d)) with (length data) by lia.
  apply slice_splice_same.
Qed.

(** ** Metadata writes preserve well-formedness, complete or cut short *)

Section writes.
Context (d : kes_storage_descriptor) (f : list Z).
Context (Hd : layout_ok d) (Hf : disk_ok d f).

Lemma disk_ok_map_write data k :
  Forall is_byte data -> Z.of_nat (length data) = map_bytes d ->
  (forall i, desc_user_blocks d <= i < 8 * map_bytes d -> bit_at data i = false) ->
  disk_ok d (splice (Z.to_nat (map_offset d)) (take k data) f).
Proof using Hd Hf.
  intros Hdata Hlen Hpad. pose proof (map_offset_range d Hd). pose proof (map_bytes_pos d Hd).
  pose proof (disk_ok_long d f Hd Hf). unfold sizeof_desc in *.
  pose proof Hf as [Hb Hl Hlay Hp]. split.
  - apply Forall_splice; [apply is_byte_0|by apply Forall_take|done].
  - rewrite length_splice. lia.
  - rewrite <-Hlay. f_equal. apply decode_desc_ext. apply map_write_area; [done..|lia].
  - intros i Hi. pose proof (lo_user_blocks _ Hd).
    destruct (disk_bit_map_write d f data k i) as [->| ->]; auto; lia.
Qed.

Lemma disk_ok_desc_write d' k :
  desc_ok d' -> layout d' = layout d ->
  disk_ok d (splice 0 (take k (encode_desc d')) f).
Proof using Hd Hf.
  intros Hd' Hlay'. pose proof (disk_ok_long d f Hd Hf) as Hlong.
  pose proof Hf as [Hb Hl Hlay Hp].
  pose proof (length_encode_desc d' (proj1 (ok_reserved _ Hd'))) as Hlen.
  assert (length (take k (encode_desc d')) <= 112)%nat by (rewrite length_take; lia).
  split.
  - apply Forall_splice; [apply is_byte_0|by apply Forall_take, encode_desc_bytes|done].
  - rewrite length_splice. lia.
  - rewrite <-Hlay. apply layout_mix; auto using encode_desc_bytes.
    by rewrite decode_encode_desc, Hlay'.
  - intros i Hi. unfold disk_bit. rewrite disk_map_desc_write by done. by apply Hp.
Qed.

(** After a complete descriptor write the file's descriptor is the one written. *)
Lemma decode_desc_write d' :
  desc_ok d' -> decode_desc (splice 0 (encode_desc d') f) = d'.
Proof.
  intros Hd'. pose proof (length_encode_desc d' (proj1 (ok_reserved _ Hd'))) as Hlen.
  rewrite <-(decode_encode_desc d') at 2 by done. apply decode_desc_ext.
  rewrite <-Hlen at 1. rewrite slice_splice_same. by rewrite <-Hlen, slice_all.
Qed.
End writes.

(** ** The in-memory bitmap matching a layout *)

Definition bitmap_of (d : kes_storage_descriptor) (bm : kes_bitmap) : Prop :=
  bm_shape bm /\ bm_total_bits bm = desc_user_blocks d.

Lemma bitmap_of_bytes d bm :
  bitmap_of d bm ->
  bm_total_bytes bm = map_bytes d /\ Z.of_nat (length (bm_data bm)) = map_bytes d.
Proof. intros [[? Hb Hl ?] Ht]. rewrite Hl, Hb, Ht. done. Qed.

Lemma bitmap_of_layout d d' bm : layout d' = layout d -> bitmap_of d bm -> bitmap_of d' bm.
Proof. intros (_ & _ & _ & _ & _ & H6)%layout_eq [? ?]. split; congruence. Qed.

(** The bitmap that a reload of [f] leaves in memory. *)
Lemma reloaded_bitmap d f bm :
  layout_ok d -> disk_ok d f -> bitmap_of d bm ->
  bitmap_of d (reloaded bm (disk_map d f)) /\ bm_wf (reloaded bm (disk_map d f)) /\
  (forall i, bm_bit (reloaded bm (disk_map d f)) i = disk_bit d f i).
Proof.
  intros Hd [Hb Hl _ Hp] Hbm. pose proof (bitmap_of_bytes d bm Hbm) as [Htb Hlen].
  destruct Hbm as [Hs Ht]. pose proof (map_bytes_pos d Hd). pose proof (map_offset_range d Hd).
  unfold sizeof_desc in *.
  assert (length (disk_map d f) = length (bm_data bm)) as Hlm.
  { unfold disk_map. rewrite length_slice_exact by lia. lia. }
  assert (bm_shape (reloaded bm (disk_map d f))) as Hs'
    by (apply shape_with_data; [done|done|by apply Forall_slice]).
  assert (forall i, bm_total_bits (reloaded bm (disk_map d f)) <= i <
            8 * bm_total_bytes (reloaded bm (disk_map d f)) ->
            bm_bit (reloaded bm (disk_map d f)) i = false) as Hpad.
  { intros i Hi. apply Hp. cbn in Hi. lia. }
  split_and!; [by split| |done]. split; [done|done|].
  pose proof (data_used_wf _ Hs' Hpad) as Hu. pose proof (bm_used_range _ (proj1 (sh_total _ Hs'))).
  pose proof (sh_total _ Hs) as Htot. cbn in *. rewrite Hu. rewrite u64_small; [done|lia].
Qed.

(** The number of blocks in use, in memory and on disk. *)
Lemma bm_used_disk d f bm :
  bitmap_of d bm -> (forall i, bm_bit bm i = disk_bit d f i) -> bm_used bm = disk_used d f.
Proof.
  intros [_ Ht] Hb. unfold bm_used, disk_used. rewrite Ht.
  apply count_bits_ext. intros i _. apply Hb.
Qed.
