(* ===== verification/StorageFacts.v ===== *)
(** * What the storage operations do

    Specifications of the functions of [Storage], for every script of faults:
    each operation returns (no undefined behaviour, no deadlock), releases its
    locks, keeps the file well formed, and changes exactly what it should. *)
From S2P Require Import Prelude Types Posix PosixFacts Crc Bitmap BitmapFacts Codec Storage Layout.

(** ** Handles *)

(** A handle on a storage laid out as [d]. *)
Record handle_ok (d : kes_storage_descriptor) (sto : kes_storage) : Prop := {
  h_fd : 0 <= sto_fd sto;
  h_desc : desc_ok (sto_desc sto);
  h_layout : layout (sto_desc sto) = layout d;
  h_bitmap : exists bm, sto_bitmap sto = Some bm /\ bitmap_of d bm
}.

(** Descriptor [fd] is open on [path], whose content is [f]. *)
Definition on_file (w : world) (fd : Z) (path : string) (wr : bool)
    (lk : option lock_mode) (f : list Z) : Prop :=
  fd_attrs w !! fd = Some (path, wr, lk) /\ w_files w !! path = Some f.

Lemma on_file_same w w' fd path wr lk f :
  same_world w w' -> on_file w fd path wr lk f -> on_file w' fd path wr lk f.
Proof. intros [Hf Ha _ _] [H1 H2]. split; congruence. Qed.

Lemma on_file_written w w' fd path wr lk f f' :
  evolves w w' (<[path := f']> (w_files w)) (fd_attrs w) ->
  on_file w fd path wr lk f -> on_file w' fd path wr lk f'.
Proof.
  intros [Hf Ha _ _] [H1 H2]. split; [congruence|]. rewrite Hf. apply lookup_insert_eq.
Qed.

Lemma written_same w w' fd path wr lk f :
  on_file w fd path wr lk f -> same_world w w' ->
  evolves w w' (<[path := f]> (w_files w)) (fd_attrs w).
Proof. intros [_ Hf] Hw. by rewrite insert_id. Qed.

Lemma written_trans w w1 w2 path f1 f2 at2 :
  evolves w w1 (<[path := f1]> (w_files w)) (fd_attrs w) ->
  evolves w1 w2 (<[path := f2]> (w_files w1)) at2 ->
  evolves w w2 (<[path := f2]> (w_files w)) at2.
Proof.
  intros H1 H2. eapply evolves_trans; [exact H1|]. destruct H1 as [E1 _ _ _].
  rewrite E1 in H2. by rewrite insert_insert_eq in H2.
Qed.

Lemma set_desc_id sto : set_desc (sto_desc sto) sto = sto.
Proof. by destruct sto. Qed.

#[export] Hint Resolve on_file_same on_file_written : posix.

(** ** Loading and saving the descriptor *)

Definition load_desc_post (w : world) (old : kes_storage_descriptor) (f : list Z)
    (code : Z) (d' : kes_storage_descriptor) : Prop :=
  (code = KES_SUCCESS /\ (112 <= length f)%nat /\ d' = decode_desc f /\
   desc_magic d' = KES_MAGIC_NUMBER /\ desc_version_major d' = KES_VERSION_MAJOR) \/
  (code = KES_ERROR_CORRUPT /\ (112 <= length f)%nat /\ d' = decode_desc f /\
   (desc_magic d' ≠ KES_MAGIC_NUMBER \/ desc_version_major d' ≠ KES_VERSION_MAJOR)) \/
  (code = KES_ERROR_IO /\ (quiet w -> (length f < 112)%nat) /\
   (d' = old \/
    exists m, (m <= 112)%nat /\ d' = decode_desc (splice 0 (take m f) (encode_desc old)))).

Lemma read_desc_mix old f m :
  desc_ok old -> Forall is_byte f -> (m <= 112)%nat ->
  desc_ok (decode_desc (splice 0 (take m f) (encode_desc old))).
Proof.
  intros Hold Hf Hm. apply decode_desc_ok.
  - apply Forall_splice; [apply is_byte_0|by apply Forall_take|by apply encode_desc_bytes].
  - rewrite length_splice. pose proof (length_encode_desc old (proj1 (ok_reserved _ Hold))). lia.
Qed.

Lemma read_desc_full old f :
  desc_ok old -> (112 <= length f)%nat ->
  decode_desc (splice 0 (take 112 f) (encode_desc old)) = decode_desc f.
Proof.
  intros Hold Hf. apply decode_desc_ext.
  assert (length (take 112 f) = 112%nat) as Hl by (rewrite length_take; lia).
  rewrite <-Hl at 1. rewrite slice_splice_same. unfold slice. by rewrite drop_0.
Qed.

Lemma load_desc_spec sto w path wr lk f (Q : Z * kes_storage -> world -> Prop) :
  desc_ok (sto_desc sto) -> on_file w (sto_fd sto) path wr lk f -> Forall is_byte f ->
  (forall w' code d', same_world w w' -> desc_ok d' ->
     load_desc_post w (sto_desc sto) f code d' -> Q (code, set_desc d' sto) w') ->
  wp (load_storage_descriptor sto) w Q.
Proof.
  intros Hd [Ha Hfile] Hf HQ. unfold load_storage_descriptor.
  apply (wp_seek_read (sto_fd sto) 0 sizeof_desc w (path, wr, lk) f); [done|done|done|done| |].
  { intros w' Hw Hq. wp_ret. rewrite <-(set_desc_id sto). apply HQ; [done|done|].
    right; right. split_and!; [done|by intros|by left]. }
  intros w' k bs Hw Hout. cbn [fst snd]. set (d' := decode_desc _).
  assert (exists m, (m <= 112)%nat /\ bs = take m f /\ (k = sizeof_desc -> m = 112%nat /\ (112 <= length f)%nat) /\
            (k ≠ sizeof_desc -> quiet w -> (length f < 112)%nat)) as (m & Hm & -> & Hfull & Hshort).
  { unfold sizeof_desc in *. destruct Hout as [(-> & -> & Hq)|(m & Hm & -> & -> & Hq)].
    - exists 0%nat. split_and!; [lia|by rewrite take_0|lia|by intros].
    - exists (Z.to_nat m). unfold slice. rewrite drop_0, length_take. split_and!; [lia|done|lia|].
      intros Hk Hquiet. destruct (Z.lt_ge_cases m 112); [by destruct Hq|lia]. }
  assert (desc_ok d') as Hd' by (by apply read_desc_mix).
  destruct (Z.eqb_spec k sizeof_desc) as [Hk|Hk]; cbn [negb].
  - destruct (Hfull Hk) as [-> Hlen].
    assert (d' = decode_desc f) as Hd'f by (by apply read_desc_full).
    destruct (Z.eqb_spec (desc_magic d') KES_MAGIC_NUMBER); cbn [negb];
      [destruct (Z.eqb_spec (desc_version_major d') KES_VERSION_MAJOR); cbn [negb]|];
      wp_ret; (apply HQ; [done|done|]).
    + left. by split_and!.
    + right; left. split_and!; [done..|by right].
    + right; left. split_and!; [done..|by left].
  - wp_ret. apply HQ; [done|done|]. right; right. split_and!; [done|by apply Hshort|].
    right. by exists m.
Qed.

(** On a well-formed file the load succeeds unless a fault intervenes, and in
    every case the handle keeps its layout. *)
Lemma load_desc_disk d w old f code d' :
  layout_ok d -> disk_ok d f -> desc_ok old -> layout old = layout d ->
  load_desc_post w old f code d' ->
  layout d' = layout d /\
  ((code = KES_SUCCESS /\ d' = decode_desc f) \/ (code = KES_ERROR_IO /\ ~ quiet w)).
Proof.
  intros Hd Hf Hold Hlay Hpost. pose proof (disk_ok_long d f Hd Hf) as Hlen.
  pose proof (dk_layout _ _ Hf) as Hfl.
  pose proof (layout_eq _ _ Hfl) as (Hm & Hv & _).
  rewrite (lo_magic _ Hd) in Hm. rewrite (lo_version _ Hd) in Hv.
  destruct Hpost as [(-> & _ & -> & _)|[(-> & _ & -> & [?|?])|(-> & Hq & Hmix)]]; [|done..|].
  - split; [done|by left].
  - assert (~ quiet w) as Hnq by (intros Hquiet; specialize (Hq Hquiet); lia).
    split; [|by right]. destruct Hmix as [->|(m & Hm112 & ->)]; [done|].
    rewrite <-Hlay. pose proof (length_encode_desc old (proj1 (ok_reserved _ Hold))) as Hl.
    replace (take m f) with (take m (slice 0 112 f)).
    2:{ unfold slice. rewrite drop_0, take_take. f_equal. lia. }
    rewrite layout_mix.
    + by rewrite decode_encode_desc.
    + apply Forall_slice, Hf.
    + by apply encode_desc_bytes.
    + by apply length_slice_exact.
    + lia.
    + by rewrite decode_desc_prefix, decode_encode_desc, Hfl.
Qed.

Lemma save_desc_spec sto w path lk f (Q : Z -> world -> Prop) :
  desc_ok (sto_desc sto) -> on_file w (sto_fd sto) path true lk f ->
  (forall w' code f', evolves w w' (<[path := f']> (w_files w)) (fd_attrs w) ->
     save_post w (encode_desc (sto_desc sto)) f 0 code f' -> Q code w') ->
  wp (save_storage_descriptor sto) w Q.
Proof.
  intros Hd [Ha Hfile] HQ. unfold save_storage_descriptor.
  pose proof (length_encode_desc _ (proj1 (ok_reserved _ Hd))) as Hl.
  apply (wp_seek_write (sto_fd sto) 0 (encode_desc (sto_desc sto)) w path lk f); [done|done|done| | |].
  { intros E. by rewrite E in Hl. }
  { intros w' Hw Hq. wp_ret. apply (HQ _ _ f); [by rewrite insert_id|]. right. auto. }
  intros w' k f' Hw Hout. apply write_outcome_save in Hout. rewrite Hl in Hout.
  change (Z.of_nat 112) with sizeof_desc in Hout.
  destruct (Z.eqb_spec k sizeof_desc); cbn [negb]; wp_ret; by eapply HQ.
Qed.

(** ** Reloading the metadata *)

(** The handle a successful reload of [f] produces. *)
Definition reloaded_handle (d : kes_storage_descriptor) (f : list Z) (bm : kes_bitmap)
    (sto : kes_storage) : kes_storage :=
  set_bitmap (Some (reloaded bm (disk_map d f))) (set_desc (decode_desc f) sto).

(** Only descriptor and bitmap may have moved. *)
Definition same_handle (sto sto' : kes_storage) : Prop :=
  sto' = set_desc (sto_desc sto') (set_bitmap (sto_bitmap sto') sto).

#[export] Instance same_handle_preorder : PreOrder same_handle.
Proof.
  split; [by intros []|]. intros x y z Hy Hz. unfold same_handle in *.
  rewrite Hz, Hy. done.
Qed.

Lemma same_handle_fd sto sto' : same_handle sto sto' -> sto_fd sto' = sto_fd sto.
Proof. unfold same_handle. by intros ->. Qed.

Lemma handle_ok_set d sto d' bm :
  handle_ok d sto -> desc_ok d' -> layout d' = layout d -> bitmap_of d bm ->
  handle_ok d (set_bitmap (Some bm) (set_desc d' sto)).
Proof. intros [] ? ? ?. split; cbn; eauto. Qed.

Lemma handle_ok_set_desc d sto d' :
  handle_ok d sto -> desc_ok d' -> layout d' = layout d -> handle_ok d (set_desc d' sto).
Proof. intros [] ? ?. by split. Qed.

Lemma reload_spec d sto w path wr lk f (Q : Z * kes_storage -> world -> Prop) :
  layout_ok d -> handle_ok d sto -> on_file w (sto_fd sto) path wr lk f -> disk_ok d f ->
  (forall w' code sto', same_world w w' -> handle_ok d sto' -> same_handle sto sto' ->
     (code = KES_SUCCESS /\
        exists bm, sto_bitmap sto = Some bm /\ bitmap_of d bm /\
                   sto' = reloaded_handle d f bm sto) \/
     (code = KES_ERROR_IO /\ ~ quiet w) ->
     Q (code, sto') w') ->
  wp (reload_metadata sto) w Q.
Proof.
  intros Hd Hh Hon Hf HQ. pose proof Hh as [Hfd Hdesc Hlay (bm & Hbm & Hof)].
  unfold reload_metadata. wp_bind. eapply load_desc_spec; [done|done|apply Hf|].
  intros w1 code d1 Hw1 Hd1 Hpost.
  destruct (load_desc_disk d _ _ _ _ _ Hd Hf Hdesc Hlay Hpost) as [Hlay1 [[-> ->]|[-> Hq]]].
  2:{ wp_ret. apply HQ; [done|by apply handle_ok_set_desc|done|by right]. }
  rewrite Z.eqb_refl. wp_bind. cbn [sto_bitmap sto_fd sto_desc set_desc]. rewrite Hbm.
  pose proof (map_offset_range d Hd) as Hr. unfold sizeof_desc in Hr.
  rewrite (bitmap_offset_layout d) by done. rewrite bitmap_offset_exact by done.
  pose proof (on_file_same _ _ _ _ _ _ _ Hw1 Hon) as [Ha1 Hf1].
  eapply kes_bitmap_load_spec; [apply Hof|done|lia|exact Ha1|exact Hf1|apply Hf|].
  intros w2 code bm' Hw2 (Hs' & (Ht & _) & Hload). wp_ret.
  pose proof (bitmap_of_bytes d bm Hof) as [Htb _].
  apply HQ.
  - eapply evolves_trans; [exact Hw1|]. destruct Hw1 as [<- <- _ _]. done.
  - apply handle_ok_set; [done|done|done|]. split; [done|]. rewrite Ht. apply Hof.
  - done.
  - destruct Hload as [(-> & _ & ->)|(-> & Hnq)].
    + left. split; [done|]. exists bm. split_and!; [done|done|].
      unfold reloaded_handle, disk_map. by rewrite <-Htb.
    + right. split; [done|]. intros Hquiet. pose proof (dk_length _ _ Hf).
      pose proof (ev_quiet _ _ _ _ Hw1 Hquiet) as Hq1. specialize (Hnq Hq1). lia.
Qed.

(** ** Writing the metadata back *)

Section with_crc.
Context `{Crc32c}.

Lemma desc_ok_checksum d bs : desc_ok d -> desc_ok (set_checksum (kfl_crc32c 0 bs) d).
Proof.
  intros []. split; cbn; try done. pose proof (kfl_crc32c_range 0 bs). lia.
Qed.

(** What a write-back leaves on disk: all of the new bitmap, or a mixture of
    the old bits and the new ones; never anything else. *)
Record persist_post (d : kes_storage_descriptor) (sto : kes_storage) (bm : kes_bitmap)
    (f : list Z) (noisy : Prop) (code : Z) (sto' : kes_storage) (f' : list Z) : Prop := {
  pp_disk : disk_ok d f';
  pp_area : user_area_same d f f';
  pp_bits : forall i, 0 <= i -> disk_bit d f' i = disk_bit d f i \/ disk_bit d f' i = bm_bit bm i;
  pp_handle : handle_ok d sto';
  pp_same : same_handle sto sto';
  pp_code : code = KES_SUCCESS \/ code = KES_ERROR_IO /\ noisy;
  pp_bitmap : sto_bitmap sto' = Some bm;
  pp_done : code = KES_SUCCESS ->
    sto_desc sto' = set_checksum (kfl_crc32c 0 (bm_data bm)) (sto_desc sto) /\
    disk_map d f' = bm_data bm /\ decode_desc f' = sto_desc sto'
}.

Lemma refresh_checksum_spec sto bm w (Q : Z * kes_storage -> world -> Prop) :
  sto_bitmap sto = Some bm -> bm_shape bm ->
  Q (KES_SUCCESS, set_desc (set_checksum (kfl_crc32c 0 (bm_data bm)) (sto_desc sto)) sto) w ->
  wp (refresh_checksum sto) w Q.
Proof.
  intros Hbm Hs HQ. unfold refresh_checksum. wp_bind. rewrite Hbm.
  eapply wp_lift; [by apply kes_bitmap_checksum_spec|]. by wp_ret.
Qed.

(** The bitmap step of the write-back. *)
Lemma save_bitmap_disk d w f bm code f1 :
  layout_ok d -> disk_ok d f -> bitmap_of d bm -> bm_wf bm ->
  save_post w (bm_data bm) f (map_offset d) code f1 ->
  disk_ok d f1 /\ user_area_same d f f1 /\
  (forall i, 0 <= i -> disk_bit d f1 i = disk_bit d f i \/ disk_bit d f1 i = bm_bit bm i) /\
  decode_desc f1 = decode_desc f /\
  (code = KES_SUCCESS /\ disk_map d f1 = bm_data bm \/ code = KES_ERROR_IO /\ ~ quiet w).
Proof.
  intros Hd Hf Hof Hwf Hpost. pose proof (bitmap_of_bytes d bm Hof) as [Htb Hlen].
  pose proof (map_offset_range d Hd). unfold sizeof_desc in *.
  assert (forall i, desc_user_blocks d <= i < 8 * map_bytes d -> bit_at (bm_data bm) i = false) as Hp.
  { intros i Hi. apply (wf_pad _ Hwf). destruct Hof as [_ ->]. lia. }
  assert (forall k, let g := splice (Z.to_nat (map_offset d)) (take k (bm_data bm)) f in
    disk_ok d g /\ user_area_same d f g /\
    (forall i, 0 <= i -> disk_bit d g i = disk_bit d f i \/ disk_bit d g i = bm_bit bm i) /\
    decode_desc g = decode_desc f) as Hgen.
  { intros k g. split_and!.
    - apply disk_ok_map_write; [done|done| |done|done].
      apply (sh_byte _ (proj1 Hof)).
    - intros p n _ Hn. by apply map_write_area.
    - intros i Hi. by apply disk_bit_map_write.
    - apply decode_desc_ext, map_write_area; [done..|lia]. }
  destruct Hpost as [[-> ->]|(-> & Hq & [->|[m ->]])].
  - specialize (Hgen (length (bm_data bm))). rewrite firstn_all in Hgen.
    destruct Hgen as (? & ? & ? & ?). split_and!; [done..|]. left. split; [done|].
    by apply disk_map_map_write.
  - split_and!; [done|done| |done|by right]. intros. by left.
  - destruct (Hgen m) as (? & ? & ? & ?). split_and!; [done..|by right].
Qed.

(** The descriptor step. *)
Lemma save_desc_disk d w f d' code f1 :
  layout_ok d -> disk_ok d f -> desc_ok d' -> layout d' = layout d ->
  save_post w (encode_desc d') f 0 code f1 ->
  disk_ok d f1 /\ user_area_same d f f1 /\ disk_map d f1 = disk_map d f /\
  (code = KES_SUCCESS /\ decode_desc f1 = d' \/ code = KES_ERROR_IO /\ ~ quiet w).
Proof.
  intros Hd Hf Hd' Hlay Hpost. pose proof (disk_ok_long d f Hd Hf) as Hlong.
  pose proof (length_encode_desc _ (proj1 (ok_reserved _ Hd'))) as Hl.
  pose proof (dk_length _ _ Hf). pose proof (map_offset_range d Hd). pose proof (map_bytes_pos d Hd).
  unfold sizeof_desc in *.
  assert (forall k, let g := splice 0 (take k (encode_desc d')) f in
    disk_ok d g /\ user_area_same d f g /\ disk_map d g = disk_map d f) as Hgen.
  { intros k g. assert (length (take k (encode_desc d')) <= 112)%nat by (rewrite length_take; lia).
    split_and!.
    - by apply disk_ok_desc_write.
    - intros p n Hp Hn. apply desc_write_area; [done|done|lia].
    - by apply disk_map_desc_write. }
  destruct Hpost as [[-> ->]|(-> & Hq & [->|[m ->]])].
  - change (Z.to_nat 0) with 0%nat. specialize (Hgen 112%nat).
    rewrite <-Hl, firstn_all in Hgen. destruct Hgen as (? & ? & ?). split_and!; [done..|].
    left. split; [done|]. by apply decode_desc_write.
  - split_and!; [done|done|done|by right].
  - destruct (Hgen m) as (? & ? & ?). split_and!; [done..|by right].
Qed.

Lemma persist_spec d sto bm w path lk f (Q : Z * kes_storage -> world -> Prop) :
  layout_ok d -> handle_ok d sto -> sto_bitmap sto = Some bm -> bm_wf bm ->
  on_file w (sto_fd sto) path true lk f -> disk_ok d f ->
  (forall w' code sto' f', evolves w w' (<[path := f']> (w_files w)) (fd_attrs w) ->
     persist_post d sto bm f (~ quiet w) code sto' f' -> Q (code, sto') w') ->
  wp (persist_metadata sto) w Q.
Proof.
  intros Hd Hh Hbm Hwf Hon Hf HQ.
  pose proof Hh as [Hfd Hdesc Hlay (bm' & Hbm' & Hof)].
  assert (bm' = bm) as -> by congruence. clear Hbm'.
  pose proof (map_offset_range d Hd) as Hr. unfold sizeof_desc in Hr.
  unfold persist_metadata. wp_bind. rewrite Hbm.
  rewrite (bitmap_offset_layout d), bitmap_offset_exact by done.
  destruct Hon as [Ha Hfile].
  eapply kes_bitmap_save_spec; [apply Hof|done|lia|done|done|].
  intros w1 code f1 Hw1 Hpost.
  destruct (save_bitmap_disk d w f bm code f1 Hd Hf Hof Hwf Hpost) as (Hf1 & Har1 & Hb1 & Hdd1 & Hres).
  destruct Hres as [[-> Hmap1]|[-> Hq]].
  2:{ wp_ret. apply (HQ _ _ _ f1); [done|].
      split; [done|done|done|done|done|by right|done|done]. }
  rewrite Z.eqb_refl. cbn [negb]. wp_bind.
  eapply refresh_checksum_spec; [done|apply Hof|]. rewrite Z.eqb_refl. cbn [negb].
  set (d1 := set_checksum (kfl_crc32c 0 (bm_data bm)) (sto_desc sto)).
  assert (desc_ok d1) as Hd1 by (by apply desc_ok_checksum).
  assert (handle_ok d (set_desc d1 sto)) as Hh1 by (by apply handle_ok_set_desc).
  wp_bind. eapply (save_desc_spec (set_desc d1 sto) w1 path lk f1); [done| |].
  { split; cbn [set_desc sto_fd]; [by destruct Hw1 as [_ -> _ _]|].
    destruct Hw1 as [-> _ _ _]. apply lookup_insert_eq. }
  intros w2 code f2 Hw2 Hpost2. cbn [set_desc sto_desc] in Hpost2.
  destruct (save_desc_disk d w1 f1 d1 code f2 Hd Hf1 Hd1 Hlay Hpost2) as (Hf2 & Har2 & Hmap2 & Hres2).
  assert (evolves w w2 (<[path := f2]> (w_files w)) (fd_attrs w)) as Hw02.
  { eapply written_trans; [exact Hw1|]. by destruct Hw1 as [_ <- _ _]. }
  assert (forall code', (code' = KES_SUCCESS /\ decode_desc f2 = d1) \/
            (code' = KES_ERROR_IO /\ ~ quiet w) ->
            persist_post d sto bm f (~ quiet w) code' (set_desc d1 sto) f2) as Hpp.
  { intros code' Hc. split; [done|by etrans| |done|done| |done|].
    - intros i Hi. unfold disk_bit at 1 3. rewrite Hmap2. by apply Hb1.
    - destruct Hc as [[? ?]|[? ?]]; auto.
    - intros ->. destruct Hc as [[_ Hdec]|[? _]]; [|done]. by rewrite Hmap2. }
  destruct Hres2 as [[-> Hdec2]|[-> Hq]].
  2:{ wp_ret. apply (HQ _ _ _ f2); [done|]. apply Hpp. right. split; [done|].
      exact (noisy_back _ _ _ _ Hw1 Hq). }
  rewrite Z.eqb_refl. cbn [negb]. wp_bind. apply wp_fsync.
  - intros w3 Hw3. wp_ret. apply (HQ _ _ _ f2).
    + eapply evolves_trans; [exact Hw02|]. by destruct Hw02 as [<- <- _ _].
    + rewrite Z.eqb_refl. apply Hpp. by left.
  - intros w3 Hw3 Hq. wp_ret. apply (HQ _ _ _ f2).
    + eapply evolves_trans; [exact Hw02|]. by destruct Hw02 as [<- <- _ _].
    + change (-1 =? 0) with false. apply Hpp. right. split; [done|].
      exact (noisy_back _ _ _ _ Hw02 Hq).
Qed.

(** ** Critical sections *)

(** Lock, work on the file, unlock: the descriptor table ends as it began. *)
Lemma locked_evolves w w1 w2 w3 fd path f' :
  fd_attrs w !! fd = Some (path, true, None) ->
  evolves w w1 (w_files w) (<[fd := (path, true, Some LOCK_EX)]> (fd_attrs w)) ->
  evolves w1 w2 (<[path := f']> (w_files w1)) (fd_attrs w1) ->
  evolves w2 w3 (w_files w2) (<[fd := (path, true, None)]> (fd_attrs w2)) ->
  evolves w w3 (<[path := f']> (w_files w)) (fd_attrs w).
Proof.
  intros Ha [F1 A1 O1 Q1] [F2 A2 O2 Q2] [F3 A3 O3 Q3]. split; auto.
  - by rewrite F3, F2, F1.
  - rewrite A3, A2, A1, insert_insert_eq. by apply insert_id.
Qed.

Lemma on_file_locked w w1 fd path m f :
  on_file w fd path true None f ->
  evolves w w1 (w_files w) (<[fd := (path, true, Some m)]> (fd_attrs w)) ->
  on_file w1 fd path true (Some m) f.
Proof.
  intros [_ Hf] [F1 A1 _ _]. split; [|congruence]. rewrite A1. apply lookup_insert_eq.
Qed.

(** Entering the section: the lock is taken, or the call fails with nothing
    changed. *)
Lemma wp_enter {A} fd w path f (K1 K2 : M A) (Q : A -> world -> Prop) :
  on_file w fd path true None f -> unlocked_elsewhere w fd path ->
  (forall w', same_world w w' -> ~ quiet w -> wp K1 w' Q) ->
  (forall w1, evolves w w1 (w_files w) (<[fd := (path, true, Some LOCK_EX)]> (fd_attrs w)) ->
     on_file w1 fd path true (Some LOCK_EX) f -> wp K2 w1 Q) ->
  wp (let* l := flock fd LOCK_EX in if negb (l =? 0) then K1 else K2) w Q.
Proof.
  intros Hon Hfree Hno Hok. wp_bind. eapply wp_flock; [apply Hon|done| |].
  - intros w1 Hw1. apply Hok; [done|]. by eapply on_file_locked.
  - intros w1 Hw1 Hq. by apply Hno.
Qed.

(** Leaving it. *)
Lemma wp_leave {A} fd w w1 w2 path f' (a : A) (Q : A -> world -> Prop) :
  fd_attrs w !! fd = Some (path, true, None) ->
  evolves w w1 (w_files w) (<[fd := (path, true, Some LOCK_EX)]> (fd_attrs w)) ->
  evolves w1 w2 (<[path := f']> (w_files w1)) (fd_attrs w1) ->
  (forall w3, evolves w w3 (<[path := f']> (w_files w)) (fd_attrs w) -> Q a w3) ->
  wp (flock_un fd ;;; ret a) w2 Q.
Proof.
  intros Ha Hw1 Hw2 HQ. wp_bind. eapply (wp_flock_un fd w2 path true (Some LOCK_EX)).
  - destruct Hw2 as [_ -> _ _], Hw1 as [_ -> _ _]. apply lookup_insert_eq.
  - intros w3 Hw3. wp_ret. apply HQ. by eapply locked_evolves.
Qed.

(** ** Allocation *)

Lemma set_hint_wf bm h : bm_wf bm -> bm_wf (bm_set_hint bm h).
Proof. intros [[? ? ? ?] ? ?]. split; [by split|done|done]. Qed.

Lemma set_hint_of d bm h : bitmap_of d bm -> bitmap_of d (bm_set_hint bm h).
Proof. intros [[? ? ? ?] ?]. split; [by split|done]. Qed.

(** The order of candidates, in terms of the layout. *)
Definition first_fit (d : kes_storage_descriptor) (bm : kes_bitmap) (k hint s : Z) : Prop :=
  free_run bm s k /\
  forall s', tried_before (if desc_user_blocks d <=? hint then 0 else hint) s' s ->
             ~ free_run bm s' k.

Lemma first_fit_spec d sto bm req ext w
    (Q : Z * kes_storage * kes_extent_descriptor -> world -> Prop) :
  sto_bitmap sto = Some bm -> bitmap_of d bm -> bm_wf bm ->
  0 < req_block_count req < 2 ^ 32 -> 0 <= req_hint_block req ->
  (forall s bm', first_fit d bm (req_block_count req) (req_hint_block req) s ->
     bitmap_of d bm' -> bm_wf bm' ->
     (forall j, 0 <= j ->
        bm_bit bm' j = bool_decide (s <= j < s + req_block_count req) || bm_bit bm j) ->
     Q (KES_SUCCESS, set_bitmap (Some bm') sto,
        mkExtent s (req_block_count req) (req_flags req) 0) w) ->
  ((forall s, ~ free_run bm s (req_block_count req)) ->
     Q (KES_ERROR_NOSPACE, set_bitmap (Some bm) sto, ext) w) ->
  wp (allocate_extent_first_fit sto req ext) w Q.
Proof.
  intros Hbm Hof Hwf Hk Hhint Hok Hno. unfold allocate_extent_first_fit. wp_bind. rewrite Hbm.
  destruct (find_free_spec bm (req_block_count req) (req_hint_block req) Hwf Hk Hhint)
    as [(s & -> & Hrun & Hmin)|[-> Hnone]]; cbn [lift]; wp_ret.
  2:{ wp_ret. by apply Hno. }
  rewrite Z.eqb_refl. cbn [negb default sto_bitmap set_bitmap]. change (id s) with s. wp_bind.
  pose proof Hrun as (H0 & Hle & Hclear). pose proof (sh_total _ (wf_shape _ Hwf)) as Ht.
  set (bh := bm_set_hint bm (s + req_block_count req)).
  assert (bm_wf bh) as Hwfh by (by apply set_hint_wf).
  assert (bitmap_of d bh) as Hofh by (by apply set_hint_of).
  destruct (set_range_spec bh s (req_block_count req)) as (bm' & -> & Hs' & (Htot & _) & Hbits & Hwf');
    [apply Hofh|lia|lia| |].
  { apply range_ok_iff; [apply Hofh|lia|lia|]. cbn. lia. }
  cbn [lift]. wp_ret. rewrite Z.eqb_refl. cbn [negb]. wp_ret.
  apply (Hok s bm').
  - split; [done|]. unfold search_from in Hmin. by destruct Hof as [_ <-].
  - split; [done|]. rewrite Htot. apply Hofh.
  - by apply Hwf'.
  - intros j Hj. rewrite Hbits by done. by case_bool_decide.
Qed.

(** Free runs of the bitmap region of a file. *)
Definition disk_free_run (d : kes_storage_descriptor) (f : list Z) (s n : Z) : Prop :=
  0 <= s /\ s + n <= desc_user_blocks d /\ forall j, s <= j < s + n -> disk_bit d f j = false.

Lemma free_run_disk d f bm s n :
  bitmap_of d bm -> (forall i, bm_bit bm i = disk_bit d f i) ->
  free_run bm s n <-> disk_free_run d f s n.
Proof.
  intros [_ Ht] Hb. unfold free_run, disk_free_run. rewrite Ht.
  split; intros (? & ? & Hall); (split_and!; [done..|]); intros j Hj; [rewrite <-Hb|rewrite Hb]; auto.
Qed.

(** The descriptor an allocation of [n] blocks writes. *)
Definition desc_after_alloc (d0 : kes_storage_descriptor) (n c : Z) : kes_storage_descriptor :=
  set_checksum c (set_counts (u64 (desc_free_blocks d0 - n)) (u64 (desc_used_blocks d0 + n))
                    (u64 (desc_next_extent_id d0 + 1)) d0).

(** The parts of a handle the extent operations never assign. *)
Definition same_config (sto sto' : kes_storage) : Prop :=
  sto_fd sto' = sto_fd sto /\ sto_strategy sto' = sto_strategy sto /\
  sto_readonly sto' = sto_readonly sto /\ sto_sync_writes sto' = sto_sync_writes sto /\
  sto_lock sto' = false.

(** Outcomes of [kes_extent_allocate] on the content [f] of the file. *)
Record alloc_post (d : kes_storage_descriptor) (sto : kes_storage) (req : kes_extent_request)
    (ext0 : kes_extent_descriptor) (f : list Z) (noisy : Prop)
    (code : Z) (sto' : kes_storage) (ext' : kes_extent_descriptor) (f' : list Z) : Prop := {
  ap_handle : handle_ok d sto';
  ap_config : same_config sto sto';
  ap_disk : disk_ok d f';
  ap_area : user_area_same d f f';
  ap_grow : forall i, 0 <= i -> disk_bit d f i = true -> disk_bit d f' i = true;
  ap_cases :
    (code = KES_SUCCESS /\ exists s,
       ext' = mkExtent s (req_block_count req) (req_flags req)
                (u64 (desc_next_extent_id (decode_desc f) + 1)) /\
       disk_free_run d f s (req_block_count req) /\
       (forall s', tried_before (if desc_user_blocks d <=? req_hint_block req then 0
                                 else req_hint_block req) s' s ->
                   ~ disk_free_run d f s' (req_block_count req)) /\
       (forall i, 0 <= i ->
          disk_bit d f' i = bool_decide (s <= i < s + req_block_count req) || disk_bit d f i) /\
       decode_desc f' = desc_after_alloc (decode_desc f) (req_block_count req)
                          (kfl_crc32c 0 (disk_map d f')) /\
       st_allocated_extents (sto_stats sto') = u64 (st_allocated_extents (sto_stats sto) + 1)) \/
    (code = KES_ERROR_NOSPACE /\ f' = f /\ ext' = ext0 /\ sto_stats sto' = sto_stats sto /\
       forall s, ~ disk_free_run d f s (req_block_count req)) \/
    (code = KES_ERROR_IO /\ noisy);
  ap_desc : code = KES_SUCCESS -> sto_desc sto' = decode_desc f'
}.

Lemma desc_ok_counts d a b c :
  desc_ok d -> desc_ok (set_counts (u64 a) (u64 b) (u64 c) d).
Proof.
  intros []. split; cbn; try done; apply u64_range.
Qed.

(** An I/O failure that happened before anything was written. *)
Lemma alloc_post_io d sto req ext0 f (noisy : Prop) sto' :
  handle_ok d sto' -> same_config sto sto' -> disk_ok d f -> noisy ->
  alloc_post d sto req ext0 f noisy KES_ERROR_IO sto' ext0 f.
Proof. intros. split; auto; done. Qed.

(** The handle after the bookkeeping of a successful search. *)
Lemma account_allocation_handle d sto f bm bm' req ext :
  layout_ok d -> disk_ok d f -> handle_ok d sto -> bitmap_of d bm' ->
  handle_ok d (account_allocation (set_bitmap (Some bm') (reloaded_handle d f bm sto)) req ext).1.
Proof.
  intros Hd Hf [Hfd _ _ _] Hof. split; cbn.
  - done.
  - by eapply desc_ok_counts, disk_desc_ok.
  - apply (dk_layout _ _ Hf).
  - by exists bm'.
Qed.

(** From the write-back of the updated handle to the outcome of the call. *)
Lemma alloc_post_commit d sto req ext0 f (noisy : Prop) bm bm' s code sto4 f4 :
  let r := account_allocation (set_bitmap (Some bm') (reloaded_handle d f bm (set_held true sto)))
             req (mkExtent s (req_block_count req) (req_flags req) 0) in
  bitmap_of d (reloaded bm (disk_map d f)) ->
  (forall i, bm_bit (reloaded bm (disk_map d f)) i = disk_bit d f i) ->
  first_fit d (reloaded bm (disk_map d f)) (req_block_count req) (req_hint_block req) s ->
  (forall j, 0 <= j -> bm_bit bm' j =
     bool_decide (s <= j < s + req_block_count req) || bm_bit (reloaded bm (disk_map d f)) j) ->
  persist_post d r.1 bm' f noisy code sto4 f4 ->
  alloc_post d sto req ext0 f noisy code (set_held false sto4) r.2 f4.
Proof.
  intros r Hofr Hbr [Hrun Hmin] Hbits [Hp1 Hp2 Hp3 Hp4 Hp5 Hp6 Hp7 Hp8].
  unfold same_handle in Hp5.
  assert (forall i, 0 <= i -> disk_bit d f i = true -> disk_bit d f4 i = true) as Hgrow.
  { intros i Hi Hb. destruct (Hp3 i Hi) as [->| ->]; [done|].
    rewrite Hbits, Hbr, Hb by done. apply orb_true_r. }
  split; [by destruct Hp4|by rewrite Hp5|done|done|done| |by intros Hc; destruct (Hp8 Hc) as (_ & _ & ->)].
  destruct Hp6 as [->|[-> Hq]]; [|right; right; done].
  left. split; [done|]. exists s. destruct (Hp8 eq_refl) as (Hdesc4 & Hmap4 & Hdec4).
  split_and!.
  - done.
  - by apply (free_run_disk d f _ _ _ Hofr Hbr).
  - intros s' Hs' Hr'. apply (Hmin s' Hs'). by apply (free_run_disk d f _ _ _ Hofr Hbr).
  - intros i Hi. unfold disk_bit at 1. rewrite Hmap4.
    change (bit_at (bm_data bm') i) with (bm_bit bm' i). by rewrite Hbits, Hbr by done.
  - by rewrite Hdec4, Hdesc4, Hmap4.
  - by rewrite Hp5.
Qed.

Lemma dispatch_strategy {A} (x : kes_allocation_strategy) (a : A) :
  match x with KES_ALLOC_FIRST_FIT | _ => a end = a.
Proof. by destruct x. Qed.

Lemma allocate_spec d sto req ext0 w path f
    (Q : Z * option kes_storage * option kes_extent_descriptor -> world -> Prop) :
  layout_ok d -> handle_ok d sto -> sto_readonly sto = false -> sto_lock sto = false ->
  0 < req_block_count req < 2 ^ 32 -> 0 <= req_hint_block req ->
  on_file w (sto_fd sto) path true None f -> disk_ok d f ->
  unlocked_elsewhere w (sto_fd sto) path ->
  (forall w' code sto' ext' f', evolves w w' (<[path := f']> (w_files w)) (fd_attrs w) ->
     alloc_post d sto req ext0 f (~ quiet w) code sto' ext' f' ->
     Q (code, Some sto', Some ext') w') ->
  wp (kes_extent_allocate (Some sto) (Some req) (Some ext0)) w Q.
Proof.
  intros Hd Hh Hro Hlk Hk Hhint Hon Hf Hfree HQ. unfold kes_extent_allocate.
  rewrite Hro, Hlk. destruct (Z.eqb_spec (req_block_count req) 0); [lia|].
  unfold pthread_mutex_lock, pthread_mutex_unlock. cbv zeta. wp_bind. wp_ret.
  assert (handle_ok d (set_held true sto)) as Hh' by (by destruct Hh).
  apply (wp_enter (sto_fd sto) w path f); [done|done| |].
  { intros w' Hw Hq. wp_bind. wp_ret. wp_ret. apply (HQ _ _ _ _ f); [by eapply written_same|].
    apply alloc_post_io; [by destruct Hh|done|done|done]. }
  intros w1 Hw1 Hon1. wp_bind.
  eapply (reload_spec d (set_held true sto)); [done|done|exact Hon1|done|].
  intros w2 code sto2 Hw2 Hh2 Hsame Hres. unfold same_handle in Hsame.
  pose proof (written_same _ _ _ _ _ _ _ Hon1 Hw2) as Hev2.
  destruct Hres as [(-> & bm & Hbm & Hof & ->)|[-> Hq]].
  2:{ change (KES_ERROR_IO =? KES_SUCCESS) with false. cbv iota. wp_bind. wp_ret. cbv zeta iota.
      wp_bind. wp_ret. replace (sto_fd sto2) with (sto_fd sto) by (by rewrite Hsame).
      eapply (wp_leave _ w w1 w2); [apply Hon|done|done|].
      intros w3 Hw3. apply (HQ _ _ _ _ f); [done|].
      apply alloc_post_io; [by destruct Hh2|by rewrite Hsame|done|].
      exact (noisy_back _ _ _ _ Hw1 Hq). }
  clear Hsame. destruct (reloaded_bitmap d f bm Hd Hf Hof) as (Hofr & Hwfr & Hbr).
  rewrite Z.eqb_refl. cbv iota. wp_bind. rewrite dispatch_strategy.
  eapply first_fit_spec; [reflexivity|exact Hofr|exact Hwfr|done|done| |].
  2:{ intros Hnone. change (KES_ERROR_NOSPACE =? KES_SUCCESS) with false. cbv zeta iota.
      wp_bind. wp_ret. eapply (wp_leave _ w w1 w2); [apply Hon|done|done|].
      intros w3 Hw3. apply (HQ _ _ _ _ f); [done|].
      split; [by destruct Hh2|done|done|done|done| |done]. right; left. split_and!; [done..|].
      intros s Hs. apply (Hnone s). by apply (free_run_disk d f _ _ _ Hofr Hbr). }
  intros s bm' Hfit Hof' Hwf' Hbits. rewrite Z.eqb_refl. cbv iota.
  pose proof (account_allocation_handle d (set_held true sto) f bm bm' req
    (mkExtent s (req_block_count req) (req_flags req) 0) Hd Hf Hh' Hof') as Hh3.
  wp_bind. eapply (persist_spec d _ bm'); [done|exact Hh3|done|done| |done|].
  { by eapply on_file_same. }
  intros w3 code sto4 f4 Hw3 Hpp.
  replace (sto_fd sto4) with (sto_fd sto) by (by rewrite (same_handle_fd _ _ (pp_same _ _ _ _ _ _ _ _ Hpp))).
  eapply (wp_leave _ w w1 w3); [apply Hon|done| |].
  { eapply evolves_trans; [exact Hw2|]. by destruct Hw2 as [<- <- _ _]. }
  intros w4 Hw4. apply (HQ _ _ _ _ f4); [done|].
  apply (alloc_post_commit d sto req ext0 f (~ quiet w) bm bm' s); [done..|].
  destruct Hpp as [? ? ? ? ? Hc ? ?]. split; auto.
  destruct Hc as [?|[? Hq]]; [by left|]. right. split; [done|].
  apply (noisy_back _ _ _ _ Hw1), (noisy_back _ _ _ _ Hw2), Hq.
Qed.

(** ** Freeing *)

(** All blocks of the range exist and are allocated. *)
Definition run_used (bm : kes_bitmap) (s n : Z) : Prop :=
  forall j, s <= j < s + n -> j < bm_total_bits bm /\ bm_bit bm j = true.

Lemma all_allocated_spec bm s i n :
  bm_shape bm -> 0 <= s < 2 ^ 64 -> 0 <= i -> i + Z.of_nat n < 2 ^ 32 ->
  (0 < i -> s + i <= bm_total_bits bm) ->
  exists b, all_allocated (Some bm) s i n = Some b /\
    (b = true <-> forall j, s + i <= j < s + i + Z.of_nat n ->
       j < bm_total_bits bm /\ bm_bit bm j = true).
Proof.
  intros Hs Hr. pose proof (sh_total _ Hs).
  revert i. induction n as [|n IH]; intros i Hi Hle Hin; cbn [all_allocated].
  { exists true. split; [done|]. split; [intros _; lia|done]. }
  assert (s + i < 2 ^ 64) as Hnw by (destruct (decide (i = 0)); lia).
  rewrite u64_small, test_spec by (done || lia). cbn [mbind option_bind].
  destruct (Z.ltb_spec (s + i) (bm_total_bits bm)) as [Hlt|Hge]; cbn [andb];
    [destruct (bm_bit bm (s + i)) eqn:E|].
  - destruct (IH (i + 1)) as (b & Hb & Hiff); [lia|lia|lia|]. exists b. split; [done|].
    rewrite Hiff. split; intros Hall j Hj; [|apply Hall; lia].
    destruct (decide (j = s + i)) as [->|]; [done|]. apply Hall; lia.
  - exists false. split; [done|]. split; [done|]. intros Hall.
    destruct (Hall (s + i) ltac:(lia)) as [_ Hb]. congruence.
  - exists false. split; [done|]. split; [done|]. intros Hall.
    destruct (Hall (s + i) ltac:(lia)) as [Hb _]. lia.
Qed.

Definition disk_run_used (d : kes_storage_descriptor) (f : list Z) (s n : Z) : Prop :=
  forall j, s <= j < s + n -> j < desc_user_blocks d /\ disk_bit d f j = true.

Definition desc_after_free (d0 : kes_storage_descriptor) (n c : Z) : kes_storage_descriptor :=
  set_checksum c (set_counts (u64 (desc_free_blocks d0 + n)) (u64 (desc_used_blocks d0 - n))
                    (desc_next_extent_id d0) d0).

(** Values a caller can pass in a [kes_extent_descriptor_t]. *)
Definition extent_ok (e : kes_extent_descriptor) : Prop :=
  0 <= ext_start_block e < 2 ^ 64 /\ 0 <= ext_block_count e < 2 ^ 32.

(** Is block [i] part of the extent? *)
Definition in_extent (e : kes_extent_descriptor) (i : Z) : Prop :=
  ext_start_block e <= i < ext_start_block e + ext_block_count e.

#[export] Instance in_extent_dec e i : Decision (in_extent e i).
Proof. unfold in_extent. apply _. Defined.

Record free_post (d : kes_storage_descriptor) (sto : kes_storage) (e : kes_extent_descriptor)
    (f : list Z) (noisy : Prop) (code : Z) (sto' : kes_storage) (f' : list Z) : Prop := {
  fp_handle : handle_ok d sto';
  fp_config : same_config sto sto';
  fp_disk : disk_ok d f';
  fp_area : user_area_same d f f';
  fp_others : forall i, 0 <= i -> ~ in_extent e i -> disk_bit d f' i = disk_bit d f i;
  fp_cases :
    (code = KES_SUCCESS /\ ext_start_block e < desc_user_blocks d /\
       disk_run_used d f (ext_start_block e) (ext_block_count e) /\
       (forall i, in_extent e i -> disk_bit d f' i = false) /\
       decode_desc f' = desc_after_free (decode_desc f) (ext_block_count e)
                          (kfl_crc32c 0 (disk_map d f')) /\
       st_allocated_extents (sto_stats sto') = u64 (st_allocated_extents (sto_stats sto) - 1)) \/
    (code = KES_ERROR_NOTFOUND /\ f' = f /\ sto_stats sto' = sto_stats sto /\
       ~ disk_run_used d f (ext_start_block e) (ext_block_count e)) \/
    (code = KES_ERROR_INVALID /\ f' = f /\ sto_stats sto' = sto_stats sto /\
       ext_block_count e = 0 /\ desc_user_blocks d <= ext_start_block e) \/
    (code = KES_ERROR_IO /\ noisy);
  fp_desc : code = KES_SUCCESS -> sto_desc sto' = decode_desc f'
}.

Lemma free_post_io d sto e f (noisy : Prop) sto' :
  handle_ok d sto' -> same_config sto sto' -> disk_ok d f -> noisy ->
  free_post d sto e f noisy KES_ERROR_IO sto' f.
Proof. intros. split; [done..| |done]. by right; right; right. Qed.

Lemma account_free_handle d sto f bm bm' e :
  layout_ok d -> disk_ok d f -> handle_ok d sto -> bitmap_of d bm' ->
  handle_ok d (account_free (set_bitmap (Some bm') (reloaded_handle d f bm sto)) e).
Proof.
  intros Hd Hf [Hfd _ _ _] Hof. split; cbn.
  - done.
  - pose proof (disk_desc_ok d f Hd Hf) as Hdo.
    pose proof (desc_ok_counts (decode_desc f)
      (desc_free_blocks (decode_desc f) + ext_block_count e)
      (desc_used_blocks (decode_desc f) - ext_block_count e)
      (desc_next_extent_id (decode_desc f)) Hdo) as Hc.
    pose proof (ok_next_id _ Hdo). rewrite (u64_small (desc_next_extent_id _)) in Hc by lia. done.
  - apply (dk_layout _ _ Hf).
  - by exists bm'.
Qed.

Lemma free_post_commit d sto e f (noisy : Prop) bm bm' code sto4 f4 :
  bitmap_of d (reloaded bm (disk_map d f)) ->
  (forall i, bm_bit (reloaded bm (disk_map d f)) i = disk_bit d f i) ->
  ext_start_block e < desc_user_blocks d -> 0 <= ext_start_block e ->
  run_used (reloaded bm (disk_map d f)) (ext_start_block e) (ext_block_count e) ->
  range_post (reloaded bm (disk_map d f)) bm' (ext_start_block e) (ext_block_count e) false ->
  persist_post d
    (account_free (set_bitmap (Some bm') (reloaded_handle d f bm (set_held true sto))) e)
    bm' f noisy code sto4 f4 ->
  free_post d sto e f noisy code (set_held false sto4) f4.
Proof.
  intros [_ Ht] Hbr Hlt H0 Hused (_ & _ & Hbits & _) [Hp1 Hp2 Hp3 Hp4 Hp5 Hp6 Hp7 Hp8].
  unfold same_handle in Hp5.
  assert (forall i, 0 <= i -> ~ in_extent e i -> disk_bit d f4 i = disk_bit d f i) as Hout.
  { intros i Hi Hni. destruct (Hp3 i Hi) as [->| ->]; [done|].
    by rewrite Hbits, Hbr, bool_decide_eq_false_2 by done. }
  split; [by destruct Hp4|by rewrite Hp5|done|done|done| |by intros Hc; destruct (Hp8 Hc) as (_ & _ & ->)].
  destruct Hp6 as [->|[-> Hq]]; [|by right; right; right].
  left. destruct (Hp8 eq_refl) as (Hdesc4 & Hmap4 & Hdec4). split_and!; [done|done| | | |].
  - intros j Hj. rewrite <-Hbr, <-Ht. by apply Hused.
  - intros i Hi. unfold disk_bit. rewrite Hmap4.
    change (bit_at (bm_data bm') i) with (bm_bit bm' i). unfold in_extent in Hi.
    by rewrite Hbits, bool_decide_eq_true_2 by lia.
  - by rewrite Hdec4, Hdesc4, Hmap4.
  - by rewrite Hp5.
Qed.

Lemma free_spec d sto e w path f (Q : Z * option kes_storage -> world -> Prop) :
  layout_ok d -> handle_ok d sto -> sto_readonly sto = false -> sto_lock sto = false ->
  extent_ok e -> on_file w (sto_fd sto) path true None f -> disk_ok d f ->
  unlocked_elsewhere w (sto_fd sto) path ->
  (forall w' code sto' f', evolves w w' (<[path := f']> (w_files w)) (fd_attrs w) ->
     free_post d sto e f (~ quiet w) code sto' f' -> Q (code, Some sto') w') ->
  wp (kes_extent_free (Some sto) (Some e)) w Q.
Proof.
  intros Hd Hh Hro Hlk [Hes Hec] Hon Hf Hfree HQ. unfold kes_extent_free. rewrite Hro, Hlk.
  unfold pthread_mutex_lock, pthread_mutex_unlock. cbv zeta. wp_bind. wp_ret.
  assert (handle_ok d (set_held true sto)) as Hh' by (by destruct Hh).
  apply (wp_enter (sto_fd sto) w path f); [done|done| |].
  { intros w' Hw Hq. wp_bind. wp_ret. wp_ret. apply (HQ _ _ _ f); [by eapply written_same|].
    apply free_post_io; [by destruct Hh|done|done|done]. }
  intros w1 Hw1 Hon1. wp_bind.
  eapply (reload_spec d (set_held true sto)); [done|done|exact Hon1|done|].
  intros w2 code sto2 Hw2 Hh2 Hsame Hres. unfold same_handle in Hsame.
  pose proof (written_same _ _ _ _ _ _ _ Hon1 Hw2) as Hev2.
  destruct Hres as [(-> & bm & Hbm & Hof & ->)|[-> Hq]].
  2:{ change (KES_ERROR_IO =? KES_SUCCESS) with false. cbn [negb fst snd].
      replace (sto_fd sto2) with (sto_fd sto) by (by rewrite Hsame).
      eapply (wp_leave _ w w1 w2); [apply Hon|done|done|].
      intros w3 Hw3. apply (HQ _ _ _ f); [done|].
      apply free_post_io; [by destruct Hh2|by rewrite Hsame|done|].
      exact (noisy_back _ _ _ _ Hw1 Hq). }
  clear Hsame. destruct (reloaded_bitmap d f bm Hd Hf Hof) as (Hofr & Hwfr & Hbr).
  pose proof (proj2 Hofr) as Htot.
  rewrite Z.eqb_refl. cbn [negb]. wp_bind.
  destruct (all_allocated_spec (reloaded bm (disk_map d f)) (ext_start_block e) 0
              (Z.to_nat (ext_block_count e))) as (b & Hb & Hiff); [apply Hofr|lia|lia|lia|lia|].
  cbn [reloaded_handle set_bitmap sto_bitmap]. rewrite Hb. cbn [lift]. wp_ret.
  rewrite Z.add_0_r, Z2Nat.id in Hiff by lia.
  destruct b; cbn [negb fst snd].
  2:{ eapply (wp_leave _ w w1 w2); [apply Hon|done|done|].
      intros w3 Hw3. apply (HQ _ _ _ f); [done|].
      split; [by destruct Hh2|done|done|done|done| |done]. right; left. split_and!; [done..|].
      intros Hall. enough (false = true) by done. apply Hiff. intros j Hj.
      rewrite Htot, Hbr. by apply Hall. }
  assert (run_used (reloaded bm (disk_map d f)) (ext_start_block e) (ext_block_count e)) as Hused
    by (unfold run_used; by apply (proj1 Hiff)).
  clear Hiff.
  destruct (decide (range_ok (reloaded bm (disk_map d f)) (ext_start_block e) (ext_block_count e)))
    as [Hrange|Hno].
  2:{ destruct (range_reject _ _ _ Hno) as [_ ->]. cbn [lift]. wp_bind. wp_ret.
      change (KES_ERROR_INVALID =? KES_SUCCESS) with false. cbv zeta iota. wp_bind. wp_ret.
      eapply (wp_leave _ w w1 w2); [apply Hon|done|done|].
      intros w3 Hw3. apply (HQ _ _ _ f); [done|].
      split; [by destruct Hh2|done|done|done|done| |done]. right; right; left.
      split_and!; [done..| |]; rewrite range_ok_iff, Htot in Hno by (apply Hofr || lia);
        (destruct (decide (ext_block_count e = 0)) as [|Hnz]; [lia|]);
        destruct (Hused (ext_start_block e + ext_block_count e - 1) ltac:(lia)); lia. }
  destruct (clear_range_spec _ _ _ (proj1 Hofr) Hes Hec Hrange) as (bm' & -> & Hpost).
  cbn [lift]. wp_bind. wp_ret. rewrite Z.eqb_refl. cbv zeta iota.
  assert (bitmap_of d bm') as Hof'.
  { destruct Hpost as (? & (Ht' & _) & _). split; [done|]. by rewrite Ht'. }
  pose proof (account_free_handle d (set_held true sto) f bm bm' e Hd Hf Hh' Hof') as Hh3.
  wp_bind. eapply (persist_spec d _ bm'); [done|exact Hh3|done| | |done|].
  { by apply Hpost. }
  { by eapply on_file_same. }
  intros w3 code sto4 f4 Hw3 Hpp. cbn [fst snd].
  replace (sto_fd sto4) with (sto_fd sto) by (by rewrite (same_handle_fd _ _ (pp_same _ _ _ _ _ _ _ _ Hpp))).
  eapply (wp_leave _ w w1 w3); [apply Hon|done| |].
  { eapply evolves_trans; [exact Hw2|]. by destruct Hw2 as [<- <- _ _]. }
  intros w4 Hw4. apply (HQ _ _ _ f4); [done|].
  destruct Hrange as [Hlt _]. rewrite Htot in Hlt.
  apply (free_post_commit d sto e f (~ quiet w) bm bm'); [done|done|done|lia|done|done|].
  destruct Hpp as [? ? ? ? ? Hc ? ?]. split; auto.
  destruct Hc as [?|[? Hq]]; [by left|]. right. split; [done|].
  apply (noisy_back _ _ _ _ Hw1), (noisy_back _ _ _ _ Hw2), Hq.
Qed.
End with_crc.
