(* ===== verification/ExtentIO.v ===== *)
(** * What reading, writing and synchronising do

    Specifications of [kes_extent_read], [kes_extent_write] and
    [kes_storage_sync], for every script of faults. *)
From S2P Require Import Prelude Types Posix PosixFacts Crc Bitmap BitmapFacts Codec Storage Layout.
From S2P Require Import StorageFacts.

(** ** Where the bytes of an extent are *)

(** The extent lies inside the user area of layout [d]. *)
Definition extent_inside (d : kes_storage_descriptor) (e : kes_extent_descriptor) : Prop :=
  extent_ok e /\ ext_start_block e + ext_block_count e <= desc_user_blocks d.

(** Its first byte and its length in the file. *)
Definition extent_pos (d : kes_storage_descriptor) (e : kes_extent_descriptor) : Z :=
  (desc_user_start_block d + ext_start_block e) * desc_block_size d.
Definition extent_bytes (d : kes_storage_descriptor) (e : kes_extent_descriptor) : Z :=
  ext_block_count e * desc_block_size d.

(** Its content. *)
Definition extent_data (d : kes_storage_descriptor) (f : list Z) (e : kes_extent_descriptor)
    : list Z :=
  slice (Z.to_nat (extent_pos d e)) (Z.to_nat (extent_bytes d e)) f.

Section geometry.
Context (d : kes_storage_descriptor) (Hd : layout_ok d).

Lemma extent_pos_bounds e :
  extent_inside d e ->
  sizeof_desc <= extent_pos d e /\ 0 <= extent_bytes d e /\
  extent_pos d e + extent_bytes d e <= map_offset d.
Proof using Hd.
  intros [[Hs Hc] Hin]. pose proof (map_offset_past d Hd). destruct Hd.
  unfold extent_pos, extent_bytes, sizeof_desc in *. split_and!; nia.
Qed.

(** The offsets the code computes are exact. *)
Lemma extent_start_byte_exact d' e :
  layout d' = layout d -> extent_inside d e ->
  extent_start_byte d' e = extent_pos d e /\ extent_size d' e = extent_bytes d e.
Proof using Hd.
  intros (_ & _ & H3 & _ & H5 & H6)%layout_eq Hin.
  pose proof (extent_pos_bounds e Hin) as (Hp & Hb & Hle). pose proof (map_offset_range d Hd).
  destruct Hin as [[Hs Hc] Hin]. destruct Hd as [? ? ? Hbs Hus Hub ? ?].
  unfold extent_start_byte, extent_size. rewrite H3, H5.
  unfold extent_pos, extent_bytes, sizeof_desc in *.
  assert (desc_user_start_block d + ext_start_block e < 2 ^ 63) by nia.
  split; [rewrite (u64_small (desc_user_start_block d + _)) by lia|]; by rewrite u64_small by lia.
Qed.

(** Extents without a common block have no common byte. *)
Lemma extents_apart e e' :
  extent_inside d e -> extent_inside d e' ->
  ext_start_block e + ext_block_count e <= ext_start_block e' ->
  extent_pos d e + extent_bytes d e <= extent_pos d e'.
Proof using Hd.
  intros [[? ?] ?] [[? ?] ?] Hle. destruct Hd. unfold extent_pos, extent_bytes, sizeof_desc in *.
  nia.
Qed.
End geometry.

(** Two extents without a common block. *)
Definition extents_disjoint (e e' : kes_extent_descriptor) : Prop :=
  ext_start_block e + ext_block_count e <= ext_start_block e' \/
  ext_start_block e' + ext_block_count e' <= ext_start_block e.

Lemma set_held_back sto h : sto_lock sto = false -> set_held false (set_held h sto) = sto.
Proof. destruct sto. cbn. by intros ->. Qed.

(** ** Reading *)

(** Outcomes of [kes_extent_read]: code, handle, and bytes delivered. *)
Definition read_post (d : kes_storage_descriptor) (sto : kes_storage)
    (e : kes_extent_descriptor) (size offset : Z) (f : list Z) (noisy : Prop)
    (code : Z) (sto' : kes_storage) (bs : list Z) : Prop :=
  (code = KES_SUCCESS /\ offset + size <= extent_bytes d e /\
     bs = slice (Z.to_nat (extent_pos d e + offset)) (Z.to_nat size) f /\
     sto' = set_stats (count_read size (sto_stats sto)) sto) \/
  (code = KES_ERROR_INVALID /\ extent_bytes d e < offset + size /\ bs = [] /\ sto' = sto) \/
  (code = KES_ERROR_IO /\ noisy /\ sto' = sto).

Lemma extent_read_spec d sto e size offset w path wr lk f
    (Q : Z * option kes_storage * list Z -> world -> Prop) :
  layout_ok d -> handle_ok d sto -> sto_lock sto = false ->
  extent_inside d e -> 0 <= offset -> 0 <= size -> offset + size < 2 ^ 64 ->
  on_file w (sto_fd sto) path wr lk f -> disk_ok d f ->
  (forall w' code sto' bs, same_world w w' ->
     read_post d sto e size offset f (~ quiet w) code sto' bs -> Q (code, Some sto', bs) w') ->
  wp (kes_extent_read (Some sto) (Some e) true size offset) w Q.
Proof.
  intros Hd Hh Hlk Hin Hoff Hsz Hnw [Ha Hfile] Hf HQ. unfold kes_extent_read. cbn [negb].
  pose proof (extent_pos_bounds d Hd e Hin) as (Hp & Hb & Hle).
  pose proof (map_offset_range d Hd). pose proof (map_bytes_pos d Hd). pose proof (dk_length _ _ Hf).
  destruct (extent_start_byte_exact d Hd _ e (h_layout _ _ Hh) Hin) as [-> ->].
  unfold sizeof_desc in *. rewrite (u64_small (offset + size)) by lia. cbv zeta.
  destruct (Z.ltb_spec (extent_bytes d e) (offset + size)) as [Hbad|Hgood].
  { wp_ret. apply HQ; [done|]. right; left. done. }
  rewrite (i64_small (_ + offset)), (i64_small size), Hlk by lia.
  unfold pthread_mutex_lock, pthread_mutex_unlock. wp_bind. wp_ret.
  eapply (wp_seek_read (sto_fd sto) (extent_pos d e + offset) size w); [exact Ha|done|lia|lia| |].
  { intros w' Hw Hq. wp_bind. wp_ret. wp_ret. apply HQ; [done|]. right; right.
    split_and!; [done|done|by apply set_held_back]. }
  intros w' k bs Hw Hout. cbv iota.
  destruct (Z.eqb_spec k size) as [Hk|Hk]; cbn [negb]; wp_bind; wp_ret; wp_ret; (apply HQ; [done|]).
  - left. split_and!; [done|done| |by destruct sto; cbn in *; subst].
    destruct Hout as [(? & _)|(m & Hm & -> & Hkm & _)]; [lia|].
    assert (Z.to_nat m = Z.to_nat size) as ->; [|done].
    pose proof (length_slice (Z.to_nat (extent_pos d e + offset)) (Z.to_nat m) f). lia.
  - right; right. split_and!; [done| |by apply set_held_back].
    destruct Hout as [(? & _ & ?)|(m & Hm & -> & Hkm & Hq)]; [done|].
    apply Hq. rewrite length_slice_exact in Hkm by lia. lia.
Qed.

(** ** Writing *)

(** Outcomes of [kes_extent_write]: code, handle, and the new content of the
    file.  A failed write may have transferred a prefix of the data. *)
Definition write_post (d : kes_storage_descriptor) (sto : kes_storage)
    (e : kes_extent_descriptor) (data : list Z) (offset : Z) (f : list Z) (noisy : Prop)
    (code : Z) (sto' : kes_storage) (f' : list Z) : Prop :=
  let size := Z.of_nat (length data) in
  (code = KES_SUCCESS /\ offset + size <= extent_bytes d e /\
     f' = splice (Z.to_nat (extent_pos d e + offset)) data f /\
     sto' = set_stats (count_write size (sto_stats sto)) sto) \/
  (code = KES_ERROR_INVALID /\ extent_bytes d e < offset + size /\ f' = f /\ sto' = sto) \/
  (code = KES_ERROR_IO /\ offset + size <= extent_bytes d e /\ noisy /\ sto' = sto /\
     (f' = f \/ exists m, f' = splice (Z.to_nat (extent_pos d e + offset)) (take m data) f)).

Lemma extent_write_spec d sto e data offset w path lk f
    (Q : Z * option kes_storage -> world -> Prop) :
  layout_ok d -> handle_ok d sto -> sto_readonly sto = false -> sto_lock sto = false ->
  extent_inside d e -> 0 <= offset -> offset + Z.of_nat (length data) < 2 ^ 64 ->
  on_file w (sto_fd sto) path true lk f -> disk_ok d f ->
  (forall w' code sto' f', evolves w w' (<[path := f']> (w_files w)) (fd_attrs w) ->
     write_post d sto e data offset f (~ quiet w) code sto' f' -> Q (code, Some sto') w') ->
  wp (kes_extent_write (Some sto) (Some e) (Some data) (Z.of_nat (length data)) offset) w Q.
Proof.
  intros Hd Hh Hro Hlk Hin Hoff Hnw [Ha Hfile] Hf HQ. unfold kes_extent_write. rewrite Hro.
  pose proof (extent_pos_bounds d Hd e Hin) as (Hp & Hb & Hle).
  pose proof (map_offset_range d Hd). pose proof (map_bytes_pos d Hd). pose proof (dk_length _ _ Hf).
  destruct (extent_start_byte_exact d Hd _ e (h_layout _ _ Hh) Hin) as [-> ->].
  unfold sizeof_desc in *. rewrite (u64_small (offset + _)) by lia. cbv zeta.
  destruct (Z.ltb_spec (extent_bytes d e) (offset + Z.of_nat (length data))) as [Hbad|Hgood].
  { wp_ret. apply (HQ _ _ _ f); [by rewrite insert_id|]. right; left. done. }
  rewrite (i64_small (_ + offset)), (i64_small (Z.of_nat _)), Hlk by lia.
  unfold pthread_mutex_lock, pthread_mutex_unlock. wp_bind. wp_ret.
  rewrite Z.ltb_irrefl, Nat2Z.id, firstn_all.
  eapply (wp_seek_write (sto_fd sto) (extent_pos d e + offset) data w); [exact Ha|done|lia|lia| |].
  { intros w' Hw Hq. wp_bind. wp_ret. wp_ret. apply (HQ _ _ _ f); [by rewrite insert_id|].
    right; right. split_and!; [done|done|done|by apply set_held_back|by left]. }
  intros w' k f' Hw Hout. apply write_outcome_save in Hout.
  destruct (Z.eqb_spec k (Z.of_nat (length data))) as [Hk|Hk]; cbn [negb];
    wp_bind; wp_ret; wp_ret; (eapply HQ; [exact Hw|]);
    destruct Hout as [[? ->]|(? & Hq & Hf')]; try done.
  - left. split_and!; [done|done|done|by destruct sto; cbn in *; subst].
  - right; right. split_and!; [done|done|done|by apply set_held_back|done].
Qed.

(** ** What a write leaves alone *)

Section frame.
Context (d : kes_storage_descriptor) (f : list Z) (Hd : layout_ok d) (Hf : disk_ok d f).

(** Bytes written between the descriptor and the bitmap. *)
Lemma user_write_frame pos bs :
  sizeof_desc <= pos -> pos + Z.of_nat (length bs) <= map_offset d -> Forall is_byte bs ->
  let g := splice (Z.to_nat pos) bs f in
  disk_ok d g /\ disk_map d g = disk_map d f /\ decode_desc g = decode_desc f.
Proof using Hd Hf.
  intros Hp Hle Hb g. pose proof Hf as [Hbytes Hlen Hlay Hpad].
  pose proof (map_offset_range d Hd). pose proof (map_bytes_pos d Hd). unfold sizeof_desc in *.
  assert (disk_map d g = disk_map d f) as Hmap
    by (apply slice_splice_disjoint; lia).
  assert (decode_desc g = decode_desc f) as Hdec
    by (apply decode_desc_ext, slice_splice_disjoint; lia).
  split_and!; [|done|done]. split.
  - apply Forall_splice; [apply is_byte_0|done|done].
  - unfold g. rewrite length_splice. lia.
  - by rewrite Hdec.
  - intros i Hi. unfold disk_bit. rewrite Hmap. by apply Hpad.
Qed.

Lemma user_write_apart pos bs p n :
  0 <= pos -> (p + n <= length f)%nat ->
  (Z.of_nat (p + n) <= pos \/ pos + Z.of_nat (length bs) <= Z.of_nat p) ->
  slice p n (splice (Z.to_nat pos) bs f) = slice p n f.
Proof using.
  intros Hpos Hn Hor. apply slice_splice_disjoint; lia.
Qed.

Lemma extent_data_bounds e :
  extent_inside d e ->
  (Z.to_nat (extent_pos d e) + Z.to_nat (extent_bytes d e) <= length f)%nat.
Proof using Hd Hf.
  intros Hin. pose proof (extent_pos_bounds d Hd e Hin) as (? & ? & ?).
  pose proof (dk_length _ _ Hf). pose proof (map_bytes_pos d Hd). unfold sizeof_desc in *. lia.
Qed.

(** Every outcome of a write to [e]: the metadata and the extents that share
    no block with [e] are as before. *)
Lemma write_post_frame sto e data offset (noisy : Prop) code sto' f' :
  extent_inside d e -> 0 <= offset -> Forall is_byte data ->
  write_post d sto e data offset f noisy code sto' f' ->
  disk_ok d f' /\ disk_map d f' = disk_map d f /\ decode_desc f' = decode_desc f /\
  length f' = length f /\
  forall e', extent_inside d e' -> extents_disjoint e e' ->
    extent_data d f' e' = extent_data d f e'.
Proof using Hd Hf.
  intros Hin Hoff Hbytes Hpost.
  assert (f' = f \/ offset + Z.of_nat (length data) <= extent_bytes d e /\
            exists m, f' = splice (Z.to_nat (extent_pos d e + offset)) (take m data) f) as Hcase.
  { destruct Hpost as [(_ & ? & -> & _)|[(_ & _ & -> & _)|(_ & ? & _ & _ & Hor)]]; [|by left|].
    - right. split; [done|]. exists (length data). by rewrite firstn_all.
    - destruct Hor as [->|[m ->]]; [by left|right; eauto]. }
  destruct Hcase as [->|[Hle [m ->]]]; [done|].
  pose proof (extent_pos_bounds d Hd e Hin) as (Hp & Hb & Hmap).
  assert (Z.of_nat (length (take m data)) <= Z.of_nat (length data)) by (rewrite length_take; lia).
  destruct (user_write_frame (extent_pos d e + offset) (take m data)) as (H1 & H2 & H3);
    [lia|lia|by apply Forall_take|]. split_and!; [done..| |].
  { rewrite length_splice. pose proof (dk_length _ _ Hf). pose proof (map_bytes_pos d Hd).
    unfold sizeof_desc in *. lia. }
  intros e' Hin' Hdis. pose proof (extent_data_bounds e' Hin').
  pose proof (extent_pos_bounds d Hd e' Hin') as (Hp' & Hb' & Hmap'). unfold sizeof_desc in *.
  apply user_write_apart; [lia|done|]. destruct Hdis as [Hdis|Hdis].
  - pose proof (extents_apart d Hd e e' Hin Hin' Hdis). right. lia.
  - pose proof (extents_apart d Hd e' e Hin' Hin Hdis). left. lia.
Qed.

(** What a complete write left is what a read of the same place delivers. *)
Lemma read_back pos data :
  slice (Z.to_nat pos) (Z.to_nat (Z.of_nat (length data))) (splice (Z.to_nat pos) data f) = data.
Proof using. rewrite Nat2Z.id. apply slice_splice_same. Qed.
End frame.

(** The area between descriptor and bitmap being the same, so is the content of
    every extent. *)
Lemma extent_data_area d f f' e :
  layout_ok d -> user_area_same d f f' -> extent_inside d e ->
  extent_data d f' e = extent_data d f e.
Proof.
  intros Hd Ha Hin. pose proof (extent_pos_bounds d Hd e Hin) as (? & ? & ?).
  unfold sizeof_desc in *. apply Ha; lia.
Qed.

(** ** Synchronising *)

Section with_crc.
Context `{Crc32c}.

(** Outcomes of [kes_storage_sync]: no block changes its status, and success
    means that descriptor and checksum match the bitmap. *)
Record sync_post (d : kes_storage_descriptor) (sto : kes_storage) (f : list Z) (noisy : Prop)
    (code : Z) (sto' : kes_storage) (f' : list Z) : Prop := {
  sp_handle : handle_ok d sto';
  sp_config : same_config sto sto';
  sp_stats : sto_stats sto' = sto_stats sto;
  sp_disk : disk_ok d f';
  sp_area : user_area_same d f f';
  sp_bits : forall i, 0 <= i -> disk_bit d f' i = disk_bit d f i;
  sp_cases :
    (code = KES_SUCCESS /\ disk_map d f' = disk_map d f /\
       decode_desc f' = set_checksum (kfl_crc32c 0 (disk_map d f)) (decode_desc f)) \/
    (code = KES_ERROR_IO /\ noisy);
  sp_desc : code = KES_SUCCESS -> sto_desc sto' = decode_desc f'
}.

Lemma sync_post_io d sto f (noisy : Prop) sto' :
  handle_ok d sto' -> same_config sto sto' -> sto_stats sto' = sto_stats sto -> disk_ok d f ->
  noisy -> sync_post d sto f noisy KES_ERROR_IO sto' f.
Proof. intros. split; auto; done. Qed.

Lemma sync_spec d sto w path f (Q : Z * option kes_storage -> world -> Prop) :
  layout_ok d -> handle_ok d sto -> sto_readonly sto = false -> sto_lock sto = false ->
  on_file w (sto_fd sto) path true None f -> disk_ok d f ->
  unlocked_elsewhere w (sto_fd sto) path ->
  (forall w' code sto' f', evolves w w' (<[path := f']> (w_files w)) (fd_attrs w) ->
     sync_post d sto f (~ quiet w) code sto' f' -> Q (code, Some sto') w') ->
  wp (kes_storage_sync (Some sto)) w Q.
Proof.
  intros Hd Hh Hro Hlk Hon Hf Hfree HQ. unfold kes_storage_sync. rewrite Hro, Hlk.
  unfold pthread_mutex_lock, pthread_mutex_unlock. cbv zeta. wp_bind. wp_ret.
  assert (handle_ok d (set_held true sto)) as Hh' by (by destruct Hh).
  apply (wp_enter (sto_fd sto) w path f); [done|done| |].
  { intros w' Hw Hq. wp_bind. wp_ret. wp_ret. apply (HQ _ _ _ f); [by eapply written_same|].
    apply sync_post_io; [by destruct Hh|done|done|done|done]. }
  intros w1 Hw1 Hon1. wp_bind.
  eapply (reload_spec d (set_held true sto)); [done|done|exact Hon1|done|].
  intros w2 code sto2 Hw2 Hh2 Hsame Hres. unfold same_handle in Hsame.
  pose proof (written_same _ _ _ _ _ _ _ Hon1 Hw2) as Hev2.
  destruct Hres as [(-> & bm & Hbm & Hof & ->)|[-> Hq]].
  2:{ change (KES_ERROR_IO =? KES_SUCCESS) with false. cbv iota. wp_bind. wp_ret. cbv iota.
      replace (sto_fd sto2) with (sto_fd sto) by (by rewrite Hsame).
      eapply (wp_leave _ w w1 w2); [apply Hon|done|done|].
      intros w3 Hw3. apply (HQ _ _ _ f); [done|].
      apply sync_post_io; [by destruct Hh2|by rewrite Hsame|by rewrite Hsame|done|].
      exact (noisy_back _ _ _ _ Hw1 Hq). }
  clear Hsame. destruct (reloaded_bitmap d f bm Hd Hf Hof) as (Hofr & Hwfr & Hbr).
  rewrite Z.eqb_refl. cbv iota. wp_bind.
  eapply (persist_spec d _ (reloaded bm (disk_map d f))); [done|exact Hh2|done|done| |done|].
  { by eapply on_file_same. }
  intros w3 code sto4 f4 Hw3 Hpp. pose proof Hpp as [Hp1 Hp2 Hp3 Hp4 Hp5 Hp6 Hp7 Hp8].
  replace (sto_fd sto4) with (sto_fd sto) by (by rewrite (same_handle_fd _ _ Hp5)).
  eapply (wp_leave _ w w1 w3); [apply Hon|done| |].
  { eapply evolves_trans; [exact Hw2|]. by destruct Hw2 as [<- <- _ _]. }
  intros w4 Hw4. apply (HQ _ _ _ f4); [done|]. unfold same_handle in Hp5.
  split; [by destruct Hp4|by rewrite Hp5|by rewrite Hp5|done|done| | |
          by intros Hc; destruct (Hp8 Hc) as (_ & _ & ->)].
  - intros i Hi. destruct (Hp3 i Hi) as [->| ->]; [done|]. apply Hbr.
  - destruct Hp6 as [->|[-> Hq]].
    + left. destruct (Hp8 eq_refl) as (Hdesc4 & Hmap4 & Hdec4). by rewrite Hmap4, Hdec4, Hdesc4.
    + right. split; [done|]. apply (noisy_back _ _ _ _ Hw1), (noisy_back _ _ _ _ Hw2), Hq.
Qed.
End with_crc.
