(* ===== verification/Lifecycle.v ===== *)
(** * Opening, creating and closing a storage

    Specifications of [kes_storage_open] (on any file whatsoever, well formed
    or not), [kes_storage_create] and [kes_storage_close], for every script of
    faults. *)
From S2P Require Import Prelude Types Posix PosixFacts Crc Bitmap BitmapFacts Codec Storage Layout.
From S2P Require Import StorageFacts ExtentIO.

(** No open description of [path] holds a lock. *)
Definition unlocked (w : world) (path : string) : Prop :=
  forall fd a, fd_attrs w !! fd = Some a -> a.1.1 = path -> a.2 = None.

(** A descriptor opened and closed again leaves the table as it was. *)
Lemma closed_again w w1 w2 fd a fs1 fs2 :
  fd_attrs w !! fd = None ->
  evolves w w1 fs1 (<[fd := a]> (fd_attrs w)) ->
  evolves w1 w2 fs2 (delete fd (fd_attrs w1)) ->
  evolves w w2 fs2 (fd_attrs w).
Proof.
  intros Hn H1 H2. replace (fd_attrs w) with (delete fd (fd_attrs w1)).
  - by eapply evolves_trans.
  - destruct H1 as [_ -> _ _]. by rewrite delete_insert_id.
Qed.

(** ** Creating the bitmap for a block count nobody checked *)

Definition bytes_for (n : Z) : Z := u64 (u64 (n + 8) - 1) / 8.

Lemma bytes_for_range n : 0 <= bytes_for n < 2 ^ 61.
Proof.
  unfold bytes_for. pose proof (u64_range (u64 (n + 8) - 1)).
  split; [apply Z.div_pos; lia|apply Z.div_lt_upper_bound; lia].
Qed.

Lemma bytes_for_small n : 0 <= n < 2 ^ 62 -> bytes_for n = (n + 7) / 8.
Proof.
  intros. unfold bytes_for. rewrite (u64_small (n + 8)), u64_small by lia. f_equal. lia.
Qed.

Definition empty_bitmap (n : Z) : kes_bitmap :=
  mkBitmap (replicate (Z.to_nat (bytes_for n)) 0) n (bytes_for n) n 0.

Lemma empty_buf_ok n : buf_ok (empty_bitmap n).
Proof.
  pose proof (bytes_for_range n). split; cbn; [lia| |].
  - rewrite length_replicate. lia.
  - apply Forall_replicate, is_byte_0.
Qed.

Lemma kes_bitmap_create_any n w (Q : Z * option kes_bitmap -> world -> Prop) :
  (n = 0 -> Q (KES_ERROR_INVALID, None) w) ->
  (forall w', same_world w w' -> n ≠ 0 -> Q (KES_SUCCESS, Some (empty_bitmap n)) w') ->
  (forall w', same_world w w' -> ~ quiet w -> Q (KES_ERROR_NOMEM, None) w') ->
  wp (kes_bitmap_create n true) w Q.
Proof.
  intros Hz Hok Hno. unfold kes_bitmap_create, BITS_PER_BYTE. cbn [negb orb].
  destruct (Z.eqb_spec n 0); [by apply Hz|].
  wp_bind. apply wp_calloc; [|intros; wp_ret; eauto].
  intros w1 Hw1. wp_bind. apply wp_calloc.
  - intros w2 Hw2. wp_ret. apply Hok; [|done]. destruct Hw1 as [<- <- ? ?], Hw2. split; auto.
  - intros w2 Hw2 Hq. wp_ret. apply Hno.
    + destruct Hw1 as [<- <- ? ?], Hw2. split; auto.
    + by eapply noisy_back.
Qed.

Section with_crc.
Context `{Crc32c}.

(** ** Opening *)

(** Where the bitmap of an image is said to be. *)
Definition image_map (f : list Z) : list Z :=
  slice (Z.to_nat (bitmap_offset (decode_desc f)))
    (Z.to_nat (bytes_for (desc_user_blocks (decode_desc f)))) f.

(** The reasons for which an image [f] is refused with each code. *)
Inductive image_refused (f : list Z) (noisy : Prop) : Z -> Prop :=
  | refused_fault : noisy -> image_refused f noisy KES_ERROR_IO
  | refused_memory : noisy -> image_refused f noisy KES_ERROR_NOMEM
  | refused_short : (length f < 112)%nat -> image_refused f noisy KES_ERROR_IO
  | refused_magic : desc_magic (decode_desc f) ≠ KES_MAGIC_NUMBER ->
      image_refused f noisy KES_ERROR_CORRUPT
  | refused_version : desc_version_major (decode_desc f) ≠ KES_VERSION_MAJOR ->
      image_refused f noisy KES_ERROR_CORRUPT
  | refused_no_blocks : desc_user_blocks (decode_desc f) = 0 ->
      image_refused f noisy KES_ERROR_INVALID
  | refused_no_map :
      bitmap_offset (decode_desc f) < 0 \/
      Z.of_nat (length f) < bitmap_offset (decode_desc f) +
                            bytes_for (desc_user_blocks (decode_desc f)) ->
      image_refused f noisy KES_ERROR_IO
  | refused_checksum :
      (0 <= bitmap_offset (decode_desc f) ->
       kfl_crc32c 0 (image_map f) ≠ desc_bitmap_checksum (decode_desc f)) ->
      image_refused f noisy KES_ERROR_CORRUPT.

(** The handle on an accepted image. *)
Record image_opened (f : list Z) (flags : Z) (sto : kes_storage) : Prop := {
  io_desc : sto_desc sto = decode_desc f;
  io_long : (112 <= length f)%nat;
  io_magic : desc_magic (decode_desc f) = KES_MAGIC_NUMBER;
  io_version : desc_version_major (decode_desc f) = KES_VERSION_MAJOR;
  io_flags : sto_readonly sto = has_flag flags KES_STORAGE_READONLY /\
             sto_sync_writes sto = has_flag flags KES_STORAGE_SYNC;
  io_rest : sto_strategy sto = KES_ALLOC_FIRST_FIT /\ sto_lock sto = false /\
            sto_stats sto = zero_stats;
  io_bitmap : exists bm, sto_bitmap sto = Some bm /\ buf_ok bm /\
    bm_total_bits bm = desc_user_blocks (decode_desc f) /\
    bm_total_bytes bm = bytes_for (desc_user_blocks (decode_desc f)) /\
    kfl_crc32c 0 (bm_data bm) = desc_bitmap_checksum (decode_desc f) /\
    (0 <= bitmap_offset (decode_desc f) -> bm_data bm = image_map f)
}.

Lemma buf_checksum bm :
  buf_ok bm ->
  kes_bitmap_checksum (Some bm) true = Some (KES_SUCCESS, Some (kfl_crc32c 0 (bm_data bm))).
Proof.
  intros [? Hlen _]. unfold kes_bitmap_checksum. cbn [negb]. unfold bm_bytes.
  destruct (Z.ltb_spec (Z.of_nat (length (bm_data bm))) (bm_total_bytes bm)); [lia|].
  cbn [mbind option_bind]. by rewrite <-Hlen, Nat2Z.id, firstn_all.
Qed.

Lemma zero_desc_ok : desc_ok zero_desc.
Proof.
  split; cbn; try (split; [done|lia]). split; [done|]. repeat constructor; unfold is_byte; lia.
Qed.

(** The error exit of [kes_storage_open]: unlock, close, report. *)
Lemma wp_open_fail w w1 w2 fd path wr lk (code : Z)
    (Q : Z * option kes_storage -> world -> Prop) :
  fd_attrs w !! fd = None ->
  evolves w w1 (w_files w) (<[fd := (path, wr, lk)]> (fd_attrs w)) ->
  same_world w1 w2 ->
  (forall w', same_world w w' -> Q (code, None) w') ->
  wp (flock_un fd ;;; sys_close fd ;;; ret (code, None)) w2 Q.
Proof.
  intros Hn Hw1 Hw2 HQ.
  assert (fd_attrs w2 = <[fd := (path, wr, lk)]> (fd_attrs w)) as Ha2
    by (by destruct Hw2 as [_ -> _ _], Hw1 as [_ -> _ _]).
  wp_bind. eapply (wp_flock_un fd w2 path wr lk); [by rewrite Ha2, lookup_insert_eq|].
  intros w3 Hw3. wp_bind. apply wp_close. intros w4 Hw4. wp_ret. apply HQ.
  rewrite Ha2, insert_insert_eq in Hw3.
  pose proof (evolves_trans _ _ _ _ _ _ _ Hw2 Hw3) as H23.
  pose proof (evolves_trans _ _ _ _ _ _ _ Hw1 H23) as H13.
  pose proof (closed_again _ _ _ _ _ _ _ Hn H13 Hw4) as H4.
  destruct H4 as [F A O K]. split; [|done..]. rewrite F.
  destruct H13 as [-> _ _ _]. destruct Hw2 as [-> _ _ _]. by destruct Hw1 as [-> _ _ _].
Qed.

(** From the checks on the loaded image to the reasons for refusing it. *)
Lemma image_opened_intro f flags fd bm :
  (112 <= length f)%nat ->
  desc_magic (decode_desc f) = KES_MAGIC_NUMBER ->
  desc_version_major (decode_desc f) = KES_VERSION_MAJOR ->
  buf_ok bm -> same_geom (empty_bitmap (desc_user_blocks (decode_desc f))) bm ->
  (0 <= bitmap_offset (decode_desc f) -> bm_data bm = image_map f) ->
  kfl_crc32c 0 (bm_data bm) = desc_bitmap_checksum (decode_desc f) ->
  image_opened f flags
    (mkStorage fd (decode_desc f) (Some bm) KES_ALLOC_FIRST_FIT false zero_stats
       (has_flag flags KES_STORAGE_READONLY) (has_flag flags KES_STORAGE_SYNC)).
Proof.
  intros ? ? ? ? (? & ? & _) ? ?. split; cbn; try done. exists bm. by split_and!.
Qed.

Lemma open_spec path flags w (Q : Z * option kes_storage -> world -> Prop) :
  world_ok w -> unlocked w path ->
  (forall f, w_files w !! path = Some f -> Forall is_byte f) ->
  (forall w' code, same_world w w' ->
     match w_files w !! path with
     | None => code = KES_ERROR_IO \/ code = KES_ERROR_NOMEM /\ ~ quiet w
     | Some f => image_refused f (~ quiet w) code
     end -> Q (code, None) w') ->
  (forall w' f sto, w_files w !! path = Some f -> image_opened f flags sto ->
     0 <= sto_fd sto -> fd_attrs w !! sto_fd sto = None ->
     evolves w w' (w_files w)
       (<[sto_fd sto := (path, negb (has_flag flags KES_STORAGE_READONLY), None)]> (fd_attrs w)) ->
     Q (KES_SUCCESS, Some sto) w') ->
  wp (kes_storage_open (Some path) flags true) w Q.
Proof.
  intros Hwok Hun Hbytes Hno Hok. unfold kes_storage_open. cbn [negb].
  assert (forall w', same_world w w' -> ~ quiet w -> forall code,
            code = KES_ERROR_IO \/ code = KES_ERROR_NOMEM -> Q (code, None) w') as Hnoisy.
  { intros w' Hw Hq code Hc. apply Hno; [done|].
    destruct (w_files w !! path); destruct Hc as [->| ->]; auto; by constructor. }
  wp_bind. apply wp_calloc; [|intros; wp_ret; auto].
  intros w1 Hw1. wp_bind. apply wp_mutex_init; intros w2 Hw2;
    pose proof (evolves_trans _ _ _ _ _ _ _ Hw1 Hw2) as H02;
    assert (same_world w w2) as Hs2 by (by destruct Hw1 as [<- <- _ _]); clear H02.
  2:{ intros Hq. wp_ret. apply Hnoisy; [done|exact (noisy_back _ _ _ _ Hw1 Hq)|by right]. }
  cbn [Z.eqb negb]. wp_bind. apply wp_open; [by apply Hs2| |].
  2:{ intros w3 Hw3 Hq. change (-1 <? 0) with true. wp_ret.
      assert (same_world w w3) as Hs3
        by (eapply evolves_trans; [exact Hs2|]; by destruct Hs2 as [<- <- _ _]).
      apply Hno; [done|]. destruct Hs2 as [Hf2 _ _ Hq2]. rewrite Hf2 in Hq.
      destruct (w_files w !! path); [|by left]. constructor.
      intros Hquiet. destruct (Hq (Hq2 Hquiet)). done. }
  intros w3 fd Hfd Hfresh Hw3 Hex. pose proof Hs2 as [Hf2 Ha2 _ _]. rewrite Hf2, Ha2 in *.
  destruct (Z.ltb_spec fd 0); [lia|].
  destruct (w_files w !! path) as [f|] eqn:Hpath; [|by destruct Hex as [[? ?]|?]].
  unfold opened_files in Hw3. rewrite Hpath in Hw3. cbn [O_TRUNC O_WRITABLE] in Hw3.
  set (wr := negb (has_flag flags KES_STORAGE_READONLY)) in *.
  assert (evolves w w3 (w_files w) (<[fd := (path, wr, None)]> (fd_attrs w))) as Hs3
    by (eapply evolves_trans; [exact Hs2|exact Hw3]).
  pose proof Hs3 as [Hf3 Ha3 _ _]. cbv zeta. wp_bind.
  eapply (wp_flock fd LOCK_SH w3 path wr None); [by rewrite Ha3, lookup_insert_eq| | |].
  { intros fd' a Hne. rewrite Ha3, lookup_insert_ne by done. apply Hun. }
  2:{ intros w4 Hw4 Hq. change (negb (-1 =? 0)) with true. cbv iota. wp_bind. apply wp_close.
      intros w5 Hw5. wp_ret. apply Hnoisy; [|exact (noisy_back _ _ _ _ Hs3 Hq)|by left].
      pose proof (evolves_trans _ _ _ _ _ _ _ Hs3 Hw4) as Hs4. rewrite Hf3, Ha3 in Hs4.
      pose proof (closed_again _ _ _ _ _ _ _ Hfresh Hs4 Hw5) as H5.
      by destruct Hs4 as [E _ _ _]; rewrite E in H5. }
  intros w4 Hw4. change (negb (0 =? 0)) with false. cbv iota.
  rewrite Hf3, Ha3, insert_insert_eq in Hw4.
  assert (evolves w w4 (w_files w) (<[fd := (path, wr, Some LOCK_SH)]> (fd_attrs w))) as Hs4
    by (by eapply evolves_trans).
  pose proof Hs4 as [Hf4 Ha4 _ Hq4]. specialize (Hbytes f eq_refl).
  assert (forall w' code, same_world w4 w' -> image_refused f (~ quiet w) code ->
    wp (flock_un fd ;;; sys_close fd ;;; ret (code, None)) w' Q) as Hfail.
  { intros w' code Hw' Hr. eapply wp_open_fail; [done|exact Hs4|done|].
    intros w'' Hw''. by apply Hno. }
  wp_bind. eapply (load_desc_spec _ w4 path wr (Some LOCK_SH) f).
  { apply zero_desc_ok. } { split; [by rewrite Ha4, lookup_insert_eq|by rewrite Hf4]. } { done. }
  intros w5 code d5 Hw5 Hd5 Hpost. cbn [sto_desc] in Hpost.
  destruct Hpost as [(-> & Hl & -> & Hm & Hv)|[(-> & Hl & -> & Hor)|(-> & Hq & _)]].
  2:{ apply Hfail; [done|]. by destruct Hor; [apply refused_magic|apply refused_version]. }
  2:{ apply Hfail; [done|]. destruct (decide (length f < 112)%nat); [by apply refused_short|].
      apply refused_fault. intros Hquiet. by specialize (Hq (Hq4 Hquiet)). }
  rewrite Z.eqb_refl. cbn [negb]. wp_bind. cbn [sto_desc set_desc].
  apply kes_bitmap_create_any.
  { intros Hz. apply Hfail; [done|]. by apply refused_no_blocks. }
  2:{ intros w6 Hw6 Hq. apply Hfail.
      - eapply evolves_trans; [exact Hw5|]. by destruct Hw5 as [<- <- _ _].
      - apply refused_memory. eapply noisy_back; [exact Hs4|]. by eapply noisy_back. }
  intros w6 Hw6 Hnz. rewrite Z.eqb_refl. cbn [negb]. cbn [sto_bitmap set_bitmap sto_desc].
  assert (same_world w4 w6) as Hs6
    by (eapply evolves_trans; [exact Hw5|]; by destruct Hw5 as [<- <- _ _]).
  pose proof Hs6 as [Hf6 Ha6 _ Hq6]. wp_bind.
  eapply (kes_bitmap_load_any _ fd _ w6 (path, wr, Some LOCK_SH) f);
    [apply empty_buf_ok|done|by rewrite Ha6, Ha4, lookup_insert_eq|by rewrite Hf6, Hf4|done|].
  intros w7 code bm Hw7 (Hb & Hg & Hload).
  assert (same_world w4 w7) as Hs7
    by (eapply evolves_trans; [exact Hs6|]; by destruct Hs6 as [<- <- _ _]).
  destruct Hload as [[-> Hdata]|[-> Hq]].
  2:{ apply Hfail; [done|]. cbn [empty_bitmap bm_total_bytes] in Hq.
      destruct (decide (bitmap_offset (decode_desc f) < 0 \/
        Z.of_nat (length f) < bitmap_offset (decode_desc f) +
                              bytes_for (desc_user_blocks (decode_desc f)))).
      - by apply refused_no_map.
      - apply refused_fault. intros Hquiet. specialize (Hq (Hq6 (Hq4 Hquiet))). tauto. }
  rewrite Z.eqb_refl. cbn [negb]. wp_bind. eapply wp_lift; [by apply buf_checksum|].
  cbv iota zeta. change (default 0 (Some (kfl_crc32c 0 (bm_data bm)))) with (kfl_crc32c 0 (bm_data bm)).
  change (KES_SUCCESS =? KES_SUCCESS) with true. cbn [andb sto_desc set_bitmap set_desc].
  destruct (Z.eqb_spec (kfl_crc32c 0 (bm_data bm)) (desc_bitmap_checksum (decode_desc f)))
    as [Hc|Hc]; cbn [negb]; cbv iota.
  2:{ apply Hfail; [done|]. apply refused_checksum. intros Hoff Hcr. by rewrite Hdata in Hc. }
  rewrite Z.eqb_refl. cbn [negb]. wp_bind.
  eapply (wp_flock_un fd w7 path wr (Some LOCK_SH)).
  { destruct Hs7 as [_ -> _ _]. by rewrite Ha4, lookup_insert_eq. }
  intros w8 Hw8. wp_ret. eapply (Hok w8 f); [done|by apply image_opened_intro|done|done|].
  cbn [sto_fd set_bitmap set_desc].
  pose proof (evolves_trans _ _ _ _ _ _ _ Hs4 Hs7) as Hs7'. pose proof Hs7' as [Hf7 Ha7 _ _].
  rewrite Hf7, Ha7, Ha4, Hf4, insert_insert_eq in Hw8. by eapply evolves_trans.
Qed.

(** On a well-formed file all those checks pass and the handle is usable. *)
Lemma image_map_disk d f :
  layout_ok d -> disk_ok d f ->
  bitmap_offset (decode_desc f) = map_offset d /\
  bytes_for (desc_user_blocks (decode_desc f)) = map_bytes d /\
  image_map f = disk_map d f.
Proof.
  intros Hd Hf. pose proof (dk_layout _ _ Hf) as Hlay.
  pose proof (layout_eq _ _ Hlay) as (_ & _ & _ & _ & _ & Hub). pose proof (lo_user_blocks _ Hd).
  assert (bitmap_offset (decode_desc f) = map_offset d) as Ho
    by (by rewrite (bitmap_offset_layout d), bitmap_offset_exact by done).
  assert (bytes_for (desc_user_blocks (decode_desc f)) = map_bytes d) as Hb
    by (rewrite Hub; apply bytes_for_small; lia).
  split_and!; [done|done|]. unfold image_map. by rewrite Ho, Hb.
Qed.

Lemma image_opened_handle d f flags sto :
  layout_ok d -> disk_ok d f -> image_opened f flags sto -> 0 <= sto_fd sto -> handle_ok d sto.
Proof.
  intros Hd Hf [Hdesc _ _ _ _ _ (bm & Hbm & Hbuf & Ht & Htb & _)] Hfd.
  destruct (image_map_disk d f Hd Hf) as (_ & Hby & _).
  pose proof (layout_eq _ _ (dk_layout _ _ Hf)) as (_ & _ & _ & _ & _ & Hub).
  pose proof (lo_user_blocks _ Hd). destruct Hbuf as [? Hlen Hbyte]. split.
  - done.
  - rewrite Hdesc. by eapply disk_desc_ok.
  - rewrite Hdesc. apply (dk_layout _ _ Hf).
  - exists bm. split; [done|]. split; [|congruence]. split; [rewrite Ht, Hub; lia| |done|done].
    by rewrite Htb, Hby, Ht, Hub.
Qed.

Lemma sound_accepted d f (noisy : Prop) code :
  layout_ok d -> disk_sound d f -> image_refused f noisy code -> noisy.
Proof.
  intros Hd [Hf Hu Hfr Hcrc] Href. destruct (image_map_disk d f Hd Hf) as (Ho & Hby & Hm).
  pose proof (dk_layout _ _ Hf) as Hlay. pose proof (disk_ok_long d f Hd Hf).
  pose proof (layout_eq _ _ Hlay) as (Hmag & Hv & _ & _ & _ & Hub).
  pose proof (lo_user_blocks _ Hd). pose proof (map_offset_range d Hd) as Hr.
  pose proof (dk_length _ _ Hf). unfold sizeof_desc in Hr.
  destruct Href as [?|?|?|Hm'|Hv'|Hz|Hn|Hc]; try done; exfalso.
  - lia.
  - rewrite Hmag, (lo_magic _ Hd) in Hm'. done.
  - rewrite Hv, (lo_version _ Hd) in Hv'. done.
  - lia.
  - rewrite Ho, Hby in Hn. lia.
  - rewrite Hm in Hc. apply Hc; [lia|done].
Qed.

(** ** Closing *)

(** What [kes_storage_close] may leave in the file.  It never fails; with a
    fault in its reload the blocks' status is that of the handle's old
    bitmap, so only the absence of faults guarantees [cp_quiet]. *)
Record close_post (d : kes_storage_descriptor) (f : list Z) (noisy : Prop) (f' : list Z) : Prop := {
  cp_area : user_area_same d f f';
  cp_length : length f' = length f;
  cp_quiet : ~ noisy ->
    disk_ok d f' /\ disk_map d f' = disk_map d f /\
    decode_desc f' = set_checksum (kfl_crc32c 0 (disk_map d f)) (decode_desc f)
}.

#[local] Lemma quiet_dec w : quiet w \/ ~ quiet w.
Proof. unfold quiet. destruct (w_script w); [by left|by right]. Qed.

(** A save of [bs] at [off], complete or not, stays inside its range. *)
Lemma save_post_inside w bs f off code f' :
  save_post w bs f off code f' -> 0 <= off -> off + Z.of_nat (length bs) <= Z.of_nat (length f) ->
  length f' = length f /\
  forall p n, (p + n <= length f)%nat ->
    (Z.of_nat (p + n) <= off \/ off + Z.of_nat (length bs) <= Z.of_nat p) ->
    slice p n f' = slice p n f.
Proof.
  intros Hpost Hoff Hlen.
  assert (f' = f \/ exists m, f' = splice (Z.to_nat off) (take m bs) f) as [->|[m ->]]; [|done|].
  - destruct Hpost as [[_ ->]|(_ & _ & ?)]; [right|done]. exists (length bs). by rewrite firstn_all.
  - assert (length (take m bs) <= length bs)%nat by (rewrite length_take; lia).
    split; [rewrite length_splice; lia|]. intros p n Hn Hor. apply slice_splice_disjoint; lia.
Qed.

Lemma close_flush_spec d sto bm w path lk f (Q : kes_storage -> world -> Prop) :
  layout_ok d -> handle_ok d sto -> sto_bitmap sto = Some bm ->
  on_file w (sto_fd sto) path true lk f -> map_offset d + map_bytes d <= Z.of_nat (length f) ->
  (forall w' sto' f', sto_fd sto' = sto_fd sto ->
     evolves w w' (<[path := f']> (w_files w))
       (<[sto_fd sto := (path, true, None)]> (fd_attrs w)) ->
     user_area_same d f f' -> length f' = length f ->
     (quiet w -> f' = splice 0 (encode_desc (set_checksum (kfl_crc32c 0 (bm_data bm)) (sto_desc sto)))
                        (splice (Z.to_nat (map_offset d)) (bm_data bm) f)) ->
     Q sto' w') ->
  wp (close_flush sto) w Q.
Proof.
  intros Hd Hh Hbm Hon Hlen HQ. pose proof Hh as [Hfd Hdesc Hlay (bm0 & Hbm0 & Hof)].
  assert (bm0 = bm) as -> by congruence. clear Hbm0.
  pose proof (bitmap_of_bytes d bm Hof) as [_ Hlb].
  pose proof (map_offset_range d Hd) as Hr. pose proof (map_bytes_pos d Hd). unfold sizeof_desc in Hr.
  unfold close_flush. wp_bind. rewrite Hbm, (bitmap_offset_layout d), bitmap_offset_exact by done.
  pose proof Hon as [Ha Hfile].
  eapply kes_bitmap_save_spec; [apply Hof|done|lia|exact Ha|exact Hfile|].
  intros w1 code1 f1 Hw1 Hs1.
  destruct (save_post_inside _ _ _ _ _ _ Hs1) as [Hl1 Hin1]; [lia|lia|].
  wp_bind. eapply refresh_checksum_spec; [done|apply Hof|]. cbv iota.
  set (d1 := set_checksum (kfl_crc32c 0 (bm_data bm)) (sto_desc sto)).
  assert (desc_ok d1) as Hd1 by (by apply desc_ok_checksum).
  pose proof (length_encode_desc d1 (proj1 (ok_reserved _ Hd1))) as Hle.
  wp_bind. eapply (save_desc_spec (set_desc d1 sto) w1 path lk f1); [done| |].
  { by eapply on_file_written. }
  intros w2 code2 f2 Hw2 Hs2. cbn [sto_desc set_desc] in Hs2.
  destruct (save_post_inside _ _ _ _ _ _ Hs2) as [Hl2 Hin2]; [lia|lia|].
  assert (evolves w w2 (<[path := f2]> (w_files w)) (fd_attrs w)) as Hw02
    by (eapply written_trans; [exact Hw1|]; by destruct Hw1 as [_ <- _ _]).
  assert (forall w3, same_world w2 w3 ->
    wp (flock_un (sto_fd (set_desc d1 sto)) ;;; ret (set_desc d1 sto)) w3 Q) as Hend.
  { intros w3 Hw3. pose proof (evolves_trans _ _ _ _ _ _ _ Hw02 Hw3) as Hw03.
    pose proof Hw02 as [F2 A2 _ _]. rewrite F2, A2 in Hw03. pose proof Hw03 as [F3 A3 _ _].
    wp_bind. eapply (wp_flock_un _ w3 path true lk); [by rewrite A3|].
    intros w4 Hw4. wp_ret. apply (HQ _ _ f2); [done| | |lia|].
    - rewrite F3, A3 in Hw4. by eapply evolves_trans.
    - intros p n Hp Hn. rewrite Hin2, Hin1; [done|lia|lia|lia|lia].
    - intros Hquiet. destruct Hs2 as [[_ ->]|(_ & Hq & _)]; [|by destruct Hq; apply Hw1].
      by destruct Hs1 as [[_ ->]|(_ & Hq & _)]. }
  wp_bind. apply wp_fsync; intros w3 Hw3; [|intros _]; by apply Hend.
Qed.

Lemma close_reload_spec d sto w path wr lk f (Q : kes_storage -> world -> Prop) :
  layout_ok d -> handle_ok d sto -> on_file w (sto_fd sto) path wr lk f -> disk_ok d f ->
  (forall w' sto', same_world w w' -> handle_ok d sto' -> same_handle sto sto' ->
     (quiet w -> exists bm, sto_bitmap sto = Some bm /\ bitmap_of d bm /\
                            sto' = reloaded_handle d f bm sto) ->
     Q sto' w') ->
  wp (close_reload sto) w Q.
Proof.
  intros Hd Hh Hon Hf HQ.
  pose proof Hh as [Hfd Hdesc Hlay (bm & Hbm & Hof)].
  unfold close_reload. wp_bind. eapply load_desc_spec; [done|done|apply Hf|].
  intros w1 code d1 Hw1 Hd1 Hpost.
  destruct (load_desc_disk d _ _ _ _ _ Hd Hf Hdesc Hlay Hpost) as [Hlay1 [[-> ->]|[-> Hq]]].
  2:{ wp_ret. apply HQ; [done|by apply handle_ok_set_desc|done|by intros]. }
  rewrite Z.eqb_refl. wp_bind. cbn [sto_bitmap sto_fd sto_desc set_desc]. rewrite Hbm.
  pose proof (map_offset_range d Hd) as Hr. unfold sizeof_desc in Hr.
  rewrite (bitmap_offset_layout d), bitmap_offset_exact by done.
  pose proof (on_file_same _ _ _ _ _ _ _ Hw1 Hon) as [Ha1 Hf1].
  eapply kes_bitmap_load_spec; [apply Hof|done|lia|exact Ha1|exact Hf1|apply Hf|].
  intros w2 code bm' Hw2 (Hs' & (Ht & _) & Hload). wp_ret.
  pose proof (bitmap_of_bytes d bm Hof) as [Htb _].
  apply HQ.
  - eapply evolves_trans; [exact Hw1|]. destruct Hw1 as [<- <- _ _]. done.
  - apply handle_ok_set; [done|done|done|]. split; [done|]. rewrite Ht. apply Hof.
  - done.
  - intros Hquiet. exists bm. destruct Hload as [(-> & _ & ->)|(-> & Hnq)].
    + split_and!; [done|done|]. unfold reloaded_handle, disk_map. by rewrite <-Htb.
    + pose proof (dk_length _ _ Hf). pose proof (ev_quiet _ _ _ _ Hw1 Hquiet) as Hq1.
      specialize (Hnq Hq1). lia.
Qed.

Lemma close_spec d sto w path f (Q : Z -> world -> Prop) :
  layout_ok d -> handle_ok d sto -> sto_readonly sto = false -> sto_lock sto = false ->
  on_file w (sto_fd sto) path true None f -> disk_ok d f ->
  unlocked_elsewhere w (sto_fd sto) path ->
  (forall w' f', evolves w w' (<[path := f']> (w_files w)) (delete (sto_fd sto) (fd_attrs w)) ->
     close_post d f (~ quiet w) f' -> Q KES_SUCCESS w') ->
  wp (kes_storage_close (Some sto)) w Q.
Proof.
  intros Hd Hh Hro Hlk Hon Hf Hfree HQ. unfold kes_storage_close. rewrite Hro, Hlk.
  unfold pthread_mutex_lock, pthread_mutex_unlock. wp_bind. wp_ret. wp_bind. wp_bind.
  pose proof Hon as [Ha Hfile].
  eapply wp_flock; [exact Ha|exact Hfree| |].
  2:{ intros w1 Hw1 Hq. change (-1 =? 0) with false. wp_ret. wp_bind. apply wp_close.
      intros w2 Hw2. wp_bind. wp_ret. wp_ret. apply (HQ _ f).
      - rewrite insert_id by done. pose proof Hw1 as [F A _ _]. rewrite F, A in Hw2.
        by eapply evolves_trans.
      - split; [done|done|]. by intros []. }
  intros w1 Hw1. change (0 =? 0) with true. cbv iota.
  pose proof (on_file_locked _ _ _ _ _ _ Hon Hw1) as Hon1. pose proof Hw1 as [F1 A1 _ Q1].
  wp_bind. eapply (close_reload_spec d sto w1); [done|done|exact Hon1|done|].
  intros w2 sto2 Hw2 Hh2 Hsame Hexact. pose proof (same_handle_fd _ _ Hsame) as Hfd2.
  pose proof (h_bitmap _ _ Hh2) as (bm2 & Hbm2 & Hof2). pose proof Hw2 as [F2 A2 _ _].
  eapply (close_flush_spec d sto2 bm2 w2 path); [done|done|done| |apply Hf|].
  { rewrite Hfd2. eapply on_file_same; [exact Hw2|exact Hon1]. }
  intros w3 sto3 f3 Hfd3 Hw3 Har Hlen Hex3. rewrite Hfd3, Hfd2. wp_bind. apply wp_close.
  intros w4 Hw4. wp_bind. wp_ret. wp_ret. apply (HQ _ f3).
  - pose proof (evolves_trans _ _ _ _ _ _ _ Hw1 Hw2) as H2.
    pose proof (evolves_trans _ _ _ _ _ _ _ H2 Hw3) as H3.
    pose proof (evolves_trans _ _ _ _ _ _ _ H3 Hw4) as H4. pose proof Hw3 as [F3 A3 _ _].
    rewrite F3, A3, F2, F1, A2, A1, Hfd2 in H4.
    by rewrite insert_insert_eq, delete_insert_eq in H4.
  - split; [done|done|]. intros Hnn.
    destruct (quiet_dec w) as [Hq|Hq]; [|done]. pose proof (Q1 Hq) as Hq1.
    specialize (Hex3 (ev_quiet _ _ _ _ Hw2 Hq1)).
    destruct (Hexact Hq1) as (bm & Hbm & Hof & ->). cbn in Hbm2. injection Hbm2 as <-.
    destruct (reloaded_bitmap d f bm Hd Hf Hof) as (Hofr & Hwfr & Hbr).
    cbn [sto_desc reloaded_handle set_bitmap set_desc bm_data reloaded] in Hex3.
    pose proof (bitmap_of_bytes d _ Hofr) as [_ Hlr]. cbn [bm_data reloaded] in Hlr.
    set (f1 := splice (Z.to_nat (map_offset d)) (disk_map d f) f) in *.
    destruct (save_bitmap_disk d w f _ KES_SUCCESS f1 Hd Hf Hofr Hwfr) as (Hf1 & _ & _ & Hdec1 & Hm1).
    { by left. }
    destruct Hm1 as [[_ Hm1]|[? _]]; [|done]. cbn [bm_data reloaded] in Hm1.
    set (d1 := set_checksum _ _) in *.
    destruct (save_desc_disk d w f1 d1 KES_SUCCESS f3 Hd Hf1) as (Hf3 & _ & Hm3 & Hd3).
    { apply desc_ok_checksum. by eapply disk_desc_ok. }
    { apply (dk_layout _ _ Hf). } { by left. }
    destruct Hd3 as [[_ Hd3]|[? _]]; [|done]. by rewrite Hm3, Hm1.
Qed.

(** A read-only handle only closes its descriptor. *)
Lemma close_readonly_spec sto w (Q : Z -> world -> Prop) :
  sto_readonly sto = true -> sto_lock sto = false ->
  (forall w', evolves w w' (w_files w) (delete (sto_fd sto) (fd_attrs w)) -> Q KES_SUCCESS w') ->
  wp (kes_storage_close (Some sto)) w Q.
Proof.
  intros Hro Hlk HQ. unfold kes_storage_close. rewrite Hro, Hlk. wp_bind. wp_ret. wp_bind. wp_ret.
  wp_bind. apply wp_close. intros w' Hw. wp_bind. wp_ret. wp_ret. by apply HQ.
Qed.

(** ** Creating *)

Lemma KES_IS_POWER_OF_2_spec x :
  0 <= x < 2 ^ 32 -> KES_IS_POWER_OF_2 x = true <-> exists k, 0 <= k /\ x = 2 ^ k.
Proof.
  intros Hx. unfold KES_IS_POWER_OF_2. split.
  - intros [Hnz Hl]%andb_true_iff. apply negb_true_iff, Z.eqb_neq in Hnz. apply Z.eqb_eq in Hl.
    rewrite u32_small in Hl by lia. exists (Z.log2 x). split; [apply Z.log2_nonneg|].
    pose proof (Z.log2_spec x ltac:(lia)) as [Hlo Hhi].
    destruct (decide (x = 2 ^ Z.log2 x)) as [|Hne]; [done|exfalso].
    assert (Z.log2 (x - 1) = Z.log2 x) as Hlog
      by (apply Z.log2_unique; [apply Z.log2_nonneg|lia]).
    pose proof (Z.pow_pos_nonneg 2 (Z.log2 x) ltac:(lia) (Z.log2_nonneg x)).
    assert (Z.testbit (Z.land x (x - 1)) (Z.log2 x) = true) as Hb.
    { rewrite Z.land_spec, (Z.bit_log2 x) by lia. rewrite <-Hlog at 1.
      by rewrite Z.bit_log2 by lia. }
    by rewrite Hl, Z.bits_0 in Hb.
  - intros (k & Hk & ->). pose proof (Z.pow_pos_nonneg 2 k ltac:(lia) Hk).
    rewrite u32_small by lia. apply andb_true_iff. split; [apply negb_true_iff, Z.eqb_neq; lia|].
    apply Z.eqb_eq. replace (2 ^ k - 1) with (Z.ones k) by (rewrite Z.ones_equiv; lia).
    rewrite Z.land_ones by done. apply Z.mod_same. lia.
Qed.

Lemma validate_config_spec c :
  0 <= cfg_block_size c < 2 ^ 32 ->
  validate_config (Some c) = KES_SUCCESS <->
    (exists path, cfg_device_path c = Some path) /\
    (exists k, 12 <= k <= 16 /\ cfg_block_size c = 2 ^ k) /\
    cfg_block_size c * 10 <= cfg_device_size c /\ cfg_strategy c = KES_ALLOC_FIRST_FIT.
Proof.
  intros Hb. unfold validate_config.
  destruct (cfg_device_path c) as [path|]; [|split; [done|by intros [[? ?] _]]].
  assert (KES_IS_POWER_OF_2 (cfg_block_size c) = true /\
          KES_MIN_BLOCK_SIZE <= cfg_block_size c <= KES_MAX_BLOCK_SIZE <->
          exists k, 12 <= k <= 16 /\ cfg_block_size c = 2 ^ k) as Hpow.
  { rewrite KES_IS_POWER_OF_2_spec by done. split.
    - intros [(k & Hk & He) Hr]. exists k. split; [|done]. rewrite He in Hr.
      change KES_MIN_BLOCK_SIZE with (2 ^ 12) in Hr. change KES_MAX_BLOCK_SIZE with (2 ^ 16) in Hr.
      rewrite <-!Z.pow_le_mono_r_iff in Hr by lia. done.
    - intros (k & Hk & ->). split; [exists k; split; [lia|done]|].
      change KES_MIN_BLOCK_SIZE with (2 ^ 12). change KES_MAX_BLOCK_SIZE with (2 ^ 16).
      rewrite <-!Z.pow_le_mono_r_iff by lia. done. }
  rewrite <-Hpow. clear Hpow. unfold KES_MIN_BLOCK_SIZE, KES_MAX_BLOCK_SIZE.
  destruct (KES_IS_POWER_OF_2 (cfg_block_size c)); cbn [negb orb];
    [|split; [done|intros (_ & [? _] & _); done]].
  destruct (Z.ltb_spec (cfg_block_size c) 4096); cbn [orb];
    [split; [done|intros (_ & [_ ?] & _); lia]|].
  destruct (Z.ltb_spec 65536 (cfg_block_size c));
    [split; [done|intros (_ & [_ ?] & _); lia]|].
  rewrite u32_small by lia.
  destruct (Z.ltb_spec (cfg_device_size c) (cfg_block_size c * 10));
    [split; [done|intros (_ & _ & ? & _); lia]|].
  case_decide; [|split; [done|by intros (_ & _ & _ & ?)]]. split; [|done]. intros _. split_and!; eauto; lia.
Qed.

(** The layout computed from a device size. *)
Lemma init_geometry size :
  5 * 8192 <= size < 2 ^ 63 ->
  let d := init_storage_descriptor zero_desc size in
  desc_total_blocks d = size / 8192 /\
  desc_bitmap_blocks d = ((size / 8192 + 7) / 8 + 8191) / 8192 /\
  desc_bitmap_start_block d = desc_total_blocks d - desc_bitmap_blocks d /\
  desc_user_blocks d = desc_bitmap_start_block d - 1 /\
  1 <= desc_bitmap_blocks d <= desc_total_blocks d - 2 /\
  desc_total_blocks d <= desc_bitmap_blocks d * 65536.
Proof.
  intros Hsize. set (n := size / 8192).
  assert (5 <= n /\ n * 8192 <= size < n * 8192 + 8192) as [Hn Hsz].
  { unfold n. pose proof (Z.div_mod size 8192 ltac:(lia)).
    pose proof (Z.mod_pos_bound size 8192 ltac:(lia)). split; [|lia].
    apply Z.div_le_lower_bound; lia. }
  cbn. unfold calculate_bitmap_blocks, KES_DEFAULT_BLOCK_SIZE. fold n.
  rewrite (u64_small (n + 7)) by lia. set (m := (n + 7) / 8).
  assert (n <= 8 * m <= n + 7) as Hm.
  { unfold m. pose proof (Z.div_mod (n + 7) 8 ltac:(lia)).
    pose proof (Z.mod_pos_bound (n + 7) 8 ltac:(lia)). lia. }
  rewrite (u64_small (m + 8192)), (u64_small (m + 8192 - 1)) by lia.
  replace (m + 8192 - 1) with (m + 8191) by lia. set (q := (m + 8191) / 8192).
  assert (m <= 8192 * q <= m + 8191) as Hq.
  { unfold q. pose proof (Z.div_mod (m + 8191) 8192 ltac:(lia)).
    pose proof (Z.mod_pos_bound (m + 8191) 8192 ltac:(lia)). lia. }
  rewrite (u64_small (n - q)) by lia. rewrite u64_small by lia. split_and!; lia.
Qed.

Lemma init_layout_ok size :
  5 * 8192 <= size < 2 ^ 63 -> layout_ok (init_storage_descriptor zero_desc size).
Proof.
  intros Hsize. pose proof (init_geometry size Hsize) as Hg. cbv zeta in Hg.
  set (d := init_storage_descriptor zero_desc size) in *.
  destruct Hg as (Ht & Hbb & Hbs & Hub & Hr & Hc).
  pose proof (Z.div_mod size 8192 ltac:(lia)). pose proof (Z.mod_pos_bound size 8192 ltac:(lia)).
  assert (desc_user_blocks d < 2 ^ 62) by lia.
  assert (map_bytes d <= desc_bitmap_blocks d * 8192) as Hmb.
  { unfold map_bytes. pose proof (Z.div_mod (desc_user_blocks d + 7) 8 ltac:(lia)).
    pose proof (Z.mod_pos_bound (desc_user_blocks d + 7) 8 ltac:(lia)). lia. }
  split.
  - split; try (cbn; lia).
    all: try change (desc_free_blocks d) with (desc_user_blocks d).
    all: try (change (256 ^ 8) with (2 ^ 64); lia).
    all: try (split; [done|reflexivity]).
    cbn. split; [done|]. repeat constructor; unfold is_byte; lia.
  - done.
  - done.
  - cbn. unfold sizeof_desc, KES_DEFAULT_BLOCK_SIZE. lia.
  - cbn. lia.
  - lia.
  - change (desc_user_start_block d) with 1. lia.
  - unfold map_offset. change (desc_block_size d) with 8192. lia.
Qed.

(** The descriptor a successful creation writes. *)
Definition created_desc (size : Z) : kes_storage_descriptor :=
  let d := init_storage_descriptor zero_desc size in
  set_checksum (kfl_crc32c 0 (bm_data (fresh_bitmap (desc_user_blocks d)))) d.

(** The image of a fresh storage over old content [f]. *)
Definition created_image (d : kes_storage_descriptor) (f : list Z) : list Z :=
  splice 0 (encode_desc d)
    (splice (Z.to_nat (map_offset d)) (bm_data (fresh_bitmap (desc_user_blocks d))) f).

Lemma created_image_sound d f :
  layout_ok d -> Forall is_byte f -> desc_free_blocks d = desc_user_blocks d ->
  desc_used_blocks d = 0 ->
  desc_bitmap_checksum d = kfl_crc32c 0 (bm_data (fresh_bitmap (desc_user_blocks d))) ->
  disk_sound d (created_image d f) /\ decode_desc (created_image d f) = d /\
  forall i, disk_bit d (created_image d f) i = false.
Proof.
  intros Hd Hf Hfree Hused Hcrc. set (n := desc_user_blocks d) in *. set (g := created_image d f).
  pose proof (map_offset_range d Hd). pose proof (map_bytes_pos d Hd). unfold sizeof_desc in *.
  pose proof (lo_user_blocks _ Hd). fold n in H2.
  assert (Z.of_nat (length (bm_data (fresh_bitmap n))) = map_bytes d) as Hl.
  { cbn [fresh_bitmap bm_data]. rewrite length_replicate. change ((n + 7) / 8) with (map_bytes d). lia. }
  pose proof (length_encode_desc d (proj1 (ok_reserved _ (lo_desc _ Hd)))) as Hle.
  assert (decode_desc g = d) as Hdec by (apply decode_desc_write, (lo_desc _ Hd)).
  assert (disk_map d g = bm_data (fresh_bitmap n)) as Hmap.
  { unfold disk_map, g, created_image. fold n. rewrite slice_splice_disjoint.
    - by apply disk_map_map_write.
    - rewrite length_splice. lia.
    - lia. }
  assert (forall i, disk_bit d g i = false) as Hbits.
  { intros i. unfold disk_bit. rewrite Hmap. apply fresh_bit. }
  assert (disk_used d g = 0) as Hu by (apply count_bits_false; auto).
  split_and!; [|done|done]. split; [split|..].
  - apply Forall_splice; [apply is_byte_0|by apply encode_desc_bytes, (lo_desc _ Hd)|].
    apply Forall_splice; [apply is_byte_0| |done]. apply Forall_replicate, is_byte_0.
  - unfold g, created_image. rewrite !length_splice. fold n. lia.
  - by rewrite Hdec.
  - auto.
  - by rewrite Hdec, Hu.
  - by rewrite Hdec, Hu, Z.sub_0_r.
  - by rewrite Hdec, Hmap.
Qed.

(** What the file holds when the creation starts writing. *)
Definition initial_content (w : world) (path : string) (flags : Z) : list Z :=
  match w_files w !! path with
  | Some f => if has_flag flags KES_STORAGE_TRUNCATE then [] else f
  | None => []
  end.

Lemma opened_files_content w path fl flags :
  O_TRUNC fl = has_flag flags KES_STORAGE_TRUNCATE ->
  opened_files path fl (w_files w) = <[path := initial_content w path flags]> (w_files w).
Proof.
  unfold opened_files, initial_content. intros ->.
  destruct (w_files w !! path) eqn:E; [|done].
  destruct (has_flag flags KES_STORAGE_TRUNCATE); [done|]. by rewrite insert_id.
Qed.

(** The handle [kes_storage_create] returns. *)
Definition created_handle (c : kes_storage_config) (fd : Z) : kes_storage :=
  let d := created_desc (cfg_device_size c) in
  mkStorage fd d (Some (fresh_bitmap (desc_user_blocks d))) (cfg_strategy c) false zero_stats
    (has_flag (cfg_flags c) KES_STORAGE_READONLY) (has_flag (cfg_flags c) KES_STORAGE_SYNC).

Lemma created_desc_layout size :
  layout (created_desc size) = layout (init_storage_descriptor zero_desc size).
Proof. done. Qed.

Lemma created_layout_ok size : 5 * 8192 <= size < 2 ^ 63 -> layout_ok (created_desc size).
Proof.
  intros Hsize. pose proof (init_layout_ok size Hsize) as Hd.
  eapply layout_ok_transfer; [done| |done]. by apply desc_ok_checksum, lo_desc.
Qed.

Lemma created_handle_ok c fd :
  5 * 8192 <= cfg_device_size c < 2 ^ 63 -> 0 <= fd ->
  handle_ok (created_desc (cfg_device_size c)) (created_handle c fd).
Proof.
  intros Hsize Hfd. pose proof (created_layout_ok _ Hsize) as Hd.
  pose proof (lo_user_blocks _ Hd). split; [done|by apply lo_desc|done|].
  eexists. split; [done|]. split; [|done]. apply wf_shape, fresh_wf. lia.
Qed.

Lemma created_sound size f :
  5 * 8192 <= size < 2 ^ 63 -> Forall is_byte f ->
  let d := created_desc size in
  disk_sound d (created_image d f) /\ decode_desc (created_image d f) = d /\
  forall i, disk_bit d (created_image d f) i = false.
Proof. intros Hsize Hf. by apply created_image_sound; [apply created_layout_ok|..]. Qed.

(** The error exit once the device is open. *)
Lemma wp_create_fail w w1 fd a fs path (code : Z) (Q : Z * option kes_storage -> world -> Prop) :
  fd_attrs w !! fd = None ->
  evolves w w1 fs (<[fd := a]> (fd_attrs w)) ->
  (forall p, p ≠ path -> fs !! p = w_files w !! p) ->
  (forall w' fs', evolves w w' fs' (fd_attrs w) ->
     (forall p, p ≠ path -> fs' !! p = w_files w !! p) -> Q (code, None) w') ->
  wp (sys_close fd ;;; ret (code, None)) w1 Q.
Proof.
  intros Hn Hw1 Hfs HQ. wp_bind. apply wp_close. intros w2 Hw2. wp_ret.
  pose proof Hw1 as [F1 _ _ _].
  eapply HQ; [by eapply closed_again|]. by rewrite F1.
Qed.

Lemma insert_elsewhere {A} (path : string) (f : A) (fs fs' : gmap string A) :
  (forall p, p ≠ path -> fs !! p = fs' !! p) ->
  forall p, p ≠ path -> <[path := f]> fs !! p = fs' !! p.
Proof. intros Hfs p Hp. rewrite lookup_insert_ne by done. auto. Qed.

(** The writes of [kes_storage_create], from the fresh bitmap on. *)
Lemma create_writes c w1 fd path f0 (Q : Z * option kes_storage -> world -> Prop) :
  5 * 8192 <= cfg_device_size c < 2 ^ 63 -> 0 <= fd ->
  on_file w1 fd path true None f0 ->
  let d0 := init_storage_descriptor zero_desc (cfg_device_size c) in
  let sto := mkStorage fd d0 (Some (fresh_bitmap (desc_user_blocks d0))) (cfg_strategy c) false
               zero_stats (has_flag (cfg_flags c) KES_STORAGE_READONLY)
               (has_flag (cfg_flags c) KES_STORAGE_SYNC) in
  (forall w' f', evolves w1 w' (<[path := f']> (w_files w1)) (fd_attrs w1) -> ~ quiet w1 ->
     wp (sys_close fd ;;; ret (KES_ERROR_IO, None)) w' Q) ->
  (forall w', evolves w1 w'
       (<[path := created_image (created_desc (cfg_device_size c)) f0]> (w_files w1))
       (fd_attrs w1) -> Q (KES_SUCCESS, Some (created_handle c fd)) w') ->
  wp (let* (result, sto) := refresh_checksum sto in
      if negb (result =? KES_SUCCESS) then sys_close fd ;;; ret (result, None)
      else
      let* result := kes_bitmap_save (sto_bitmap sto) fd (bitmap_offset (sto_desc sto)) in
      if negb (result =? KES_SUCCESS) then sys_close fd ;;; ret (result, None)
      else
      let* result := save_storage_descriptor sto in
      if negb (result =? KES_SUCCESS) then sys_close fd ;;; ret (result, None)
      else ret (KES_SUCCESS, Some sto)) w1 Q.
Proof.
  intros Hsize Hfd Hon d0 sto Hfail Hok. pose proof (init_layout_ok _ Hsize) as Hd0. fold d0 in Hd0.
  pose proof (created_layout_ok _ Hsize) as Hd. set (d := created_desc (cfg_device_size c)) in *.
  pose proof (lo_user_blocks _ Hd0) as Hub. pose proof (map_offset_range d Hd) as Hr.
  unfold sizeof_desc in Hr.
  assert (bm_shape (fresh_bitmap (desc_user_blocks d0))) as Hs by (apply wf_shape, fresh_wf; lia).
  wp_bind. eapply refresh_checksum_spec; [done|exact Hs|]. rewrite Z.eqb_refl. cbn [negb].
  fold (created_desc (cfg_device_size c)). fold d.
  change (set_desc _ sto) with (created_handle c fd). cbn [sto_bitmap created_handle sto_desc].
  fold d. change (desc_user_blocks d0) with (desc_user_blocks d) in Hs.
  wp_bind. pose proof Hon as [Ha Hf]. rewrite (bitmap_offset_exact d Hd).
  eapply kes_bitmap_save_spec; [exact Hs|done|lia|exact Ha|exact Hf|].
  intros w2 code2 f2 Hw2 Hs2.
  destruct Hs2 as [[-> ->]|(-> & Hq & _)].
  2:{ change (negb (KES_ERROR_IO =? KES_SUCCESS)) with true. cbv iota. by eapply Hfail. }
  rewrite Z.eqb_refl. cbn [negb]. wp_bind.
  eapply (save_desc_spec _ w2 path None); [apply Hd|by eapply on_file_written|].
  intros w3 code3 f3 Hw3 Hs3. cbn [sto_desc] in Hs3.
  assert (evolves w1 w3 (<[path := f3]> (w_files w1)) (fd_attrs w1)) as Hw13
    by (eapply written_trans; [exact Hw2|]; by destruct Hw2 as [_ <- _ _]).
  destruct Hs3 as [[-> ->]|(-> & Hq & _)].
  2:{ change (negb (KES_ERROR_IO =? KES_SUCCESS)) with true. cbv iota. eapply Hfail; [exact Hw13|].
      exact (noisy_back _ _ _ _ Hw2 Hq). }
  rewrite Z.eqb_refl. cbn [negb]. wp_ret. apply Hok. exact Hw13.
Qed.

Lemma create_spec c path w (Q : Z * option kes_storage -> world -> Prop) :
  validate_config (Some c) = KES_SUCCESS -> cfg_device_path c = Some path ->
  0 <= cfg_block_size c < 2 ^ 32 -> cfg_device_size c < 2 ^ 63 -> world_ok w ->
  (forall w' fs' code, evolves w w' fs' (fd_attrs w) ->
     (forall p, p ≠ path -> fs' !! p = w_files w !! p) ->
     code = KES_ERROR_IO \/ code = KES_ERROR_NOMEM ->
     (quiet w -> code = KES_ERROR_IO /\ w_files w !! path = None /\
                 has_flag (cfg_flags c) KES_STORAGE_CREATE = false) ->
     Q (code, None) w') ->
  (forall w' fd, 0 <= fd -> fd_attrs w !! fd = None ->
     (is_Some (w_files w !! path) \/ has_flag (cfg_flags c) KES_STORAGE_CREATE = true) ->
     evolves w w' (<[path := created_image (created_desc (cfg_device_size c))
                               (initial_content w path (cfg_flags c))]> (w_files w))
       (<[fd := (path, true, None)]> (fd_attrs w)) ->
     Q (KES_SUCCESS, Some (created_handle c fd)) w') ->
  wp (kes_storage_create (Some c) true) w Q.
Proof.
  intros Hv Hp Hb Hsz Hwok Hno Hok. unfold kes_storage_create. cbn [negb]. rewrite Hv.
  rewrite Z.eqb_refl. cbn [negb].
  assert (5 * 8192 <= cfg_device_size c < 2 ^ 63) as Hsize.
  { apply validate_config_spec in Hv as (_ & (k & Hk & Hbk) & Hds & _); [|done].
    pose proof (Z.pow_le_mono_r 2 12 k ltac:(lia) ltac:(lia)).
    change (2 ^ 12) with 4096 in *. lia. }
  assert (forall w' code, same_world w w' -> ~ quiet w ->
            code = KES_ERROR_IO \/ code = KES_ERROR_NOMEM -> Q (code, None) w') as Hnoisy.
  { intros w' code Hw Hq Hc. by eapply Hno. }
  wp_bind. apply wp_calloc; [|intros w1 Hw1 Hq; wp_ret; apply Hnoisy; auto].
  intros w1 Hw1. wp_bind. apply wp_mutex_init; intros w2 Hw2;
    (assert (same_world w w2) as Hs2
       by (eapply evolves_trans; [exact Hw1|]; by destruct Hw1 as [<- <- _ _])).
  2:{ intros Hq. wp_ret. apply Hnoisy; [done|exact (noisy_back _ _ _ _ Hw1 Hq)|by right]. }
  cbn [Z.eqb negb]. rewrite Hp. cbn [default]. change (id path) with path.
  pose proof Hs2 as [Hf2 Ha2 _ Hq2]. wp_bind. apply wp_open; [by apply Hs2| |].
  2:{ intros w3 Hw3 Hq. change (-1 <? 0) with true. wp_ret. eapply (Hno w3 (w_files w)).
      - eapply evolves_trans; [exact Hs2|]; by destruct Hs2 as [<- <- _ _].
      - done.
      - by left.
      - intros Hquiet. rewrite Hf2 in Hq. by destruct (Hq (Hq2 Hquiet)). }
  intros w3 fd Hfd Hfresh Hw3 Hex. rewrite Ha2 in Hfresh. rewrite Hf2, Ha2 in Hw3.
  rewrite Hf2 in Hex. cbn [O_CREAT O_WRITABLE] in Hex, Hw3.
  rewrite (opened_files_content w path _ (cfg_flags c)) in Hw3 by done.
  set (f0 := initial_content w path (cfg_flags c)) in *.
  destruct (Z.ltb_spec fd 0); [lia|].
  pose proof (evolves_trans _ _ _ _ _ _ _ Hs2 Hw3) as Hs3. pose proof Hs3 as [Hf3 Ha3 _ _].
  cbv zeta. wp_bind. apply kes_bitmap_create_spec.
  { pose proof (lo_user_blocks _ (init_layout_ok _ Hsize)). lia. }
  2:{ intros w4 Hw4 Hq. change (negb (KES_ERROR_NOMEM =? KES_SUCCESS)) with true. cbv iota.
      pose proof (evolves_trans _ _ _ _ _ _ _ Hs3 Hw4) as Hs4. rewrite Hf3, Ha3 in Hs4.
      eapply (wp_create_fail w w4 fd _ _ path); [done|exact Hs4|by apply insert_elsewhere|].
      intros w5 fs' Hw5 Hfs. eapply Hno; [exact Hw5|done|by right|].
      intros Hquiet. destruct (noisy_back _ _ _ _ Hs3 Hq Hquiet). }
  intros w4 Hw4. rewrite Z.eqb_refl. cbn [negb].
  pose proof (evolves_trans _ _ _ _ _ _ _ Hs3 Hw4) as Hs4. rewrite Hf3, Ha3 in Hs4.
  pose proof Hs4 as [Hf4 Ha4 _ _].
  apply (create_writes c w4 fd path f0); [done|done| | |].
  - split; [by rewrite Ha4, lookup_insert_eq|by rewrite Hf4, lookup_insert_eq].
  - intros w5 f5 Hw5 Hq. pose proof (evolves_trans _ _ _ _ _ _ _ Hs4 Hw5) as Hs5.
    rewrite Hf4, Ha4 in Hs5.
    eapply (wp_create_fail w w5 fd _ _ path); [done|exact Hs5| |].
    { by do 2 apply insert_elsewhere. }
    intros w6 fs' Hw6 Hfs. eapply Hno; [exact Hw6|done|by left|].
    intros Hquiet. destruct (noisy_back _ _ _ _ Hs4 Hq Hquiet).
  - intros w5 Hw5. pose proof (evolves_trans _ _ _ _ _ _ _ Hs4 Hw5) as Hs5.
    rewrite Hf4, Ha4, insert_insert_eq in Hs5. by apply (Hok w5 fd).
Qed.
End with_crc.
