(* ===== verification/FirstFit.v ===== *)
(** * First fit, as a specification

    The order in which the allocator must try positions, independently of how
    the bitmap search is coded.  Shared by the specifications of the bitmap
    and of the storage. *)
From S2P Require Import Prelude BitmapFacts.

Section first_fit.
(** Number of blocks. *)
Context (N : Z).

(** [n] free blocks from [s] on, all of them existing. *)
Definition fits (used : gset Z) (n s : Z) : bool :=
  (s + n <=? N) && forallb (fun j => bool_decide (j ∉ used)) (seqZ s n).

(** Candidates: from the hint to the last block, then from the first. *)
Definition candidates (hint : Z) : list Z :=
  let h := if N <=? hint then 0 else hint in
  seqZ h (N - h) ++ seqZ 0 h.

Definition first_free (used : gset Z) (n hint : Z) : option Z :=
  List.find (fits used n) (candidates hint).
End first_fit.

Definition blocks (s n : Z) : gset Z := list_to_set (seqZ s n).

(** ** The search order *)

Lemma find_seqZ (p : Z -> bool) a m :
  match List.find p (seqZ a m) with
  | Some s => a <= s < a + m /\ p s = true /\ forall s', a <= s' < s -> p s' = false
  | None => forall s', a <= s' < a + m -> p s' = false
  end.
Proof.
  destruct (Z.le_gt_cases m 0) as [Hm|Hm].
  { rewrite seqZ_nil by lia. cbn. lia. }
  replace m with (Z.of_nat (Z.to_nat m)) by lia. generalize (Z.to_nat m) as n. clear m Hm.
  intros n. revert a. induction n as [|n IH]; intros a.
  { rewrite seqZ_nil by lia. cbn. lia. }
  rewrite seqZ_cons by lia. cbn [List.find].
  replace (Z.pred (Z.of_nat (S n))) with (Z.of_nat n) by lia. replace (Z.succ a) with (a + 1) by lia.
  destruct (p a) eqn:Ea; [split_and!; [lia|lia|done|lia]|].
  specialize (IH (a + 1)). destruct (List.find p _) as [s|].
  - destruct IH as (? & ? & Hmin). split_and!; [lia|lia|done|]. intros s' Hs'.
    destruct (decide (s' = a)) as [->|]; [done|]. apply Hmin. lia.
  - intros s' Hs'. destruct (decide (s' = a)) as [->|]; [done|]. apply IH. lia.
Qed.

Lemma find_app {A} (p : A -> bool) l1 l2 :
  List.find p (l1 ++ l2) =
    match List.find p l1 with Some x => Some x | None => List.find p l2 end.
Proof. induction l1 as [|x l1 IH]; cbn; [done|]. by destruct (p x). Qed.

Lemma forallb_seqZ (p : Z -> bool) s n :
  forallb p (seqZ s n) = true <-> forall j, s <= j < s + n -> p j = true.
Proof.
  rewrite forallb_forall. split; intros Hp j Hj.
  - by apply Hp, list_elem_of_In, elem_of_seqZ.
  - by apply Hp, elem_of_seqZ, list_elem_of_In.
Qed.

Lemma elem_of_blocks j s n : j ∈ blocks s n <-> s <= j < s + n.
Proof. unfold blocks. by rewrite elem_of_list_to_set, elem_of_seqZ. Qed.

(** ** What it finds *)

(** [n] clear bits from [s] on, all below [N]. *)
Definition run_free (N : Z) (bit : Z -> bool) (s n : Z) : Prop :=
  0 <= s /\ s + n <= N /\ forall j, s <= j < s + n -> bit j = false.

(** The set of the set bits below [N]. *)
Definition set_bits (N : Z) (bit : Z -> bool) (used : gset Z) : Prop :=
  forall i, i ∈ used <-> 0 <= i < N /\ bit i = true.

Section search.
Context (N : Z) (bit : Z -> bool) (used : gset Z) (HN : 0 < N) (Hu : set_bits N bit used).

Lemma fits_free n s : 0 <= s -> fits N used n s = true <-> run_free N bit s n.
Proof using Hu.
  intros Hs. unfold fits, run_free. rewrite andb_true_iff, Z.leb_le, forallb_seqZ. split.
  - intros [Hle Hall]. split_and!; [done|done|]. intros j Hj. specialize (Hall j Hj).
    apply bool_decide_eq_true in Hall. rewrite (Hu j) in Hall.
    destruct (bit j); [|done]. destruct Hall. split; [lia|done].
  - intros (_ & Hle & Hall). split; [done|]. intros j Hj. apply bool_decide_eq_true.
    rewrite (Hu j). intros [_ Hb]. by rewrite Hall in Hb.
Qed.

Lemma first_free_spec n hint :
  0 < n -> 0 <= hint ->
  let h := if N <=? hint then 0 else hint in
  match first_free N used n hint with
  | Some s => run_free N bit s n /\ forall s', tried_before h s' s -> ~ run_free N bit s' n
  | None => forall s, ~ run_free N bit s n
  end.
Proof using HN Hu.
  intros Hn Hh h. assert (0 <= h < N) as Hhr by (unfold h; zcase; lia).
  pose proof (fun s => fits_free n s) as Hfits.
  unfold first_free, candidates. fold h. rewrite find_app.
  pose proof (find_seqZ (fits N used n) h (N - h)) as H1.
  pose proof (find_seqZ (fits N used n) 0 h) as H2.
  assert (forall s, 0 <= s -> fits N used n s = false -> ~ run_free N bit s n) as Hno
    by (intros s Hs Hf Hr; apply (Hfits s Hs) in Hr; congruence).
  destruct (List.find _ (seqZ h _)) as [s|].
  { destruct H1 as (Hs & Hf & Hmin). split; [apply Hfits; [lia|done]|].
    intros s' Hb Hr. pose proof Hr as (? & ? & _). unfold tried_before in Hb.
    revert Hr. apply Hno; [lia|]. apply Hmin. lia. }
  destruct (List.find _ (seqZ 0 _)) as [s|].
  - destruct H2 as (Hs & Hf & Hmin). split; [apply Hfits; [lia|done]|].
    intros s' Hb Hr. pose proof Hr as (? & ? & _). unfold tried_before in Hb.
    revert Hr. apply Hno; [lia|]. destruct (Z.lt_ge_cases s' h); [apply Hmin; lia|apply H1; lia].
  - intros s Hr. pose proof Hr as (? & ? & _). revert Hr. apply Hno; [lia|].
    destruct (Z.lt_ge_cases s h); [apply H2; lia|apply H1; lia].
Qed.

(** A run that no earlier candidate precedes is the one found. *)
Lemma first_free_unique n hint s :
  0 < n -> 0 <= hint -> run_free N bit s n ->
  (forall s', tried_before (if N <=? hint then 0 else hint) s' s -> ~ run_free N bit s' n) ->
  first_free N used n hint = Some s.
Proof using HN Hu.
  intros Hn Hh Hr Hm. pose proof (first_free_spec n hint Hn Hh) as Hff. cbv zeta in Hff.
  destruct (first_free N used n hint) as [s'|]; [|by destruct (Hff s)].
  destruct Hff as [Hr' Hm']. destruct (decide (s' = s)) as [->|Hne]; [done|exfalso].
  set (h := if N <=? hint then 0 else hint) in *.
  assert (tried_before h s s' \/ tried_before h s' s) as [Hb|Hb].
  { unfold tried_before. destruct (Z.lt_ge_cases s h), (Z.lt_ge_cases s' h); lia. }
  - by apply (Hm' s).
  - by apply (Hm s').
Qed.

Lemma first_free_none n hint :
  0 < n -> 0 <= hint -> (forall s, ~ run_free N bit s n) -> first_free N used n hint = None.
Proof using HN Hu.
  intros Hn Hh Hno. pose proof (first_free_spec n hint Hn Hh) as Hff. cbv zeta in Hff.
  destruct (first_free N used n hint) as [s|]; [|done].
  destruct Hff as [Hr _]. by destruct (Hno s).
Qed.
End search.

(** ** The set after a change *)

Lemma set_bits_union N bit bit' used s n :
  set_bits N bit used -> 0 <= s -> s + n <= N ->
  (forall i, 0 <= i -> bit' i = bool_decide (s <= i < s + n) || bit i) ->
  set_bits N bit' (used ∪ blocks s n).
Proof.
  intros Hu H0 Hle Hb i. rewrite elem_of_union, elem_of_blocks, (Hu i). split.
  - intros [[? Hbi]|?]; (split; [lia|]); rewrite Hb by lia;
      [rewrite Hbi; apply orb_true_r|by rewrite bool_decide_eq_true_2].
  - intros [Hi Hbi]. rewrite Hb in Hbi by lia.
    apply orb_true_iff in Hbi as [?%bool_decide_eq_true|?]; [by right|by left].
Qed.

Lemma set_bits_difference N bit bit' used s n :
  set_bits N bit used ->
  (forall i, s <= i < s + n -> bit' i = false) ->
  (forall i, 0 <= i -> ~ (s <= i < s + n) -> bit' i = bit i) ->
  set_bits N bit' (used ∖ blocks s n).
Proof.
  intros Hu Hin Hout i. rewrite elem_of_difference, elem_of_blocks, (Hu i). split.
  - intros [[Hi Hbi] Hni]. split; [done|]. rewrite Hout; [done|lia|done].
  - intros [Hi Hbi]. destruct (decide (s <= i < s + n)) as [Hie|Hne].
    + by rewrite Hin in Hbi.
    + rewrite Hout in Hbi by (done || lia). done.
Qed.
