(* ===== verification/BitmapSpec.v ===== *)
(** * The bitmap as a set of block numbers

    What [kes_bitmap.h] promises, stated on a finite set, and the proof that
    any sequence of calls on a bitmap of [kes_bitmap_create] answers exactly
    as that set does. *)
From S2P Require Import Prelude Types Posix PosixFacts Crc Bitmap BitmapFacts FirstFit.

Inductive bitmap_op :=
  | OpSet (i : Z)
  | OpClear (i : Z)
  | OpTest (i : Z)
  | OpSetRange (s n : Z)
  | OpClearRange (s n : Z)
  | OpFindFree (k hint : Z)
  | OpStats.

Inductive bitmap_out :=
  | OutCode (code : Z)
  | OutBool (b : bool)
  | OutFound (code : Z) (start : option Z)
  | OutStats (total free used : option Z).

(** Arguments within their C types; the code promises nothing for counts whose
    end does not fit 64 bits. *)
Definition op_ok (op : bitmap_op) : Prop :=
  match op with
  | OpSet i | OpClear i | OpTest i => 0 <= i < 2 ^ 64
  | OpSetRange s n | OpClearRange s n => 0 <= s < 2 ^ 64 /\ 0 <= n < 2 ^ 32
  | OpFindFree k hint => 0 <= k < 2 ^ 32 /\ 0 <= hint < 2 ^ 64
  | OpStats => True
  end.

(** ** The code *)

Definition run_op (bm : kes_bitmap) (op : bitmap_op) : option (bitmap_out * option kes_bitmap) :=
  match op with
  | OpSet i => '(c, bm') ← kes_bitmap_set (Some bm) i; Some (OutCode c, bm')
  | OpClear i => '(c, bm') ← kes_bitmap_clear (Some bm) i; Some (OutCode c, bm')
  | OpTest i => b ← kes_bitmap_test (Some bm) i; Some (OutBool b, Some bm)
  | OpSetRange s n => '(c, bm') ← kes_bitmap_set_range (Some bm) s n; Some (OutCode c, bm')
  | OpClearRange s n => '(c, bm') ← kes_bitmap_clear_range (Some bm) s n; Some (OutCode c, bm')
  | OpFindFree k hint =>
      '(c, bm', found) ← kes_bitmap_find_free (Some bm) k hint true; Some (OutFound c found, bm')
  | OpStats =>
      let '(_, (t, f, u)) := kes_bitmap_get_stats (Some bm) true true true in
      Some (OutStats t f u, Some bm)
  end.

(** A sequence of calls on one bitmap: [None] is undefined behaviour. *)
Fixpoint run_ops (bm : kes_bitmap) (ops : list bitmap_op)
    : option (list bitmap_out * kes_bitmap) :=
  match ops with
  | [] => Some ([], bm)
  | op :: ops' =>
      '(out, bm') ← run_op bm op;
      bm1 ← bm';
      '(outs, bm2) ← run_ops bm1 ops';
      Some (out :: outs, bm2)
  end.

(** ** The specification *)

Section spec.
Context (N : Z).

Definition spec_op (used : gset Z) (op : bitmap_op) : bitmap_out * gset Z :=
  match op with
  | OpSet i =>
      if N <=? i then (OutCode KES_ERROR_INVALID, used)
      else (OutCode KES_SUCCESS, used ∪ {[ i ]})
  | OpClear i =>
      if N <=? i then (OutCode KES_ERROR_INVALID, used)
      else (OutCode KES_SUCCESS, used ∖ {[ i ]})
  | OpTest i => (OutBool (bool_decide (i ∈ used)), used)
  | OpSetRange s n =>
      if (s <? N) && (s + n <=? N) then (OutCode KES_SUCCESS, used ∪ blocks s n)
      else (OutCode KES_ERROR_INVALID, used)
  | OpClearRange s n =>
      if (s <? N) && (s + n <=? N) then (OutCode KES_SUCCESS, used ∖ blocks s n)
      else (OutCode KES_ERROR_INVALID, used)
  | OpFindFree k hint =>
      if k =? 0 then (OutFound KES_ERROR_INVALID None, used)
      else match first_free N used k hint with
           | Some s => (OutFound KES_SUCCESS (Some s), used)
           | None => (OutFound KES_ERROR_NOSPACE None, used)
           end
  | OpStats =>
      (OutStats (Some N) (Some (N - Z.of_nat (size used))) (Some (Z.of_nat (size used))), used)
  end.

Fixpoint spec_ops (used : gset Z) (ops : list bitmap_op) : list bitmap_out * gset Z :=
  match ops with
  | [] => ([], used)
  | op :: ops' =>
      let (out, used1) := spec_op used op in
      let (outs, used2) := spec_ops used1 ops' in
      (out :: outs, used2)
  end.
End spec.

(** ** Refinement *)

(** The bitmap represents the set of its set bits. *)
Record bitmap_rep (N : Z) (bm : kes_bitmap) (used : gset Z) : Prop := {
  br_wf : bm_wf bm;
  br_total : bm_total_bits bm = N;
  br_bits : set_bits N (bm_bit bm) used
}.

Lemma count_bits_size N bit used :
  0 <= N -> set_bits N bit used -> count_bits bit (Z.to_nat N) = Z.of_nat (size used).
Proof.
  intros HN Hu. rewrite count_bits_filter, Z2Nat.id by done.
  set (l := filter (fun i => bit i = true) (seqZ 0 N)).
  assert (NoDup l) as Hl by (apply NoDup_filter, NoDup_seqZ).
  replace used with (list_to_set l : gset Z); [by rewrite size_list_to_set|].
  apply set_eq. intros i. rewrite (Hu i), elem_of_list_to_set. unfold l.
  rewrite list_elem_of_filter, elem_of_seqZ. rewrite Z.add_0_l. tauto.
Qed.

Lemma rep_point N bm bm' used i v :
  bitmap_rep N bm used -> 0 <= i < N -> bm_wf bm' -> same_geom bm bm' ->
  (forall j, 0 <= j -> bm_bit bm' j = if j =? i then v else bm_bit bm j) ->
  bitmap_rep N bm' (if v then used ∪ {[ i ]} else used ∖ {[ i ]}).
Proof.
  intros [Hwf Ht Hu] Hi Hwf' (Ht' & _) Hb. split; [done|congruence|]. intros j.
  destruct v.
  - rewrite elem_of_union, elem_of_singleton, (Hu j). split.
    + intros [[? Hj]| ->]; (split; [lia|]); rewrite Hb by lia; [by destruct (_ =? _)|by rewrite Z.eqb_refl].
    + intros [Hj Hbj]. rewrite Hb in Hbj by lia. destruct (Z.eqb_spec j i); [by right|by left].
  - rewrite elem_of_difference, elem_of_singleton, (Hu j). split.
    + intros [[? Hj] Hne]. split; [done|]. rewrite Hb by lia. by destruct (Z.eqb_spec j i).
    + intros [Hj Hbj]. rewrite Hb in Hbj by lia. by destruct (Z.eqb_spec j i).
Qed.

Lemma rep_range N bm bm' used s n v :
  bitmap_rep N bm used -> 0 <= s -> s + n <= N -> range_post bm bm' s n v ->
  bitmap_rep N bm' (if v then used ∪ blocks s n else used ∖ blocks s n).
Proof.
  intros [Hwf Ht Hu] H0 Hle (_ & (Ht' & _) & Hb & Hwf'). split; [by apply Hwf'|congruence|].
  destruct v.
  - eapply set_bits_union; [done|done|done|]. intros i Hi. rewrite Hb by done. by case_bool_decide.
  - eapply set_bits_difference; [done|..].
    + intros i Hi. rewrite Hb by lia. by rewrite bool_decide_eq_true_2.
    + intros i Hi Hno. rewrite Hb by lia. by rewrite bool_decide_eq_false_2.
Qed.

(** One call. *)
Lemma run_op_spec N bm used op :
  bitmap_rep N bm used -> op_ok op ->
  exists bm', run_op bm op = Some ((spec_op N used op).1, Some bm') /\
              bitmap_rep N bm' (spec_op N used op).2.
Proof.
  intros Hr Hok. pose proof Hr as [Hwf Ht Hu]. pose proof (wf_shape _ Hwf) as Hs.
  pose proof (sh_total _ Hs) as HN. rewrite Ht in HN.
  assert (forall s n, 0 <= s < 2 ^ 64 -> 0 <= n < 2 ^ 32 ->
            range_ok bm s n <-> (s <? N) && (s + n <=? N) = true) as Hrange.
  { intros s n ? ?. rewrite range_ok_iff, andb_true_iff, Z.ltb_lt, Z.leb_le by done. by rewrite Ht. }
  destruct op as [i|i|i|s n|s n|k hint|]; cbn [run_op spec_op op_ok] in *.
  - destruct (Z.leb_spec N i) as [Hge|Hlt].
    + unfold kes_bitmap_set. rewrite Ht. destruct (Z.leb_spec N i); [|lia]. by exists bm.
    + destruct (set_spec bm i Hs ltac:(lia)) as (bm' & -> & Hs' & Hg & Hb & Hf).
      eexists. split; [done|]. apply (rep_point N bm bm' used i true); [done|lia| |done|done].
      eapply wf_point_update; eauto; lia.
  - destruct (Z.leb_spec N i) as [Hge|Hlt].
    + unfold kes_bitmap_clear. rewrite Ht. destruct (Z.leb_spec N i); [|lia]. by exists bm.
    + destruct (clear_spec bm i Hs ltac:(lia)) as (bm' & -> & Hs' & Hg & Hb & Hf).
      eexists. split; [done|]. apply (rep_point N bm bm' used i false); [done|lia| |done|done].
      eapply wf_point_update; eauto; lia.
  - rewrite test_spec by (done || lia). eexists. split; [|done]. cbn. do 2 f_equal. rewrite Ht.
    f_equal. apply eq_true_iff_eq. rewrite andb_true_iff, Z.ltb_lt, bool_decide_eq_true, (Hu i).
    split; intros [? ?]; (split; [lia|done]).
  - destruct Hok as [Hks Hkn]. destruct ((s <? N) && (s + n <=? N)) eqn:E.
    + destruct (set_range_spec bm s n Hs Hks Hkn) as (bm' & -> & Hp); [by apply Hrange|].
      eexists. split; [done|]. apply andb_true_iff in E as [_ E%Z.leb_le].
      apply (rep_range N bm bm' used s n true); [done|lia|lia|done].
    + destruct (range_reject bm s n) as [-> _]; [rewrite Hrange by done; by rewrite E|]. by exists bm.
  - destruct Hok as [Hks Hkn]. destruct ((s <? N) && (s + n <=? N)) eqn:E.
    + destruct (clear_range_spec bm s n Hs Hks Hkn) as (bm' & -> & Hp); [by apply Hrange|].
      eexists. split; [done|]. apply andb_true_iff in E as [_ E%Z.leb_le].
      apply (rep_range N bm bm' used s n false); [done|lia|lia|done].
    + destruct (range_reject bm s n) as [_ ->]; [rewrite Hrange by done; by rewrite E|]. by exists bm.
  - destruct Hok as [Hk Hh]. destruct (Z.eqb_spec k 0) as [->|Hnz]; [by exists bm|].
    destruct (find_free_spec bm k hint Hwf ltac:(lia) ltac:(lia)) as [(s & -> & Hrun & Hmin)|[-> Hno]].
    + rewrite (first_free_unique N (bm_bit bm) used ltac:(lia) Hu k hint s); [|lia|lia| |].
      * eexists. split; [done|]. split; [|done|done]. destruct Hwf as [[? ? ? ?] ? ?].
        split; [by split|done|done].
      * unfold free_run in Hrun. by rewrite Ht in Hrun.
      * unfold free_run, search_from in Hmin. by rewrite Ht in Hmin.
    + rewrite (first_free_none N (bm_bit bm) used ltac:(lia) Hu k hint); [by exists bm|lia|lia|].
      unfold free_run in Hno. by rewrite Ht in Hno.
  - exists bm. split; [|done]. cbn. rewrite (wf_free _ Hwf). unfold bm_used. rewrite Ht.
    pose proof (count_bits_range (bm_bit bm) (Z.to_nat N)).
    rewrite (count_bits_size N _ used) by (lia || done).
    rewrite (count_bits_size N _ used) in H by (lia || done).
    rewrite u64_small by lia. do 4 f_equal. lia.
Qed.

Lemma run_ops_spec N bm used ops :
  bitmap_rep N bm used -> Forall op_ok ops ->
  exists bm', run_ops bm ops = Some ((spec_ops N used ops).1, bm') /\
              bitmap_rep N bm' (spec_ops N used ops).2.
Proof.
  intros Hr Hok. revert bm used Hr. induction Hok as [|op ops Hop _ IH]; intros bm used Hr.
  { by exists bm. }
  destruct (run_op_spec N bm used op Hr Hop) as (bm1 & Hrun & Hr1).
  cbn [run_ops spec_ops]. rewrite Hrun. cbn [mbind option_bind].
  destruct (spec_op N used op) as [out used1]. cbn [fst snd] in *.
  destruct (IH bm1 used1 Hr1) as (bm2 & -> & Hr2). cbn [mbind option_bind].
  destruct (spec_ops N used1 ops) as [outs used2]. by exists bm2.
Qed.

Lemma fresh_rep N : 0 < N < 2 ^ 62 -> bitmap_rep N (fresh_bitmap N) ∅.
Proof.
  intros HN. split; [by apply fresh_wf|done|]. intros i. rewrite fresh_bit.
  split; [by intros ?%not_elem_of_empty|by intros [_ ?]].
Qed.
