(* ===== verification/System.v ===== *)
(** * Several handles on one storage

    The library's multi-process story: any number of handles, each opened
    independently on the same file, issue operations one after the other.
    ([Interleave] has their system calls interleaved, and [InterleaveProps]
    shows that it comes to the same.)  A process may also end without closing
    its handle.  A state is the world, the open handles by descriptor, and the
    extents handed out and not yet given back; a step is one call, made under
    whatever faults are planned. *)
From S2P Require Import Prelude Types Posix PosixFacts Crc Bitmap BitmapFacts Codec Storage Layout.
From S2P Require Import StorageFacts ExtentIO Lifecycle.

Record sys := mkSys {
  s_world : world;
  s_handles : gmap Z kes_storage;
  s_live : list kes_extent_descriptor
}.

(** A call and its visible outcome. *)
Inductive label :=
  | LFaults (script : list fault)
  | LAlloc (fd : Z) (req : kes_extent_request) (code : Z) (ext : kes_extent_descriptor)
  | LFree (fd : Z) (e : kes_extent_descriptor) (code : Z)
  | LWrite (fd : Z) (e : kes_extent_descriptor) (offset : Z) (data : list Z) (code : Z)
  | LRead (fd : Z) (e : kes_extent_descriptor) (offset size : Z) (code : Z) (bytes : list Z)
  | LSync (fd : Z) (code : Z)
  | LOpen (flags code fd : Z)
  | LClose (fd : Z)
  | LKill (fd : Z).

(** Values a caller can pass in a [kes_extent_request_t]. *)
Definition request_ok (req : kes_extent_request) : Prop :=
  0 <= req_block_count req < 2 ^ 32 /\ 0 <= req_hint_block req < 2 ^ 64.

(** A successful allocation adds its extent to those in use. *)
Definition live_alloc (code : Z) (e : kes_extent_descriptor) (l : list kes_extent_descriptor)
    : list kes_extent_descriptor :=
  if code =? KES_SUCCESS then e :: l else l.

(** Whatever the outcome, an extent passed to [kes_extent_free] is no longer
    its owner's. *)
Definition live_free (e : kes_extent_descriptor) (l : list kes_extent_descriptor)
    : list kes_extent_descriptor :=
  filter (fun e' => e' ≠ e) l.

(** Sequences of labelled steps. *)
Inductive traces {A L} (R : A -> L -> A -> Prop) : A -> list L -> A -> Prop :=
  | trace_nil s : traces R s [] s
  | trace_cons s l s1 ls s2 : R s l s1 -> traces R s1 ls s2 -> traces R s (l :: ls) s2.

Section system.
Context `{Crc32c} (path : string).

Inductive sys_step : sys -> label -> sys -> Prop :=
  | StepFaults w hs live script :
      sys_step (mkSys w hs live) (LFaults script) (mkSys (set_script script w) hs live)
  | StepAlloc w hs live fd sto req ext0 code sto' ext' w' :
      hs !! fd = Some sto -> request_ok req ->
      kes_extent_allocate (Some sto) (Some req) (Some ext0) w
        = Done ((code, Some sto', Some ext'), w') ->
      sys_step (mkSys w hs live) (LAlloc fd req code ext')
        (mkSys w' (<[fd := sto']> hs) (live_alloc code ext' live))
  | StepFree w hs live fd sto e code sto' w' :
      hs !! fd = Some sto -> e ∈ live ->
      kes_extent_free (Some sto) (Some e) w = Done ((code, Some sto'), w') ->
      sys_step (mkSys w hs live) (LFree fd e code)
        (mkSys w' (<[fd := sto']> hs) (if sto_readonly sto then live else live_free e live))
  | StepWrite w hs live fd sto e offset data code sto' w' :
      hs !! fd = Some sto -> e ∈ live -> Forall is_byte data ->
      0 <= offset -> offset + Z.of_nat (length data) < 2 ^ 64 ->
      kes_extent_write (Some sto) (Some e) (Some data) (Z.of_nat (length data)) offset w
        = Done ((code, Some sto'), w') ->
      sys_step (mkSys w hs live) (LWrite fd e offset data code)
        (mkSys w' (<[fd := sto']> hs) live)
  | StepRead w hs live fd sto e offset size code sto' bytes w' :
      hs !! fd = Some sto -> e ∈ live -> 0 <= offset -> 0 <= size -> offset + size < 2 ^ 64 ->
      kes_extent_read (Some sto) (Some e) true size offset w
        = Done ((code, Some sto', bytes), w') ->
      sys_step (mkSys w hs live) (LRead fd e offset size code bytes)
        (mkSys w' (<[fd := sto']> hs) live)
  | StepSync w hs live fd sto code sto' w' :
      hs !! fd = Some sto ->
      kes_storage_sync (Some sto) w = Done ((code, Some sto'), w') ->
      sys_step (mkSys w hs live) (LSync fd code) (mkSys w' (<[fd := sto']> hs) live)
  | StepOpen w hs live flags code sto w' :
      kes_storage_open (Some path) flags true w = Done ((code, Some sto), w') ->
      sys_step (mkSys w hs live) (LOpen flags code (sto_fd sto))
        (mkSys w' (<[sto_fd sto := sto]> hs) live)
  | StepOpenFail w hs live flags code w' :
      kes_storage_open (Some path) flags true w = Done ((code, None), w') ->
      sys_step (mkSys w hs live) (LOpen flags code (-1)) (mkSys w' hs live)
  | StepClose w hs live fd sto code w' :
      hs !! fd = Some sto -> quiet w ->
      kes_storage_close (Some sto) w = Done (code, w') ->
      sys_step (mkSys w hs live) (LClose fd) (mkSys w' (delete fd hs) live)
  (* the process ends without [kes_storage_close]: the kernel closes *)
  | StepKill w hs live fd sto :
      hs !! fd = Some sto ->
      sys_step (mkSys w hs live) (LKill fd) (mkSys (do_close fd w) (delete fd hs) live).

(** States of a storage created with size [size] and then used. *)
Inductive created (c : kes_storage_config) : sys -> Prop :=
  | Created w w' sto :
      world_ok w -> unlocked w path ->
      (forall f, w_files w !! path = Some f -> Forall is_byte f) ->
      cfg_device_path c = Some path -> 0 <= cfg_block_size c < 2 ^ 32 ->
      cfg_device_size c < 2 ^ 63 ->
      kes_storage_create (Some c) true w = Done ((KES_SUCCESS, Some sto), w') ->
      created c (mkSys w' {[ sto_fd sto := sto ]} []).

Inductive reachable (c : kes_storage_config) : sys -> Prop :=
  | reach_created s : created c s -> reachable c s
  | reach_step s l s' : reachable c s -> sys_step s l s' -> reachable c s'.

(** ** The invariant *)

Definition file_of (s : sys) : list Z := default [] (w_files (s_world s) !! path).

(** An open handle, not inside a call. *)
Record handle_open (d : kes_storage_descriptor) (w : world) (fd : Z) (sto : kes_storage)
    : Prop := {
  ho_fd : sto_fd sto = fd;
  ho_ok : handle_ok d sto;
  ho_lock : sto_lock sto = false;
  ho_attr : exists wr, fd_attrs w !! fd = Some (path, wr, None) /\
                       (sto_readonly sto = false -> wr = true)
}.

(** An extent its owner may use. *)
Definition extent_live (d : kes_storage_descriptor) (f : list Z) (e : kes_extent_descriptor)
    : Prop :=
  extent_inside d e /\ 0 < ext_block_count e /\
  disk_run_used d f (ext_start_block e) (ext_block_count e).

Record sys_ok (d : kes_storage_descriptor) (s : sys) : Prop := {
  so_world : world_ok (s_world s);
  so_unlocked : unlocked (s_world s) path;
  so_file : w_files (s_world s) !! path = Some (file_of s);
  so_disk : disk_ok d (file_of s);
  so_handles : forall fd sto, s_handles s !! fd = Some sto -> handle_open d (s_world s) fd sto;
  so_live : Forall (extent_live d (file_of s)) (s_live s);
  so_disjoint : ForallOrdPairs extents_disjoint (s_live s)
}.
End system.
