(* ===== verification/SystemFacts.v ===== *)
(** * Safety of a shared storage

    The invariant of [System] holds in every reachable state, whatever the
    faults: extents in use never overlap and stay allocated on disk, no call
    touches the content of an extent it was not given, and every call
    returns. *)
From S2P Require Import Prelude Types Posix PosixFacts Crc Bitmap BitmapFacts Codec Storage Layout.
From S2P Require Import StorageFacts ExtentIO Lifecycle System.

(** ** Extents as intervals *)

#[export] Instance extents_disjoint_sym : Symmetric extents_disjoint.
Proof. intros e e' [?|?]; [by right|by left]. Qed.

Lemma extents_disjoint_in e e' i :
  extents_disjoint e e' -> in_extent e i -> ~ in_extent e' i.
Proof. unfold extents_disjoint, in_extent. lia. Qed.

(** A free run and an allocated one have no block in common. *)
Lemma free_used_disjoint d f s n fl id e :
  0 < n -> 0 < ext_block_count e -> 0 <= ext_start_block e -> disk_free_run d f s n ->
  disk_run_used d f (ext_start_block e) (ext_block_count e) ->
  extents_disjoint (mkExtent s n fl id) e.
Proof.
  intros Hn Hc Hs (H0 & Hle & Hfree) Hused. unfold extents_disjoint. cbn.
  destruct (Z.le_gt_cases (s + n) (ext_start_block e)) as [|H1]; [by left|].
  destruct (Z.le_gt_cases (ext_start_block e + ext_block_count e) s) as [|H2]; [by right|].
  destruct (Hused (Z.max s (ext_start_block e)) ltac:(lia)) as [_ Hu].
  rewrite Hfree in Hu by lia. done.
Qed.

Lemma traces_app {A L} (R : A -> L -> A -> Prop) s1 s2 s3 ls1 ls2 :
  traces R s1 ls1 s2 -> traces R s2 ls2 s3 -> traces R s1 (ls1 ++ ls2) s3.
Proof. induction 1; [done|]. intros. cbn. econstructor; eauto. Qed.

Lemma ord_pairs_sublist {A} (R : A -> A -> Prop) (l l' : list A) :
  l `sublist_of` l' -> ForallOrdPairs R l' -> ForallOrdPairs R l.
Proof.
  induction 1 as [|x l l' Hs IH|x l l' Hs IH]; intros HR; [done| |]; inversion HR as [|? ? Hx HR']; subst;
    [|by apply IH].
  constructor; [|by apply IH]. rewrite Forall_forall in Hx |- *. intros y Hy.
  apply Hx. by eapply elem_of_sublist.
Qed.

Lemma ord_pairs_filter {A} (R : A -> A -> Prop) P `{forall x, Decision (P x)} (l : list A) :
  ForallOrdPairs R l -> ForallOrdPairs R (filter P l).
Proof. apply ord_pairs_sublist, sublist_filter. Qed.

Lemma ord_pairs_lookup {A} (R : A -> A -> Prop) (l : list A) i j x y :
  ForallOrdPairs R l -> (i < j)%nat -> l !! i = Some x -> l !! j = Some y -> R x y.
Proof.
  intros HR. revert i j. induction HR as [|z l Hz _ IH]; intros i j Hij Hi Hj; [done|].
  destruct j as [|j]; [lia|]. destruct i as [|i]; cbn in Hi, Hj.
  - injection Hi as ->. rewrite Forall_forall in Hz. apply Hz. by eapply list_elem_of_lookup_2.
  - apply (IH i j); [lia|done|done].
Qed.

(** A member of the list and any other one. *)
Lemma ord_pairs_elem {A} (R : A -> A -> Prop) `{!Symmetric R} (l : list A) x y :
  ForallOrdPairs R l -> x ∈ l -> y ∈ l -> x ≠ y -> R x y.
Proof.
  intros HR [i Hi]%list_elem_of_lookup [j Hj]%list_elem_of_lookup Hne.
  destruct (Nat.lt_total i j) as [Hlt|[->|Hlt]].
  - by eapply ord_pairs_lookup.
  - congruence.
  - symmetry. by eapply ord_pairs_lookup.
Qed.

(** ** Extents in use across a change of the file *)

Section extents.
Context (d : kes_storage_descriptor) (f f' : list Z).

Lemma extent_live_grow e :
  (forall i, 0 <= i -> disk_bit d f i = true -> disk_bit d f' i = true) ->
  extent_live d f e -> extent_live d f' e.
Proof.
  intros Hg (Hin & Hc & Hu). split_and!; [done|done|]. intros j Hj.
  destruct (Hu j Hj) as [? ?]. split; [done|]. destruct Hin as [[? ?] ?]. apply Hg; [lia|done].
Qed.

(** Freeing [e] does not affect extents apart from it. *)
Lemma extent_live_free e e' :
  (forall i, 0 <= i -> ~ in_extent e i -> disk_bit d f' i = disk_bit d f i) ->
  extents_disjoint e' e -> extent_live d f e' -> extent_live d f' e'.
Proof.
  intros Hb Hdis (Hin & Hc & Hu). split_and!; [done|done|]. intros j Hj.
  destruct (Hu j Hj) as [? ?]. split; [done|]. destruct Hin as [[? ?] ?].
  rewrite Hb; [done|lia|]. by eapply extents_disjoint_in.
Qed.

Lemma extent_live_map e : disk_map d f' = disk_map d f -> extent_live d f e -> extent_live d f' e.
Proof.
  intros Hm. apply extent_live_grow. intros i _. unfold disk_bit. by rewrite Hm.
Qed.

(** The extent a successful allocation returns. *)
Lemma alloc_extent_live s n fl id :
  layout_ok d -> 0 < n < 2 ^ 32 -> disk_free_run d f s n ->
  (forall i, 0 <= i -> disk_bit d f' i = bool_decide (s <= i < s + n) || disk_bit d f i) ->
  extent_live d f' (mkExtent s n fl id).
Proof.
  intros Hd Hn (H0 & Hle & _) Hb. pose proof (lo_user_blocks _ Hd).
  split_and!; [split; [split; cbn; lia|cbn; lia]|cbn; lia|]. cbn. intros j Hj. split; [lia|].
  rewrite Hb by lia. by rewrite bool_decide_eq_true_2.
Qed.
End extents.

Section system.
Context `{Crc32c} (path : string) (d : kes_storage_descriptor).
Context (Hd : layout_ok d).
Implicit Types (w : world) (hs : gmap Z kes_storage) (live : list kes_extent_descriptor).

(** ** One call *)

(** What every operation of a handle finds. *)
Lemma sys_ok_handle w hs live fd sto :
  sys_ok path d (mkSys w hs live) -> hs !! fd = Some sto ->
  handle_ok d sto /\ sto_lock sto = false /\ sto_fd sto = fd /\
  exists wr, on_file w fd path wr None (file_of path (mkSys w hs live)) /\
             (sto_readonly sto = false -> wr = true).
Proof using.
  intros [Hw Hun Hf Hdk Hh Hl Hp] Hfd. destruct (Hh fd sto Hfd) as [H1 H2 H3 (wr & Ha & Hwr)].
  split_and!; [done..|]. exists wr. by split.
Qed.

Lemma sys_ok_unlocked w hs live fd :
  sys_ok path d (mkSys w hs live) -> unlocked_elsewhere w fd path.
Proof using. intros [_ Hun _ _ _ _ _] fd' a _. apply Hun. Qed.

(** The state after a call on [fd] that rewrote the file. *)
Lemma sys_ok_update w hs live w' fd sto sto' f' live' :
  sys_ok path d (mkSys w hs live) -> hs !! fd = Some sto ->
  evolves w w' (<[path := f']> (w_files w)) (fd_attrs w) ->
  disk_ok d f' -> handle_ok d sto' -> same_config sto sto' ->
  Forall (extent_live d f') live' -> ForallOrdPairs extents_disjoint live' ->
  sys_ok path d (mkSys w' (<[fd := sto']> hs) live') /\
  file_of path (mkSys w' (<[fd := sto']> hs) live') = f'.
Proof using.
  intros [Hw Hun Hf Hdk Hh Hl Hp] Hfd [F A O K] Hdk' Hok (C1 & _ & C3 & _ & C5) Hl' Hp'.
  assert (file_of path (mkSys w' (<[fd := sto']> hs) live') = f') as Hfile.
  { unfold file_of. cbn. by rewrite F, lookup_insert_eq. }
  split; [|done]. split; rewrite ?Hfile; cbn in *.
  - auto.
  - unfold unlocked. by rewrite A.
  - rewrite F. apply lookup_insert_eq.
  - done.
  - intros fd0 sto0 [[-> ->]|[Hne H0]]%lookup_insert_Some.
    + destruct (Hh _ _ Hfd) as [H1 H2 H3 (wr & Ha & Hwr)]. split; [congruence|done|done|].
      exists wr. rewrite A, C3. done.
    + destruct (Hh _ _ H0) as [H1 H2 H3 (wr & Ha & Hwr)]. split; [done..|].
      exists wr. by rewrite A.
  - done.
  - done.
Qed.

(** A call that changed nothing but positions. *)
Lemma sys_ok_same w hs live w' fd sto sto' :
  sys_ok path d (mkSys w hs live) -> hs !! fd = Some sto -> same_world w w' ->
  handle_ok d sto' -> same_config sto sto' ->
  sys_ok path d (mkSys w' (<[fd := sto']> hs) live) /\
  file_of path (mkSys w' (<[fd := sto']> hs) live) = file_of path (mkSys w hs live).
Proof using.
  intros Hs Hfd Hw Hok Hc. pose proof Hs as [_ _ Hf Hdk _ Hl Hp].
  apply (sys_ok_update w hs live w' fd sto sto'); [done|done| |done|done|done|done|done].
  by rewrite insert_id.
Qed.

Lemma same_config_refl sto : sto_lock sto = false -> same_config sto sto.
Proof using. done. Qed.

(** ** Allocation *)

Definition alloc_rejected (sto : kes_storage) (req : kes_extent_request) : Prop :=
  sto_readonly sto = true \/ req_block_count req = 0.

Lemma sys_alloc w hs live fd sto req ext0 :
  sys_ok path d (mkSys w hs live) -> hs !! fd = Some sto -> request_ok req ->
  let f := file_of path (mkSys w hs live) in
  wp (kes_extent_allocate (Some sto) (Some req) (Some ext0)) w (fun r w' =>
    exists code sto' ext' f', r = (code, Some sto', Some ext') /\
      evolves w w' (<[path := f']> (w_files w)) (fd_attrs w) /\
      ((alloc_rejected sto req /\ code = KES_ERROR_INVALID /\ sto' = sto /\ ext' = ext0 /\ f' = f) \/
       (~ alloc_rejected sto req /\ alloc_post d sto req ext0 f (~ quiet w) code sto' ext' f'))).
Proof using Hd.
  intros Hs Hfd [Hk Hh] f. destruct (sys_ok_handle _ _ _ _ _ Hs Hfd) as (Hok & Hlk & Hfde & wr & Hon & Hwr).
  pose proof Hs as [_ _ Hfile _ _ _ _]. cbn in Hfile.
  destruct (sto_readonly sto) eqn:Hro.
  { unfold kes_extent_allocate. rewrite Hro. wp_ret. exists KES_ERROR_INVALID, sto, ext0, f.
    split; [done|]. split; [by rewrite insert_id|]. left. split; [by left|done]. }
  destruct (decide (req_block_count req = 0)) as [Hz|Hnz].
  { unfold kes_extent_allocate. rewrite Hro, Hz. wp_ret. exists KES_ERROR_INVALID, sto, ext0, f.
    split; [done|]. split; [by rewrite insert_id|]. left. split; [by right|done]. }
  rewrite (Hwr eq_refl) in Hon. subst fd.
  eapply allocate_spec; [done|done|done|done|lia|lia|exact Hon|apply Hs| |].
  { by eapply sys_ok_unlocked. }
  intros w' code sto' ext' f' Hw' Hpost. exists code, sto', ext', f'. split; [done|].
  split; [done|]. right. split; [|done]. unfold alloc_rejected. rewrite Hro. by intros [?|?].
Qed.

Lemma alloc_live f f' req ext0 (noisy : Prop) sto code sto' ext' live :
  request_ok req -> 0 < req_block_count req ->
  alloc_post d sto req ext0 f noisy code sto' ext' f' ->
  Forall (extent_live d f) live -> ForallOrdPairs extents_disjoint live ->
  Forall (extent_live d f') (live_alloc code ext' live) /\
  ForallOrdPairs extents_disjoint (live_alloc code ext' live).
Proof using Hd.
  intros [Hk _] Hk0 [_ _ _ _ Hgrow Hc] Hl Hp.
  assert (Forall (extent_live d f') live) as Hl'.
  { eapply Forall_impl; [exact Hl|]. intros e. by apply extent_live_grow. }
  unfold live_alloc. destruct Hc as [(-> & s & -> & Hrun & _ & Hb & _)|[(-> & _)|(-> & _)]]; [|done..].
  rewrite Z.eqb_refl. split.
  - constructor; [|done]. eapply alloc_extent_live; [done|lia|done|done].
  - constructor; [|done]. eapply Forall_impl; [exact Hl|]. intros e ([[? ?] _] & ? & ?).
    eapply free_used_disjoint; [exact Hk0|done|lia|exact Hrun|done].
Qed.

(** ** Freeing *)

Lemma sys_free w hs live fd sto e :
  sys_ok path d (mkSys w hs live) -> hs !! fd = Some sto -> e ∈ live ->
  let f := file_of path (mkSys w hs live) in
  wp (kes_extent_free (Some sto) (Some e)) w (fun r w' =>
    exists code sto' f', r = (code, Some sto') /\
      evolves w w' (<[path := f']> (w_files w)) (fd_attrs w) /\
      ((sto_readonly sto = true /\ code = KES_ERROR_INVALID /\ sto' = sto /\ f' = f) \/
       (sto_readonly sto = false /\ free_post d sto e f (~ quiet w) code sto' f' /\
        (code = KES_SUCCESS \/ code = KES_ERROR_IO /\ ~ quiet w)))).
Proof using Hd.
  intros Hs Hfd He f. destruct (sys_ok_handle _ _ _ _ _ Hs Hfd) as (Hok & Hlk & Hfde & wr & Hon & Hwr).
  pose proof Hs as [_ _ Hfile _ _ Hl _]. cbn in Hfile.
  rewrite Forall_forall in Hl. destruct (Hl e He) as ([Heok Hin] & Hc & Hu).
  destruct (sto_readonly sto) eqn:Hro.
  { unfold kes_extent_free. rewrite Hro. wp_ret. exists KES_ERROR_INVALID, sto, f.
    split; [done|]. split; [by rewrite insert_id|]. by left. }
  rewrite (Hwr eq_refl) in Hon. subst fd.
  eapply free_spec; [done|done|done|done|done|exact Hon|apply Hs| |].
  { by eapply sys_ok_unlocked. }
  intros w' code sto' f' Hw' Hpost. exists code, sto', f'. split; [done|]. split; [done|]. right.
  split_and!; [done|done|]. destruct Hpost as [_ _ _ _ _ Hcases].
  destruct Hcases as [(-> & _)|[(_ & _ & _ & Hno)|[(_ & _ & _ & Hz & _)|[-> Hq]]]];
    [by left|done|lia|by right].
Qed.

Lemma free_live f f' e (noisy : Prop) sto code sto' live :
  e ∈ live -> free_post d sto e f noisy code sto' f' ->
  Forall (extent_live d f) live -> ForallOrdPairs extents_disjoint live ->
  Forall (extent_live d f') (live_free e live) /\
  ForallOrdPairs extents_disjoint (live_free e live).
Proof using.
  intros He [_ _ _ _ Ho _] Hl Hp. split; [|by apply ord_pairs_filter].
  unfold live_free. rewrite Forall_forall in Hl |- *.
  intros e' [Hne He']%list_elem_of_filter. eapply extent_live_free; [exact Ho| |by apply Hl].
  by apply (ord_pairs_elem extents_disjoint live).
Qed.

(** ** Writing and reading *)

Lemma sys_write w hs live fd sto e offset data :
  sys_ok path d (mkSys w hs live) -> hs !! fd = Some sto -> e ∈ live ->
  0 <= offset -> offset + Z.of_nat (length data) < 2 ^ 64 ->
  let f := file_of path (mkSys w hs live) in
  wp (kes_extent_write (Some sto) (Some e) (Some data) (Z.of_nat (length data)) offset) w
    (fun r w' => exists code sto' f', r = (code, Some sto') /\
      evolves w w' (<[path := f']> (w_files w)) (fd_attrs w) /\
      ((sto_readonly sto = true /\ code = KES_ERROR_INVALID /\ sto' = sto /\ f' = f) \/
       (sto_readonly sto = false /\ write_post d sto e data offset f (~ quiet w) code sto' f'))).
Proof using Hd.
  intros Hs Hfd He Hoff Hnw f.
  destruct (sys_ok_handle _ _ _ _ _ Hs Hfd) as (Hok & Hlk & Hfde & wr & Hon & Hwr).
  pose proof Hs as [_ _ Hfile _ _ Hl _]. cbn in Hfile.
  rewrite Forall_forall in Hl. destruct (Hl e He) as (Hin & _ & _).
  destruct (sto_readonly sto) eqn:Hro.
  { unfold kes_extent_write. rewrite Hro. wp_ret. exists KES_ERROR_INVALID, sto, f.
    split; [done|]. split; [by rewrite insert_id|]. by left. }
  rewrite (Hwr eq_refl) in Hon. subst fd.
  eapply extent_write_spec; [done|done|done|done|done|done|done|exact Hon|apply Hs|].
  intros w' code sto' f' Hw' Hpost. exists code, sto', f'. split; [done|]. split; [done|]. by right.
Qed.

Lemma write_post_config sto e data offset f (noisy : Prop) code sto' f' :
  sto_lock sto = false -> handle_ok d sto ->
  write_post d sto e data offset f noisy code sto' f' -> handle_ok d sto' /\ same_config sto sto'.
Proof using.
  intros Hlk [? ? ? ?] [(_ & _ & _ & ->)|[(_ & _ & _ & ->)|(_ & _ & _ & -> & _)]]; done.
Qed.

Lemma sys_read w hs live fd sto e offset size :
  sys_ok path d (mkSys w hs live) -> hs !! fd = Some sto -> e ∈ live ->
  0 <= offset -> 0 <= size -> offset + size < 2 ^ 64 ->
  let f := file_of path (mkSys w hs live) in
  wp (kes_extent_read (Some sto) (Some e) true size offset) w
    (fun r w' => exists code sto' bs, r = (code, Some sto', bs) /\ same_world w w' /\
      read_post d sto e size offset f (~ quiet w) code sto' bs).
Proof using Hd.
  intros Hs Hfd He Hoff Hsz Hnw f.
  destruct (sys_ok_handle _ _ _ _ _ Hs Hfd) as (Hok & Hlk & Hfde & wr & Hon & Hwr).
  pose proof Hs as [_ _ _ _ _ Hl _]. rewrite Forall_forall in Hl.
  destruct (Hl e He) as (Hin & _ & _). subst fd.
  eapply extent_read_spec; [done|done|done|done|done|done|done|exact Hon|apply Hs|].
  intros w' code sto' bs Hw' Hpost. by exists code, sto', bs.
Qed.

Lemma read_post_config sto e size offset f (noisy : Prop) code sto' bs :
  sto_lock sto = false -> handle_ok d sto ->
  read_post d sto e size offset f noisy code sto' bs -> handle_ok d sto' /\ same_config sto sto'.
Proof using.
  intros Hlk [? ? ? ?] [(_ & _ & _ & ->)|[(_ & _ & _ & ->)|(_ & _ & ->)]]; done.
Qed.

(** ** Synchronising, opening, closing *)

Lemma sys_sync w hs live fd sto :
  sys_ok path d (mkSys w hs live) -> hs !! fd = Some sto ->
  let f := file_of path (mkSys w hs live) in
  wp (kes_storage_sync (Some sto)) w (fun r w' =>
    exists code sto' f', r = (code, Some sto') /\
      evolves w w' (<[path := f']> (w_files w)) (fd_attrs w) /\
      ((sto_readonly sto = true /\ code = KES_ERROR_INVALID /\ sto' = sto /\ f' = f) \/
       (sto_readonly sto = false /\ sync_post d sto f (~ quiet w) code sto' f'))).
Proof using Hd.
  intros Hs Hfd f. destruct (sys_ok_handle _ _ _ _ _ Hs Hfd) as (Hok & Hlk & Hfde & wr & Hon & Hwr).
  pose proof Hs as [_ _ Hfile _ _ _ _]. cbn in Hfile.
  destruct (sto_readonly sto) eqn:Hro.
  { unfold kes_storage_sync. rewrite Hro. wp_ret. exists KES_ERROR_INVALID, sto, f.
    split; [done|]. split; [by rewrite insert_id|]. by left. }
  rewrite (Hwr eq_refl) in Hon. subst fd.
  eapply sync_spec; [done|done|done|done|exact Hon|apply Hs| |].
  { by eapply sys_ok_unlocked. }
  intros w' code sto' f' Hw' Hpost. exists code, sto', f'. split; [done|]. split; [done|]. by right.
Qed.

Lemma sys_open w hs live flags :
  sys_ok path d (mkSys w hs live) ->
  let f := file_of path (mkSys w hs live) in
  wp (kes_storage_open (Some path) flags true) w (fun r w' =>
    (exists code, r = (code, None) /\ same_world w w' /\ image_refused f (~ quiet w) code) \/
    (exists sto, r = (KES_SUCCESS, Some sto) /\ image_opened f flags sto /\
       0 <= sto_fd sto /\ fd_attrs w !! sto_fd sto = None /\
       evolves w w' (w_files w)
         (<[sto_fd sto := (path, negb (has_flag flags KES_STORAGE_READONLY), None)]> (fd_attrs w)))).
Proof using Hd.
  intros [Hw Hun Hf Hdk _ _ _] f. cbn [s_world] in *. fold f in Hf, Hdk.
  assert (forall f0, w_files w !! path = Some f0 -> f0 = f) as Hf0
    by (intros f0; rewrite Hf; by intros [= <-]).
  eapply open_spec; [done|done| | |].
  - intros f0 ->%Hf0. apply Hdk.
  - intros w' code Hw'. rewrite Hf. intros Hr. left. by exists code.
  - intros w' f0 sto ->%Hf0 Ho H0 Hn Hw'. right. by exists sto.
Qed.

Lemma sys_close w hs live fd sto :
  sys_ok path d (mkSys w hs live) -> hs !! fd = Some sto ->
  let f := file_of path (mkSys w hs live) in
  wp (kes_storage_close (Some sto)) w (fun code w' => code = KES_SUCCESS /\
    exists f', evolves w w' (<[path := f']> (w_files w)) (delete fd (fd_attrs w)) /\
      ((sto_readonly sto = true /\ f' = f) \/
       (sto_readonly sto = false /\ close_post d f (~ quiet w) f'))).
Proof using Hd.
  intros Hs Hfd f. destruct (sys_ok_handle _ _ _ _ _ Hs Hfd) as (Hok & Hlk & Hfde & wr & Hon & Hwr).
  pose proof Hs as [_ _ Hfile _ _ _ _]. cbn in Hfile. subst fd.
  destruct (sto_readonly sto) eqn:Hro.
  { apply close_readonly_spec; [done|done|]. intros w' Hw'. split; [done|]. exists f.
    split; [by rewrite insert_id|]. by left. }
  rewrite (Hwr eq_refl) in Hon.
  eapply close_spec; [done|done|done|done|exact Hon|apply Hs| |].
  { by eapply sys_ok_unlocked. }
  intros w' f' Hw' Hpost. split; [done|]. exists f'. split; [done|]. by right.
Qed.

(** ** Every step preserves the invariant and the other extents' content *)

(** The extents whose content a call may change or give up. *)
Definition touches (l : label) (e : kes_extent_descriptor) : Prop :=
  match l with
  | LWrite _ e' _ _ _ | LFree _ e' _ => e' = e
  | _ => False
  end.

Definition preserves (s : sys) (l : label) (s' : sys) : Prop :=
  sys_ok path d s' /\
  forall e, e ∈ s_live s -> ~ touches l e ->
    e ∈ s_live s' /\ extent_data d (file_of path s') e = extent_data d (file_of path s) e.

Lemma live_inside s e : sys_ok path d s -> e ∈ s_live s -> extent_inside d e.
Proof using. intros [_ _ _ _ _ Hl _] He. rewrite Forall_forall in Hl. by apply Hl. Qed.

Lemma live_alloc_elem code e0 live e : e ∈ live -> e ∈ live_alloc code e0 live.
Proof using. unfold live_alloc. case_match; [by right|done]. Qed.

Lemma step_alloc_ok w hs live fd sto req ext0 code sto' ext' w' :
  sys_ok path d (mkSys w hs live) -> hs !! fd = Some sto -> request_ok req ->
  kes_extent_allocate (Some sto) (Some req) (Some ext0) w = Done ((code, Some sto', Some ext'), w') ->
  preserves (mkSys w hs live) (LAlloc fd req code ext')
    (mkSys w' (<[fd := sto']> hs) (live_alloc code ext' live)).
Proof using Hd.
  intros Hs Hfd Hreq Hrun. pose proof (sys_ok_handle _ _ _ _ _ Hs Hfd) as (Hok & Hlk & _).
  destruct (wp_elim _ _ _ _ _ (sys_alloc w hs live fd sto req ext0 Hs Hfd Hreq) Hrun)
    as (code0 & sto0 & ext1 & f' & [= <- <- <-] & Hw' & Hc). pose proof Hs as [_ _ _ Hdk _ Hl Hp].
  destruct Hc as [(_ & -> & -> & -> & ->)|(Hrej & Hpost)].
  - destruct (sys_ok_update w hs live w' fd sto sto _ live Hs Hfd Hw') as [Hs' Hf'];
      [done..|]. split; [exact Hs'|]. intros e He _. split; [by apply live_alloc_elem|].
    by setoid_rewrite Hf'.
  - assert (0 < req_block_count req) as Hpos.
    { destruct Hreq as [? _]. destruct (decide (req_block_count req = 0)); [|lia].
      destruct Hrej. by right. }
    destruct (alloc_live _ _ _ _ _ _ _ _ _ live Hreq Hpos Hpost Hl Hp) as [Hl' Hp'].
    destruct (sys_ok_update w hs live w' fd sto sto' f' (live_alloc code ext' live) Hs Hfd Hw')
      as [Hs' Hf']; [apply Hpost..|done|done|]. split; [done|].
    intros e He _. split; [by apply live_alloc_elem|]. setoid_rewrite Hf'.
    apply extent_data_area; [done|apply Hpost|exact (live_inside _ _ Hs He)].
Qed.

Lemma step_free_ok w hs live fd sto e code sto' w' :
  sys_ok path d (mkSys w hs live) -> hs !! fd = Some sto -> e ∈ live ->
  kes_extent_free (Some sto) (Some e) w = Done ((code, Some sto'), w') ->
  preserves (mkSys w hs live) (LFree fd e code)
    (mkSys w' (<[fd := sto']> hs) (if sto_readonly sto then live else live_free e live)).
Proof using Hd.
  intros Hs Hfd He Hrun. pose proof (sys_ok_handle _ _ _ _ _ Hs Hfd) as (Hok & Hlk & _).
  destruct (wp_elim _ _ _ _ _ (sys_free w hs live fd sto e Hs Hfd He) Hrun)
    as (code0 & sto0 & f' & [= <- <-] & Hw' & Hc). pose proof Hs as [_ _ _ Hdk _ Hl Hp].
  destruct Hc as [(-> & -> & -> & ->)|(-> & Hpost & _)].
  - destruct (sys_ok_update w hs live w' fd sto sto _ live Hs Hfd Hw') as [Hs' Hf'];
      [done..|]. split; [exact Hs'|]. intros e' He' _. split; [done|]. by setoid_rewrite Hf'.
  - destruct (free_live _ _ _ _ _ _ _ live He Hpost Hl Hp) as [Hl' Hp'].
    destruct (sys_ok_update w hs live w' fd sto sto' f' (live_free e live) Hs Hfd Hw')
      as [Hs' Hf']; [apply Hpost..|done|done|]. split; [done|].
    intros e' He' Hne. split; [apply list_elem_of_filter; split; [|done]; intros ->; by apply Hne|].
    setoid_rewrite Hf'. apply extent_data_area; [done|apply Hpost|exact (live_inside _ _ Hs He')].
Qed.

Lemma step_write_ok w hs live fd sto e offset data code sto' w' :
  sys_ok path d (mkSys w hs live) -> hs !! fd = Some sto -> e ∈ live -> Forall is_byte data ->
  0 <= offset -> offset + Z.of_nat (length data) < 2 ^ 64 ->
  kes_extent_write (Some sto) (Some e) (Some data) (Z.of_nat (length data)) offset w
    = Done ((code, Some sto'), w') ->
  preserves (mkSys w hs live) (LWrite fd e offset data code) (mkSys w' (<[fd := sto']> hs) live).
Proof using Hd.
  intros Hs Hfd He Hbytes Hoff Hnw Hrun.
  pose proof (sys_ok_handle _ _ _ _ _ Hs Hfd) as (Hok & Hlk & _).
  destruct (wp_elim _ _ _ _ _ (sys_write w hs live fd sto e offset data Hs Hfd He Hoff Hnw) Hrun)
    as (code0 & sto0 & f' & [= <- <-] & Hw' & Hc). pose proof Hs as [_ _ _ Hdk _ Hl Hp].
  destruct Hc as [(_ & -> & -> & ->)|(_ & Hpost)].
  - destruct (sys_ok_update w hs live w' fd sto sto _ live Hs Hfd Hw') as [Hs' Hf'];
      [done..|]. split; [exact Hs'|]. intros e' He' _. split; [done|]. by setoid_rewrite Hf'.
  - destruct (write_post_config _ _ _ _ _ _ _ _ _ Hlk Hok Hpost) as [Hok' Hcfg].
    pose proof (live_inside _ _ Hs He) as Hin.
    destruct (write_post_frame d _ Hd Hdk _ _ _ _ _ _ _ _ Hin Hoff Hbytes Hpost)
      as (Hdk' & Hmap & _ & _ & Hfr).
    destruct (sys_ok_update w hs live w' fd sto sto' f' live Hs Hfd Hw') as [Hs' Hf'];
      [done..| |done|].
    { eapply Forall_impl; [exact Hl|]. intros e'. by apply extent_live_map. }
    split; [done|]. intros e' He' Hne. split; [done|]. setoid_rewrite Hf'.
    apply Hfr; [exact (live_inside _ _ Hs He')|]. by apply (ord_pairs_elem extents_disjoint live).
Qed.

Lemma step_read_ok w hs live fd sto e offset size code sto' bytes w' :
  sys_ok path d (mkSys w hs live) -> hs !! fd = Some sto -> e ∈ live ->
  0 <= offset -> 0 <= size -> offset + size < 2 ^ 64 ->
  kes_extent_read (Some sto) (Some e) true size offset w = Done ((code, Some sto', bytes), w') ->
  preserves (mkSys w hs live) (LRead fd e offset size code bytes)
    (mkSys w' (<[fd := sto']> hs) live).
Proof using Hd.
  intros Hs Hfd He Hoff Hsz Hnw Hrun.
  pose proof (sys_ok_handle _ _ _ _ _ Hs Hfd) as (Hok & Hlk & _).
  destruct (wp_elim _ _ _ _ _ (sys_read w hs live fd sto e offset size Hs Hfd He Hoff Hsz Hnw) Hrun)
    as (code0 & sto0 & bs0 & [= <- <- <-] & Hw' & Hpost).
  destruct (read_post_config _ _ _ _ _ _ _ _ _ Hlk Hok Hpost) as [Hok' Hcfg].
  destruct (sys_ok_same w hs live w' fd sto sto' Hs Hfd Hw' Hok' Hcfg) as [Hs' Hf'].
  split; [done|]. intros e' He' _. split; [done|]. by setoid_rewrite Hf'.
Qed.

Lemma step_sync_ok w hs live fd sto code sto' w' :
  sys_ok path d (mkSys w hs live) -> hs !! fd = Some sto ->
  kes_storage_sync (Some sto) w = Done ((code, Some sto'), w') ->
  preserves (mkSys w hs live) (LSync fd code) (mkSys w' (<[fd := sto']> hs) live).
Proof using Hd.
  intros Hs Hfd Hrun. pose proof (sys_ok_handle _ _ _ _ _ Hs Hfd) as (Hok & Hlk & _).
  destruct (wp_elim _ _ _ _ _ (sys_sync w hs live fd sto Hs Hfd) Hrun)
    as (code0 & sto0 & f' & [= <- <-] & Hw' & Hc). pose proof Hs as [_ _ _ Hdk _ Hl Hp].
  destruct Hc as [(_ & -> & -> & ->)|(_ & Hpost)].
  - destruct (sys_ok_update w hs live w' fd sto sto _ live Hs Hfd Hw') as [Hs' Hf'];
      [done..|]. split; [exact Hs'|]. intros e' He' _. split; [done|]. by setoid_rewrite Hf'.
  - destruct (sys_ok_update w hs live w' fd sto sto' f' live Hs Hfd Hw') as [Hs' Hf'];
      [apply Hpost..| |done|].
    { eapply Forall_impl; [exact Hl|]. intros e'. apply extent_live_grow. intros i Hi.
      by rewrite (sp_bits _ _ _ _ _ _ _ Hpost i Hi). }
    split; [done|]. intros e' He' _. split; [done|]. setoid_rewrite Hf'.
    apply extent_data_area; [done|apply Hpost|exact (live_inside _ _ Hs He')].
Qed.

(** Opening, closing and planning faults change the descriptor table only (a
    close also rewrites the metadata). *)
Lemma sys_ok_table w hs live w' hs' f' :
  sys_ok path d (mkSys w hs live) -> world_ok w' -> unlocked w' path ->
  w_files w' = <[path := f']> (w_files w) -> disk_ok d f' ->
  (forall fd sto, hs' !! fd = Some sto -> handle_open path d w' fd sto) ->
  Forall (extent_live d f') live ->
  sys_ok path d (mkSys w' hs' live) /\ file_of path (mkSys w' hs' live) = f'.
Proof using.
  intros [_ _ _ _ _ _ Hp] Hw Hun Hf Hdk Hh Hl.
  assert (file_of path (mkSys w' hs' live) = f') as Hfile.
  { unfold file_of. cbn. by rewrite Hf, lookup_insert_eq. }
  split; [|done]. split; rewrite ?Hfile; cbn; try done. rewrite Hf. apply lookup_insert_eq.
Qed.

Lemma handle_open_table w w' fd sto :
  handle_open path d w fd sto -> fd_attrs w' !! fd = fd_attrs w !! fd -> handle_open path d w' fd sto.
Proof using. intros [? ? ? (wr & ? & ?)] E. split; [done..|]. exists wr. by rewrite E. Qed.

Lemma step_faults_ok w hs live script :
  sys_ok path d (mkSys w hs live) ->
  preserves (mkSys w hs live) (LFaults script) (mkSys (set_script script w) hs live).
Proof using.
  intros [? ? ? ? Hh ? ?]. split; [|done]. split; try done.
  intros fd sto Hfd. eapply handle_open_table; [by apply Hh|done].
Qed.

Lemma step_open_ok w hs live flags sto w' :
  sys_ok path d (mkSys w hs live) ->
  kes_storage_open (Some path) flags true w = Done ((KES_SUCCESS, Some sto), w') ->
  preserves (mkSys w hs live) (LOpen flags KES_SUCCESS (sto_fd sto))
    (mkSys w' (<[sto_fd sto := sto]> hs) live).
Proof using Hd.
  intros Hs Hrun. pose proof Hs as [Hwok Hun Hf Hdk Hh Hl Hp]. cbn [s_world s_handles s_live] in *.
  destruct (wp_elim _ _ _ _ _ (sys_open w hs live flags Hs) Hrun)
    as [(code0 & [=] & _)|(sto0 & [= <-] & Hop & H0 & Hn & Hw')].
  pose proof Hw' as [F A O K].
  destruct (sys_ok_table w hs live w' (<[sto_fd sto := sto]> hs) (file_of path (mkSys w hs live)) Hs)
    as [Hs' Hf']; [auto| |by rewrite F, insert_id|done| |done|].
  - intros fd' a. rewrite A, lookup_insert_Some. intros [[_ <-]|[_ Ha]]; [done|by eapply Hun].
  - intros fd' sto'. rewrite lookup_insert_Some. intros [[<- <-]|[Hne Hfd']].
    + pose proof (image_opened_handle d _ _ _ Hd Hdk Hop H0) as Hok.
      destruct Hop as [_ _ _ _ [Hro _] (_ & Hlk & _) _]. split; [done..|].
      eexists. rewrite A, lookup_insert_eq. split; [done|]. rewrite Hro. by intros ->.
    + eapply handle_open_table; [by apply Hh|]. by rewrite A, lookup_insert_ne.
  - split; [done|]. intros e He _. split; [done|]. by setoid_rewrite Hf'.
Qed.

Lemma step_open_fail_ok w hs live flags code w' :
  sys_ok path d (mkSys w hs live) ->
  kes_storage_open (Some path) flags true w = Done ((code, None), w') ->
  preserves (mkSys w hs live) (LOpen flags code (-1)) (mkSys w' hs live).
Proof using Hd.
  intros Hs Hrun. pose proof Hs as [Hwok Hun Hf Hdk Hh Hl Hp]. cbn [s_world s_handles s_live] in *.
  destruct (wp_elim _ _ _ _ _ (sys_open w hs live flags Hs) Hrun)
    as [(code0 & [= <-] & [F A O K] & _)|(sto0 & [=] & _)].
  destruct (sys_ok_table w hs live w' hs (file_of path (mkSys w hs live)) Hs)
    as [Hs' Hf']; [auto| |by rewrite F, insert_id|done| |done|].
  - unfold unlocked. by rewrite A.
  - intros fd' sto' Hfd'. eapply handle_open_table; [by apply Hh|]. by rewrite A.
  - split; [done|]. intros e He _. split; [done|]. by setoid_rewrite Hf'.
Qed.

Lemma step_close_ok w hs live fd sto code w' :
  sys_ok path d (mkSys w hs live) -> hs !! fd = Some sto -> quiet w ->
  kes_storage_close (Some sto) w = Done (code, w') ->
  preserves (mkSys w hs live) (LClose fd) (mkSys w' (delete fd hs) live).
Proof using Hd.
  intros Hs Hfd Hq Hrun. pose proof Hs as [Hwok Hun Hf Hdk Hh Hl Hp].
  cbn [s_world s_handles s_live] in *.
  destruct (wp_elim _ _ _ _ _ (sys_close w hs live fd sto Hs Hfd) Hrun)
    as (_ & f' & [F A O K] & Hc).
  assert (disk_ok d f' /\ disk_map d f' = disk_map d (file_of path (mkSys w hs live)) /\
          user_area_same d (file_of path (mkSys w hs live)) f') as (Hdk' & Hm' & Har').
  { destruct Hc as [(_ & ->)|(_ & [Har _ Hcq])]; [done|].
    destruct Hcq as (? & ? & _); [by intros Hnq; apply Hnq|done]. }
  destruct (sys_ok_table w hs live w' (delete fd hs) f' Hs)
    as [Hs' Hf']; [auto| |by rewrite F|done| | |].
  - intros fd' a. rewrite A, lookup_delete_Some. intros [_ Ha]. by eapply Hun.
  - intros fd' sto'. rewrite lookup_delete_Some. intros [Hne Hfd'].
    eapply handle_open_table; [by apply Hh|]. by rewrite A, lookup_delete_ne.
  - eapply Forall_impl; [exact Hl|]. intros e. by apply extent_live_map.
  - split; [done|]. intros e He _. split; [done|]. setoid_rewrite Hf'.
    apply extent_data_area; [done|done|exact (live_inside _ _ Hs He)].
Qed.

(** The kernel closes the descriptor of a process that ends. *)
Lemma step_kill_ok w hs live fd sto :
  sys_ok path d (mkSys w hs live) -> hs !! fd = Some sto ->
  preserves (mkSys w hs live) (LKill fd) (mkSys (do_close fd w) (delete fd hs) live) /\
  file_of path (mkSys (do_close fd w) (delete fd hs) live) = file_of path (mkSys w hs live).
Proof using.
  intros Hs Hfd. pose proof Hs as [Hwok Hun Hf Hdk Hh Hl Hp].
  cbn [s_world s_handles s_live] in *. destruct (do_close_evolves fd w) as [F A O K].
  destruct (sys_ok_table w hs live (do_close fd w) (delete fd hs) (file_of path (mkSys w hs live)) Hs)
    as [Hs' Hf']; [auto| |by rewrite insert_id|done| |done|].
  - intros fd' a. rewrite A, lookup_delete_Some. intros [_ Ha]. by eapply Hun.
  - intros fd' sto'. rewrite lookup_delete_Some. intros [Hne Hfd'].
    eapply handle_open_table; [by apply Hh|]. by rewrite A, lookup_delete_ne.
  - split; [|done]. split; [done|]. intros e He _. by rewrite Hf'.
Qed.

Lemma step_preserves s l s' : sys_ok path d s -> sys_step path s l s' -> preserves s l s'.
Proof using Hd.
  intros Hs Hstep. destruct Hstep.
  - by apply step_faults_ok.
  - by eapply step_alloc_ok.
  - by eapply step_free_ok.
  - by eapply step_write_ok.
  - by eapply step_read_ok.
  - by eapply step_sync_ok.
  - destruct (wp_elim _ _ _ _ _ (sys_open w hs live flags Hs) H0)
      as [(? & [=] & _)|(sto0 & [= -> <-] & _)]. by eapply step_open_ok.
  - by eapply step_open_fail_ok.
  - by eapply step_close_ok.
  - by eapply step_kill_ok.
Qed.
End system.

(** ** From creation on *)

Section reachability.
Context `{Crc32c} (path : string) (c : kes_storage_config).

Lemma create_size w sto w' :
  0 <= cfg_block_size c < 2 ^ 32 -> cfg_device_size c < 2 ^ 63 ->
  kes_storage_create (Some c) true w = Done ((KES_SUCCESS, Some sto), w') ->
  validate_config (Some c) = KES_SUCCESS /\ 5 * 8192 <= cfg_device_size c < 2 ^ 63.
Proof.
  intros Hb Hs Hrun.
  assert (validate_config (Some c) = KES_SUCCESS) as Hv.
  { destruct (decide (validate_config (Some c) = KES_SUCCESS)) as [|Hne]; [done|].
    revert Hrun. unfold kes_storage_create. cbn [negb].
    destruct (Z.eqb_spec (validate_config (Some c)) KES_SUCCESS); cbn [negb]; [done|].
    unfold ret. by intros [= ? _ _]. }
  split; [done|]. apply validate_config_spec in Hv as (_ & (k & Hk & Hbk) & Hds & _); [|done].
  pose proof (Z.pow_le_mono_r 2 12 k ltac:(lia) ltac:(lia)).
  change (2 ^ 12) with 4096 in *. lia.
Qed.

(** The handle and the file a successful creation leaves. *)
Lemma created_inv s :
  created path c s ->
  5 * 8192 <= cfg_device_size c < 2 ^ 63 /\
  exists w fd f0, world_ok w /\ unlocked w path /\ Forall is_byte f0 /\ 0 <= fd /\
    evolves w (s_world s) (<[path := created_image (created_desc (cfg_device_size c)) f0]> (w_files w))
      (<[fd := (path, true, None)]> (fd_attrs w)) /\
    s_handles s = {[ fd := created_handle c fd ]} /\ s_live s = [].
Proof.
  intros [w w' sto Hwok Hun Hbytes Hp Hb Hsz Hrun].
  destruct (create_size _ _ _ Hb Hsz Hrun) as [Hv Hsize]. set (d := created_desc (cfg_device_size c)).
  assert (wp (kes_storage_create (Some c) true) w (fun r w1 => forall sto0, r.2 = Some sto0 ->
    exists fd, sto0 = created_handle c fd /\ 0 <= fd /\
    evolves w w1 (<[path := created_image d (initial_content w path (cfg_flags c))]> (w_files w))
       (<[fd := (path, true, None)]> (fd_attrs w)))) as Hwp.
  { apply (create_spec c path); [done..| |].
    - intros. cbn in *. done.
    - intros w1 fd H0 _ _ Hw1 sto0 [= <-]. by exists fd. }
  destruct (wp_elim _ _ _ _ _ Hwp Hrun sto eq_refl) as (fd & -> & H0 & Hev).
  split; [done|]. exists w, fd, (initial_content w path (cfg_flags c)). split_and!; try done.
  unfold initial_content. destruct (w_files w !! path) eqn:E; [|constructor].
  case_match; [constructor|by apply Hbytes].
Qed.

Lemma created_file s :
  created path c s ->
  exists f0, Forall is_byte f0 /\
    file_of path s = created_image (created_desc (cfg_device_size c)) f0.
Proof.
  intros (_ & w & fd & f0 & _ & _ & Hf0 & _ & [F _ _ _] & _)%created_inv. exists f0.
  split; [done|]. unfold file_of. by rewrite F, lookup_insert_eq.
Qed.

Lemma created_ok s :
  created path c s ->
  5 * 8192 <= cfg_device_size c < 2 ^ 63 /\
  sys_ok path (created_desc (cfg_device_size c)) s /\
  disk_sound (created_desc (cfg_device_size c)) (file_of path s) /\ s_live s = [].
Proof.
  intros Hc. destruct (created_file s Hc) as (f0 & Hf0 & Hfile).
  destruct (created_inv s Hc) as (Hsize & w & fd & f1 & Hwok & Hun & _ & H0 & [F A O K] & Hh & Hl).
  destruct s as [w' hs live]. cbn [s_world s_handles s_live] in *. subst hs live.
  destruct (created_sound _ _ Hsize Hf0) as (Hs & _). split; [done|].
  split_and!; [|by rewrite Hfile|done]. split; rewrite ?Hfile; cbn [s_world s_handles s_live].
  - auto.
  - intros fd' a. rewrite A, lookup_insert_Some. intros [[_ <-]|[_ Ha]]; [done|by eapply Hun].
  - rewrite <-Hfile. unfold file_of. cbn. by rewrite F, lookup_insert_eq.
  - apply Hs.
  - intros fd' sto'. rewrite lookup_singleton_Some. intros [<- <-].
    split; [done|by apply created_handle_ok|done|]. exists true. by rewrite A, lookup_insert_eq.
  - constructor.
  - constructor.
Qed.

Lemma reachable_ok s :
  reachable path c s ->
  5 * 8192 <= cfg_device_size c < 2 ^ 63 /\ sys_ok path (created_desc (cfg_device_size c)) s.
Proof.
  induction 1 as [s Hs|s l s' _ [Hsize IH] Hstep].
  - by destruct (created_ok s Hs) as (? & ? & _).
  - split; [done|]. by apply (step_preserves path _ (created_layout_ok _ Hsize) s l s').
Qed.
End reachability.
