(* ===== verification/Demo.v ===== *)
(** * A small concrete storage

    Eight blocks of 128 bytes, a toy checksum, and a world with one handle
    open: the inputs at which the theorems are instantiated, and a few runs of
    the code. *)
From S2P Require Import Prelude Types Posix PosixFacts Crc Bitmap BitmapFacts Codec Storage Layout.
From S2P Require Import StorageFacts ExtentIO Lifecycle System SystemFacts.

(** Any function of the bytes into 32 bits is as good as CRC-32C here. *)
Definition demo_crc : Crc32c := {|
  kfl_crc32c seed bs := u32 (foldl (fun a b => 31 * a + b + 1) seed bs);
  kfl_crc32c_range seed bs := u32_range _
|}.
#[local] Existing Instance demo_crc.

Definition demo_path : string := "kes.img".

(** Descriptor, eight user blocks, one block for the bitmap. *)
Definition demo_desc_with (free used next checksum : Z) : kes_storage_descriptor :=
  mkDesc KES_MAGIC_NUMBER KES_VERSION_MAJOR KES_VERSION_MINOR 128 0 10 9 1 1 8 free used next
    checksum (replicate 28 0).
Definition demo_image_with (free used next : Z) (map : list Z) : list Z :=
  splice 0 (encode_desc (demo_desc_with free used next (kfl_crc32c 0 map))) (splice 1152 map []).

(** Nothing allocated; or the first three blocks, as one extent. *)
Definition demo_desc : kes_storage_descriptor := demo_desc_with 8 0 1 (kfl_crc32c 0 [0]).
Definition demo_image : list Z := demo_image_with 8 0 1 [0].
Definition demo_used_image : list Z := demo_image_with 5 3 2 [7].
Definition demo_extent : kes_extent_descriptor := mkExtent 0 3 0 2.

(** A writer on descriptor 3 and a second one on descriptor 4. *)
Definition demo_world_on (image : list Z) (script : list fault) : world :=
  mkWorld {[ demo_path := image ]}
    {[ 3 := mkOfd demo_path true 0 None; 4 := mkOfd demo_path true 0 None ]} 5 script.
Definition demo_handle_on (fd : Z) : kes_storage :=
  mkStorage fd demo_desc (Some (fresh_bitmap 8)) KES_ALLOC_FIRST_FIT false zero_stats false false.
Definition demo_handle : kes_storage := demo_handle_on 3.

(** ** The hypotheses of the theorems hold *)

Lemma demo_desc_ok free used next checksum :
  0 <= free < 2 ^ 64 -> 0 <= used < 2 ^ 64 -> 0 <= next < 2 ^ 64 -> 0 <= checksum < 2 ^ 32 ->
  desc_ok (demo_desc_with free used next checksum).
Proof.
  intros Hf Hu Hn Hc.
  split; try (split; [done|reflexivity]); try exact Hf; try exact Hu; try exact Hn; try exact Hc.
  split; [done|]. repeat constructor; unfold is_byte; lia.
Qed.

Lemma demo_layout : layout_ok demo_desc.
Proof.
  split; try (vm_compute; intuition congruence). apply demo_desc_ok; try lia. apply u32_range.
Qed.

Lemma demo_image_sound free used next map :
  0 <= free < 2 ^ 64 -> 0 <= used < 2 ^ 64 -> 0 <= next < 2 ^ 64 ->
  length map = 1%nat -> Forall is_byte map ->
  used = count_bits (bit_at map) 8 -> free = 8 - used ->
  disk_sound demo_desc (demo_image_with free used next map).
Proof.
  intros Hfr Hus Hnx Hl Hb Hu Hf. set (d := demo_desc_with free used next (kfl_crc32c 0 map)).
  assert (desc_ok d) as Hd by (apply demo_desc_ok; [done..|apply u32_range]).
  pose proof (length_encode_desc d eq_refl) as Hle.
  assert (decode_desc (demo_image_with free used next map) = d) as Hdec
    by (by apply decode_desc_write).
  assert (disk_map demo_desc (demo_image_with free used next map) = map) as Hm.
  { unfold disk_map, demo_image_with. fold d. change (Z.to_nat (map_offset demo_desc)) with 1152%nat.
    change (Z.to_nat (map_bytes demo_desc)) with 1%nat.
    rewrite slice_splice_disjoint; [|rewrite length_splice, Hl; cbn; lia|lia].
    rewrite <-Hl. apply slice_splice_same. }
  assert (disk_used demo_desc (demo_image_with free used next map) = used) as Hus'.
  { transitivity (count_bits (bit_at map) 8); [|done]. unfold disk_used, disk_bit. by rewrite Hm. }
  split; [split| | |]; rewrite ?Hdec, ?Hm, ?Hus'; try done.
  - apply Forall_splice; [apply is_byte_0|by apply encode_desc_bytes|].
    by apply Forall_splice; [apply is_byte_0|..].
  - unfold demo_image_with. fold d. rewrite !length_splice, Hl, Hle. vm_compute. congruence.
  - change (map_bytes demo_desc) with 1. change (desc_user_blocks demo_desc) with 8. lia.
Qed.

Lemma demo_sound : disk_sound demo_desc demo_image.
Proof. apply demo_image_sound; try done. repeat constructor; unfold is_byte; lia. Qed.

Lemma demo_used_sound : disk_sound demo_desc demo_used_image.
Proof. apply demo_image_sound; try done. repeat constructor; unfold is_byte; lia. Qed.

Lemma demo_handle_ok fd : 0 <= fd -> handle_ok demo_desc (demo_handle_on fd).
Proof.
  intros. split; [done|apply demo_layout|done|]. eexists. split; [done|].
  split; [|done]. apply wf_shape, fresh_wf. lia.
Qed.

Lemma demo_on_file image script fd :
  fd = 3 \/ fd = 4 -> on_file (demo_world_on image script) fd demo_path true None image.
Proof. by intros [->| ->]. Qed.

Lemma demo_world_ok image script : world_ok (demo_world_on image script).
Proof.
  split; [done|]. intros fd a. unfold fd_attrs. cbn. rewrite lookup_fmap.
  rewrite fmap_Some. intros (o & [[<- _]|[_ [<- _]%lookup_singleton_Some]]%lookup_insert_Some & _); lia.
Qed.

Lemma demo_unlocked image script : unlocked (demo_world_on image script) demo_path.
Proof.
  intros fd a. unfold fd_attrs. cbn. rewrite lookup_fmap, fmap_Some.
  intros (o & [[_ <-]|[_ [_ <-]%lookup_singleton_Some]]%lookup_insert_Some & ->); done.
Qed.

(** Two handles on the same file. *)
Definition demo_sys (image : list Z) (live : list kes_extent_descriptor) (script : list fault) : sys :=
  mkSys (demo_world_on image script) {[ 3 := demo_handle_on 3; 4 := demo_handle_on 4 ]} live.

Lemma demo_sys_ok image live script :
  disk_ok demo_desc image -> Forall (extent_live demo_desc image) live ->
  ForallOrdPairs extents_disjoint live -> sys_ok demo_path demo_desc (demo_sys image live script).
Proof.
  intros Hdk Hl Hp. split; try done.
  - apply demo_world_ok.
  - apply demo_unlocked.
  - intros fd sto. cbn [demo_sys s_handles]. rewrite lookup_insert_Some.
    intros [[<- <-]|[_ [<- <-]%lookup_singleton_Some]];
      (split; [done|by apply demo_handle_ok|done|by exists true]).
Qed.

Lemma demo_extent_live : extent_live demo_desc demo_used_image demo_extent.
Proof.
  split_and!; [split; [split; cbn; lia|cbn; lia]|done|]. cbn. intros j Hj. split; [cbn; lia|].
  assert (j = 0 \/ j = 1 \/ j = 2) as [->|[->| ->]] by lia; by vm_compute.
Qed.
