(* ===== verification/Spec.v ===== *)
(** * What a storage promises: the abstract store

    A fault-free storage, seen through any number of handles, is a set of
    allocated block numbers, the last extent identifier handed out, and an
    array of user bytes.  [store_step] gives each call's result and effect on
    that state; [Refinement] shows that the code behaves so. *)
From S2P Require Import Prelude Types FirstFit System.

Record store := mkStore {
  a_used : gset Z;             (* allocated blocks *)
  a_next : Z;                  (* last extent identifier *)
  a_area : list Z;             (* content of the user blocks *)
  a_handles : gmap Z bool      (* open handles: read-only? *)
}.

Section store.
(** Number of user blocks and block size. *)
Context (N B : Z).

Definition store_alloc (st : store) (req : kes_extent_request)
    : Z * option kes_extent_descriptor * store :=
  if req_block_count req =? 0 then (KES_ERROR_INVALID, None, st)
  else
    match first_free N (a_used st) (req_block_count req) (req_hint_block req) with
    | None => (KES_ERROR_NOSPACE, None, st)
    | Some s =>
        let id := u64 (a_next st + 1) in
        (KES_SUCCESS, Some (mkExtent s (req_block_count req) (req_flags req) id),
         mkStore (a_used st ∪ blocks s (req_block_count req)) id (a_area st) (a_handles st))
    end.

Definition store_free (st : store) (e : kes_extent_descriptor) : Z * store :=
  if forallb (fun j => bool_decide (j ∈ a_used st)) (seqZ (ext_start_block e) (ext_block_count e))
  then (KES_SUCCESS,
        mkStore (a_used st ∖ blocks (ext_start_block e) (ext_block_count e)) (a_next st)
          (a_area st) (a_handles st))
  else (KES_ERROR_NOTFOUND, st).

(** Position of an extent's byte in the user area. *)
Definition area_pos (e : kes_extent_descriptor) (offset : Z) : Z := ext_start_block e * B + offset.

Definition store_write (st : store) (e : kes_extent_descriptor) (offset : Z) (data : list Z)
    : Z * store :=
  if ext_block_count e * B <? offset + Z.of_nat (length data) then (KES_ERROR_INVALID, st)
  else (KES_SUCCESS,
        mkStore (a_used st) (a_next st) (splice (Z.to_nat (area_pos e offset)) data (a_area st))
          (a_handles st)).

Definition store_read (st : store) (e : kes_extent_descriptor) (offset size : Z)
    : Z * list Z :=
  if ext_block_count e * B <? offset + size then (KES_ERROR_INVALID, [])
  else (KES_SUCCESS, slice (Z.to_nat (area_pos e offset)) (Z.to_nat size) (a_area st)).

Definition with_handles (hs : gmap Z bool) (st : store) : store :=
  mkStore (a_used st) (a_next st) (a_area st) hs.

(** The calls of a storage in use: results and effects are functions of the
    abstract state. *)
Inductive store_step (st : store) : label -> store -> Prop :=
  | SAlloc fd req code ext o st' :
      a_handles st !! fd = Some false ->
      store_alloc st req = (code, o, st') ->
      (forall e, o = Some e -> ext = e) ->
      store_step st (LAlloc fd req code ext) st'
  | SFree fd e code st' :
      a_handles st !! fd = Some false ->
      store_free st e = (code, st') ->
      store_step st (LFree fd e code) st'
  | SWrite fd e offset data code st' :
      a_handles st !! fd = Some false ->
      store_write st e offset data = (code, st') ->
      store_step st (LWrite fd e offset data code) st'
  | SRead fd ro e offset size code bytes :
      a_handles st !! fd = Some ro ->
      store_read st e offset size = (code, bytes) ->
      store_step st (LRead fd e offset size code bytes) st
  | SSync fd :
      a_handles st !! fd = Some false ->
      store_step st (LSync fd KES_SUCCESS) st
  | SOpen flags fd :
      a_handles st !! fd = None ->
      store_step st (LOpen flags KES_SUCCESS fd)
        (with_handles (<[fd := has_flag flags KES_STORAGE_READONLY]> (a_handles st)) st)
  | SClose fd ro :
      a_handles st !! fd = Some ro ->
      store_step st (LClose fd) (with_handles (delete fd (a_handles st)) st)
  | SKill fd ro :
      a_handles st !! fd = Some ro ->
      store_step st (LKill fd) (with_handles (delete fd (a_handles st)) st)
  (* through a read-only handle nothing but reading is possible *)
  | SAllocRO fd req ext :
      a_handles st !! fd = Some true -> store_step st (LAlloc fd req KES_ERROR_INVALID ext) st
  | SFreeRO fd e :
      a_handles st !! fd = Some true -> store_step st (LFree fd e KES_ERROR_INVALID) st
  | SWriteRO fd e offset data :
      a_handles st !! fd = Some true ->
      store_step st (LWrite fd e offset data KES_ERROR_INVALID) st
  | SSyncRO fd :
      a_handles st !! fd = Some true -> store_step st (LSync fd KES_ERROR_INVALID) st.
End store.
