(* ===== verification/Refinement.v ===== *)
(** * The code implements the abstract store

    Without faults, every call of [System] is a call of [Spec] on the state
    the file represents, with the same results; the descriptor's counters and
    checksum stay exact, no block leaks, and extent identifiers are unique. *)
From S2P Require Import Prelude Types Posix PosixFacts Crc Bitmap BitmapFacts Codec Storage Layout.
From S2P Require Import StorageFacts ExtentIO Lifecycle FirstFit System SystemFacts Spec.

(** ** Exactness of the counters *)

Section sound.
Context `{Crc32c} (d : kes_storage_descriptor) (f f' : list Z) (Hd : layout_ok d).
Implicit Types (sto : kes_storage) (e : kes_extent_descriptor).

Lemma disk_used_ext : disk_map d f' = disk_map d f -> disk_used d f' = disk_used d f.
Proof using. intros Hm. unfold disk_used, disk_bit. by rewrite Hm. Qed.

(** Allocating [n] free blocks from [s] on. *)
Lemma disk_used_alloc s n :
  0 < n -> disk_free_run d f s n ->
  (forall i, 0 <= i -> disk_bit d f' i = bool_decide (s <= i < s + n) || disk_bit d f i) ->
  disk_used d f' = disk_used d f + n.
Proof using Hd.
  intros Hn (H0 & Hle & Hfree) Hb. pose proof (lo_user_blocks _ Hd). unfold disk_used.
  rewrite (count_bits_run_on (disk_bit d f) (disk_bit d f') _ s (Z.to_nat n)); [lia|lia|lia| |].
  - intros i Hi. split; [apply Hfree; lia|]. rewrite Hb by lia. by rewrite bool_decide_eq_true_2 by lia.
  - intros i Hi Ho. rewrite Hb by lia. by rewrite bool_decide_eq_false_2 by lia.
Qed.

Lemma disk_used_free e :
  extent_inside d e -> disk_run_used d f (ext_start_block e) (ext_block_count e) ->
  (forall i, in_extent e i -> disk_bit d f' i = false) ->
  (forall i, 0 <= i -> ~ in_extent e i -> disk_bit d f' i = disk_bit d f i) ->
  disk_used d f' = disk_used d f - ext_block_count e.
Proof using Hd.
  intros [[Hs Hc] Hin] Hu Hoff Hout. pose proof (lo_user_blocks _ Hd). unfold disk_used.
  rewrite (count_bits_run_on (disk_bit d f') (disk_bit d f) _ (ext_start_block e)
             (Z.to_nat (ext_block_count e))); [lia|lia|lia| |].
  - intros i Hi. split; [apply Hoff; unfold in_extent; lia|]. apply Hu. lia.
  - intros i Hi Ho. symmetry. apply Hout; [lia|]. unfold in_extent. lia.
Qed.

Lemma alloc_sound sto req ext0 (noisy : Prop) code sto' ext' :
  0 < req_block_count req < 2 ^ 32 -> disk_sound d f ->
  alloc_post d sto req ext0 f noisy code sto' ext' f' -> ~ noisy ->
  disk_sound d f' /\
  disk_used d f' = disk_used d f + (if code =? KES_SUCCESS then req_block_count req else 0).
Proof using Hd.
  intros Hn [Hf Hu Hfr Hcrc] [_ _ Hdk _ _ Hc] Hq. pose proof (lo_user_blocks _ Hd) as Hub.
  destruct Hc as [(-> & s & -> & Hrun & _ & Hb & Hdec & _)|[(-> & -> & _)|[_ ?]]]; [| |done].
  - rewrite Z.eqb_refl. pose proof (disk_used_alloc s (req_block_count req) ltac:(lia) Hrun Hb) as Hused.
    pose proof (disk_used_range d f ltac:(lia)). pose proof (disk_used_range d f' ltac:(lia)).
    split; [|done]. split; [done|..]; rewrite Hdec;
    cbn [desc_after_alloc desc_after_free set_checksum set_counts desc_used_blocks desc_free_blocks
         desc_bitmap_checksum]; [rewrite Hu|rewrite Hfr|done];
      rewrite u64_small by lia; lia.
  - change (KES_ERROR_NOSPACE =? KES_SUCCESS) with false. cbv iota. split; [done|lia].
Qed.

Lemma free_sound sto e (noisy : Prop) code sto' :
  extent_inside d e -> disk_sound d f ->
  free_post d sto e f noisy code sto' f' -> ~ noisy ->
  disk_sound d f' /\
  disk_used d f' = disk_used d f - (if code =? KES_SUCCESS then ext_block_count e else 0).
Proof using Hd.
  intros Hin [Hf Hu Hfr Hcrc] [_ _ Hdk _ Ho Hc] Hq. pose proof (lo_user_blocks _ Hd) as Hub.
  assert (forall c, c ≠ KES_SUCCESS -> f' = f -> disk_sound d f' /\
    disk_used d f' = disk_used d f - (if c =? KES_SUCCESS then ext_block_count e else 0)) as Hsame.
  { intros c Hne ->. destruct (Z.eqb_spec c KES_SUCCESS); [done|]. split; [done|lia]. }
  destruct Hc as [(-> & Hlt & Hrun & Hb & Hdec & _)|[(-> & Heq & _)|[(-> & Heq & _)|[_ ?]]]];
    [|by apply Hsame|by apply Hsame|done].
  rewrite Z.eqb_refl. pose proof (disk_used_free e Hin Hrun Hb Ho) as Hused.
  pose proof (disk_used_range d f ltac:(lia)). pose proof (disk_used_range d f' ltac:(lia)).
  destruct Hin as [[? ?] ?].
  split; [|done]. split; [done|..]; rewrite Hdec;
    cbn [desc_after_alloc desc_after_free set_checksum set_counts desc_used_blocks desc_free_blocks
         desc_bitmap_checksum]; [rewrite Hu|rewrite Hfr|done];
    rewrite u64_small by lia; lia.
Qed.

(** Rewriting the metadata of a sound file, or user bytes only. *)
Lemma sound_same_map :
  disk_sound d f -> disk_ok d f' -> disk_map d f' = disk_map d f ->
  (decode_desc f' = decode_desc f \/
   decode_desc f' = set_checksum (kfl_crc32c 0 (disk_map d f)) (decode_desc f)) ->
  disk_sound d f'.
Proof using.
  intros [Hf Hu Hfr Hcrc] Hdk Hm Hdec. pose proof (disk_used_ext Hm) as Hused.
  split; [done|..]; rewrite ?Hused, ?Hm; by destruct Hdec as [->| ->].
Qed.
End sound.

(** ** The state a file and its handles represent *)

Definition user_area (d : kes_storage_descriptor) (f : list Z) : list Z :=
  slice (Z.to_nat (desc_user_start_block d * desc_block_size d))
    (Z.to_nat (desc_user_blocks d * desc_block_size d)) f.

Record represents `{Crc32c} (path : string) (d : kes_storage_descriptor) (s : sys) (st : store)
    : Prop := {
  rp_ok : sys_ok path d s;
  rp_quiet : quiet (s_world s);
  rp_sound : disk_sound d (file_of path s);
  rp_used : set_bits (desc_user_blocks d) (disk_bit d (file_of path s)) (a_used st);
  rp_next : a_next st = desc_next_extent_id (decode_desc (file_of path s));
  rp_area : a_area st = user_area d (file_of path s);
  rp_handles : a_handles st = sto_readonly <$> s_handles s
}.

Section abstraction.
Context `{Crc32c} (path : string) (d : kes_storage_descriptor) (Hd : layout_ok d).

(** ** Bytes of the user area *)

Lemma user_area_bounds :
  sizeof_desc <= desc_user_start_block d * desc_block_size d /\
  0 <= desc_user_blocks d * desc_block_size d /\
  desc_user_start_block d * desc_block_size d + desc_user_blocks d * desc_block_size d <= map_offset d.
Proof using Hd. pose proof (map_offset_past d Hd). destruct Hd. unfold sizeof_desc in *. nia. Qed.

Lemma user_area_unchanged f f' : user_area_same d f f' -> user_area d f' = user_area d f.
Proof using Hd.
  intros Ha. pose proof user_area_bounds. unfold sizeof_desc in *. apply Ha; lia.
Qed.

Lemma extent_pos_area e offset :
  extent_pos d e + offset = desc_user_start_block d * desc_block_size d + area_pos (desc_block_size d) e offset.
Proof using. unfold extent_pos, area_pos. lia. Qed.

Lemma area_pos_bounds e offset size :
  extent_inside d e -> 0 <= offset -> 0 <= size -> offset + size <= extent_bytes d e ->
  0 <= area_pos (desc_block_size d) e offset /\
  area_pos (desc_block_size d) e offset + size <= desc_user_blocks d * desc_block_size d.
Proof using Hd.
  intros [[? ?] ?] ? ? Hle. destruct Hd. unfold area_pos, extent_bytes, sizeof_desc in *. nia.
Qed.

Lemma user_area_read f e offset size :
  disk_ok d f -> extent_inside d e -> 0 <= offset -> 0 <= size -> offset + size <= extent_bytes d e ->
  slice (Z.to_nat (extent_pos d e + offset)) (Z.to_nat size) f =
  slice (Z.to_nat (area_pos (desc_block_size d) e offset)) (Z.to_nat size) (user_area d f).
Proof using Hd.
  intros Hf Hin Hoff Hsz Hle. pose proof (area_pos_bounds _ _ _ Hin Hoff Hsz Hle).
  pose proof user_area_bounds. unfold sizeof_desc in *.
  unfold user_area. rewrite slice_of_slice by lia. rewrite extent_pos_area. f_equal. lia.
Qed.

Lemma user_area_write f e offset data :
  disk_ok d f -> extent_inside d e -> 0 <= offset ->
  offset + Z.of_nat (length data) <= extent_bytes d e ->
  user_area d (splice (Z.to_nat (extent_pos d e + offset)) data f) =
  splice (Z.to_nat (area_pos (desc_block_size d) e offset)) data (user_area d f).
Proof using Hd.
  intros Hf Hin Hoff Hle. pose proof (area_pos_bounds _ _ _ Hin Hoff (Nat2Z.is_nonneg _) Hle).
  pose proof user_area_bounds. pose proof (dk_length _ _ Hf). pose proof (map_bytes_pos d Hd).
  unfold sizeof_desc in *. rewrite extent_pos_area.
  rewrite Z2Nat.inj_add by lia. unfold user_area. apply slice_of_splice; lia.
Qed.

(** ** Simulation *)

Section simulation.
Context (w : world) (hs : gmap Z kes_storage) (live : list kes_extent_descriptor) (st : store).
Context (Hr : represents path d (mkSys w hs live) st).
Let f : list Z := file_of path (mkSys w hs live).

(** The state after a call that left every block's status alone. *)
Lemma represents_same s' st' :
  sys_ok path d s' -> quiet (s_world s') ->
  disk_ok d (file_of path s') -> disk_map d (file_of path s') = disk_map d f ->
  (decode_desc (file_of path s') = decode_desc f \/
   decode_desc (file_of path s') = set_checksum (kfl_crc32c 0 (disk_map d f)) (decode_desc f)) ->
  a_used st' = a_used st -> a_next st' = a_next st ->
  a_area st' = user_area d (file_of path s') ->
  a_handles st' = sto_readonly <$> s_handles s' ->
  represents path d s' st'.
Proof using Hr.
  intros Hok Hq Hdk Hm Hdec Hu Hn Ha Hh. destruct Hr as [R1 R2 R3 R4 R5 R6 R7].
  split; [done|done| | | |done|done].
  - eapply sound_same_map; eauto.
  - intros i. rewrite Hu, (R4 i). unfold disk_bit. by rewrite Hm.
  - rewrite Hn, R5. by destruct Hdec as [->| ->].
Qed.

Lemma handles_readonly fd sto :
  hs !! fd = Some sto -> a_handles st !! fd = Some (sto_readonly sto).
Proof using Hr. intros Hfd. rewrite (rp_handles _ _ _ _ Hr). cbn. by rewrite lookup_fmap, Hfd. Qed.

Lemma handles_update fd sto sto' :
  hs !! fd = Some sto -> sto_readonly sto' = sto_readonly sto ->
  a_handles st = sto_readonly <$> <[fd := sto']> hs.
Proof using Hr.
  intros Hfd Hro. rewrite (rp_handles _ _ _ _ Hr). cbn. rewrite fmap_insert, Hro.
  symmetry. apply insert_id. by rewrite lookup_fmap, Hfd.
Qed.

(** A successful or failed search, on the file and in the specification. *)
Lemma alloc_refines sto req ext0 (noisy : Prop) code sto' ext' f' :
  request_ok req -> 0 < req_block_count req -> ~ noisy ->
  alloc_post d sto req ext0 f noisy code sto' ext' f' ->
  exists o st', store_alloc (desc_user_blocks d) st req = (code, o, st') /\
    (forall e, o = Some e -> ext' = e) /\
    set_bits (desc_user_blocks d) (disk_bit d f') (a_used st') /\
    a_next st' = desc_next_extent_id (decode_desc f') /\
    a_area st' = a_area st /\ a_handles st' = a_handles st.
Proof using Hr Hd.
  intros [Hk Hh] Hpos Hq Hpost. pose proof Hr as [_ _ _ R4 R5 _ _]. fold f in R4, R5.
  pose proof (lo_user_blocks _ Hd) as [Hub _]. destruct Hpost as [_ _ _ _ _ Hc].
  unfold store_alloc. destruct (Z.eqb_spec (req_block_count req) 0); [lia|].
  destruct Hc as [(-> & s & -> & Hrun & Hmin & Hb & Hdec & _)|[(-> & -> & -> & _ & Hnone)|[_ ?]]];
    [| |done].
  - rewrite (first_free_unique _ _ _ Hub R4 _ _ s Hpos (proj1 Hh) Hrun Hmin).
    do 2 eexists. split; [done|]. cbn [a_used a_next a_area a_handles]. split_and!; [|..|done|done].
    + intros e [= <-]. by rewrite R5.
    + destruct Hrun as (? & ? & _). by eapply set_bits_union.
    + rewrite Hdec. cbn. by rewrite R5.
  - rewrite (first_free_none _ _ _ Hub R4 _ _ Hpos (proj1 Hh) Hnone).
    exists None, st. by split_and!.
Qed.

Lemma sim_alloc fd sto req ext0 code sto' ext' w' :
  hs !! fd = Some sto -> request_ok req ->
  kes_extent_allocate (Some sto) (Some req) (Some ext0) w = Done ((code, Some sto', Some ext'), w') ->
  exists st', store_step (desc_user_blocks d) (desc_block_size d) st (LAlloc fd req code ext') st' /\
    represents path d (mkSys w' (<[fd := sto']> hs) (live_alloc code ext' live)) st'.
Proof using Hr Hd.
  intros Hfd Hreq Hrun. pose proof Hr as [R1 R2 R3 R4 R5 R6 R7].
  destruct (step_alloc_ok path d Hd w hs live fd sto req ext0 code sto' ext' w' R1 Hfd Hreq Hrun) as [Hok' _].
  pose proof (handles_readonly fd sto Hfd) as Hro.
  destruct (wp_elim _ _ _ _ _ (sys_alloc path d Hd w hs live fd sto req ext0 R1 Hfd Hreq) Hrun)
    as (code0 & sto0 & ext1 & f' & [= <- <- <-] & Hw' & Hc). fold f in Hc.
  assert (file_of path (mkSys w' (<[fd:=sto']> hs) (live_alloc code ext' live)) = f') as Hf'.
  { unfold file_of. cbn. destruct Hw' as [-> _ _ _]. by rewrite lookup_insert_eq. }
  assert (quiet w') as Hq' by (by apply Hw').
  destruct Hc as [(Hrej & -> & -> & -> & ->)|(Hrej & Hpost)].
  - exists st. split.
    + destruct (sto_readonly sto) eqn:E; [by apply SAllocRO|].
      eapply (SAlloc _ _ _ _ _ _ _ None); [done| |done]. unfold store_alloc.
      destruct Hrej as [?| ->]; [congruence|done].
    + eapply represents_same; rewrite ?Hf'; [done|done|apply R3|done|by left|done|done|done|].
      by eapply handles_update.
  - assert (sto_readonly sto = false) as E.
    { destruct (sto_readonly sto) eqn:E; [|done]. destruct Hrej. by left. }
    assert (0 < req_block_count req) as Hk.
    { destruct Hreq as [? _]. destruct (decide (req_block_count req = 0)); [|lia].
      destruct Hrej. by right. }
    assert (~ ~ quiet w) as Hnn by (intros Hn; by apply Hn).
    rewrite E in Hro. destruct Hreq as [Hk2 Hh2].
    destruct (alloc_sound d f f' Hd sto req ext0 _ code sto' ext' (conj Hk (proj2 Hk2)) R3 Hpost Hnn)
      as [Hs' _].
    destruct (alloc_refines sto req ext0 _ code sto' ext' f' (conj Hk2 Hh2) Hk Hnn Hpost)
      as (o & st' & Hst & Ho & Hu & Hn & Ha & Hhs).
    exists st'. split; [by eapply SAlloc|]. destruct (ap_config _ _ _ _ _ _ _ _ _ _ Hpost) as (_ & _ & Hro' & _).
    split; rewrite ?Hf'; [done|done|done|done|done| |].
    + rewrite Ha, R6. symmetry. apply user_area_unchanged, Hpost.
    + rewrite Hhs. by eapply handles_update.
Qed.

Lemma sim_free fd sto e code sto' w' :
  hs !! fd = Some sto -> e ∈ live ->
  kes_extent_free (Some sto) (Some e) w = Done ((code, Some sto'), w') ->
  exists st', store_step (desc_user_blocks d) (desc_block_size d) st (LFree fd e code) st' /\
    represents path d
      (mkSys w' (<[fd := sto']> hs) (if sto_readonly sto then live else live_free e live)) st'.
Proof using Hr Hd.
  intros Hfd He Hrun. pose proof Hr as [R1 R2 R3 R4 R5 R6 R7].
  destruct (step_free_ok path d Hd w hs live fd sto e code sto' w' R1 Hfd He Hrun) as [Hok' _].
  pose proof (handles_readonly fd sto Hfd) as Hro.
  pose proof (so_live _ _ _ R1) as Hl. rewrite Forall_forall in Hl. destruct (Hl e He) as (Hin & Hc0 & Hu0).
  destruct (wp_elim _ _ _ _ _ (sys_free path d Hd w hs live fd sto e R1 Hfd He) Hrun)
    as (code0 & sto0 & f' & [= <- <-] & Hw' & Hc). fold f in Hc, Hu0.
  assert (file_of path (mkSys w' (<[fd:=sto']> hs)
            (if sto_readonly sto then live else live_free e live)) = f') as Hf'.
  { unfold file_of. cbn. destruct Hw' as [-> _ _ _]. by rewrite lookup_insert_eq. }
  assert (quiet w') as Hq' by (by apply Hw').
  destruct Hc as [(E & -> & -> & ->)|(E & Hpost & Hcode)]; rewrite E in Hro.
  - exists st. split; [by apply SFreeRO|].
    eapply represents_same; rewrite ?Hf'; [done|done|apply R3|done|by left|done|done|done|].
    by eapply handles_update.
  - destruct Hcode as [->|[_ Hq]]; [|by destruct Hq].
    assert (~ ~ quiet w) as Hnn by (intros Hn; by apply Hn).
    destruct (free_sound d f f' Hd sto e _ _ sto' Hin R3 Hpost Hnn) as [Hs' _].
    destruct (fp_config _ _ _ _ _ _ _ _ Hpost) as (_ & _ & Hro' & _).
    pose proof (fp_area _ _ _ _ _ _ _ _ Hpost) as Har.
    destruct Hpost as [_ _ _ _ Ho Hc]. destruct Hc as [(_ & _ & _ & Hb & Hdec & _)|[[? _]|[[? _]|[? _]]]];
      [|done..].
    eexists. split.
    + eapply SFree; [done|]. unfold store_free. destruct (forallb _ _) eqn:Ea; [done|exfalso].
      apply not_true_iff_false in Ea. apply Ea, forallb_seqZ. intros j Hj.
      apply bool_decide_eq_true, R4. destruct (Hu0 j Hj). destruct Hin as [[? ?] ?]. split; [lia|done].
    + split; rewrite ?Hf'; [done|done|done| | | |].
      * by eapply set_bits_difference.
      * cbn [a_next]. rewrite Hdec. cbn. done.
      * cbn [a_area]. rewrite R6. symmetry. by apply user_area_unchanged.
      * cbn [a_handles]. by eapply handles_update.
Qed.

Lemma sim_write fd sto e offset data code sto' w' :
  hs !! fd = Some sto -> e ∈ live -> Forall is_byte data ->
  0 <= offset -> offset + Z.of_nat (length data) < 2 ^ 64 ->
  kes_extent_write (Some sto) (Some e) (Some data) (Z.of_nat (length data)) offset w
    = Done ((code, Some sto'), w') ->
  exists st', store_step (desc_user_blocks d) (desc_block_size d) st
                (LWrite fd e offset data code) st' /\
    represents path d (mkSys w' (<[fd := sto']> hs) live) st'.
Proof using Hr Hd.
  intros Hfd He Hbytes Hoff Hnw Hrun. pose proof Hr as [R1 R2 R3 R4 R5 R6 R7].
  destruct (step_write_ok path d Hd w hs live fd sto e offset data code sto' w' R1 Hfd He Hbytes
              Hoff Hnw Hrun) as [Hok' _].
  pose proof (handles_readonly fd sto Hfd) as Hro. pose proof (live_inside path d _ e R1 He) as Hin.
  destruct (wp_elim _ _ _ _ _ (sys_write path d Hd w hs live fd sto e offset data R1 Hfd He Hoff Hnw)
              Hrun) as (code0 & sto0 & f' & [= <- <-] & Hw' & Hc). fold f in Hc.
  assert (file_of path (mkSys w' (<[fd:=sto']> hs) live) = f') as Hf'.
  { unfold file_of. cbn. destruct Hw' as [-> _ _ _]. by rewrite lookup_insert_eq. }
  assert (quiet w') as Hq' by (by apply Hw').
  destruct Hc as [(E & -> & -> & ->)|(E & Hpost)]; rewrite E in Hro.
  - exists st. split; [by apply SWriteRO|].
    eapply represents_same; rewrite ?Hf'; [done|done|apply R3|done|by left|done|done|done|].
    by eapply handles_update.
  - pose proof (sys_ok_handle path d _ _ _ _ _ R1 Hfd) as (Hok & Hlk & _).
    destruct (write_post_config d _ _ _ _ _ _ _ _ _ Hlk Hok Hpost) as [_ (_ & _ & Hro' & _)].
    destruct (write_post_frame d f Hd (ds_ok _ _ R3) _ _ _ _ _ _ _ _ Hin Hoff Hbytes Hpost)
      as (Hdk' & Hmap & Hdec & _ & _).
    pose proof (handles_update fd sto sto' Hfd Hro') as Hhs.
    destruct Hpost as [(-> & Hle & -> & _)|[(-> & Hlt & -> & _)|(_ & _ & Hq & _)]];
      [| |by destruct Hq].
    + eexists. split.
      * eapply SWrite; [done|]. unfold store_write. unfold extent_bytes in Hle.
        destruct (Z.ltb_spec (ext_block_count e * desc_block_size d)
                    (offset + Z.of_nat (length data))); [lia|done].
      * eapply represents_same; rewrite ?Hf'; cbn [a_used a_next a_area a_handles];
          [done|done|done|done|by left|done|done| |done].
        rewrite R6. symmetry. apply user_area_write; [apply R3|done..].
    + exists st. split.
      * eapply SWrite; [done|]. unfold store_write. unfold extent_bytes in Hlt.
        destruct (Z.ltb_spec (ext_block_count e * desc_block_size d)
                    (offset + Z.of_nat (length data))); [done|lia].
      * by eapply represents_same; rewrite ?Hf'; [..|by left| | | |].
Qed.

Lemma sim_read fd sto e offset size code sto' bytes w' :
  hs !! fd = Some sto -> e ∈ live -> 0 <= offset -> 0 <= size -> offset + size < 2 ^ 64 ->
  kes_extent_read (Some sto) (Some e) true size offset w = Done ((code, Some sto', bytes), w') ->
  exists st', store_step (desc_user_blocks d) (desc_block_size d) st
                (LRead fd e offset size code bytes) st' /\
    represents path d (mkSys w' (<[fd := sto']> hs) live) st'.
Proof using Hr Hd.
  intros Hfd He Hoff Hsz Hnw Hrun. pose proof Hr as [R1 R2 R3 R4 R5 R6 R7].
  destruct (step_read_ok path d Hd w hs live fd sto e offset size code sto' bytes w' R1 Hfd He
              Hoff Hsz Hnw Hrun) as [Hok' _].
  pose proof (handles_readonly fd sto Hfd) as Hro. pose proof (live_inside path d _ e R1 He) as Hin.
  destruct (wp_elim _ _ _ _ _ (sys_read path d Hd w hs live fd sto e offset size R1 Hfd He Hoff Hsz
              Hnw) Hrun) as (code0 & sto0 & bs0 & [= <- <- <-] & Hw' & Hpost). fold f in Hpost.
  pose proof (sys_ok_handle path d _ _ _ _ _ R1 Hfd) as (Hok & Hlk & _).
  destruct (read_post_config d _ _ _ _ _ _ _ _ _ Hlk Hok Hpost) as [Hok2 Hcfg].
  destruct (sys_ok_same path d w hs live w' fd sto sto' R1 Hfd Hw' Hok2 Hcfg) as [_ Hf'].
  assert (quiet w') as Hq' by (by apply Hw'). exists st. split.
  - eapply SRead; [done|]. unfold store_read. unfold read_post, extent_bytes in Hpost.
    destruct Hpost as [(-> & Hle & -> & _)|[(-> & Hlt & -> & _)|(_ & Hq & _)]]; [| |by destruct Hq].
    + destruct (Z.ltb_spec (ext_block_count e * desc_block_size d) (offset + size)); [lia|].
      rewrite R6. f_equal. symmetry. apply user_area_read; [apply R3|done..].
    + destruct (Z.ltb_spec (ext_block_count e * desc_block_size d) (offset + size)); [done|lia].
  - eapply represents_same; rewrite ?Hf'; [done|done|apply R3|done|by left|done|done|done|].
    destruct Hcfg as (_ & _ & Hro' & _). by eapply handles_update.
Qed.

Lemma sim_sync fd sto code sto' w' :
  hs !! fd = Some sto -> kes_storage_sync (Some sto) w = Done ((code, Some sto'), w') ->
  exists st', store_step (desc_user_blocks d) (desc_block_size d) st (LSync fd code) st' /\
    represents path d (mkSys w' (<[fd := sto']> hs) live) st'.
Proof using Hr Hd.
  intros Hfd Hrun. pose proof Hr as [R1 R2 R3 R4 R5 R6 R7].
  destruct (step_sync_ok path d Hd w hs live fd sto code sto' w' R1 Hfd Hrun) as [Hok' _].
  pose proof (handles_readonly fd sto Hfd) as Hro.
  destruct (wp_elim _ _ _ _ _ (sys_sync path d Hd w hs live fd sto R1 Hfd) Hrun)
    as (code0 & sto0 & f' & [= <- <-] & Hw' & Hc). fold f in Hc.
  assert (file_of path (mkSys w' (<[fd:=sto']> hs) live) = f') as Hf'.
  { unfold file_of. cbn. destruct Hw' as [-> _ _ _]. by rewrite lookup_insert_eq. }
  assert (quiet w') as Hq' by (by apply Hw'). exists st.
  destruct Hc as [(E & -> & -> & ->)|(E & Hpost)]; rewrite E in Hro.
  - split; [by apply SSyncRO|].
    eapply represents_same; rewrite ?Hf'; [done|done|apply R3|done|by left|done|done|done|].
    by eapply handles_update.
  - destruct Hpost as [_ (_ & _ & Hro' & _) _ Hdk Har _ Hc].
    destruct Hc as [(-> & Hm & Hdec)|[_ Hq]]; [|by destruct Hq]. split; [by apply SSync|].
    eapply represents_same; rewrite ?Hf'; [done|done|done|done|by right|done|done| |].
    + rewrite R6. symmetry. by apply user_area_unchanged.
    + by eapply handles_update.
Qed.

Lemma sim_open flags sto w' :
  kes_storage_open (Some path) flags true w = Done ((KES_SUCCESS, Some sto), w') ->
  exists st', store_step (desc_user_blocks d) (desc_block_size d) st
                (LOpen flags KES_SUCCESS (sto_fd sto)) st' /\
    represents path d (mkSys w' (<[sto_fd sto := sto]> hs) live) st'.
Proof using Hr Hd.
  intros Hrun. pose proof Hr as [R1 R2 R3 R4 R5 R6 R7].
  destruct (step_open_ok path d Hd w hs live flags sto w' R1 Hrun) as [Hok' _].
  destruct (wp_elim _ _ _ _ _ (sys_open path d Hd w hs live flags R1) Hrun)
    as [(code0 & [=] & _)|(sto0 & [= <-] & Hop & H0 & Hn & Hw')].
  assert (file_of path (mkSys w' (<[sto_fd sto:=sto]> hs) live) = f) as Hf'.
  { unfold f, file_of. cbn. by destruct Hw' as [-> _ _ _]. }
  assert (quiet w') as Hq' by (by apply Hw').
  assert (hs !! sto_fd sto = None) as Hfresh.
  { destruct (hs !! sto_fd sto) as [sto0|] eqn:E; [|done].
    destruct (sys_ok_handle path d _ _ _ _ _ R1 E) as (_ & _ & _ & wr & [Ha _] & _). congruence. }
  eexists. split.
  - apply SOpen. rewrite R7. cbn. by rewrite lookup_fmap, Hfresh.
  - eapply represents_same; rewrite ?Hf'; [done|done|apply R3|done|by left|done|done|done|].
    cbn. rewrite R7. cbn. rewrite fmap_insert. by rewrite (proj1 (io_flags _ _ _ Hop)).
Qed.

Lemma quiet_open_succeeds flags code w' :
  kes_storage_open (Some path) flags true w = Done ((code, None), w') -> False.
Proof using Hr Hd.
  intros Hrun. pose proof Hr as [R1 R2 R3 _ _ _ _].
  destruct (wp_elim _ _ _ _ _ (sys_open path d Hd w hs live flags R1) Hrun)
    as [(code0 & _ & _ & Href)|(sto0 & [=] & _)].
  by destruct (sound_accepted d _ _ _ Hd R3 Href).
Qed.

Lemma sim_close fd sto code w' :
  hs !! fd = Some sto -> kes_storage_close (Some sto) w = Done (code, w') ->
  exists st', store_step (desc_user_blocks d) (desc_block_size d) st (LClose fd) st' /\
    represents path d (mkSys w' (delete fd hs) live) st'.
Proof using Hr Hd.
  intros Hfd Hrun. pose proof Hr as [R1 R2 R3 R4 R5 R6 R7].
  destruct (step_close_ok path d Hd w hs live fd sto code w' R1 Hfd R2 Hrun) as [Hok' _].
  pose proof (handles_readonly fd sto Hfd) as Hro.
  destruct (wp_elim _ _ _ _ _ (sys_close path d Hd w hs live fd sto R1 Hfd) Hrun)
    as (_ & f' & Hw' & Hc). fold f in Hc.
  assert (file_of path (mkSys w' (delete fd hs) live) = f') as Hf'.
  { unfold file_of. cbn. destruct Hw' as [-> _ _ _]. by rewrite lookup_insert_eq. }
  assert (quiet w') as Hq' by (by apply Hw').
  assert (a_handles (with_handles (delete fd (a_handles st)) st) = sto_readonly <$> delete fd hs) as Hhs.
  { cbn. rewrite R7. cbn. by rewrite fmap_delete. }
  eexists. split; [by eapply SClose|].
  destruct Hc as [(_ & ->)|(_ & [Har _ Hcq])].
  - by eapply represents_same; rewrite ?Hf'; [..|apply R3| |by left| | | |].
  - destruct Hcq as (Hdk & Hm & Hdec); [by intros Hn; apply Hn|].
    eapply represents_same; rewrite ?Hf'; [done|done|done|done|by right|done|done| |done].
    cbn. rewrite R6. symmetry. by apply user_area_unchanged.
Qed.

Lemma sim_kill fd sto :
  hs !! fd = Some sto ->
  exists st', store_step (desc_user_blocks d) (desc_block_size d) st (LKill fd) st' /\
    represents path d (mkSys (do_close fd w) (delete fd hs) live) st'.
Proof using Hr.
  intros Hfd. pose proof Hr as [R1 R2 R3 R4 R5 R6 R7].
  destruct (step_kill_ok path d w hs live fd sto R1 Hfd) as [[Hok' _] Hf'].
  eexists. split; [eapply SKill; by eapply handles_readonly|].
  eapply represents_same; rewrite ?Hf'; [done|by apply do_close_evolves|apply R3|done|by left|done|done|done|].
  cbn. rewrite R7. cbn. by rewrite fmap_delete.
Qed.
End simulation.

(** Every step without new faults is a step of the specification. *)
Lemma simulation s l s' st :
  represents path d s st -> sys_step path s l s' -> (forall script, l ≠ LFaults script) ->
  exists st', store_step (desc_user_blocks d) (desc_block_size d) st l st' /\
              represents path d s' st'.
Proof using Hd.
  intros Hr Hstep Hl. destruct Hstep.
  - by destruct (Hl script).
  - by eapply sim_alloc.
  - by eapply sim_free.
  - by eapply sim_write.
  - by eapply sim_read.
  - by eapply sim_sync.
  - destruct (wp_elim _ _ _ _ _ (sys_open path d Hd w hs live flags (rp_ok _ _ _ _ Hr)) H0)
      as [(? & [=] & _)|(sto0 & [= -> <-] & _)]. by eapply sim_open.
  - by destruct (quiet_open_succeeds w hs live st Hr flags code w').
  - by eapply sim_close.
  - by eapply sim_kill.
Qed.
End abstraction.
