(* ===== verification/Accounting.v ===== *)
(** * Fault-free runs account for every block

    From creation on and without faults, the allocated blocks are exactly
    those of the extents in use (nothing leaks), the on-disk counters are the
    sums of their lengths, and no two extents in use share an identifier. *)
From S2P Require Import Prelude Types Posix PosixFacts Crc Bitmap BitmapFacts Codec Storage Layout.
From S2P Require Import StorageFacts ExtentIO Lifecycle FirstFit System SystemFacts Spec.
From S2P Require Import Refinement.

Lemma nodup_fmap_filter {A B} (f : A -> B) P `{forall x, Decision (P x)} (l : list A) :
  NoDup (f <$> l) -> NoDup (f <$> filter P l).
Proof.
  induction l as [|x l IH]; [done|]. rewrite fmap_cons, NoDup_cons, filter_cons. intros [Hx Hl].
  case_decide; [|by apply IH]. rewrite fmap_cons, NoDup_cons. split; [|by apply IH].
  intros (y & Hy & [_ Hyl]%list_elem_of_filter)%list_elem_of_fmap. apply Hx.
  rewrite Hy. by apply list_elem_of_fmap_2.
Qed.

Definition total_blocks (l : list kes_extent_descriptor) : Z :=
  foldr (fun e n => ext_block_count e + n) 0 l.

(** A bitmap whose set bits are those of disjoint extents has as many set bits
    as the extents have blocks. *)
Lemma count_cover (g : Z -> bool) (n : nat) (l : list kes_extent_descriptor) :
  (forall e, e ∈ l -> 0 <= ext_start_block e /\ 0 <= ext_block_count e /\
                      ext_start_block e + ext_block_count e <= Z.of_nat n) ->
  ForallOrdPairs extents_disjoint l ->
  (forall i, 0 <= i < Z.of_nat n -> g i = true <-> exists e, e ∈ l /\ in_extent e i) ->
  count_bits g n = total_blocks l.
Proof.
  intros Hin Hp. revert g. induction Hp as [|e l He _ IH]; intros g Hg.
  - apply count_bits_false. intros i Hi. apply not_true_iff_false. rewrite Hg by done.
    by intros (e & ?%not_elem_of_nil & _).
  - set (h := fun i => if decide (in_extent e i) then false else g i).
    destruct (Hin e ltac:(by left)) as (H0 & Hc & Hle).
    rewrite (count_bits_run_on h g n (ext_start_block e) (Z.to_nat (ext_block_count e)));
      [|lia|lia| |].
    + cbn [total_blocks foldr]. fold (total_blocks l).
      assert (forall e', e' ∈ l -> 0 <= ext_start_block e' /\ 0 <= ext_block_count e' /\
                ext_start_block e' + ext_block_count e' <= Z.of_nat n) as Hin'
        by (intros e' He'; apply Hin; by right).
      rewrite (IH Hin' h); [lia|]. intros i Hi. rewrite Forall_forall in He. unfold h. case_decide as Hie.
      * split; [done|]. intros (e' & He' & Hi').
        by destruct (extents_disjoint_in e e' i (He e' He') Hie).
      * rewrite Hg by done. setoid_rewrite elem_of_cons. split.
        { intros (e' & [->|He'] & Hi'); [done|eauto]. }
        intros (e' & ? & ?). exists e'. split; [by right|done].
    + intros i Hi. unfold h, in_extent. rewrite decide_True by lia. split; [done|].
      apply Hg; [lia|]. exists e. split; [by left|]. unfold in_extent. lia.
    + intros i Hi Hni. unfold h. rewrite decide_False; [done|]. unfold in_extent. lia.
Qed.

(** The abstract state accounts for the extents in use. *)
Record accounts (st : store) (live : list kes_extent_descriptor) : Prop := {
  ac_cover : forall i, i ∈ a_used st <-> exists e, e ∈ live /\ in_extent e i;
  ac_ids : Forall (fun e => 1 < ext_extent_id e <= a_next st) live;
  ac_unique : NoDup (ext_extent_id <$> live)
}.

Lemma accounts_alloc N st live req ext st' :
  0 < a_next st -> a_next st + 1 < 2 ^ 64 ->
  store_alloc N st req = (KES_SUCCESS, Some ext, st') ->
  accounts st live -> accounts st' (ext :: live).
Proof.
  intros Hn0 Hn Hst [Hc Hi Hu]. unfold store_alloc in Hst.
  destruct (Z.eqb_spec (req_block_count req) 0); [done|].
  destruct (first_free _ _ _ _) as [s|]; [|done]. injection Hst as <- <-.
  rewrite (u64_small (a_next st + 1)) by lia. split; cbn [a_used a_next].
  - intros i. rewrite elem_of_union, elem_of_blocks, Hc. setoid_rewrite elem_of_cons.
    unfold in_extent. split.
    + intros [(e & ? & ?)|?]; [eauto|]. eexists. split; [by left|done].
    + intros (e & [->|?] & ?); [by right|left; eauto].
  - constructor; [cbn; lia|]. eapply Forall_impl; [exact Hi|]. cbn. lia.
  - rewrite fmap_cons. constructor; [|done]. cbn. intros (e & He & Hel)%list_elem_of_fmap.
    rewrite Forall_forall in Hi. specialize (Hi e Hel). lia.
Qed.

Lemma accounts_free st live e code st' :
  e ∈ live -> ForallOrdPairs extents_disjoint live -> 
  store_free st e = (code, st') ->
  accounts st live -> accounts st' (live_free e live).
Proof.
  intros He Hp Hst [Hc Hi Hu]. unfold store_free in Hst.
  assert (forallb (fun j => bool_decide (j ∈ a_used st))
            (seqZ (ext_start_block e) (ext_block_count e)) = true) as Hall.
  { apply forallb_seqZ. intros j Hj. apply bool_decide_eq_true, Hc. by exists e. }
  rewrite Hall in Hst. injection Hst as <- <-. split; cbn [a_used a_next].
  - intros i. rewrite elem_of_difference, elem_of_blocks, Hc. unfold live_free.
    setoid_rewrite list_elem_of_filter. split.
    + intros [(e' & He' & Hi') Hni]. exists e'. split_and!; [|done|done]. by intros ->.
    + intros (e' & [Hne He'] & Hi'). split; [eauto|].
      eapply (extents_disjoint_in e' e); [|done]. by apply (ord_pairs_elem extents_disjoint live).
  - unfold live_free. rewrite Forall_forall in Hi |- *.
    intros e' [_ He']%list_elem_of_filter. auto.
  - by apply nodup_fmap_filter.
Qed.

(** Fault-free runs, by number of calls. *)
Section runs.
Context `{Crc32c} (path : string) (c : kes_storage_config).
Let d : kes_storage_descriptor := created_desc (cfg_device_size c).

Inductive run : nat -> sys -> Prop :=
  | run_created s : created path c s -> quiet (s_world s) -> run 0 s
  | run_step n s l s' :
      run n s -> sys_step path s l s' -> (forall script, l ≠ LFaults script) -> run (S n) s'.

(** The abstract state after creation. *)
Definition fresh_store (s : sys) : store :=
  mkStore ∅ 1 (user_area d (file_of path s)) (sto_readonly <$> s_handles s).

Lemma created_represents s :
  created path c s -> quiet (s_world s) ->
  5 * 8192 <= cfg_device_size c < 2 ^ 63 /\ represents path d s (fresh_store s).
Proof.
  intros Hs Hq. destruct (created_ok path c s Hs) as (Hsize & Hok & Hsound & _).
  destruct (created_file path c s Hs) as (f0 & Hf0 & Hfile).
  destruct (created_sound _ _ Hsize Hf0) as (_ & Hdec & Hbits). split; [done|].
  fold d in Hok, Hsound, Hdec, Hbits, Hfile. rewrite <-Hfile in Hdec, Hbits.
  split; [done|done|done| | |done|done]; cbn [a_used a_next fresh_store].
  - intros i. rewrite Hbits. split; [by intros ?%not_elem_of_empty|by intros [_ ?]].
  - by rewrite Hdec.
Qed.

(** How a call changes the abstract state and the extents in use together. *)
Lemma accounts_step s l s' st st' :
  represents path d s st -> represents path d s' st' -> sys_step path s l s' ->
  store_step (desc_user_blocks d) (desc_block_size d) st l st' ->
  0 < a_next st -> a_next st + 1 < 2 ^ 64 -> accounts st (s_live s) ->
  accounts st' (s_live s') /\ a_next st <= a_next st' <= a_next st + 1.
Proof.
  intros Hr Hr' Hstep Hst H0 Hn Ha.
  assert (a_used st' = a_used st -> a_next st' = a_next st -> s_live s' = s_live s ->
          accounts st' (s_live s') /\ a_next st <= a_next st' <= a_next st + 1) as Hsame.
  { intros E1 E2 E3. rewrite E2, E3. split; [|lia]. destruct Ha as [? ? ?].
    split; rewrite ?E1, ?E2; done. }
  destruct Hst as [fd req code ext o st1 Hro Hsa He|fd e code st1 Hro Hsf|fd e offset data code st1 Hro Hsw
    |fd ro e offset size code bytes Hro Hsr|fd Hro|flags fd Hfr|fd ro Hro|fd ro Hro|fd req ext Hro|fd e Hro
    |fd e offset data Hro|fd Hro]; inversion Hstep; subst; cbn [s_live] in *;
    try (by apply Hsame).
  - unfold store_alloc in Hsa. destruct (Z.eqb_spec (req_block_count req) 0) as [|Hnz].
    { injection Hsa as <- <- <-. by apply Hsame. }
    destruct (first_free _ _ _ _) as [s1|] eqn:Ef; injection Hsa as <- <- <-; [|by apply Hsame].
    rewrite (He _ eq_refl). unfold live_alloc. rewrite Z.eqb_refl. cbn [a_next].
    split; [|rewrite u64_small by lia; lia].
    eapply (accounts_alloc (desc_user_blocks d) st live req); [done|done| |done].
    unfold store_alloc. destruct (Z.eqb_spec (req_block_count req) 0); [done|]. by rewrite Ef.
  - rewrite (handles_readonly path d _ _ _ _ Hr fd sto) in Hro by done. injection Hro as ->.
    split; [|unfold store_free in Hsf; destruct (forallb _ _); injection Hsf as <- <-; cbn; lia].
    eapply accounts_free; [done|apply (rp_ok _ _ _ _ Hr)|done|done].
  - unfold store_write in Hsw.
    destruct (_ <? _); injection Hsw as <- <-; by apply Hsame.
  - rewrite (handles_readonly path d _ _ _ _ Hr fd sto) in Hro by done. injection Hro as E.
    rewrite E in Hsame |- *. by apply Hsame.
Qed.

(** Runs of fewer than [2^64 - 2] calls stay within the identifier space. *)
Lemma run_accounts n s :
  run n s -> Z.of_nat n < 2 ^ 64 - 2 ->
  5 * 8192 <= cfg_device_size c < 2 ^ 63 /\
  exists st, represents path d s st /\ accounts st (s_live s) /\
             0 < a_next st <= 1 + Z.of_nat n.
Proof.
  induction 1 as [s Hs Hq|n s l s' Hrun IH Hstep Hl]; intros Hn.
  - destruct (created_represents s Hs Hq) as [Hsize Hr]. split; [done|].
    exists (fresh_store s). split; [done|]. split; [|done].
    destruct (created_ok path c s Hs) as (_ & _ & _ & ->). split; cbn [a_used fresh_store].
    + intros i. split; [by intros ?%not_elem_of_empty|]. by intros (e & ?%not_elem_of_nil & _).
    + constructor.
    + constructor.
  - destruct IH as (Hsize & st & Hr & Ha & Hnx); [lia|]. split; [done|].
    destruct (simulation path d (created_layout_ok _ Hsize) s l s' st Hr Hstep Hl) as (st' & Hst & Hr').
    destruct (accounts_step s l s' st st' Hr Hr' Hstep Hst) as [Ha' Hnx']; [lia|lia|done|].
    exists st'. split_and!; [done|done|lia|lia].
Qed.

(** The counters on disk are the sums over the extents in use. *)
Lemma accounts_used s st :
  layout_ok d -> represents path d s st -> accounts st (s_live s) ->
  disk_used d (file_of path s) = total_blocks (s_live s).
Proof.
  intros Hd [R1 _ _ R4 _ _ _] [Hc _ _]. pose proof (lo_user_blocks _ Hd).
  unfold disk_used. apply count_cover.
  - intros e He. pose proof (so_live _ _ _ R1) as Hl. rewrite Forall_forall in Hl.
    destruct (Hl e He) as ([[? ?] ?] & ? & _). lia.
  - apply R1.
  - intros i Hi. rewrite <-Hc, (R4 i). rewrite Z2Nat.id in Hi by lia.
    split; [done|by intros [_ ?]].
Qed.
End runs.
