(* ===== verification/BitmapProps.v ===== *)
(** * Properties of the block bitmap

    The promises of [kes_bitmap.h], with the instances that show their
    hypotheses can hold. *)
From S2P Require Import Prelude Types Posix PosixFacts Crc Bitmap BitmapFacts FirstFit BitmapSpec.
From S2P Require Import Layout StorageFacts ExtentIO Demo.



(** [kes_bitmap_find_free] on a well-formed bitmap: if it succeeds, the run
    it returns is in range, completely free, and no candidate tried earlier
    (from the hint up to the end, then from the start) was; if it answers
    [KES_ERROR_NOSPACE] there is no free run of that length anywhere. *)
Theorem find_free_first_fit (bm : kes_bitmap) (k hint : Z)
    (Hwf : bm_wf bm) (Hk : 0 < k < 2 ^ 32) (Hh : 0 <= hint < 2 ^ 64) :
  (exists s, kes_bitmap_find_free (Some bm) k hint true =
       Some (KES_SUCCESS, Some (bm_set_hint bm (s + k)), Some s) /\
     0 <= s /\ s + k <= bm_total_bits bm /\
     (forall j, s <= j < s + k -> kes_bitmap_test (Some bm) j = Some false) /\
     forall s', tried_before (search_from bm hint) s' s -> ~ free_run bm s' k) \/
  (kes_bitmap_find_free (Some bm) k hint true = Some (KES_ERROR_NOSPACE, Some bm, None) /\
     forall s, ~ free_run bm s k).
Proof.
  destruct (find_free_spec bm k hint Hwf Hk ltac:(lia)) as [(s & Hrun & Hfree & Hmin)|Hno];
    [left|by right].
  exists s. pose proof Hfree as (H0 & Hle & Hbits). split_and!; [done|done|done| |done].
  intros j Hj. rewrite test_spec by (lia || apply Hwf). by rewrite Hbits, andb_false_r.
Qed.

Lemma find_free_first_fit_witness :
  bm_wf (fresh_bitmap 20) /\
  ((exists s, kes_bitmap_find_free (Some (fresh_bitmap 20)) 3 18 true =
       Some (KES_SUCCESS, Some (bm_set_hint (fresh_bitmap 20) (s + 3)), Some s) /\
     0 <= s /\ s + 3 <= 20 /\
     (forall j, s <= j < s + 3 -> kes_bitmap_test (Some (fresh_bitmap 20)) j = Some false) /\
     forall s', tried_before (search_from (fresh_bitmap 20) 18) s' s ->
                ~ free_run (fresh_bitmap 20) s' 3) \/
  (kes_bitmap_find_free (Some (fresh_bitmap 20)) 3 18 true
     = Some (KES_ERROR_NOSPACE, Some (fresh_bitmap 20), None) /\
     forall s, ~ free_run (fresh_bitmap 20) s 3)).
Proof.
  split; [apply fresh_wf; lia|].
  apply (find_free_first_fit (fresh_bitmap 20) 3 18); [apply fresh_wf; lia|lia|lia].
Defined.

(** The range operations either reject a range that does not lie inside the
    bitmap, leaving it unchanged, or change exactly the bits of the range and
    keep the free counter equal to the number of clear bits. *)
Theorem range_ops_exact (bm : kes_bitmap) (s n : Z)
    (Hwf : bm_wf bm) (Hs : 0 <= s < 2 ^ 64) (Hn : 0 <= n < 2 ^ 32) :
  forall v : bool,
  let op := if v then kes_bitmap_set_range else kes_bitmap_clear_range in
  if decide (s < bm_total_bits bm /\ s + n <= bm_total_bits bm) then
    exists bm', op (Some bm) s n = Some (KES_SUCCESS, Some bm') /\ bm_wf bm' /\
      bm_total_bits bm' = bm_total_bits bm /\
      forall j, 0 <= j -> bm_bit bm' j = if bool_decide (s <= j < s + n) then v else bm_bit bm j
  else op (Some bm) s n = Some (KES_ERROR_INVALID, Some bm).
Proof.
  intros v op. pose proof (wf_shape _ Hwf) as Hsh.
  pose proof (range_ok_iff bm s n Hsh Hs Hn) as Hiff.
  case_decide as Hin.
  - apply Hiff in Hin.
    assert (exists bm', op (Some bm) s n = Some (KES_SUCCESS, Some bm') /\ range_post bm bm' s n v)
      as (bm' & Hrun & _ & (Ht & _) & Hb & Hw)
      by (destruct v; [by apply set_range_spec|by apply clear_range_spec]).
    exists bm'. split_and!; [done|by apply Hw|done|done].
  - rewrite <-Hiff in Hin. destruct (range_reject bm s n Hin). by destruct v.
Qed.

Lemma range_ops_exact_witness :
  exists bm', kes_bitmap_set_range (Some (fresh_bitmap 20)) 5 7 = Some (KES_SUCCESS, Some bm') /\
    bm_wf bm' /\ bm_total_bits bm' = 20 /\
    forall j, 0 <= j ->
      bm_bit bm' j = if bool_decide (5 <= j < 12) then true else bm_bit (fresh_bitmap 20) j.
Proof.
  exact (range_ops_exact (fresh_bitmap 20) 5 7 (fresh_wf 20 ltac:(lia)) ltac:(lia) ltac:(lia) true).
Defined.

(** What [kes_bitmap_save] stores, [kes_bitmap_load] brings back: loading
    into any other bitmap object of the same size yields the saved bits and,
    for a well-formed bitmap, its free counter recomputed from them. *)
Theorem bitmap_save_load (bm bm2 : kes_bitmap) (fd off : Z) (w : world) (path : string)
    (lk : option lock_mode) (f : list Z)
    (Hwf : bm_wf bm) (Hs2 : bm_shape bm2) (Ht : bm_total_bits bm2 = bm_total_bits bm)
    (Hfd : 0 <= fd) (Hoff : 0 <= off) (Hq : quiet w)
    (Hon : on_file w fd path true lk f) (Hf : Forall is_byte f) :
  exists bm2' w',
    (let* saved := kes_bitmap_save (Some bm) fd off in
     let* (loaded, b) := kes_bitmap_load (Some bm2) fd off in
     ret (saved, loaded, b)) w = Done ((KES_SUCCESS, KES_SUCCESS, Some bm2'), w') /\
    bm_data bm2' = bm_data bm /\ bm_free_bits bm2' = bm_free_bits bm /\ bm_wf bm2'.
Proof.
  pose proof (wf_shape _ Hwf) as Hs. destruct Hon as [Ha Hfile].
  assert (bm_total_bytes bm2 = bm_total_bytes bm) as Hby
    by (by rewrite (sh_bytes _ Hs2), (sh_bytes _ Hs), Ht).
  pose proof (shape_bytes_range _ Hs) as Hbr. pose proof (sh_len _ Hs) as Hlen.
  assert (wp (let* saved := kes_bitmap_save (Some bm) fd off in
     let* (loaded, b) := kes_bitmap_load (Some bm2) fd off in
     ret (saved, loaded, b)) w (fun r _ =>
       r = (KES_SUCCESS, KES_SUCCESS, Some (reloaded bm2 (bm_data bm))))) as Hwp.
  { wp_bind. eapply kes_bitmap_save_spec; [done|done|done|exact Ha|exact Hfile|].
    intros w1 code f1 Hw1 [[-> ->]|(_ & Hn & _)]; [|done]. pose proof Hw1 as [F A _ K].
    wp_bind. eapply (kes_bitmap_load_spec _ _ _ _ (path, true, lk));
      [done|done|done|by rewrite A|by rewrite F, lookup_insert_eq| |].
    { apply Forall_splice; [apply is_byte_0|apply (sh_byte _ Hs)|done]. }
    intros w2 code bm2' Hw2 (_ & _ & [(-> & _ & ->)|[_ Hn]]).
    - wp_ret. rewrite Hby, <-Hlen, Nat2Z.id. by rewrite slice_splice_same.
    - specialize (Hn (K Hq)). rewrite length_splice, Hby in Hn. lia. }
  destruct (wp_done _ _ _ Hwp) as (r & w' & Hrun & ->).
  exists (reloaded bm2 (bm_data bm)), w'. split; [done|].
  assert (bm_shape (reloaded bm2 (bm_data bm))) as Hs'.
  { apply shape_with_data; [done| |by apply (sh_byte _ Hs)]. pose proof (sh_len _ Hs2). lia. }
  assert (bm_free_bits (reloaded bm2 (bm_data bm)) = bm_free_bits bm) as Hfree.
  { cbn [bm_free_bits reloaded]. rewrite (data_used_wf bm Hs (wf_pad _ Hwf)), Ht, (wf_free _ Hwf).
    pose proof (wf_free_range _ Hwf) as Hr. rewrite (wf_free _ Hwf) in Hr.
    pose proof (sh_total _ Hs). by rewrite u64_small by lia. }
  split_and!; [done|done|]. split; [done| |].
  - intros i Hi. apply (wf_pad _ Hwf). cbn in Hi. lia.
  - rewrite Hfree, (wf_free _ Hwf). unfold bm_used. cbn [bm_total_bits reloaded]. by rewrite Ht.
Qed.

Lemma bitmap_save_load_witness :
  bm_wf (fresh_bitmap 20) /\ quiet (demo_world_on [] []) /\
  exists bm2' w',
    (let* saved := kes_bitmap_save (Some (fresh_bitmap 20)) 3 8 in
     let* (loaded, b) := kes_bitmap_load (Some (fresh_bitmap 20)) 3 8 in
     ret (saved, loaded, b)) (demo_world_on [] [])
      = Done ((KES_SUCCESS, KES_SUCCESS, Some bm2'), w') /\
    bm_data bm2' = bm_data (fresh_bitmap 20) /\
    bm_free_bits bm2' = bm_free_bits (fresh_bitmap 20) /\ bm_wf bm2'.
Proof.
  assert (bm_wf (fresh_bitmap 20)) as Hwf by (apply fresh_wf; lia).
  split; [exact Hwf|]. split; [reflexivity|].
  apply (bitmap_save_load (fresh_bitmap 20) (fresh_bitmap 20) 3 8 (demo_world_on [] []) demo_path
           None []); [exact Hwf|apply (wf_shape _ Hwf)|reflexivity|lia|lia|reflexivity| |constructor].
  apply demo_on_file. by left.
Defined.
