(* ===== verification/StorageProps.v ===== *)
(** * Properties of the storage operations

    One call (or a short sequence of calls) at a time, on a well-formed file
    and for every script of faults: what it returns, what it does to the file,
    and what it leaves alone.  Each theorem with hypotheses is instantiated on
    the concrete storage of [Demo]. *)
From S2P Require Import Prelude Types Posix PosixFacts Crc Bitmap BitmapFacts Codec Storage Layout.
From S2P Require Import StorageFacts ExtentIO Lifecycle FirstFit System SystemFacts Demo Spec.
From S2P Require Import Refinement.

Section properties.
Context `{Crc32c}.

(** A handle ready for use: open for writing on a well-formed file that nobody
    else has locked. *)
Record ready (d : kes_storage_descriptor) (sto : kes_storage) (w : world) (path : string)
    (f : list Z) : Prop := {
  rd_layout : layout_ok d;
  rd_handle : handle_ok d sto;
  rd_writable : sto_readonly sto = false;
  rd_idle : sto_lock sto = false;
  rd_file : on_file w (sto_fd sto) path true None f;
  rd_disk : disk_ok d f;
  rd_free : unlocked_elsewhere w (sto_fd sto) path
}.

(** A handle stays ready after a call that released its locks. *)
Lemma ready_again d sto sto' w w' path f f' :
  ready d sto w path f -> evolves w w' (<[path := f']> (w_files w)) (fd_attrs w) ->
  handle_ok d sto' -> same_config sto sto' -> disk_ok d f' -> ready d sto' w' path f'.
Proof.
  intros [H1 H2 H3 H4 H5 H6 H7] [F A O K] Hok (C1 & _ & C3 & _ & C5) Hdk.
  split; [done|done|congruence|done| |done|].
  - rewrite C1. split; [rewrite A; apply H5|rewrite F; apply lookup_insert_eq].
  - unfold unlocked_elsewhere. by rewrite A, C1.
Qed.

Lemma ready_allocate d sto req ext0 w path f :
  ready d sto w path f -> 0 < req_block_count req < 2 ^ 32 -> 0 <= req_hint_block req < 2 ^ 64 ->
  exists code sto' ext' w' f',
    kes_extent_allocate (Some sto) (Some req) (Some ext0) w
      = Done ((code, Some sto', Some ext'), w') /\
    evolves w w' (<[path := f']> (w_files w)) (fd_attrs w) /\ ready d sto' w' path f' /\
    alloc_post d sto req ext0 f (~ quiet w) code sto' ext' f'.
Proof.
  intros Hr Hk Hh. pose proof Hr as [H1 H2 H3 H4 H5 H6 H7].
  assert (wp (kes_extent_allocate (Some sto) (Some req) (Some ext0)) w (fun r w' =>
    exists code sto' ext' f', r = (code, Some sto', Some ext') /\
      evolves w w' (<[path := f']> (w_files w)) (fd_attrs w) /\
      alloc_post d sto req ext0 f (~ quiet w) code sto' ext' f')) as Hwp.
  { eapply allocate_spec; [done|done|done|done|done|lia|exact H5|done|done|].
    intros w' code sto' ext' f' Hw' Hp. by exists code, sto', ext', f'. }
  destruct (wp_done _ _ _ Hwp) as (r & w' & Hrun & code & sto' & ext' & f' & -> & Hw' & Hp).
  exists code, sto', ext', w', f'. split_and!; [done|done| |done].
  by eapply ready_again; [exact Hr|exact Hw'|apply Hp..].
Qed.

Lemma ready_free d sto e w path f :
  ready d sto w path f -> extent_ok e ->
  exists code sto' w' f',
    kes_extent_free (Some sto) (Some e) w = Done ((code, Some sto'), w') /\
    evolves w w' (<[path := f']> (w_files w)) (fd_attrs w) /\ ready d sto' w' path f' /\
    free_post d sto e f (~ quiet w) code sto' f'.
Proof.
  intros Hr He. pose proof Hr as [H1 H2 H3 H4 H5 H6 H7].
  assert (wp (kes_extent_free (Some sto) (Some e)) w (fun r w' =>
    exists code sto' f', r = (code, Some sto') /\
      evolves w w' (<[path := f']> (w_files w)) (fd_attrs w) /\
      free_post d sto e f (~ quiet w) code sto' f')) as Hwp.
  { eapply free_spec; [done|done|done|done|done|exact H5|done|done|].
    intros w' code sto' f' Hw' Hp. by exists code, sto', f'. }
  destruct (wp_done _ _ _ Hwp) as (r & w' & Hrun & code & sto' & f' & -> & Hw' & Hp).
  exists code, sto', w', f'. split_and!; [done|done| |done].
  by eapply ready_again; [exact Hr|exact Hw'|apply Hp..].
Qed.

Lemma ready_write d sto e data offset w path f :
  ready d sto w path f -> extent_inside d e -> Forall is_byte data ->
  0 <= offset -> offset + Z.of_nat (length data) < 2 ^ 64 ->
  exists code sto' w' f',
    kes_extent_write (Some sto) (Some e) (Some data) (Z.of_nat (length data)) offset w
      = Done ((code, Some sto'), w') /\
    evolves w w' (<[path := f']> (w_files w)) (fd_attrs w) /\ ready d sto' w' path f' /\
    write_post d sto e data offset f (~ quiet w) code sto' f'.
Proof.
  intros Hr Hin Hb Hoff Hnw. pose proof Hr as [H1 H2 H3 H4 H5 H6 H7].
  assert (wp (kes_extent_write (Some sto) (Some e) (Some data) (Z.of_nat (length data)) offset) w
    (fun r w' => exists code sto' f', r = (code, Some sto') /\
      evolves w w' (<[path := f']> (w_files w)) (fd_attrs w) /\
      write_post d sto e data offset f (~ quiet w) code sto' f')) as Hwp.
  { eapply extent_write_spec; [done|done|done|done|done|done|done|exact H5|done|].
    intros w' code sto' f' Hw' Hp. by exists code, sto', f'. }
  destruct (wp_done _ _ _ Hwp) as (r & w' & Hrun & code & sto' & f' & -> & Hw' & Hp).
  destruct (write_post_config d _ _ _ _ _ _ _ _ _ H4 H2 Hp) as [Hok Hcfg].
  destruct (write_post_frame d f H1 H6 _ _ _ _ _ _ _ _ Hin Hoff Hb Hp) as (Hdk & _).
  exists code, sto', w', f'. split_and!; [done|done| |done].
  by eapply ready_again.
Qed.

(** The same without faults, for a request that fits and for an extent in use. *)
Lemma quiet_allocate d sto req ext0 w path f :
  ready d sto w path f -> disk_sound d f -> quiet w ->
  0 < req_block_count req < 2 ^ 32 -> 0 <= req_hint_block req < 2 ^ 64 ->
  (exists s, disk_free_run d f s (req_block_count req)) ->
  exists s id sto' w' f', let ext := mkExtent s (req_block_count req) (req_flags req) id in
    kes_extent_allocate (Some sto) (Some req) (Some ext0) w
      = Done ((KES_SUCCESS, Some sto', Some ext), w') /\
    ready d sto' w' path f' /\ disk_sound d f' /\ quiet w' /\ extent_live d f' ext /\
    disk_free_run d f s (req_block_count req) /\
    disk_used d f' = disk_used d f + req_block_count req /\
    (forall i, 0 <= i -> ~ in_extent ext i -> disk_bit d f' i = disk_bit d f i).
Proof.
  intros Hr Hs Hq Hk Hh Hsome. pose proof (rd_layout _ _ _ _ _ Hr) as Hd.
  destruct (ready_allocate d sto req ext0 w path f Hr Hk Hh)
    as (code & sto1 & ext & w1 & f1 & R1 & E1 & Hr1 & P1).
  assert (~ ~ quiet w) as Hnn by (intros Hn; by apply Hn).
  destruct (alloc_sound d f f1 Hd sto req ext0 _ _ _ _ Hk Hs P1 Hnn) as [Hs1 Hu1].
  destruct (ap_cases _ _ _ _ _ _ _ _ _ _ P1) as [(-> & s & -> & Hrun & _ & Hb1 & _)
    |[(_ & _ & _ & _ & Hno)|[_ ?]]]; [|by destruct Hsome as [s Hs0]; destruct (Hno s)|done].
  rewrite Z.eqb_refl in Hu1. do 5 eexists. cbv zeta. split_and!; [exact R1|done|done|by apply E1| |done|done|].
  - by eapply alloc_extent_live.
  - unfold in_extent. cbn. intros i Hi Hno. rewrite Hb1 by done. by rewrite bool_decide_eq_false_2.
Qed.

Lemma quiet_free d sto e w path f :
  ready d sto w path f -> disk_sound d f -> quiet w -> extent_live d f e ->
  exists sto' w' f',
    kes_extent_free (Some sto) (Some e) w = Done ((KES_SUCCESS, Some sto'), w') /\
    ready d sto' w' path f' /\ disk_sound d f' /\ quiet w' /\
    disk_used d f' = disk_used d f - ext_block_count e /\
    (forall i, in_extent e i -> disk_bit d f' i = false) /\
    (forall i, 0 <= i -> ~ in_extent e i -> disk_bit d f' i = disk_bit d f i).
Proof.
  intros Hr Hs Hq (Hin & Hpos & Hu). pose proof (rd_layout _ _ _ _ _ Hr) as Hd.
  destruct (ready_free d sto e w path f Hr (proj1 Hin)) as (code & sto1 & w1 & f1 & R1 & E1 & Hr1 & P1).
  assert (~ ~ quiet w) as Hnn by (intros Hn; by apply Hn).
  destruct (free_sound d f f1 Hd sto e _ _ _ Hin Hs P1 Hnn) as [Hs1 Hu1].
  destruct (fp_cases _ _ _ _ _ _ _ _ P1) as [(-> & _ & _ & Hc & _)|[(_ & _ & _ & Hno)
      |[(_ & _ & _ & Hz & _)|[_ ?]]]]; [|done|lia|done].
  rewrite Z.eqb_refl in Hu1. exists sto1, w1, f1. split_and!; try done; [by apply E1|apply P1].
Qed.

(** An extent none of whose blocks is allocated cannot be freed. *)
Lemma quiet_free_again d sto e w path f :
  ready d sto w path f -> quiet w -> extent_ok e -> 0 < ext_block_count e ->
  (forall i, in_extent e i -> disk_bit d f i = false) ->
  exists sto' w', kes_extent_free (Some sto) (Some e) w = Done ((KES_ERROR_NOTFOUND, Some sto'), w') /\
                  w_files w' = w_files w.
Proof.
  intros Hr Hq He Hpos Hclr.
  destruct (ready_free d sto e w path f Hr He) as (code & sto1 & w1 & f1 & R1 & E1 & Hr1 & P1).
  assert (~ ~ quiet w) as Hnn by (intros Hn; by apply Hn).
  destruct (fp_cases _ _ _ _ _ _ _ _ P1) as [(_ & _ & Hno & _)|[(-> & -> & _)
      |[(_ & _ & _ & Hz & _)|[_ ?]]]]; [| |lia|done].
  - destruct (Hno (ext_start_block e)) as [_ Hb]; [lia|].
    rewrite Hclr in Hb; [done|]. unfold in_extent. lia.
  - exists sto1, w1. split; [done|]. destruct E1 as [-> _ _ _]. apply insert_id.
    by apply (rd_file _ _ _ _ _ Hr).
Qed.

(** C27: [kes_extent_allocate], under any faults, returns with both its locks
    released and touches no user data; on success the extent is the first free
    run from the hint on, exactly its blocks become allocated on disk, and the
    descriptor's counters, identifier and checksum follow; whatever the
    outcome no allocated block becomes free, and [KES_ERROR_NOSPACE] is
    returned only if no free run of that length exists. *)
Theorem extent_allocate_correct d sto req ext0 w path f
    (Hr : ready d sto w path f)
    (Hk : 0 < req_block_count req < 2 ^ 32) (Hh : 0 <= req_hint_block req < 2 ^ 64) :
  exists code sto' ext' w' f',
    kes_extent_allocate (Some sto) (Some req) (Some ext0) w
      = Done ((code, Some sto', Some ext'), w') /\
    w_files w' = <[path := f']> (w_files w) /\ fd_attrs w' = fd_attrs w /\
    alloc_post d sto req ext0 f (~ quiet w) code sto' ext' f'.
Proof.
  destruct (ready_allocate d sto req ext0 w path f Hr Hk Hh)
    as (code & sto' & ext' & w' & f' & Hrun & [F A _ _] & _ & Hp).
  by exists code, sto', ext', w', f'.
Qed.

(** C28: [kes_extent_free], under any faults, returns with both its locks
    released and touches no user data nor the status of any block outside the
    extent; on success exactly the extent's blocks become free and the
    counters follow; an extent not entirely allocated is refused with
    [KES_ERROR_NOTFOUND] and the file is unchanged. *)
Theorem extent_free_correct d sto e w path f
    (Hr : ready d sto w path f) (He : extent_ok e) :
  exists code sto' w' f',
    kes_extent_free (Some sto) (Some e) w = Done ((code, Some sto'), w') /\
    w_files w' = <[path := f']> (w_files w) /\ fd_attrs w' = fd_attrs w /\
    free_post d sto e f (~ quiet w) code sto' f'.
Proof.
  destruct (ready_free d sto e w path f Hr He) as (code & sto' & w' & f' & Hrun & [F A _ _] & _ & Hp).
  by exists code, sto', w', f'.
Qed.

(** Without faults, allocating and then freeing the extent obtained
    succeeds and restores every block's status and the descriptor's counters;
    freeing it a second time is refused and changes nothing. *)
Theorem allocate_free_roundtrip d sto req ext0 w path f
    (Hr : ready d sto w path f) (Hs : disk_sound d f) (Hq : quiet w)
    (Hk : 0 < req_block_count req < 2 ^ 32) (Hh : 0 <= req_hint_block req < 2 ^ 64)
    (Hsome : exists s, disk_free_run d f s (req_block_count req)) :
  exists ext sto1 sto2 sto3 w1 w2 w3 f1 f2,
    kes_extent_allocate (Some sto) (Some req) (Some ext0) w
      = Done ((KES_SUCCESS, Some sto1, Some ext), w1) /\
    w_files w1 !! path = Some f1 /\ (forall i, in_extent ext i -> disk_bit d f1 i = true) /\
    kes_extent_free (Some sto1) (Some ext) w1 = Done ((KES_SUCCESS, Some sto2), w2) /\
    w_files w2 !! path = Some f2 /\ (forall i, 0 <= i -> disk_bit d f2 i = disk_bit d f i) /\
    desc_used_blocks (decode_desc f2) = desc_used_blocks (decode_desc f) /\
    desc_free_blocks (decode_desc f2) = desc_free_blocks (decode_desc f) /\
    kes_extent_free (Some sto2) (Some ext) w2 = Done ((KES_ERROR_NOTFOUND, Some sto3), w3) /\
    w_files w3 = w_files w2.
Proof.
  destruct (quiet_allocate d sto req ext0 w path f Hr Hs Hq Hk Hh Hsome)
    as (s & id & sto1 & w1 & f1 & R1 & Hr1 & Hs1 & Hq1 & Hlive & (H0 & Hle & Hfree) & Hu1 & Ho1).
  set (ext := mkExtent s _ _ id) in *.
  destruct (quiet_free d sto1 ext w1 path f1 Hr1 Hs1 Hq1 Hlive)
    as (sto2 & w2 & f2 & R2 & Hr2 & Hs2 & Hq2 & Hu2 & Hclr & Ho2).
  pose proof Hlive as ([Hok _] & Hpos & Hset).
  destruct (quiet_free_again d sto2 ext w2 path f2 Hr2 Hq2 Hok Hpos Hclr) as (sto3 & w3 & R3 & F3).
  exists ext, sto1, sto2, sto3, w1, w2, w3, f1, f2. split_and!; try done.
  - by apply (rd_file _ _ _ _ _ Hr1).
  - intros i Hi. by apply Hset.
  - by apply (rd_file _ _ _ _ _ Hr2).
  - intros i Hi. destruct (decide (in_extent ext i)) as [Hie|Hne].
    + rewrite Hclr by done. by rewrite Hfree.
    + by rewrite Ho2, Ho1.
  - rewrite (ds_used _ _ Hs2), (ds_used _ _ Hs), Hu2, Hu1. cbn. lia.
  - rewrite (ds_free _ _ Hs2), (ds_free _ _ Hs), Hu2, Hu1. cbn. lia.
Qed.

(** C32: Data written to an extent through one handle is what any handle on the
    same file reads back: without faults both calls succeed for every range
    inside the extent, and the bytes delivered are the bytes written. *)
Theorem write_read_roundtrip d sto sto2 e data offset w path wr f
    (Hr : ready d sto w path f) (Hq : quiet w)
    (Hok2 : handle_ok d sto2) (Hidle2 : sto_lock sto2 = false)
    (Hon2 : fd_attrs w !! sto_fd sto2 = Some (path, wr, None))
    (Hin : extent_inside d e) (Hb : Forall is_byte data) (Hoff : 0 <= offset)
    (Hfit : offset + Z.of_nat (length data) <= extent_bytes d e) :
  exists sto' sto2' w1 w2,
    kes_extent_write (Some sto) (Some e) (Some data) (Z.of_nat (length data)) offset w
      = Done ((KES_SUCCESS, Some sto'), w1) /\
    kes_extent_read (Some sto2) (Some e) true (Z.of_nat (length data)) offset w1
      = Done ((KES_SUCCESS, Some sto2', data), w2) /\
    w_files w2 = w_files w1.
Proof.
  pose proof (rd_layout _ _ _ _ _ Hr) as Hd.
  pose proof (extent_pos_bounds d Hd e Hin) as (? & ? & ?). pose proof (map_offset_range d Hd).
  unfold sizeof_desc in *.
  assert (offset + Z.of_nat (length data) < 2 ^ 64) as Hnw by lia.
  destruct (ready_write d sto e data offset w path f Hr Hin Hb Hoff Hnw)
    as (code & sto' & w1 & f1 & R1 & [F1 A1 O1 K1] & Hr1 & P1).
  destruct P1 as [(-> & _ & -> & _)|[(_ & ? & _)|(_ & _ & Hn & _)]]; [|lia|done].
  set (f1 := splice _ _ _) in *.
  assert (on_file w1 (sto_fd sto2) path wr None f1) as Hon.
  { split; [by rewrite A1|rewrite F1; apply lookup_insert_eq]. }
  assert (wp (kes_extent_read (Some sto2) (Some e) true (Z.of_nat (length data)) offset) w1
    (fun r w2 => exists sto2', r = (KES_SUCCESS, Some sto2', data) /\ w_files w2 = w_files w1)) as Hwp.
  { eapply extent_read_spec; [done|done|done|done|done|lia|done|exact Hon|apply Hr1|].
    intros w2 code sto2' bs [F2 _ _ _] [(-> & _ & -> & _)|[(_ & ? & _)|(_ & Hn & _)]]; [|lia|by destruct Hn; auto].
    exists sto2'. split; [|done]. unfold f1. rewrite Nat2Z.id. by rewrite slice_splice_same. }
  destruct (wp_done _ _ _ Hwp) as (r & w2 & R2 & sto2' & -> & F2). by exists sto', sto2', w1, w2.
Qed.

(** A write to an extent, complete, cut short or failed, leaves the
    descriptor, the bitmap and every extent that shares no block with it
    exactly as they were; a range that does not fit the extent is refused
    without touching the file. *)
Theorem write_isolated d sto e data offset w path f
    (Hr : ready d sto w path f) (Hin : extent_inside d e) (Hb : Forall is_byte data)
    (Hoff : 0 <= offset) (Hnw : offset + Z.of_nat (length data) < 2 ^ 64) :
  exists code sto' w' f',
    kes_extent_write (Some sto) (Some e) (Some data) (Z.of_nat (length data)) offset w
      = Done ((code, Some sto'), w') /\
    w_files w' = <[path := f']> (w_files w) /\ fd_attrs w' = fd_attrs w /\
    decode_desc f' = decode_desc f /\ disk_map d f' = disk_map d f /\ length f' = length f /\
    (forall e', extent_inside d e' -> extents_disjoint e e' -> extent_data d f' e' = extent_data d f e') /\
    (extent_bytes d e < offset + Z.of_nat (length data) -> code = KES_ERROR_INVALID /\ f' = f).
Proof.
  destruct (ready_write d sto e data offset w path f Hr Hin Hb Hoff Hnw)
    as (code & sto' & w' & f' & R1 & [F A _ _] & _ & P1).
  destruct (write_post_frame d f (rd_layout _ _ _ _ _ Hr) (rd_disk _ _ _ _ _ Hr) _ _ _ _ _ _ _ _
              Hin Hoff Hb P1) as (_ & Hm & Hdec & Hl & Hfr).
  exists code, sto', w', f'. split_and!; try done.
  intros Hbig. by destruct P1 as [(_ & ? & _)|[(-> & _ & -> & _)|(_ & ? & _)]]; [lia| |lia].
Qed.

(** [kes_storage_sync], under any faults, returns with its locks released,
    changes neither user data nor any block's status, and on success the
    descriptor on disk carries the checksum of the bitmap on disk. *)
Theorem sync_correct d sto w path f (Hr : ready d sto w path f) :
  exists code sto' w' f',
    kes_storage_sync (Some sto) w = Done ((code, Some sto'), w') /\
    w_files w' = <[path := f']> (w_files w) /\ fd_attrs w' = fd_attrs w /\
    sync_post d sto f (~ quiet w) code sto' f'.
Proof.
  destruct Hr as [H1 H2 H3 H4 H5 H6 H7].
  assert (wp (kes_storage_sync (Some sto)) w (fun r w' => exists code sto' f',
    r = (code, Some sto') /\ w_files w' = <[path := f']> (w_files w) /\ fd_attrs w' = fd_attrs w /\
    sync_post d sto f (~ quiet w) code sto' f')) as Hwp.
  { eapply sync_spec; [done|done|done|done|exact H5|done|done|].
    intros w' code sto' f' [F A _ _] Hp. by exists code, sto', f'. }
  destruct (wp_done _ _ _ Hwp) as (r & w' & Hrun & code & sto' & f' & -> & ?).
  by exists code, sto', w', f'.
Qed.

(** The descriptor survives the trip to disk and back: decoding an encoded
    descriptor gives it back, and re-encoding a decoded one gives back its 112
    bytes (no information is dropped, padding and reserved bytes included). *)
Theorem descriptor_roundtrip (dd : kes_storage_descriptor) (bs : list Z)
    (Hdd : desc_ok dd) (Hbs : Forall is_byte bs) (Hlen : length bs = 112%nat) :
  decode_desc (encode_desc dd) = dd /\ length (encode_desc dd) = 112%nat /\
  encode_desc (decode_desc bs) = bs.
Proof.
  split_and!; [by apply decode_encode_desc|apply length_encode_desc, Hdd|].
  rewrite encode_decode_desc by (done || lia). by rewrite <-Hlen, slice_all.
Qed.

(** [validate_config] accepts exactly the configurations with a path, a
    power-of-two block size between 4 KiB and 64 KiB, room for ten such
    blocks, and the first-fit strategy. *)
Theorem validate_config_correct (c : kes_storage_config) (Hb : 0 <= cfg_block_size c < 2 ^ 32) :
  kes_config_validate (Some c) = KES_SUCCESS <->
    (exists path, cfg_device_path c = Some path) /\
    (exists k, 12 <= k <= 16 /\ cfg_block_size c = 2 ^ k) /\
    cfg_block_size c * 10 <= cfg_device_size c /\ cfg_strategy c = KES_ALLOC_FIRST_FIT.
Proof. by apply validate_config_spec. Qed.

(** The layout [init_storage_descriptor] computes for a valid device size:
    the descriptor block, the user blocks and the bitmap blocks are disjoint
    and fill the device, the bitmap blocks hold one bit per user block, no
    size is rounded past the end, and no computation wraps. *)
Theorem init_layout_correct (size : Z) (Hsize : 5 * 8192 <= size < 2 ^ 63) :
  let d := init_storage_descriptor zero_desc size in
  layout_ok d /\
  desc_user_start_block d = 1 /\ 0 < desc_user_blocks d /\
  1 + desc_user_blocks d = desc_bitmap_start_block d /\
  desc_bitmap_start_block d + desc_bitmap_blocks d = desc_total_blocks d /\
  desc_user_blocks d <= 8 * (desc_bitmap_blocks d * desc_block_size d) /\
  desc_total_blocks d * desc_block_size d <= size < (desc_total_blocks d + 1) * desc_block_size d /\
  desc_free_blocks d = desc_user_blocks d /\ desc_used_blocks d = 0.
Proof.
  intros d. pose proof (init_geometry size Hsize) as Hg. cbv zeta in Hg. fold d in Hg.
  destruct Hg as (Ht & _ & Hbs & Hub & Hr & Hc).
  pose proof (Z.div_mod size 8192 ltac:(lia)). pose proof (Z.mod_pos_bound size 8192 ltac:(lia)).
  change (desc_block_size d) with 8192. split_and!; try lia; try done.
  by apply init_layout_ok.
Qed.

(** Creating a storage with a valid configuration and opening the same path
    again succeeds without faults: the second handle sees the descriptor the
    creation computed, checksum included, and a bitmap with every block free. *)
Theorem create_open_roundtrip c path flags w
    (Hv : validate_config (Some c) = KES_SUCCESS) (Hp : cfg_device_path c = Some path)
    (Hb : 0 <= cfg_block_size c < 2 ^ 32) (Hsz : cfg_device_size c < 2 ^ 63)
    (Hw : world_ok w) (Hun : unlocked w path) (Hq : quiet w)
    (Hbytes : forall f, w_files w !! path = Some f -> Forall is_byte f)
    (Hex : is_Some (w_files w !! path) \/ has_flag (cfg_flags c) KES_STORAGE_CREATE = true) :
  let d := created_desc (cfg_device_size c) in
  exists fd sto w1 w2 f,
    kes_storage_create (Some c) true w = Done ((KES_SUCCESS, Some (created_handle c fd)), w1) /\
    kes_storage_open (Some path) flags true w1 = Done ((KES_SUCCESS, Some sto), w2) /\
    w_files w2 = <[path := f]> (w_files w) /\ disk_sound d f /\
    sto_desc sto = d /\ sto_fd sto ≠ fd /\ handle_ok d sto /\
    forall i, disk_bit d f i = false.
Proof.
  intros d.
  assert (wp (kes_storage_create (Some c) true) w (fun r w1 => exists fd f0,
    r = (KES_SUCCESS, Some (created_handle c fd)) /\ Forall is_byte f0 /\
    5 * 8192 <= cfg_device_size c < 2 ^ 63 /\
    evolves w w1 (<[path := created_image d f0]> (w_files w))
      (<[fd := (path, true, None)]> (fd_attrs w)))) as Hwp.
  { apply (create_spec c path); [done..| |].
    - intros w1 fs' code _ _ _ Hqc. destruct (Hqc Hq) as (_ & Hn & Hfl).
      destruct Hex as [[? ?]|?]; congruence.
    - intros w1 fd _ _ _ Hev. exists fd, (initial_content w path (cfg_flags c)).
      split_and!; [done| | |done|done]; [|apply validate_config_spec in Hv as (_ & (k & Hk & Hbk) & Hds & _);
        [pose proof (Z.pow_le_mono_r 2 12 k ltac:(lia) ltac:(lia)); change (2 ^ 12) with 4096 in *; lia|done]].
      unfold initial_content. destruct (w_files w !! path) eqn:E; [|constructor].
      case_match; [constructor|by apply Hbytes]. }
  destruct (wp_done _ _ _ Hwp) as (r & w1 & R1 & fd & f0 & -> & Hf0 & Hsize & [F A O K]).
  destruct (created_sound _ _ Hsize Hf0) as (Hs & Hdec & Hbits). fold d in Hs, Hdec, Hbits.
  assert (w_files w1 !! path = Some (created_image d f0)) as Hfile by (by rewrite F, lookup_insert_eq).
  pose proof (created_layout_ok _ Hsize) as Hd. fold d in Hd.
  assert (wp (kes_storage_open (Some path) flags true) w1 (fun r w2 => exists sto,
    r = (KES_SUCCESS, Some sto) /\ w_files w2 = w_files w1 /\ sto_fd sto ≠ fd /\
    image_opened (created_image d f0) flags sto /\ 0 <= sto_fd sto)) as Hwp2.
  { apply open_spec; [by apply O| | | |].
    - intros fd' a. rewrite A, lookup_insert_Some. intros [[_ <-]|[_ Ha]]; [done|by eapply Hun].
    - intros f. rewrite Hfile. intros [= <-]. apply Hs.
    - intros w2 code _. rewrite Hfile. intros Href. exfalso.
      by apply (sound_accepted d _ _ _ Hd Hs Href), K.
    - intros w2 f sto. rewrite Hfile. intros [= <-] Hop H0 Hn [F2 _ _ _]. exists sto.
      split_and!; try done. intros E. by rewrite E, A, lookup_insert_eq in Hn. }
  destruct (wp_done _ _ _ Hwp2) as (r & w2 & R2 & sto & -> & F2 & Hne & Hop & H0).
  exists fd, sto, w1, w2, (created_image d f0). split_and!; try done.
  - by rewrite F2, F.
  - by rewrite (io_desc _ _ _ Hop), Hdec.
  - eapply image_opened_handle; [done|apply Hs|done|done].
Qed.

(** C29: Opening any file whatsoever, hostile or damaged, is safe under any
    faults: the call returns, no file is modified, a refusal leaks no
    descriptor and no lock and has one of the documented reasons, and an
    accepted image has the right magic number and version and a bitmap whose
    checksum is the one in its descriptor. *)
Theorem open_any_image path flags w f
    (Hw : world_ok w) (Hun : unlocked w path)
    (Hfile : w_files w !! path = Some f) (Hf : Forall is_byte f) :
  exists code o w',
    kes_storage_open (Some path) flags true w = Done ((code, o), w') /\ w_files w' = w_files w /\
    match o with
    | None => fd_attrs w' = fd_attrs w /\ image_refused f (~ quiet w) code
    | Some sto => code = KES_SUCCESS /\ image_opened f flags sto /\ fd_attrs w !! sto_fd sto = None /\
        fd_attrs w' = <[sto_fd sto := (path, negb (has_flag flags KES_STORAGE_READONLY), None)]> (fd_attrs w)
    end.
Proof.
  assert (wp (kes_storage_open (Some path) flags true) w (fun r w' => w_files w' = w_files w /\
    match r.2 with
    | None => fd_attrs w' = fd_attrs w /\ image_refused f (~ quiet w) r.1
    | Some sto => r.1 = KES_SUCCESS /\ image_opened f flags sto /\ fd_attrs w !! sto_fd sto = None /\
        fd_attrs w' = <[sto_fd sto := (path, negb (has_flag flags KES_STORAGE_READONLY), None)]> (fd_attrs w)
    end)) as Hwp.
  { apply open_spec; [done|done| | |].
    - intros f0. rewrite Hfile. by intros [= <-].
    - intros w' code [F A _ _]. rewrite Hfile. cbn. auto.
    - intros w' f0 sto. rewrite Hfile. intros [= <-] Hop _ Hn [F A _ _]. cbn. auto. }
  destruct (wp_done _ _ _ Hwp) as ([code o] & w' & R & F & Hr). by exists code, o, w'.
Qed.

(** C33: A well-formed storage whose bitmap bytes were altered so that their
    checksum changed is refused as corrupt (or the open fails for a fault),
    never accepted. *)
Theorem damaged_bitmap_detected d f map path flags w
    (Hd : layout_ok d) (Hs : disk_sound d f) (Hw : world_ok w) (Hun : unlocked w path)
    (Hmap : Forall is_byte map) (Hl : Z.of_nat (length map) = map_bytes d)
    (Hcrc : kfl_crc32c 0 map ≠ kfl_crc32c 0 (disk_map d f))
    (Hfile : w_files w !! path = Some (splice (Z.to_nat (map_offset d)) map f)) :
  exists code w',
    kes_storage_open (Some path) flags true w = Done ((code, None), w') /\
    w_files w' = w_files w /\ (quiet w -> code = KES_ERROR_CORRUPT).
Proof.
  set (g := splice (Z.to_nat (map_offset d)) map f) in *. pose proof Hs as [[Hb Hlen Hlay _] _ _ Hc].
  pose proof (map_offset_range d Hd) as Hr. pose proof (map_bytes_pos d Hd).
  unfold sizeof_desc in Hr.
  assert (decode_desc g = decode_desc f) as Hdec
    by (apply decode_desc_ext, slice_splice_disjoint; lia).
  assert (disk_map d g = map) as Hmg by (by apply disk_map_map_write).
  pose proof (layout_eq _ _ Hlay) as (Hmag & Hver & _ & _ & _ & Hub). pose proof (lo_user_blocks _ Hd).
  assert (bitmap_offset (decode_desc g) = map_offset d) as Ho
    by (by rewrite Hdec, (bitmap_offset_layout d), bitmap_offset_exact by done).
  assert (bytes_for (desc_user_blocks (decode_desc g)) = map_bytes d) as Hby
    by (rewrite Hdec, Hub; apply bytes_for_small; lia).
  assert (image_map g = map) as Him by (unfold image_map; by rewrite Ho, Hby).
  assert (length g = length f) as Hlg by (unfold g; rewrite length_splice; lia).
  assert (wp (kes_storage_open (Some path) flags true) w (fun r w' => r.2 = None /\
    w_files w' = w_files w /\ (quiet w -> r.1 = KES_ERROR_CORRUPT))) as Hwp.
  { apply open_spec; [done|done| | |].
    - intros f0. rewrite Hfile. intros [= <-]. by apply Forall_splice; [apply is_byte_0|..].
    - intros w' code [F _ _ _]. rewrite Hfile. intros Href. split_and!; [done|done|]. intros Hq. cbn.
      destruct Href as [?|?|?|?|?|Hz|Hn|?]; try done; exfalso.
      + lia.
      + rewrite Hdec, Hub in Hz. lia.
      + rewrite Ho, Hby in Hn. lia.
    - intros w' f0 sto. rewrite Hfile. intros [= <-] Hop _ _ _. exfalso. apply Hcrc.
      destruct (io_bitmap _ _ _ Hop) as (bm & _ & _ & _ & _ & Hcr & Hda).
      rewrite Hda, Him in Hcr by lia. by rewrite Hcr, Hdec. }
  destruct (wp_done _ _ _ Hwp) as ([code o] & w' & R & Ho' & F & Hq). cbn in Ho', Hq. subst o.
  by exists code, w'.
Qed.

(** Closing a writable handle without faults leaves the file's bitmap and
    user data as they are, refreshes the checksum, and closes the descriptor. *)
Theorem close_preserves d sto w path f (Hr : ready d sto w path f) (Hq : quiet w) :
  exists w' f',
    kes_storage_close (Some sto) w = Done (KES_SUCCESS, w') /\
    w_files w' = <[path := f']> (w_files w) /\ fd_attrs w' = delete (sto_fd sto) (fd_attrs w) /\
    disk_ok d f' /\ disk_map d f' = disk_map d f /\ user_area_same d f f' /\
    (disk_sound d f -> disk_sound d f').
Proof.
  destruct Hr as [H1 H2 H3 H4 H5 H6 H7].
  assert (wp (kes_storage_close (Some sto)) w (fun code w' => exists f', code = KES_SUCCESS /\
    w_files w' = <[path := f']> (w_files w) /\ fd_attrs w' = delete (sto_fd sto) (fd_attrs w) /\
    close_post d f (~ quiet w) f')) as Hwp.
  { eapply close_spec; [done|done|done|done|exact H5|done|done|].
    intros w' f' [F A _ _] Hp. by exists f'. }
  destruct (wp_done _ _ _ Hwp) as (code & w' & R & f' & -> & F & A & [Har _ Hcq]).
  destruct Hcq as (Hdk & Hm & Hdec); [by intros Hn|].
  exists w', f'. split_and!; try done. intros Hs. eapply sound_same_map; eauto.
Qed.
End properties.

(** ** Instances *)

#[local] Existing Instance demo_crc.

Lemma demo_ready image script :
  disk_ok demo_desc image -> ready demo_desc demo_handle (demo_world_on image script) demo_path image.
Proof.
  intros Hdk. split; [apply demo_layout|by apply demo_handle_ok|done|done|apply demo_on_file; by left|done|].
  intros fd a _ Ha Hp. by eapply demo_unlocked.
Qed.

Definition demo_request : kes_extent_request := mkRequest 2 1 0 0.
Definition no_extent : kes_extent_descriptor := mkExtent 0 0 0 0.

(** With a short write planned in the middle of the call. *)
Definition demo_faults : list fault := [FNone; FNone; FNone; FNone; FNone; FNone; FNone; FNone; FShort 60].

Lemma extent_allocate_correct_witness :
  exists code sto' ext' w' f',
    kes_extent_allocate (Some demo_handle) (Some demo_request) (Some no_extent)
      (demo_world_on demo_used_image demo_faults) = Done ((code, Some sto', Some ext'), w') /\
    w_files w' = <[demo_path := f']> (w_files (demo_world_on demo_used_image demo_faults)) /\
    fd_attrs w' = fd_attrs (demo_world_on demo_used_image demo_faults) /\
    alloc_post demo_desc demo_handle demo_request no_extent demo_used_image
      (~ quiet (demo_world_on demo_used_image demo_faults)) code sto' ext' f'.
Proof.
  apply (extent_allocate_correct demo_desc demo_handle demo_request no_extent); cbn; [|lia|lia].
  apply demo_ready, demo_used_sound.
Defined.

Lemma extent_free_correct_witness :
  exists code sto' w' f',
    kes_extent_free (Some demo_handle) (Some demo_extent) (demo_world_on demo_used_image demo_faults)
      = Done ((code, Some sto'), w') /\
    w_files w' = <[demo_path := f']> (w_files (demo_world_on demo_used_image demo_faults)) /\
    fd_attrs w' = fd_attrs (demo_world_on demo_used_image demo_faults) /\
    free_post demo_desc demo_handle demo_extent demo_used_image
      (~ quiet (demo_world_on demo_used_image demo_faults)) code sto' f'.
Proof.
  apply (extent_free_correct demo_desc demo_handle demo_extent); [|split; cbn; lia].
  apply demo_ready, demo_used_sound.
Defined.

Lemma allocate_free_roundtrip_witness :
  exists ext sto1 sto2 sto3 w1 w2 w3 f1 f2,
    kes_extent_allocate (Some demo_handle) (Some demo_request) (Some no_extent)
      (demo_world_on demo_used_image []) = Done ((KES_SUCCESS, Some sto1, Some ext), w1) /\
    w_files w1 !! demo_path = Some f1 /\ (forall i, in_extent ext i -> disk_bit demo_desc f1 i = true) /\
    kes_extent_free (Some sto1) (Some ext) w1 = Done ((KES_SUCCESS, Some sto2), w2) /\
    w_files w2 !! demo_path = Some f2 /\
    (forall i, 0 <= i -> disk_bit demo_desc f2 i = disk_bit demo_desc demo_used_image i) /\
    desc_used_blocks (decode_desc f2) = desc_used_blocks (decode_desc demo_used_image) /\
    desc_free_blocks (decode_desc f2) = desc_free_blocks (decode_desc demo_used_image) /\
    kes_extent_free (Some sto2) (Some ext) w2 = Done ((KES_ERROR_NOTFOUND, Some sto3), w3) /\
    w_files w3 = w_files w2.
Proof.
  apply (allocate_free_roundtrip demo_desc demo_handle demo_request no_extent _ demo_path);
    [apply demo_ready, demo_used_sound|apply demo_used_sound|reflexivity|cbn; lia|cbn; lia|].
  exists 4. split; [lia|]. split; [cbn; lia|]. cbn. intros j Hj.
  assert (j = 4 \/ j = 5) as [->| ->] by lia; vm_compute; reflexivity.
Defined.

Lemma write_read_roundtrip_witness :
  exists sto' sto2' w1 w2,
    kes_extent_write (Some demo_handle) (Some demo_extent) (Some [7; 8; 9]) 3 200
      (demo_world_on demo_used_image []) = Done ((KES_SUCCESS, Some sto'), w1) /\
    kes_extent_read (Some (demo_handle_on 4)) (Some demo_extent) true 3 200 w1
      = Done ((KES_SUCCESS, Some sto2', [7; 8; 9]), w2) /\
    w_files w2 = w_files w1.
Proof.
  apply (write_read_roundtrip demo_desc demo_handle (demo_handle_on 4) demo_extent [7; 8; 9] 200
           (demo_world_on demo_used_image []) demo_path true demo_used_image);
    [apply demo_ready, demo_used_sound|reflexivity|apply demo_handle_ok; lia|reflexivity|reflexivity
    |apply demo_extent_live| |lia|vm_compute; discriminate].
  repeat constructor; unfold is_byte; lia.
Defined.

Lemma write_isolated_witness :
  exists code sto' w' f',
    kes_extent_write (Some demo_handle) (Some demo_extent) (Some [7; 8; 9]) 3 200
      (demo_world_on demo_used_image [FNone; FShort 2]) = Done ((code, Some sto'), w') /\
    w_files w' = <[demo_path := f']> (w_files (demo_world_on demo_used_image [FNone; FShort 2])) /\
    fd_attrs w' = fd_attrs (demo_world_on demo_used_image [FNone; FShort 2]) /\
    decode_desc f' = decode_desc demo_used_image /\
    disk_map demo_desc f' = disk_map demo_desc demo_used_image /\
    length f' = length demo_used_image /\
    (forall e', extent_inside demo_desc e' -> extents_disjoint demo_extent e' ->
       extent_data demo_desc f' e' = extent_data demo_desc demo_used_image e') /\
    (extent_bytes demo_desc demo_extent < 203 -> code = KES_ERROR_INVALID /\ f' = demo_used_image).
Proof.
  apply (write_isolated demo_desc demo_handle demo_extent [7; 8; 9] 200
           (demo_world_on demo_used_image [FNone; FShort 2]) demo_path demo_used_image);
    [apply demo_ready, demo_used_sound|apply demo_extent_live| |lia|cbn; lia].
  repeat constructor; unfold is_byte; lia.
Defined.

Lemma sync_correct_witness :
  exists code sto' w' f',
    kes_storage_sync (Some demo_handle) (demo_world_on demo_used_image demo_faults)
      = Done ((code, Some sto'), w') /\
    w_files w' = <[demo_path := f']> (w_files (demo_world_on demo_used_image demo_faults)) /\
    fd_attrs w' = fd_attrs (demo_world_on demo_used_image demo_faults) /\
    sync_post demo_desc demo_handle demo_used_image
      (~ quiet (demo_world_on demo_used_image demo_faults)) code sto' f'.
Proof. apply (sync_correct demo_desc demo_handle), demo_ready, demo_used_sound. Defined.

Lemma descriptor_roundtrip_witness :
  decode_desc (encode_desc demo_desc) = demo_desc /\ length (encode_desc demo_desc) = 112%nat /\
  encode_desc (decode_desc (replicate 112 255)) = replicate 112 255.
Proof.
  apply (descriptor_roundtrip demo_desc (replicate 112 255));
    [apply demo_layout|apply Forall_replicate; unfold is_byte; lia|reflexivity].
Defined.

Definition demo_config : kes_storage_config :=
  mkConfig (Some demo_path) 40960 4096 (Z.lor KES_STORAGE_CREATE KES_STORAGE_TRUNCATE)
    KES_ALLOC_FIRST_FIT.

Lemma validate_config_correct_witness :
  kes_config_validate (Some demo_config) = KES_SUCCESS <->
    (exists path, cfg_device_path demo_config = Some path) /\
    (exists k, 12 <= k <= 16 /\ cfg_block_size demo_config = 2 ^ k) /\
    cfg_block_size demo_config * 10 <= cfg_device_size demo_config /\
    cfg_strategy demo_config = KES_ALLOC_FIRST_FIT.
Proof. apply (validate_config_correct demo_config). cbn. lia. Defined.

Lemma init_layout_correct_witness :
  let d := init_storage_descriptor zero_desc 1048576 in
  layout_ok d /\
  desc_user_start_block d = 1 /\ 0 < desc_user_blocks d /\
  1 + desc_user_blocks d = desc_bitmap_start_block d /\
  desc_bitmap_start_block d + desc_bitmap_blocks d = desc_total_blocks d /\
  desc_user_blocks d <= 8 * (desc_bitmap_blocks d * desc_block_size d) /\
  desc_total_blocks d * desc_block_size d <= 1048576 < (desc_total_blocks d + 1) * desc_block_size d /\
  desc_free_blocks d = desc_user_blocks d /\ desc_used_blocks d = 0.
Proof. apply (init_layout_correct 1048576). lia. Defined.

Lemma demo_validate : validate_config (Some demo_config) = KES_SUCCESS.
Proof. reflexivity. Qed.

Lemma create_open_roundtrip_witness :
  let d := created_desc (cfg_device_size demo_config) in
  exists fd sto w1 w2 f,
    kes_storage_create (Some demo_config) true (demo_world_on demo_image [])
      = Done ((KES_SUCCESS, Some (created_handle demo_config fd)), w1) /\
    kes_storage_open (Some demo_path) 0 true w1 = Done ((KES_SUCCESS, Some sto), w2) /\
    w_files w2 = <[demo_path := f]> (w_files (demo_world_on demo_image [])) /\ disk_sound d f /\
    sto_desc sto = d /\ sto_fd sto ≠ fd /\ handle_ok d sto /\
    forall i, disk_bit d f i = false.
Proof.
  apply (create_open_roundtrip demo_config demo_path 0 (demo_world_on demo_image []));
    [apply demo_validate|reflexivity|cbn; lia|cbn; lia|apply demo_world_ok|apply demo_unlocked
    |reflexivity| |by right].
  intros f Hf. change (w_files _) with ({[ demo_path := demo_image ]} : gmap string (list Z)) in Hf.
  apply lookup_singleton_Some in Hf as [_ <-]. apply demo_sound.
Defined.

Lemma open_any_image_witness :
  exists code o w',
    kes_storage_open (Some demo_path) 0 true (demo_world_on (replicate 200 75) [FNone])
      = Done ((code, o), w') /\
    w_files w' = w_files (demo_world_on (replicate 200 75) [FNone]) /\
    match o with
    | None => fd_attrs w' = fd_attrs (demo_world_on (replicate 200 75) [FNone]) /\
        image_refused (replicate 200 75) (~ quiet (demo_world_on (replicate 200 75) [FNone])) code
    | Some sto => code = KES_SUCCESS /\ image_opened (replicate 200 75) 0 sto /\
        fd_attrs (demo_world_on (replicate 200 75) [FNone]) !! sto_fd sto = None /\
        fd_attrs w' = <[sto_fd sto := (demo_path, negb (has_flag 0 KES_STORAGE_READONLY), None)]>
                        (fd_attrs (demo_world_on (replicate 200 75) [FNone]))
    end.
Proof.
  apply (open_any_image demo_path 0); [apply demo_world_ok|apply demo_unlocked|reflexivity|].
  apply Forall_replicate. unfold is_byte. lia.
Defined.

Lemma damaged_bitmap_detected_witness :
  exists code w',
    kes_storage_open (Some demo_path) 0 true
      (demo_world_on (splice (Z.to_nat (map_offset demo_desc)) [6] demo_used_image) [])
      = Done ((code, None), w') /\
    w_files w' = w_files (demo_world_on (splice (Z.to_nat (map_offset demo_desc)) [6] demo_used_image) []) /\
    (quiet (demo_world_on (splice (Z.to_nat (map_offset demo_desc)) [6] demo_used_image) []) ->
     code = KES_ERROR_CORRUPT).
Proof.
  apply (damaged_bitmap_detected demo_desc demo_used_image [6] demo_path 0);
    [apply demo_layout|apply demo_used_sound|apply demo_world_ok|apply demo_unlocked
    |repeat constructor; unfold is_byte; lia|reflexivity|vm_compute; congruence|reflexivity].
Defined.

Lemma close_preserves_witness :
  exists w' f',
    kes_storage_close (Some demo_handle) (demo_world_on demo_used_image []) = Done (KES_SUCCESS, w') /\
    w_files w' = <[demo_path := f']> (w_files (demo_world_on demo_used_image [])) /\
    fd_attrs w' = delete (sto_fd demo_handle) (fd_attrs (demo_world_on demo_used_image [])) /\
    disk_ok demo_desc f' /\ disk_map demo_desc f' = disk_map demo_desc demo_used_image /\
    user_area_same demo_desc demo_used_image f' /\
    (disk_sound demo_desc demo_used_image -> disk_sound demo_desc f').
Proof.
  apply (close_preserves demo_desc demo_handle); [apply demo_ready, demo_used_sound|reflexivity].
Defined.
