(* ===== verification/SystemProps.v ===== *)
(** * Properties of a storage shared by several handles

    Safety under arbitrary faults, and exactness without them, for every
    state reachable from a creation by any sequence of calls. *)
From S2P Require Import Prelude Types Posix PosixFacts Crc Bitmap BitmapFacts Codec Storage Layout.
From S2P Require Import StorageFacts ExtentIO Lifecycle FirstFit System SystemFacts Demo Spec.
From S2P Require Import Refinement Accounting StorageProps.

Section properties.
Context `{Crc32c} (path : string).





(** C31: Without faults every block is accounted for: after any run the blocks
    marked allocated are exactly those of the extents in use (nothing leaks),
    the descriptor's used and free counts are the sums of their lengths, and
    the stored checksum is the bitmap's. *)
Theorem blocks_accounted (c : kes_storage_config) (n : nat) (s : sys)
    (Hrun : run path c n s) (Hn : Z.of_nat n < 2 ^ 64 - 2) :
  let d := created_desc (cfg_device_size c) in
  let f := file_of path s in
  (forall i, 0 <= i < desc_user_blocks d ->
     disk_bit d f i = true <-> exists e, e ∈ s_live s /\ in_extent e i) /\
  desc_used_blocks (decode_desc f) = total_blocks (s_live s) /\
  desc_free_blocks (decode_desc f) = desc_user_blocks d - total_blocks (s_live s) /\
  desc_bitmap_checksum (decode_desc f) = kfl_crc32c 0 (disk_map d f).
Proof.
  intros d f. destruct (run_accounts path c n s Hrun Hn) as (Hsize & st & Hr & Ha & _).
  assert (layout_ok d) as Hd by (by apply created_layout_ok).
  pose proof (accounts_used path c s st Hd Hr Ha) as Hu.
  destruct Hr as [_ _ [_ Hus Hfr Hcr] R4 _ _ _]. fold d f in Hus, Hfr, Hcr, R4, Hu. split_and!.
  - intros i Hi. rewrite <-(ac_cover _ _ Ha), (R4 i). tauto.
  - by rewrite Hus.
  - by rewrite Hfr, Hu.
  - done.
Qed.

(** C34: Without faults no two extents in use have the same identifier. *)
Theorem extent_ids_unique (c : kes_storage_config) (n : nat) (s : sys)
    (Hrun : run path c n s) (Hn : Z.of_nat n < 2 ^ 64 - 2) :
  NoDup (ext_extent_id <$> s_live s) /\
  Forall (fun e => 1 < ext_extent_id e <= desc_next_extent_id (decode_desc (file_of path s))) (s_live s).
Proof.
  destruct (run_accounts path c n s Hrun Hn) as (_ & st & Hr & [_ Hi Hu] & _).
  by rewrite <-(rp_next _ _ _ _ Hr).
Qed.
End properties.

(** ** Instances *)

#[local] Existing Instance demo_crc.

(** A 40 KiB storage, freshly created. *)
Lemma demo_created :
  exists w fd, created demo_path demo_config (mkSys w {[ fd := created_handle demo_config fd ]} []) /\
               quiet w.
Proof.
  assert (wp (kes_storage_create (Some demo_config) true) (demo_world_on demo_image []) (fun r w' =>
    exists fd, r = (KES_SUCCESS, Some (created_handle demo_config fd)) /\ quiet w')) as Hwp.
  { apply (create_spec demo_config demo_path); [done..|cbn; lia|cbn; lia|apply demo_world_ok| |].
    - intros w' fs' code _ _ _ Hq. by destruct (Hq eq_refl) as (_ & _ & ?).
    - intros w' fd _ _ _ [_ _ _ K]. exists fd. split; [done|]. by apply K. }
  destruct (wp_done _ _ _ Hwp) as (r & w' & R & fd & -> & Hq). exists w', fd. split; [|done].
  change fd with (sto_fd (created_handle demo_config fd)) at 1.
  econstructor; [apply demo_world_ok|apply demo_unlocked| |done|cbn; lia|cbn; lia|exact R].
  intros f Hf. change (w_files _) with ({[ demo_path := demo_image ]} : gmap string (list Z)) in Hf.
  apply lookup_singleton_Some in Hf as [_ <-]. apply demo_sound.
Qed.

(** One extent allocated through its only handle. *)
Lemma demo_allocated :
  exists w0 w fd sto e, let s0 := mkSys w0 {[ fd := created_handle demo_config fd ]} [] in
    created demo_path demo_config s0 /\ quiet w0 /\
    sys_step demo_path s0 (LAlloc fd (mkRequest 1 0 0 0) KES_SUCCESS e) (mkSys w {[ fd := sto ]} [e]) /\
    quiet w.
Proof.
  destruct demo_created as (w0 & fd & Hc & Hq).
  destruct (created_ok _ _ _ Hc) as (Hsize & Hok & Hs & _).
  destruct (created_file _ _ _ Hc) as (f0 & Hf0 & Hfile).
  pose proof (created_sound _ _ Hsize Hf0) as (_ & _ & Hbits). rewrite <-Hfile in Hbits.
  set (d := created_desc (cfg_device_size demo_config)) in *.
  assert (layout_ok d) as Hd by (by apply created_layout_ok).
  set (s0 := mkSys w0 {[ fd := created_handle demo_config fd ]} []) in *.
  assert ((s_handles s0) !! fd = Some (created_handle demo_config fd)) as Hfd
    by apply lookup_singleton_eq.
  destruct (sys_ok_handle demo_path d _ _ _ _ _ Hok Hfd) as (Hh & Hlk & _ & wr & Hon & Hwr).
  rewrite (Hwr eq_refl) in Hon.
  destruct (quiet_allocate d (created_handle demo_config fd) (mkRequest 1 0 0 0) (mkExtent 0 0 0 0) w0
              demo_path (file_of demo_path s0))
    as (s & id & sto & w & f' & R & _ & _ & Hq' & _);
    [split; [done..|apply Hs|by eapply sys_ok_unlocked]|done|done|cbn; lia|cbn; lia| |].
  { exists 0. split; [lia|]. split; [cbn [req_block_count]; pose proof (lo_user_blocks _ Hd); lia|].
    intros j _. apply Hbits. }
  exists w0, w, fd, sto. eexists. cbv zeta. split_and!; [done|done| |done].
  pose proof (StepAlloc demo_path w0 {[ fd := created_handle demo_config fd ]} [] fd
    (created_handle demo_config fd) (mkRequest 1 0 0 0) (mkExtent 0 0 0 0) KES_SUCCESS sto _ w
    (lookup_singleton_eq _ _) ltac:(split; cbn; lia) R) as Hstep.
  rewrite insert_singleton_eq in Hstep. exact Hstep.
Qed.





Lemma blocks_accounted_witness :
  exists s, let d := created_desc (cfg_device_size demo_config) in
  let f := file_of demo_path s in
  (forall i, 0 <= i < desc_user_blocks d ->
     disk_bit d f i = true <-> exists e, e ∈ s_live s /\ in_extent e i) /\
  desc_used_blocks (decode_desc f) = total_blocks (s_live s) /\
  desc_free_blocks (decode_desc f) = desc_user_blocks d - total_blocks (s_live s) /\
  desc_bitmap_checksum (decode_desc f) = kfl_crc32c 0 (disk_map d f).
Proof.
  destruct demo_allocated as (w0 & w & fd & sto & e & Hc & Hq & Hstep & _).
  eexists. apply (blocks_accounted demo_path demo_config 1); [|lia].
  eapply run_step; [apply run_created; [exact Hc|exact Hq]|exact Hstep|intros script Hl; discriminate Hl].
Defined.

Lemma extent_ids_unique_witness :
  exists s, NoDup (ext_extent_id <$> s_live s) /\
  Forall (fun e => 1 < ext_extent_id e <= desc_next_extent_id (decode_desc (file_of demo_path s))) (s_live s).
Proof.
  destruct demo_allocated as (w0 & w & fd & sto & e & Hc & Hq & Hstep & _).
  eexists. apply (extent_ids_unique demo_path demo_config 1); [|lia].
  eapply run_step; [apply run_created; [exact Hc|exact Hq]|exact Hstep|intros script Hl; discriminate Hl].
Defined.
