(* ===== verification/Typing.v ===== *)
(** * Every value stays within its C type

    A typing discipline for the storage layer: each field of a handle, a
    bitmap, an extent or a statistics block has the range of its C type, and
    the files hold bytes.  Every function of the interface takes well-typed
    arguments to well-typed results, in any world and under any faults: no
    assumption is made about what the file contains, so a damaged or forged
    image is covered. *)
From Stdlib Require Import SpecFloat.
From S2P Require Import Prelude Types Posix PosixFacts Crc Bitmap BitmapFacts Codec Storage Layout.
From S2P Require Import StorageFacts Lifecycle Demo.

(** ** The types *)

Definition u64_ok (z : Z) : Prop := 0 <= z < 2 ^ 64.
Definition u32_ok (z : Z) : Prop := 0 <= z < 2 ^ 32.
(** The result codes of the library. *)
Definition code_ok (c : Z) : Prop := -8 <= c <= 0.

Record stats_ok (t : kes_storage_stats) : Prop := {
  st_ok_total : u64_ok (st_total_blocks t);
  st_ok_free : u64_ok (st_free_blocks t);
  st_ok_used : u64_ok (st_used_blocks t);
  st_ok_allocated : u64_ok (st_allocated_extents t);
  st_ok_fragmentation : u64_ok (st_fragmentation t);
  st_ok_reads : u64_ok (st_reads_completed t);
  st_ok_writes : u64_ok (st_writes_completed t);
  st_ok_bytes_read : u64_ok (st_bytes_read t);
  st_ok_bytes_written : u64_ok (st_bytes_written t)
}.

Record extent_typed (e : kes_extent_descriptor) : Prop := {
  et_start : u64_ok (ext_start_block e);
  et_count : u32_ok (ext_block_count e);
  et_flags : u32_ok (ext_flags e);
  et_id : u64_ok (ext_extent_id e)
}.

Record request_typed (r : kes_extent_request) : Prop := {
  rt_count : u32_ok (req_block_count r);
  rt_hint : u64_ok (req_hint_block r);
  rt_flags : u32_ok (req_flags r)
}.

(** The [data] allocation has [total_bytes] bytes. *)
Record bitmap_typed (bm : kes_bitmap) : Prop := {
  bt_buf : buf_ok bm;
  bt_total : u64_ok (bm_total_bits bm);
  bt_free : u64_ok (bm_free_bits bm);
  bt_hint : u64_ok (bm_search_hint bm)
}.

(** A bitmap that may be a null pointer. *)
Definition bitmap_opt : option kes_bitmap -> Prop := from_option bitmap_typed True.

Record handle_typed (sto : kes_storage) : Prop := {
  ht_desc : desc_ok (sto_desc sto);
  ht_bitmap : bitmap_opt (sto_bitmap sto);
  ht_stats : stats_ok (sto_stats sto)
}.

(** The handle a call gives back, if any. *)
Abbreviation handle_opt := (from_option handle_typed True).

Definition world_typed (w : world) : Prop :=
  forall path f, w_files w !! path = Some f -> Forall is_byte f.

Lemma u64_ok_u64 z : u64_ok (u64 z).
Proof. apply u64_range. Qed.

Create HintDb typing discriminated.
#[export] Hint Resolve u64_ok_u64 : typing.

(** ** Computations that return well-typed values *)

(** If the computation returns from a well-typed world, its result satisfies
    [Q] and the world is still well-typed. *)
Definition returns {A} (m : M A) (Q : A -> Prop) : Prop :=
  forall w a w', world_typed w -> m w = Done (a, w') -> world_typed w' /\ Q a.

Lemma returns_ret {A} (a : A) (Q : A -> Prop) : Q a -> returns (ret a) Q.
Proof. by intros HQ w a' w' Hw [= <- <-]. Qed.

Lemma returns_bind {A B} (m : M A) (k : A -> M B) (P : A -> Prop) Q :
  returns m P -> (forall a, P a -> returns (k a) Q) -> returns (bind m k) Q.
Proof.
  intros Hm Hk w b w' Hw R. rewrite run_seq in R. destruct (run m w) as [[a w1]| |] eqn:E; [|done..].
  destruct (Hm w a w1 Hw E) as [Hw1 Ha]. by eapply Hk.
Qed.

Lemma returns_lift {A} (o : option A) (Q : A -> Prop) :
  (forall a, o = Some a -> Q a) -> returns (lift o) Q.
Proof.
  intros HQ. destruct o as [a|]; [by apply returns_ret, HQ|]. by intros w a w' _ R.
Qed.

Lemma returns_undefined {A} (Q : A -> Prop) : returns undefined Q.
Proof. by intros w a w' _ R. Qed.

Lemma returns_blocked {A} (Q : A -> Prop) : returns blocked Q.
Proof. by intros w a w' _ R. Qed.

Lemma returns_weaken {A} (m : M A) (P Q : A -> Prop) :
  returns m P -> (forall a, P a -> Q a) -> returns m Q.
Proof. intros Hm HQ w a w' Hw R. destruct (Hm w a w' Hw R). auto. Qed.

(** ** System calls *)

Lemma returns_sys (c : syscall) (Q : answer c -> Prop) :
  (forall f w b w', world_typed w -> perform c f w = Some (b, w') -> world_typed w' /\ Q b) ->
  returns (syscall_tree c) Q.
Proof.
  intros Hc w b w' Hw R. cbn in R. destruct (draw_spec c w) as (f & w1 & E & [Hfs _ _ _] & _ & _).
  rewrite E in R. destruct (perform c f w1) as [[b1 w2]|] eqn:Ep; [|done].
  injection R as <- <-. eapply (Hc f w1); [|done]. unfold world_typed. by rewrite Hfs.
Qed.

(** Calls that do not write to files. *)
Lemma returns_same_files (c : syscall) :
  (forall f w b w', perform c f w = Some (b, w') -> w_files w' = w_files w) ->
  returns (syscall_tree c) (fun _ => True).
Proof.
  intros Hc. apply returns_sys. intros f w b w' Hw R. split; [|done].
  unfold world_typed. by rewrite (Hc f w b w' R).
Qed.

Ltac run_call R :=
  cbn in R; cbv [do_lseek do_flock do_flock_un do_open do_read do_write] in R;
  repeat (case_match; try discriminate); simplify_eq; try done.

Lemma returns_lseek fd off : returns (lseek fd off) (fun _ => True).
Proof. apply (returns_same_files (Lseek fd off)). intros f w a w' R. run_call R. Qed.

Lemma returns_fsync fd : returns (fsync fd) (fun _ => True).
Proof. apply (returns_same_files (Fsync fd)). intros f w a w' R. run_call R. Qed.

Lemma returns_flock fd m : returns (flock fd m) (fun _ => True).
Proof. apply (returns_same_files (Flock fd m)). intros f w a w' R. run_call R. Qed.

Lemma returns_flock_un fd : returns (flock_un fd) (fun _ => True).
Proof. apply (returns_same_files (Flock_un fd)). intros f w a w' R. run_call R. Qed.

Lemma returns_close fd : returns (sys_close fd) (fun _ => True).
Proof. apply (returns_same_files (Close fd)). intros f w a w' R. run_call R. Qed.

Lemma returns_mutex_init : returns pthread_mutex_init (fun _ => True).
Proof. apply (returns_same_files Mutex_init). intros f w a w' R. run_call R. Qed.

Lemma returns_mutex_lock b : returns (pthread_mutex_lock b) (fun _ => True).
Proof. destruct b; [apply returns_blocked|by apply returns_ret]. Qed.

Lemma returns_mutex_unlock b : returns (pthread_mutex_unlock b) (fun _ => True).
Proof. by apply returns_ret. Qed.

Lemma returns_calloc n :
  returns (calloc n) (fun o => forall d, o = Some d -> d = replicate (Z.to_nat n) 0).
Proof.
  apply (returns_sys (Calloc n)). intros [] w b w' Hw [= <- <-]; (split; [done|]); by intros d [= <-].
Qed.

Lemma returns_open path fl : returns (sys_open path fl) (fun _ => True).
Proof.
  apply (returns_sys (Open path fl)). intros f w fd w' Hw R. split; [|done].
  assert (forall fs, (fs = w_files w \/ fs = <[path := []]> (w_files w)) ->
    w_files w' = fs -> world_typed w') as Hgo.
  { intros fs [->| ->] E p g; rewrite E; [apply Hw|].
    intros [[_ <-]|[_ ?]]%lookup_insert_Some; [constructor|by eapply Hw]. }
  run_call R; (eapply Hgo; [|done]; auto).
Qed.

Lemma returns_read fd n :
  0 <= n -> returns (sys_read fd n) (fun r => Forall is_byte r.2 /\ Z.of_nat (length r.2) <= n).
Proof.
  intros Hn. apply (returns_sys (Read fd n)). intros fl w [k bs] w' Hw R.
  assert (forall o, (k, bs) = (-1, []) \/
            bs = slice (Z.to_nat (ofd_pos o)) (Z.to_nat (limit fl n)) (default [] (w_files w !! ofd_path o)) ->
          Forall is_byte bs /\ Z.of_nat (length bs) <= n) as Hbs.
  { intros o [[= -> ->]| ->]; [by split; [constructor|cbn; lia]|]. split.
    - apply Forall_slice. destruct (w_files w !! _) eqn:E; [by eapply Hw|constructor].
    - pose proof (length_slice (Z.to_nat (ofd_pos o)) (Z.to_nat (limit fl n))
        (default [] (w_files w !! ofd_path o))). pose proof (limit_range fl n Hn). lia. }
  cbn in R. unfold do_read in R.
  destruct fl, (w_fds w !! fd) as [o|] eqn:E; simplify_eq; cbn [snd];
    (split; [done|]; first [by eapply (Hbs o); right|by split; [constructor|cbn; lia]]).
Qed.

Lemma returns_write fd bs : Forall is_byte bs -> returns (sys_write fd bs) (fun _ => True).
Proof.
  intros Hbs. apply (returns_sys (Write fd bs)). intros fl w k w' Hw R. split; [|done].
  assert (forall n pos p, Forall is_byte (splice pos (take n bs) (default [] (w_files w !! p)))) as Hgo.
  { intros n pos p. apply Forall_splice; [apply is_byte_0|by apply Forall_take|].
    destruct (w_files w !! p) eqn:E; [by eapply Hw|constructor]. }
  run_call R; intros p f; cbn [w_files];
    (intros [[_ <-]|[_ ?]]%lookup_insert_Some; [by apply Hgo|by eapply Hw]).
Qed.

#[export] Hint Resolve returns_lseek returns_fsync returns_flock returns_flock_un
  returns_close returns_mutex_init returns_mutex_lock returns_mutex_unlock returns_calloc
  returns_open : typing.

(** ** Bitmaps *)

Lemma u8_byte z : is_byte (u8 z).
Proof. unfold is_byte, u8. by apply Z.mod_pos_bound. Qed.

Lemma write_typed bm idx b free_bits :
  bitmap_typed bm -> is_byte b -> u64_ok free_bits -> bitmap_typed (bm_write bm idx b free_bits).
Proof.
  intros [[Ht Hl Hb] ? ? ?] Hbyte Hfree. split; [|done..]. split; cbn; [done| |].
  - by rewrite length_insert.
  - by apply Forall_insert.
Qed.

Lemma set_typed bitmap i code bitmap' :
  bitmap_opt bitmap -> kes_bitmap_set bitmap i = Some (code, bitmap') ->
  code_ok code /\ bitmap_opt bitmap'.
Proof.
  destruct bitmap as [bm|]; cbn [kes_bitmap_set]; [|by intros _ [= <- <-]].
  intros Hbm. case_match; [by intros [= <- <-]|]. intros (b & _ & R)%bind_Some.
  case_match; injection R as <- <-; (split; [done|]); [done|].
  apply write_typed; [done|apply u8_byte|apply u64_ok_u64].
Qed.

Lemma clear_typed bitmap i code bitmap' :
  bitmap_opt bitmap -> kes_bitmap_clear bitmap i = Some (code, bitmap') ->
  code_ok code /\ bitmap_opt bitmap'.
Proof.
  destruct bitmap as [bm|]; cbn [kes_bitmap_clear]; [|by intros _ [= <- <-]].
  intros Hbm. case_match; [by intros [= <- <-]|]. intros (b & _ & R)%bind_Some.
  case_match; injection R as <- <-; (split; [done|]); [done|].
  apply write_typed; [done|apply u8_byte|apply u64_ok_u64].
Qed.

Section range.
Context (op : option kes_bitmap -> Z -> option (Z * option kes_bitmap)).
Context (Hop : forall bitmap i code bitmap', bitmap_opt bitmap -> op bitmap i = Some (code, bitmap') ->
           code_ok code /\ bitmap_opt bitmap').

Lemma range_loop_typed n bitmap start i code bitmap' :
  bitmap_opt bitmap -> range_loop op bitmap start i n = Some (code, bitmap') ->
  code_ok code /\ bitmap_opt bitmap'.
Proof using Hop.
  revert bitmap i. induction n as [|n IH]; intros bitmap i Hbm; cbn [range_loop].
  - by intros [= <- <-].
  - intros ([c b] & E & R)%bind_Some. destruct (Hop _ _ _ _ Hbm E) as [Hc Hb].
    case_match; [by injection R as <- <-|by eapply IH].
Qed.
End range.

Lemma set_range_typed bitmap start n code bitmap' :
  bitmap_opt bitmap -> kes_bitmap_set_range bitmap start n = Some (code, bitmap') ->
  code_ok code /\ bitmap_opt bitmap'.
Proof.
  intros Hbm. unfold kes_bitmap_set_range. destruct bitmap as [bm|]; [|by intros [= <- <-]].
  case_match; [by intros [= <- <-]|]. by apply range_loop_typed; [apply set_typed|].
Qed.

Lemma clear_range_typed bitmap start n code bitmap' :
  bitmap_opt bitmap -> kes_bitmap_clear_range bitmap start n = Some (code, bitmap') ->
  code_ok code /\ bitmap_opt bitmap'.
Proof.
  intros Hbm. unfold kes_bitmap_clear_range. destruct bitmap as [bm|]; [|by intros [= <- <-]].
  case_match; [by intros [= <- <-]|]. by apply range_loop_typed; [apply clear_typed|].
Qed.

Lemma scan_loop_typed bm n continue fuel start s :
  u64_ok start -> scan_loop bm n continue fuel start = Some (Some s) -> u64_ok s.
Proof.
  revert start. induction fuel as [|fuel IH]; intros start Hs; cbn [scan_loop]; case_match; try done.
  intros (found & _ & R)%bind_Some. destruct found; [by injection R as <-|].
  eapply IH; [|exact R]. apply u64_ok_u64.
Qed.

Lemma find_free_typed bitmap n hint code bitmap' found :
  bitmap_opt bitmap -> u64_ok hint -> kes_bitmap_find_free bitmap n hint true = Some (code, bitmap', found) ->
  code_ok code /\ bitmap_opt bitmap' /\ from_option u64_ok True found.
Proof.
  intros Hbm Hh. unfold kes_bitmap_find_free. destruct bitmap as [bm|]; [|by intros [= <- <- <-]].
  case_match; [by intros [= <- <- <-]|]. case_match; [by intros [= <- <- <-]|]. cbv zeta.
  assert (u64_ok (if bm_total_bits bm <=? hint then 0 else hint)) as Hstart by (by case_match).
  assert (forall s, u64_ok s -> bitmap_typed (bm_set_hint bm (u64 (s + n)))) as Hset.
  { intros s _. destruct Hbm as [[? ? ?] ? ? ?]. split; [done|done|done|apply u64_ok_u64]. }
  intros (first & E1 & R)%bind_Some. destruct first as [s|].
  - injection R as <- <- <-. pose proof (scan_loop_typed _ _ _ _ _ _ Hstart E1).
    split_and!; [done|by apply Hset|done].
  - case_match; [|by injection R as <- <- <-]. apply bind_Some in R as (second & E2 & R).
    destruct second as [s|]; injection R as <- <- <-; [|done].
    pose proof (scan_loop_typed bm _ _ _ 0 s ltac:(done) E2). split_and!; [done|by apply Hset|done].
Qed.

Lemma bm_bytes_typed bm bs : bitmap_typed bm -> bm_bytes bm = Some bs -> Forall is_byte bs.
Proof.
  intros [[_ _ Hb] _ _ _]. unfold bm_bytes. case_match; [done|]. intros [= <-]. by apply Forall_take.
Qed.

Lemma bitmap_create_typed n :
  u64_ok n -> returns (kes_bitmap_create n true) (fun r => code_ok r.1 /\ bitmap_opt r.2).
Proof.
  intros Hn. unfold kes_bitmap_create. case_match; [by apply returns_ret|].
  eapply returns_bind; [apply returns_calloc|]. intros [?|] _; [|by apply returns_ret].
  eapply returns_bind; [apply returns_calloc|]. intros [data|] Hd; [|by apply returns_ret].
  apply returns_ret. split; [done|]. rewrite (Hd data eq_refl). apply (fun H => H : bitmap_typed (empty_bitmap n)).
  split; [apply empty_buf_ok|done|done|done].
Qed.

Lemma bitmap_load_typed bitmap fd off :
  bitmap_opt bitmap -> returns (kes_bitmap_load bitmap fd off) (fun r => code_ok r.1 /\ bitmap_opt r.2).
Proof.
  intros Hbm. unfold kes_bitmap_load. destruct bitmap as [bm|]; [|by apply returns_ret].
  case_match; [by apply returns_ret|]. eapply returns_bind; [apply returns_lseek|]. intros o _.
  case_match; [by apply returns_ret|]. pose proof Hbm as [[Ht Hl Hb] H1 H2 H3].
  eapply returns_bind; [apply returns_read; lia|]. intros [k bs] [Hbs Hlen]. cbn [snd] in Hbs, Hlen.
  case_match eqn:Elen; [apply returns_undefined|]. apply Nat.ltb_ge in Elen.
  set (data := splice 0 bs (bm_data bm)).
  assert (forall fb, u64_ok fb -> bitmap_typed (mkBitmap data (bm_total_bits bm) (bm_total_bytes bm) fb
            (bm_search_hint bm))) as Hnew.
  { intros fb Hf. split; [|done..]. split; cbn; [done| |].
    - unfold data. rewrite length_splice. lia.
    - apply Forall_splice; [apply is_byte_0|done|done]. }
  cbv zeta. case_match; [by apply returns_ret; split; [|apply Hnew]|].
  eapply returns_bind; [by apply (returns_lift _ (fun _ => True))|]. intros used _. apply returns_ret.
  split; [done|]. apply Hnew, u64_ok_u64.
Qed.

Lemma bitmap_save_typed bitmap fd off :
  bitmap_opt bitmap -> returns (kes_bitmap_save bitmap fd off) code_ok.
Proof.
  intros Hbm. unfold kes_bitmap_save. destruct bitmap as [bm|]; [|by apply returns_ret].
  case_match; [by apply returns_ret|]. eapply returns_bind; [apply returns_lseek|]. intros o _.
  case_match; [by apply returns_ret|].
  eapply returns_bind; [apply (returns_lift _ (Forall is_byte)); intros bs; by apply bm_bytes_typed|].
  intros bs Hbs. eapply returns_bind; [by apply returns_write|]. intros k _.
  case_match; by apply returns_ret.
Qed.

(** ** Handles *)

Lemma set_desc_typed d sto : handle_typed sto -> desc_ok d -> handle_typed (set_desc d sto).
Proof. intros [] ?. by split. Qed.
Lemma set_bitmap_typed bm sto : handle_typed sto -> bitmap_opt bm -> handle_typed (set_bitmap bm sto).
Proof. intros [] ?. by split. Qed.
Lemma set_held_typed h sto : handle_typed sto -> handle_typed (set_held h sto).
Proof. intros []. by split. Qed.
Lemma set_stats_typed t sto : handle_typed sto -> stats_ok t -> handle_typed (set_stats t sto).
Proof. intros [] ?. by split. Qed.

Lemma stats_updates_ok t n :
  stats_ok t ->
  stats_ok (set_allocated (u64 n) t) /\ stats_ok (count_read n t) /\ stats_ok (count_write n t).
Proof. intros []. split_and!; split; cbn; auto using u64_ok_u64. Qed.

Lemma zero_stats_ok : stats_ok zero_stats.
Proof. by split. Qed.

#[export] Hint Resolve set_desc_typed set_bitmap_typed set_held_typed set_stats_typed ht_desc
  ht_bitmap zero_stats_ok zero_desc_ok : typing.

Lemma validate_config_code c : code_ok (validate_config c).
Proof. unfold validate_config. repeat case_match; done. Qed.

Lemma init_descriptor_ok d size :
  desc_ok d -> u64_ok size -> desc_ok (init_storage_descriptor d size).
Proof.
  intros Hd Hs. assert (u64_ok (size / 8192)) as Ht
    by (unfold u64_ok in *; split; [apply Z.div_pos; lia|apply Z.div_lt_upper_bound; lia]).
  assert (u64_ok (calculate_bitmap_blocks (size / 8192) 8192)) as Hb.
  { unfold calculate_bitmap_blocks. pose proof (u64_range (u64 (u64 (size / 8192 + 7) / 8 + 8192) - 1)).
    split; [apply Z.div_pos; lia|apply Z.div_lt_upper_bound; lia]. }
  destruct Hd. unfold u64_ok in *. change (2 ^ 64) with (256 ^ 8) in Ht, Hb.
  split; cbn; try done; first [exact (u64_range _)|lia].
Qed.

Section with_crc.
Context `{Crc32c}.

(** A code and the handle. *)
Abbreviation typed_pair := (fun r : Z * kes_storage => code_ok r.1 /\ handle_typed r.2).

Lemma load_descriptor_typed sto :
  handle_typed sto -> returns (load_storage_descriptor sto) typed_pair.
Proof.
  intros Hs. unfold load_storage_descriptor. eapply returns_bind; [apply returns_lseek|]. intros o _.
  case_match; [by apply returns_ret|].
  eapply returns_bind; [apply returns_read; unfold sizeof_desc; lia|]. intros [k bs] [Hbs Hlen].
  cbn [snd] in Hbs, Hlen. cbv zeta. pose proof (ht_desc _ Hs) as Hd.
  assert (desc_ok (decode_desc (splice 0 bs (encode_desc (sto_desc sto))))) as Hnew.
  { apply decode_desc_ok.
    - apply Forall_splice; [apply is_byte_0|done|by apply encode_desc_bytes].
    - rewrite length_splice, (length_encode_desc _ (proj1 (ok_reserved _ Hd))). lia. }
  repeat case_match; apply returns_ret; (split; [done|by apply set_desc_typed]).
Qed.

Lemma save_descriptor_typed sto : handle_typed sto -> returns (save_storage_descriptor sto) code_ok.
Proof.
  intros Hs. unfold save_storage_descriptor. eapply returns_bind; [apply returns_lseek|]. intros o _.
  case_match; [by apply returns_ret|].
  eapply returns_bind; [by apply returns_write, encode_desc_bytes, Hs|]. intros k _.
  case_match; by apply returns_ret.
Qed.

Lemma reload_typed sto : handle_typed sto -> returns (reload_metadata sto) typed_pair.
Proof.
  intros Hs. unfold reload_metadata. eapply returns_bind; [by apply load_descriptor_typed|].
  intros [code sto1] [Hc H1]. cbn [fst snd] in *. case_match; [|by apply returns_ret].
  eapply returns_bind; [apply bitmap_load_typed, H1|]. intros [code2 bm] [Hc2 Hb].
  apply returns_ret. split; [done|]. by apply set_bitmap_typed.
Qed.

Lemma checksum_typed bitmap code c :
  kes_bitmap_checksum bitmap true = Some (code, c) ->
  code_ok code /\ from_option (fun c => exists bs, c = kfl_crc32c 0 bs) True c.
Proof.
  unfold kes_bitmap_checksum. destruct bitmap as [bm|]; [|by intros [= <- <-]].
  cbn [negb]. intros (bs & _ & R)%bind_Some. injection R as <- <-. split; [done|by exists bs].
Qed.

Lemma refresh_typed sto : handle_typed sto -> returns (refresh_checksum sto) typed_pair.
Proof.
  intros Hs. unfold refresh_checksum. eapply returns_bind.
  - apply (returns_lift _ (fun r => code_ok r.1 /\ from_option (fun c => exists bs, c = kfl_crc32c 0 bs) True r.2)).
    intros [code c]. apply checksum_typed.
  - intros [code [c|]] [Hc Hx]; cbn [fst snd from_option] in *; apply returns_ret; [|done].
    destruct Hx as [bs ->]. split; [done|]. apply set_desc_typed; [done|]. by apply desc_ok_checksum, Hs.
Qed.

Lemma persist_typed sto : handle_typed sto -> returns (persist_metadata sto) typed_pair.
Proof.
  intros Hs. unfold persist_metadata. eapply returns_bind; [apply bitmap_save_typed, Hs|]. intros c1 Hr1.
  case_match; [by apply returns_ret|]. eapply returns_bind; [by apply refresh_typed|].
  intros [c2 sto2] [Hr2 Hs2]. cbn [fst snd] in *. case_match; [by apply returns_ret|].
  eapply returns_bind; [by apply save_descriptor_typed|]. intros c3 Hr3.
  case_match; [by apply returns_ret|]. eapply returns_bind; [apply returns_fsync|]. intros r _.
  apply returns_ret. split; [by cbn; case_match|done].
Qed.

(** ** The interface *)

(** A failed call that gives the descriptor back. *)
Lemma close_fail_typed fd code :
  code_ok code -> returns (sys_close fd ;;; ret (code, None)) (fun r => code_ok r.1 /\ handle_opt r.2).
Proof. intros Hc. eapply returns_bind; [apply returns_close|]. intros _ _. by apply returns_ret. Qed.

Lemma unlock_fail_typed fd code :
  code_ok code ->
  returns (flock_un fd ;;; sys_close fd ;;; ret (code, None)) (fun r => code_ok r.1 /\ handle_opt r.2).
Proof.
  intros Hc. eapply returns_bind; [apply returns_flock_un|]. intros _ _. by apply close_fail_typed.
Qed.

Lemma create_typed c :
  u64_ok (cfg_device_size c) ->
  returns (kes_storage_create (Some c) true) (fun r => code_ok r.1 /\ handle_opt r.2).
Proof.
  intros Hc. unfold kes_storage_create. cbn [negb]. cbv zeta.
  case_match; [apply returns_ret; split; [apply validate_config_code|done]|].
  eapply returns_bind; [apply returns_calloc|]. intros [?|] _; [|by apply returns_ret].
  eapply returns_bind; [apply returns_mutex_init|]. intros r _. case_match; [by apply returns_ret|].
  eapply returns_bind; [apply returns_open|]. intros fd _. case_match; [by apply returns_ret|].
  pose proof (init_descriptor_ok zero_desc _ zero_desc_ok Hc) as Hd.
  eapply returns_bind.
  { apply bitmap_create_typed. pose proof (ok_user_blocks _ Hd) as Hu.
    change (256 ^ 8) with (2 ^ 64) in Hu. exact Hu. }
  intros [c1 bm] [Hr1 Hbm]. cbn [fst snd] in *. case_match; [by apply close_fail_typed|].
  eapply returns_bind; [apply refresh_typed; by split|]. intros [c2 sto2] [Hr2 Hs2]. cbn [fst snd] in *.
  case_match; [by apply close_fail_typed|].
  eapply returns_bind; [apply bitmap_save_typed, Hs2|]. intros c3 Hr3. case_match; [by apply close_fail_typed|].
  eapply returns_bind; [by apply save_descriptor_typed|]. intros c4 Hr4.
  case_match; [by apply close_fail_typed|by apply returns_ret].
Qed.

Lemma open_typed path flags :
  returns (kes_storage_open (Some path) flags true) (fun r => code_ok r.1 /\ handle_opt r.2).
Proof.
  unfold kes_storage_open. cbn [negb]. cbv zeta.
  eapply returns_bind; [apply returns_calloc|]. intros [?|] _; [|by apply returns_ret].
  eapply returns_bind; [apply returns_mutex_init|]. intros r _. case_match; [by apply returns_ret|].
  eapply returns_bind; [apply returns_open|]. intros fd _. case_match; [by apply returns_ret|].
  eapply returns_bind; [apply returns_flock|]. intros lk _. case_match; [by apply close_fail_typed|].
  eapply returns_bind; [apply load_descriptor_typed; split; [apply zero_desc_ok|done|apply zero_stats_ok]|].
  intros [c1 sto1] [Hr1 Hs1]. cbn [fst snd] in *. case_match; [by apply unlock_fail_typed|].
  eapply returns_bind.
  { apply bitmap_create_typed. pose proof (ok_user_blocks _ (ht_desc _ Hs1)) as Hu.
    change (256 ^ 8) with (2 ^ 64) in Hu. exact Hu. }
  intros [c2 bm] [Hr2 Hbm]. cbn [fst snd] in *. case_match; [by apply unlock_fail_typed|].
  eapply returns_bind; [by apply bitmap_load_typed|]. intros [c3 bm3] [Hr3 Hbm3]. cbn [fst snd] in *.
  case_match; [by apply unlock_fail_typed|].
  eapply returns_bind.
  { apply (returns_lift _ (fun r => code_ok r.1)). intros [code c]. apply checksum_typed. }
  intros [c4 sum] Hr4. cbn [fst] in Hr4.
  assert (code_ok (if (c4 =? KES_SUCCESS) && negb (default 0 sum =? desc_bitmap_checksum
            (sto_desc (set_bitmap bm3 (set_bitmap bm sto1)))) then KES_ERROR_CORRUPT else c4)) as Hr5
    by (by case_match).
  revert Hr5. match goal with |- code_ok ?c -> _ => generalize c end. intros c5 Hr5.
  case_match; [by apply unlock_fail_typed|].
  eapply returns_bind; [apply returns_flock_un|]. intros _ _. apply returns_ret. split; [done|].
  apply set_bitmap_typed; [by apply set_bitmap_typed|done].
Qed.

(** The exit of a critical section: unlock the file, then the mutex. *)
Lemma leave_typed {A} fd held (k : bool -> A) (Q : A -> Prop) :
  (forall h, Q (k h)) ->
  returns (flock_un fd ;;; let* h := pthread_mutex_unlock held in ret (k h)) Q.
Proof.
  intros HQ. eapply returns_bind; [apply returns_flock_un|]. intros _ _.
  eapply returns_bind; [apply returns_mutex_unlock|]. intros h _. by apply returns_ret.
Qed.

Lemma unlock_typed {A} held (k : bool -> A) (Q : A -> Prop) :
  (forall h, Q (k h)) -> returns (let* h := pthread_mutex_unlock held in ret (k h)) Q.
Proof.
  intros HQ. eapply returns_bind; [apply returns_mutex_unlock|]. intros h _. by apply returns_ret.
Qed.

Lemma sync_typed sto :
  handle_typed sto -> returns (kes_storage_sync (Some sto)) (fun r => code_ok r.1 /\ handle_opt r.2).
Proof.
  intros Hs. unfold kes_storage_sync. case_match; [by apply returns_ret|].
  eapply returns_bind; [apply returns_mutex_lock|]. intros held _. cbv zeta.
  eapply returns_bind; [apply returns_flock|]. intros lk _.
  case_match; [apply unlock_typed; intros h; split; [done|by do 2 apply set_held_typed]|].
  eapply returns_bind; [by apply reload_typed, set_held_typed|]. intros [c1 sto1] [Hr1 Hs1].
  cbn [fst snd] in *. apply (returns_bind _ _ (fun r => code_ok r.1 /\ handle_typed r.2)).
  { case_match; [by apply persist_typed|by apply returns_ret]. }
  intros [c2 sto2] [Hr2 Hs2]. apply leave_typed. intros h. split; [done|]. by apply set_held_typed.
Qed.

Lemma close_reload_typed sto : handle_typed sto -> returns (close_reload sto) handle_typed.
Proof.
  intros Hs. unfold close_reload. eapply returns_bind; [by apply load_descriptor_typed|].
  intros [c1 sto1] [Hr1 Hs1]. cbn [fst snd] in *. case_match; [|by apply returns_ret].
  eapply returns_bind; [apply bitmap_load_typed, Hs1|]. intros [c2 bm] [_ Hb].
  apply returns_ret. by apply set_bitmap_typed.
Qed.

Lemma close_typed sto : handle_typed sto -> returns (kes_storage_close (Some sto)) code_ok.
Proof.
  intros Hs. unfold kes_storage_close. eapply returns_bind; [apply returns_mutex_lock|]. intros held _.
  apply (returns_bind _ _ handle_typed).
  { case_match; [by apply returns_ret|]. eapply returns_bind; [apply returns_flock|]. intros lk _.
    case_match; [|by apply returns_ret]. eapply returns_bind; [by apply close_reload_typed|].
    intros sto1 Hs1. unfold close_flush. eapply returns_bind; [apply bitmap_save_typed, Hs1|].
    intros c1 _. eapply returns_bind; [by apply refresh_typed|]. intros [c2 sto2] [_ Hs2].
    eapply returns_bind; [by apply save_descriptor_typed|]. intros c3 _.
    eapply returns_bind; [apply returns_fsync|]. intros r _.
    eapply returns_bind; [apply returns_flock_un|]. intros _ _. by apply returns_ret. }
  intros sto1 _. eapply returns_bind; [apply returns_close|]. intros _ _.
  eapply returns_bind; [apply returns_mutex_unlock|]. intros h _. by apply returns_ret.
Qed.

(** A code, the handle and an extent. *)
Abbreviation typed_triple := (fun r : Z * kes_storage * kes_extent_descriptor =>
  code_ok r.1.1 /\ handle_typed r.1.2 /\ extent_typed r.2).

Lemma first_fit_typed sto req ext :
  handle_typed sto -> request_typed req -> extent_typed ext ->
  returns (allocate_extent_first_fit sto req ext) typed_triple.
Proof.
  intros Hs [Hc Hh Hf] He. unfold allocate_extent_first_fit.
  apply (returns_bind _ _ (fun r => code_ok r.1.1 /\ bitmap_opt r.1.2 /\ from_option u64_ok True r.2)).
  { apply returns_lift. intros [[code bm] found]. apply find_free_typed; [apply Hs|done]. }
  intros [[c1 bm1] found] (Hr1 & Hb1 & Hfound). cbn [fst snd] in *.
  assert (handle_typed (set_bitmap bm1 sto)) as Hs1 by (by apply set_bitmap_typed).
  cbv zeta. case_match; [by apply returns_ret|].
  apply (returns_bind _ _ (fun r => code_ok r.1 /\ bitmap_opt r.2)).
  { apply returns_lift. intros [code bm]. by apply set_range_typed. }
  intros [c2 bm2] [Hr2 Hb2]. cbn [fst snd] in *.
  assert (handle_typed (set_bitmap bm2 (set_bitmap bm1 sto))) as Hs2 by (by apply set_bitmap_typed).
  case_match; apply returns_ret; [done|]. split_and!; [done|done|].
  split; cbn; [by destruct found|done|done|done].
Qed.

Lemma account_allocation_typed sto req ext :
  handle_typed sto -> extent_typed ext ->
  handle_typed (account_allocation sto req ext).1 /\ extent_typed (account_allocation sto req ext).2.
Proof.
  intros Hs [E1 E2 E3 E4]. split; cbn [account_allocation fst snd].
  - apply set_stats_typed; [apply set_desc_typed; [done|apply desc_ok_counts, Hs]|].
    apply stats_updates_ok, Hs.
  - split; [done..|apply u64_ok_u64].
Qed.

Lemma account_free_typed sto ext : handle_typed sto -> handle_typed (account_free sto ext).
Proof.
  intros Hs. unfold account_free. apply set_stats_typed; [apply set_desc_typed; [done|]|].
  - pose proof (ht_desc _ Hs) as Hd. pose proof (ok_next_id _ Hd).
    pose proof (desc_ok_counts (sto_desc sto) (desc_free_blocks (sto_desc sto) + ext_block_count ext)
      (desc_used_blocks (sto_desc sto) - ext_block_count ext) (desc_next_extent_id (sto_desc sto)) Hd) as Hc.
    change (256 ^ 8) with (2 ^ 64) in *. by rewrite (u64_small (desc_next_extent_id _)) in Hc.
  - apply stats_updates_ok, Hs.
Qed.

Lemma allocate_typed sto req ext :
  handle_typed sto -> request_typed req -> extent_typed ext ->
  returns (kes_extent_allocate (Some sto) (Some req) (Some ext))
    (fun r => code_ok r.1.1 /\ handle_opt r.1.2 /\ from_option extent_typed True r.2).
Proof.
  intros Hs Hr He. unfold kes_extent_allocate. case_match; [by apply returns_ret|].
  case_match; [by apply returns_ret|].
  eapply returns_bind; [apply returns_mutex_lock|]. intros held _. cbv zeta.
  eapply returns_bind; [apply returns_flock|]. intros lk _.
  case_match; [apply unlock_typed; intros h; split_and!; [done|by do 2 apply set_held_typed|done]|].
  eapply returns_bind; [by apply reload_typed, set_held_typed|]. intros [c1 sto1] [Hr1 Hs1].
  cbn [fst snd] in *. apply (returns_bind _ _ typed_triple).
  { case_match; [rewrite dispatch_strategy; by apply first_fit_typed|by apply returns_ret]. }
  intros [[c2 sto2] ext2] (Hr2 & Hs2 & He2). cbn [fst snd] in *.
  assert (handle_typed (if c2 =? KES_SUCCESS then account_allocation sto2 req ext2 else (sto2, ext2)).1 /\
          extent_typed (if c2 =? KES_SUCCESS then account_allocation sto2 req ext2 else (sto2, ext2)).2)
    as [Hs3 He3] by (destruct (c2 =? KES_SUCCESS); [by apply account_allocation_typed|done]).
  destruct (if c2 =? KES_SUCCESS then account_allocation sto2 req ext2 else (sto2, ext2)) as [sto3 ext3].
  cbn [fst snd] in *. apply (returns_bind _ _ (fun r => code_ok r.1 /\ handle_typed r.2)).
  { destruct (c2 =? KES_SUCCESS); [by apply persist_typed|by apply returns_ret]. }
  intros [c4 sto4] [Hr4 Hs4]. apply leave_typed. intros h. split_and!; [done|by apply set_held_typed|done].
Qed.

Lemma free_typed sto ext :
  handle_typed sto -> extent_typed ext ->
  returns (kes_extent_free (Some sto) (Some ext)) (fun r => code_ok r.1 /\ handle_opt r.2).
Proof.
  intros Hs He. unfold kes_extent_free. case_match; [by apply returns_ret|].
  eapply returns_bind; [apply returns_mutex_lock|]. intros held _. cbv zeta.
  eapply returns_bind; [apply returns_flock|]. intros lk _.
  case_match; [apply unlock_typed; intros h; split; [done|by do 2 apply set_held_typed]|].
  eapply returns_bind; [by apply reload_typed, set_held_typed|]. intros [c1 sto1] [Hr1 Hs1].
  cbn [fst snd] in *.
  assert (forall r : Z * kes_storage, code_ok r.1 /\ handle_typed r.2 ->
    returns (flock_un (sto_fd r.2) ;;; let* h := pthread_mutex_unlock held in ret (r.1, Some (set_held h r.2)))
      (fun r => code_ok r.1 /\ handle_opt r.2)) as Hfinish.
  { intros r [? ?]. apply leave_typed. intros h. split; [done|]. by apply set_held_typed. }
  case_match; [by apply (Hfinish (c1, sto1))|].
  eapply returns_bind; [by apply (returns_lift _ (fun _ => True))|]. intros allocated _.
  case_match; [by apply (Hfinish (KES_ERROR_NOTFOUND, sto1))|].
  apply (returns_bind _ _ (fun r => code_ok r.1 /\ bitmap_opt r.2)).
  { apply returns_lift. intros [code bm]. apply clear_range_typed, Hs1. }
  intros [c2 bm2] [Hr2 Hb2]. cbn [fst snd] in *.
  assert (handle_typed (if c2 =? KES_SUCCESS then account_free (set_bitmap bm2 sto1) ext
            else set_bitmap bm2 sto1)) as Hs2.
  { case_match; [apply account_free_typed|]; by apply set_bitmap_typed. }
  apply (returns_bind _ _ (fun r => code_ok r.1 /\ handle_typed r.2)); [|exact Hfinish].
  destruct (c2 =? KES_SUCCESS); [by apply persist_typed|by apply returns_ret].
Qed.

Lemma read_typed sto ext size offset :
  handle_typed sto -> 0 <= size ->
  returns (kes_extent_read (Some sto) (Some ext) true size offset)
    (fun r => code_ok r.1.1 /\ handle_opt r.1.2 /\ Forall is_byte r.2).
Proof.
  intros Hs Hsize. unfold kes_extent_read. cbn [negb]. cbv zeta. case_match; [by apply returns_ret|].
  eapply returns_bind; [apply returns_mutex_lock|]. intros held _.
  eapply returns_bind; [apply returns_lseek|]. intros off _.
  case_match; [apply unlock_typed; intros h; split_and!; [done|by do 2 apply set_held_typed|constructor]|].
  eapply returns_bind; [by apply returns_read|]. intros [k bs] [Hbs _]. cbn [snd] in Hbs.
  case_match; apply unlock_typed; intros h; (split_and!; [done| |done]); apply set_held_typed;
    [by apply set_held_typed|].
  apply set_stats_typed; [by apply set_held_typed|]. by apply (stats_updates_ok _ size), Hs.
Qed.

Lemma write_typed_call sto ext buf size offset :
  handle_typed sto -> Forall is_byte buf ->
  returns (kes_extent_write (Some sto) (Some ext) (Some buf) size offset)
    (fun r => code_ok r.1 /\ handle_opt r.2).
Proof.
  intros Hs Hbuf. unfold kes_extent_write. case_match; [by apply returns_ret|]. cbv zeta.
  case_match; [by apply returns_ret|].
  eapply returns_bind; [apply returns_mutex_lock|]. intros held _.
  eapply returns_bind; [apply returns_lseek|]. intros off _.
  case_match; [apply unlock_typed; intros h; split; [done|by do 2 apply set_held_typed]|].
  case_match; [apply returns_undefined|].
  eapply returns_bind; [by apply returns_write, Forall_take|]. intros k _.
  case_match; apply unlock_typed; intros h; (split; [done|]); apply set_held_typed;
    [by apply set_held_typed|].
  apply set_stats_typed; [by apply set_held_typed|]. by apply (stats_updates_ok _ size), Hs.
Qed.

(** The only double converted back to an integer. *)
Lemma double_to_u64_ok x z : double_to_u64 x = Some z -> u64_ok z.
Proof.
  destruct x as [s|s| |s m e]; cbn; [by intros [= <-]|done|done|].
  set (t := if 0 <=? e then Z.pos m * 2 ^ e else Z.pos m / 2 ^ (- e)).
  assert (0 <= t) as Ht.
  { unfold t. destruct (Z.leb_spec 0 e); [nia|]. apply Z.div_pos; [lia|].
    apply Z.pow_pos_nonneg; lia. }
  destruct s; [by case_match; [intros [= <-]|]|].
  destruct (Z.ltb_spec t (2 ^ 64)); [|done]. intros [= <-]. done.
Qed.

Lemma get_stats_typed sto :
  handle_typed sto -> returns (kes_storage_get_stats (Some sto) true)
    (fun r => code_ok r.1.1 /\ handle_opt r.1.2 /\ from_option stats_ok True r.2).
Proof.
  intros Hs. unfold kes_storage_get_stats. cbn [negb]. cbv zeta.
  eapply returns_bind; [apply returns_mutex_lock|]. intros held _.
  apply (returns_bind _ _ u64_ok).
  { case_match; [|by apply returns_ret]. apply returns_lift. intros z. apply double_to_u64_ok. }
  intros frag Hf. apply unlock_typed. intros h. split_and!; [done|by do 2 apply set_held_typed|].
  destruct Hs as [[] _ []]. unfold u64_ok in *. change (256 ^ 8) with (2 ^ 64) in *. by split.
Qed.

Lemma get_descriptor_typed sto :
  handle_typed sto -> returns (kes_storage_get_descriptor (Some sto) true)
    (fun r => code_ok r.1.1 /\ handle_opt r.1.2 /\ from_option desc_ok True r.2).
Proof.
  intros Hs. unfold kes_storage_get_descriptor. cbn [negb]. cbv zeta.
  eapply returns_bind; [apply returns_mutex_lock|]. intros held _. apply unlock_typed.
  intros h. split_and!; [done|by apply set_held_typed|apply Hs].
Qed.
End with_crc.

Section properties.
Context `{Crc32c}.

End properties.

(** ** Instances *)

#[local] Existing Instance demo_crc.

Definition typed_handle : kes_storage :=
  mkStorage 3 zero_desc None KES_ALLOC_FIRST_FIT false zero_stats false false.

