(* ===== verification/Session.v ===== *)
(** * One process using a storage through one handle

    What a client can rely on when no other process has the file open: after
    every call that reports success, whatever faults there were, the blocks
    marked allocated are those of its extents, the descriptor in its handle and
    on disk agrees with them, the next extent is the first one that fits, and
    the content of the extents is what was written to them. *)
From S2P Require Import Prelude Types Posix PosixFacts Crc Bitmap BitmapFacts Codec Storage Layout.
From S2P Require Import StorageFacts ExtentIO Lifecycle FirstFit System SystemFacts Spec.
From S2P Require Import Refinement Accounting.

(** Every access to the buffer is within [size]. *)
Lemma write_prefix storage ext buf size offset w :
  0 <= size <= Z.of_nat (length buf) ->
  kes_extent_write storage ext (Some buf) size offset w =
  kes_extent_write storage ext (Some (take (Z.to_nat size) buf)) size offset w.
Proof.
  intros Hsize. unfold kes_extent_write. destruct storage as [sto|], ext as [e|]; [|done..].
  rewrite length_take, Nat.min_l by lia. rewrite Z2Nat.id by lia.
  destruct (Z.ltb_spec (Z.of_nat (length buf)) size); [lia|].
  destruct (Z.ltb_spec size size); [lia|]. by rewrite take_take, Nat.min_id.
Qed.

(** A successful outcome is one without faults. *)
Lemma alloc_post_exact d sto req ext0 f (noisy : Prop) sto' ext' f' `{Crc32c} :
  alloc_post d sto req ext0 f noisy KES_SUCCESS sto' ext' f' ->
  alloc_post d sto req ext0 f False KES_SUCCESS sto' ext' f'.
Proof.
  intros [H1 H2 H3 H4 H5 Hc Hdesc]. split; [done..| |done].
  destruct Hc as [?|[[? _]|[? _]]]; [by left|done..].
Qed.

Lemma free_post_exact d sto e f (noisy : Prop) sto' f' `{Crc32c} :
  free_post d sto e f noisy KES_SUCCESS sto' f' -> free_post d sto e f False KES_SUCCESS sto' f'.
Proof.
  intros [H1 H2 H3 H4 H5 Hc Hdesc]. split; [done..| |done].
  destruct Hc as [?|[[? _]|[[? _]|[? _]]]]; [by left|done..].
Qed.

(** The blocks of a list of extents. *)
Definition blocks_of (l : list kes_extent_descriptor) : gset Z :=
  foldr (fun e X => blocks (ext_start_block e) (ext_block_count e) ∪ X) ∅ l.

Lemma elem_of_blocks_of i l : i ∈ blocks_of l <-> exists e, e ∈ l /\ in_extent e i.
Proof.
  induction l as [|e l IH]; cbn [blocks_of foldr].
  - split; [by intros ?%not_elem_of_empty|by intros (? & ?%not_elem_of_nil & _)].
  - fold (blocks_of l). rewrite elem_of_union, IH, elem_of_blocks. setoid_rewrite elem_of_cons.
    unfold in_extent. split.
    + intros [?|(e' & ? & ?)]; [exists e; auto|exists e'; auto].
    + intros (e' & [->|?] & ?); [by left|right; eauto].
Qed.

(** The beginning of an extent. *)
Lemma extent_data_prefix d f e n :
  0 <= n <= extent_bytes d e ->
  take (Z.to_nat n) (extent_data d f e) = slice (Z.to_nat (extent_pos d e)) (Z.to_nat n) f.
Proof. intros Hn. unfold extent_data, slice. rewrite take_take, Nat.min_l by lia. done. Qed.

Section session.
Context `{Crc32c} (path : string) (d : kes_storage_descriptor) (Hd : layout_ok d) (w0 : world).
Implicit Types (w : world) (sto : kes_storage) (live : list kes_extent_descriptor).

Definition content w : list Z := default [] (w_files w !! path).

(** Between two calls: [live] are the extents in use and [next] the last
    identifier handed out; [w0] is the world before the storage was opened. *)
Record session live (next : Z) w sto : Prop := {
  se_sys : sys_ok path d (mkSys w {[ sto_fd sto := sto ]} live);
  se_writable : sto_readonly sto = false;
  se_quiet : quiet w0 -> quiet w;
  se_fds : fd_attrs w = <[sto_fd sto := (path, true, None)]> (fd_attrs w0);
  se_cover : set_bits (desc_user_blocks d) (disk_bit d (content w)) (blocks_of live);
  se_sound : disk_sound d (content w);
  se_desc : sto_desc sto = decode_desc (content w);
  se_next : desc_next_extent_id (decode_desc (content w)) = next;
  se_total : desc_total_blocks (decode_desc (content w)) = desc_total_blocks d;
  se_allocated : st_allocated_extents (sto_stats sto) = Z.of_nat (length live);
  se_fresh : fd_attrs w0 !! sto_fd sto = None;
  se_others : forall p, p ≠ path -> w_files w !! p = w_files w0 !! p
}.

Section call.
Context (live : list kes_extent_descriptor) (next : Z) (w : world) (sto : kes_storage).
Context (Hse : session live next w sto).

Lemma session_handle : ({[ sto_fd sto := sto ]} : gmap Z kes_storage) !! sto_fd sto = Some sto.
Proof using. apply lookup_singleton_eq. Qed.

Lemma session_inside e : e ∈ live -> extent_inside d e.
Proof using Hse. intros He. by apply (live_inside path d _ e (se_sys _ _ _ _ Hse)). Qed.

(** The number of allocated blocks. *)
Lemma session_used : disk_used d (content w) = total_blocks live.
Proof using Hse Hd.
  pose proof (lo_user_blocks _ Hd). apply count_cover.
  - intros e He. destruct (session_inside e He) as [[? ?] ?]. lia.
  - apply (so_disjoint _ _ _ (se_sys _ _ _ _ Hse)).
  - intros i Hi. rewrite Z2Nat.id in Hi by lia. rewrite <-elem_of_blocks_of, (se_cover _ _ _ _ Hse i). tauto.
Qed.

(** The handle's descriptor shows the counts. *)
Lemma session_counts :
  desc_used_blocks (sto_desc sto) = total_blocks live /\
  desc_free_blocks (sto_desc sto) = desc_user_blocks d - total_blocks live /\
  desc_total_blocks (sto_desc sto) = desc_total_blocks d.
Proof using Hse Hd.
  rewrite (se_desc _ _ _ _ Hse). destruct (se_sound _ _ _ _ Hse) as [_ -> -> _].
  rewrite session_used. split_and!; [done|done|apply Hse].
Qed.

(** The state after a call that succeeded, from what it did to the file. *)
Lemma session_update live' next' w' sto' f' :
  sys_ok path d (mkSys w' (<[sto_fd sto := sto']> {[ sto_fd sto := sto ]}) live') ->
  evolves w w' (<[path := f']> (w_files w)) (fd_attrs w) ->
  sto_fd sto' = sto_fd sto -> sto_readonly sto' = sto_readonly sto ->
  set_bits (desc_user_blocks d) (disk_bit d f') (blocks_of live') -> disk_sound d f' ->
  sto_desc sto' = decode_desc f' -> desc_next_extent_id (decode_desc f') = next' ->
  desc_total_blocks (decode_desc f') = desc_total_blocks (decode_desc (content w)) ->
  st_allocated_extents (sto_stats sto') = Z.of_nat (length live') ->
  content w' = f' /\ session live' next' w' sto'.
Proof using Hse.
  intros Hs [F A O K] Hfd Hro Hb Hsd Hdesc Hn Ht Ha. destruct Hse as [S1 S2 S3 S4 S5 S6 S7 S8 S9 S10 S11 S12].
  assert (content w' = f') as Hf by (unfold content; by rewrite F, lookup_insert_eq).
  rewrite insert_singleton_eq, <-Hfd in Hs. split; [done|].
  split; rewrite ?Hf; [done|congruence|auto|by rewrite A, Hfd, S4|done|done|done|done|congruence|done
    |congruence|].
  intros p Hp. rewrite F, lookup_insert_ne by done. by apply S12.
Qed.

(** ** Allocation *)

Lemma session_alloc n s ext0 :
  0 < n < 2 ^ 32 -> next + 1 < 2 ^ 64 -> Z.of_nat (length live) + 1 < 2 ^ 64 ->
  first_free (desc_user_blocks d) (blocks_of live) n 0 = Some s ->
  wp (kes_extent_allocate (Some sto) (Some (mkRequest n 0 0 0)) (Some ext0)) w (fun r w' =>
    exists code sto' ext', r = (code, Some sto', Some ext') /\
      ((code = KES_SUCCESS /\ ext' = mkExtent s n 0 (next + 1) /\
        session (ext' :: live) (next + 1) w' sto' /\
        forall e, e ∈ live -> extent_data d (content w') e = extent_data d (content w) e) \/
       (code = KES_ERROR_IO /\ ~ quiet w0))).
Proof using Hse Hd.
  intros Hn Hnext Hlen Hfirst. set (req := mkRequest n 0 0 0).
  assert (request_ok req) as Hreq by (split; cbn; lia).
  pose proof Hse as [S1 S2 S3 S4 S5 S6 S7 S8 S9 S10 S11 S12]. pose proof (lo_user_blocks _ Hd) as [Hub _].
  pose proof (sys_alloc path d Hd w _ live (sto_fd sto) sto req ext0 S1 session_handle Hreq) as Hwp.
  destruct (wp_done _ _ _ Hwp) as (r & w' & R & code & sto' & ext' & f' & -> & Hw' & Hc).
  unfold wp. rewrite R. exists code, sto', ext'. split; [done|].
  destruct Hc as [([Hro|Hz] & _)|[_ Hpost]]; [congruence|cbn in Hz; lia|].
  pose proof (first_free_spec _ _ _ Hub S5 n 0 ltac:(lia) ltac:(lia)) as Hspec. cbv zeta in Hspec.
  rewrite Hfirst in Hspec. destruct Hspec as [Hrs Hms].
  destruct (ap_cases _ _ _ _ _ _ _ _ _ _ Hpost)
    as [(-> & s1 & -> & Hrun & Hmin & Hbits & Hdec & Hst)|[(_ & _ & _ & _ & Hno)|[-> Hq]]].
  2:{ by destruct (Hno s). }
  2:{ right. split; [done|]. intros Hq0. by apply Hq, S3. }
  left. cbn [req_block_count req_flags req_hint_block req] in *.
  pose proof (first_free_unique _ _ _ Hub S5 n 0 s1 ltac:(lia) ltac:(lia) Hrun Hmin) as Hs1.
  rewrite Hs1 in Hfirst. injection Hfirst as ->.
  change (file_of path (mkSys w {[ sto_fd sto := sto ]} live)) with (content w) in *.
  assert (u64 (desc_next_extent_id (decode_desc (content w)) + 1) = next + 1) as Hid.
  { pose proof (ok_next_id _ (disk_desc_ok d _ Hd (ds_ok _ _ S6))). rewrite S8 in *.
    change (256 ^ 8) with (2 ^ 64) in *. apply u64_small. lia. }
  rewrite Hid in *. split; [done|].
  destruct (step_alloc_ok path d Hd w _ live _ sto req ext0 _ sto' _ w' S1 session_handle Hreq R)
    as [Hs' Hkeep].
  pose proof (ap_config _ _ _ _ _ _ _ _ _ _ Hpost) as (C1 & _ & C3 & _ & _).
  destruct (alloc_sound d (content w) f' Hd sto req ext0 False KES_SUCCESS sto'
              (mkExtent s n 0 (next + 1))) as [Hsound _];
    [cbn; lia|done|by eapply alloc_post_exact|by intros []|].
  destruct (session_update (mkExtent s n 0 (next + 1) :: live) (next + 1) w' sto' f')
    as [Hf Hse']; [exact Hs'|done|done|done| |done|by apply (ap_desc _ _ _ _ _ _ _ _ _ _ Hpost)| | | |].
  - destruct Hrun as (? & ? & _). cbn [blocks_of foldr ext_start_block ext_block_count].
    fold (blocks_of live). rewrite (union_comm_L (blocks s n)).
    by apply (set_bits_union _ (disk_bit d (content w))).
  - by rewrite Hdec.
  - by rewrite Hdec.
  - rewrite Hst, S10, u64_small by lia. cbn [length]. lia.
  - split; [done|]. split; [done|]. intros e He. exact (proj2 (Hkeep e He (fun F => F))).
Qed.

(** ** Freeing *)

Lemma session_free e :
  e ∈ live -> Z.of_nat (length live) < 2 ^ 64 ->
  Z.of_nat (length (live_free e live)) = Z.of_nat (length live) - 1 ->
  wp (kes_extent_free (Some sto) (Some e)) w (fun r w' => exists code sto', r = (code, Some sto') /\
    ((code = KES_SUCCESS /\ session (live_free e live) next w' sto' /\
      forall e', e' ∈ live -> e' ≠ e -> extent_data d (content w') e' = extent_data d (content w) e') \/
     (code = KES_ERROR_IO /\ ~ quiet w0))).
Proof using Hse Hd.
  intros He Hlen Hlen'. pose proof Hse as [S1 S2 S3 S4 S5 S6 S7 S8 S9 S10 S11 S12].
  pose proof (sys_free path d Hd w _ live (sto_fd sto) sto e S1 session_handle He) as Hwp.
  destruct (wp_done _ _ _ Hwp) as (r & w' & R & code & sto' & f' & -> & Hw' & Hc).
  unfold wp. rewrite R. exists code, sto'. split; [done|].
  destruct Hc as [(Hro & _)|(_ & Hpost & [->|[-> Hq]])]; [congruence| |].
  2:{ right. split; [done|]. intros Hq0. by apply Hq, S3. }
  left. split; [done|].
  change (file_of path (mkSys w {[ sto_fd sto := sto ]} live)) with (content w) in *.
  destruct (step_free_ok path d Hd w _ live _ sto e _ sto' w' S1 session_handle He R) as [Hs' Hkeep].
  rewrite S2 in Hs', Hkeep.
  pose proof (session_inside e He) as Hin.
  destruct (free_sound d (content w) f' Hd sto e False KES_SUCCESS sto') as [Hsound _];
    [done|done|by eapply free_post_exact|by intros []|].
  destruct Hpost as [_ (C1 & _ & C3 & _ & _) _ _ Hout Hcases Hdesc].
  destruct Hcases as [(_ & _ & _ & Hoff & Hdec & Hst)|[[? _]|[[? _]|[? _]]]]; [|done..].
  destruct (session_update (live_free e live) next w' sto' f') as [Hf Hse'];
    [exact Hs'|done|done|done| |done|by apply Hdesc|by rewrite Hdec|by rewrite Hdec| |].
  - intros i. rewrite elem_of_blocks_of. unfold live_free. setoid_rewrite list_elem_of_filter.
    pose proof (so_disjoint _ _ _ S1) as Hp. pose proof (S5 i) as Hi. rewrite elem_of_blocks_of in Hi.
    destruct (decide (in_extent e i)) as [Hie|Hie].
    + rewrite Hoff by done. split; [|by intros [_ ?]].
      intros (e' & [Hne He'] & Hi'). destruct (extents_disjoint_in e e' i); [|done|done].
      by apply (ord_pairs_elem extents_disjoint live).
    + split.
      * intros (e' & [Hne He'] & Hi'). destruct (proj1 Hi) as [Hr Hb]; [eauto|].
        split; [done|]. rewrite Hout by (done || lia). done.
      * intros [Hr Hb]. rewrite Hout in Hb by (done || lia). destruct (proj2 Hi) as (e' & He' & Hi');
          [done|]. exists e'. split_and!; [by intros ->|done|done].
  - rewrite Hst, S10, u64_small by lia. lia.
  - split; [done|]. intros e' He' Hne. apply (Hkeep e' He'). cbn. congruence.
Qed.

(** ** Writing and reading *)

Lemma session_write e buf size :
  e ∈ live -> Forall is_byte buf -> 0 <= size <= Z.of_nat (length buf) ->
  size <= extent_bytes d e ->
  wp (kes_extent_write (Some sto) (Some e) (Some buf) size 0) w (fun r w' =>
    exists code sto', r = (code, Some sto') /\
      ((code = KES_SUCCESS /\ session live next w' sto' /\
        take (Z.to_nat size) (extent_data d (content w') e) = take (Z.to_nat size) buf /\
        forall e', e' ∈ live -> e' ≠ e -> extent_data d (content w') e' = extent_data d (content w) e') \/
       (code = KES_ERROR_IO /\ ~ quiet w0))).
Proof using Hse Hd.
  intros He Hbytes Hsize Hfit. pose proof Hse as [S1 S2 S3 S4 S5 S6 S7 S8 S9 S10 S11 S12].
  pose proof (session_inside e He) as Hin. pose proof (extent_pos_bounds d Hd e Hin) as (Hp & Hb & Hle).
  pose proof (map_offset_range d Hd) as Hr. unfold sizeof_desc in Hp, Hr.
  set (data := take (Z.to_nat size) buf).
  assert (size = Z.of_nat (length data)) as Hsz by (unfold data; rewrite length_take; lia).
  assert (Forall is_byte data) as Hdata by (by apply Forall_take).
  unfold wp. rewrite write_prefix by done. fold data. rewrite Hsz.
  pose proof (sys_write path d Hd w _ live (sto_fd sto) sto e 0 data S1 session_handle He
                ltac:(lia) ltac:(lia)) as Hwp.
  destruct (wp_done _ _ _ Hwp) as (r & w' & R & code & sto' & f' & -> & Hw' & Hc).
  rewrite R. exists code, sto'. split; [done|]. destruct Hc as [(Hro & _)|[_ Hpost]]; [congruence|].
  change (file_of path (mkSys w {[ sto_fd sto := sto ]} live)) with (content w) in *.
  destruct (write_post_frame d (content w) Hd (ds_ok _ _ S6) sto e data 0 _ _ _ _ Hin ltac:(lia)
              Hdata Hpost) as (Hdk & Hmap & Hdec & _ & _).
  destruct Hpost as [(-> & _ & -> & ->)|[(_ & Hlt & _)|(-> & _ & Hq & _)]].
  2: unfold extent_bytes in *; lia.
  2:{ right. split; [done|]. intros Hq0. by apply Hq, S3. }
  left. split; [done|].
  destruct (step_write_ok path d Hd w _ live _ sto e 0 data _ _ w' S1 session_handle He Hdata
              ltac:(lia) ltac:(lia) R) as [Hs' Hkeep].
  destruct (session_update live next w' (set_stats (count_write (Z.of_nat (length data)) (sto_stats sto)) sto)
              _ Hs' Hw') as [Hf Hse']; [done|done| | | | | |done|].
  - intros i. rewrite (S5 i). unfold disk_bit. by rewrite Hmap.
  - eapply sound_same_map; eauto.
  - by rewrite Hdec.
  - by rewrite Hdec.
  - by rewrite Hdec.
  - split; [done|]. split.
    + rewrite Hf, extent_data_prefix by lia. rewrite Z.add_0_r, <-Hsz.
      rewrite Hsz, Nat2Z.id at 1. by rewrite slice_splice_same.
    + intros e' He' Hne. apply (Hkeep e' He'). cbn. congruence.
Qed.

Lemma session_read e size :
  e ∈ live -> 0 <= size <= extent_bytes d e ->
  wp (kes_extent_read (Some sto) (Some e) true size 0) w (fun r w' =>
    exists code sto' bs, r = (code, Some sto', bs) /\
      ((code = KES_SUCCESS /\ session live next w' sto' /\
        bs = take (Z.to_nat size) (extent_data d (content w) e) /\ content w' = content w) \/
       (code = KES_ERROR_IO /\ ~ quiet w0))).
Proof using Hse Hd.
  intros He Hsize. pose proof Hse as [S1 S2 S3 S4 S5 S6 S7 S8 S9 S10 S11 S12].
  pose proof (session_inside e He) as Hin. pose proof (extent_pos_bounds d Hd e Hin) as (Hp & Hb & Hle).
  pose proof (map_offset_range d Hd) as Hr. unfold sizeof_desc in Hp, Hr.
  pose proof (sys_read path d Hd w _ live (sto_fd sto) sto e 0 size S1 session_handle He
                ltac:(lia) ltac:(lia) ltac:(lia)) as Hwp.
  destruct (wp_done _ _ _ Hwp) as (r & w' & R & code & sto' & bs & -> & Hw' & Hpost).
  unfold wp. rewrite R. exists code, sto', bs. split; [done|].
  change (file_of path (mkSys w {[ sto_fd sto := sto ]} live)) with (content w) in *.
  destruct Hpost as [(-> & _ & -> & ->)|[(_ & Hlt & _)|(-> & Hq & _)]]; [|lia|].
  2:{ right. split; [done|]. intros Hq0. by apply Hq, S3. }
  left. split; [done|].
  destruct (step_read_ok path d Hd w _ live _ sto e 0 size _ _ _ w' S1 session_handle He
              ltac:(lia) ltac:(lia) ltac:(lia) R) as [Hs' _].
  destruct (session_update live next w' (set_stats (count_read size (sto_stats sto)) sto)
              (content w) Hs') as [Hf Hse']; [|done..|].
  { destruct Hw' as [F A O K]. split; [|done..].
    pose proof (so_file _ _ _ S1) as Hfile. rewrite F. symmetry. by apply insert_id. }
  split; [done|]. split; [|done]. rewrite extent_data_prefix by lia. by rewrite Z.add_0_r.
Qed.

(** ** Synchronising and closing *)

Lemma session_sync :
  wp (kes_storage_sync (Some sto)) w (fun r w' => exists code sto', r = (code, Some sto') /\
    ((code = KES_SUCCESS /\ session live next w' sto' /\
      forall e, e ∈ live -> extent_data d (content w') e = extent_data d (content w) e) \/
     (code = KES_ERROR_IO /\ ~ quiet w0))).
Proof using Hse Hd.
  pose proof Hse as [S1 S2 S3 S4 S5 S6 S7 S8 S9 S10 S11 S12].
  pose proof (sys_sync path d Hd w _ live (sto_fd sto) sto S1 session_handle) as Hwp.
  destruct (wp_done _ _ _ Hwp) as (r & w' & R & code & sto' & f' & -> & Hw' & Hc).
  unfold wp. rewrite R. exists code, sto'. split; [done|].
  change (file_of path (mkSys w {[ sto_fd sto := sto ]} live)) with (content w) in *.
  destruct Hc as [(Hro & _)|[_ Hpost]]; [congruence|].
  destruct (step_sync_ok path d Hd w _ live _ sto _ sto' w' S1 session_handle R) as [Hs' Hkeep].
  destruct Hpost as [_ (C1 & _ & C3 & _ & _) Hst Hdk _ Hbits Hc Hdesc].
  destruct Hc as [(-> & Hmap & Hdec)|[-> Hq]].
  2:{ right. split; [done|]. intros Hq0. by apply Hq, S3. }
  left. split; [done|].
  destruct (session_update live next w' sto' f' Hs' Hw') as [Hf Hse'];
    [done|done| | |by apply Hdesc|by rewrite Hdec|by rewrite Hdec|by rewrite Hst|].
  - intros i. rewrite (S5 i). unfold disk_bit. by rewrite Hmap.
  - eapply sound_same_map; eauto.
  - split; [done|]. intros e He. exact (proj2 (Hkeep e He (fun F => F))).
Qed.

(** What the process leaves behind when it closes: without faults, a sound
    storage with its extents and their content. *)
Lemma session_close :
  wp (kes_storage_close (Some sto)) w (fun code w' => code = KES_SUCCESS /\
    fd_attrs w' = fd_attrs w0 /\ world_ok w' /\
    (forall p, p ≠ path -> w_files w' !! p = w_files w0 !! p) /\
    (quiet w0 -> quiet w' /\ is_Some (w_files w' !! path) /\ disk_sound d (content w') /\
       set_bits (desc_user_blocks d) (disk_bit d (content w')) (blocks_of live) /\
       forall e, e ∈ live -> extent_data d (content w') e = extent_data d (content w) e)).
Proof using Hse Hd.
  pose proof Hse as [S1 S2 S3 S4 S5 S6 S7 S8 S9 S10 S11 S12].
  eapply wp_mono; [apply (sys_close path d Hd w _ live (sto_fd sto) sto S1 session_handle)|].
  intros code w' (-> & f' & [F A O K] & Hc).
  change (file_of path (mkSys w {[ sto_fd sto := sto ]} live)) with (content w) in *.
  assert (content w' = f') as Hf by (unfold content; by rewrite F, lookup_insert_eq).
  destruct Hc as [[? _]|[_ [Har _ Hq]]]; [congruence|]. split_and!; [done|by rewrite A, S4, delete_insert_id|apply O, S1| |].
  { intros p Hp. rewrite F, lookup_insert_ne by done. by apply S12. }
  intros Hq0. destruct Hq as (Hdk & Hmap & Hdec); [by intros Hn; apply Hn, S3|]. rewrite Hf.
  split_and!; [auto|by rewrite F, lookup_insert_eq| | |].
  - eapply sound_same_map; eauto.
  - intros i. rewrite (S5 i). unfold disk_bit. by rewrite Hmap.
  - intros e He. apply extent_data_area; [done|done|by apply session_inside].
Qed.

(** ** Statistics *)

Lemma session_stats frag :
  (if (0 <? total_blocks live) && (0 <? Z.of_nat (length live))
   then fragmentation_of (Z.of_nat (length live)) (total_blocks live) else Some 0) = Some frag ->
  wp (kes_storage_get_stats (Some sto) true) w (fun r w' => exists stats,
    r = (KES_SUCCESS, Some sto, Some stats) /\ w' = w /\
    st_total_blocks stats = desc_total_blocks d /\
    st_free_blocks stats = desc_user_blocks d - total_blocks live /\
    st_used_blocks stats = total_blocks live /\
    st_allocated_extents stats = Z.of_nat (length live) /\ st_fragmentation stats = frag).
Proof using Hse Hd.
  intros Hfrag. destruct session_counts as (Hu & Hfr & Ht).
  destruct (sys_ok_handle path d _ _ _ _ _ (se_sys _ _ _ _ Hse) session_handle) as (_ & Hlk & _).
  unfold kes_storage_get_stats. cbn [negb]. unfold pthread_mutex_lock, pthread_mutex_unlock.
  rewrite Hlk. wp_bind. wp_ret. cbn [set_held sto_desc sto_stats].
  rewrite Hu, Hfr, Ht, (se_allocated _ _ _ _ Hse). wp_bind.
  assert (forall k : Z -> world -> Prop, k frag w -> wp (if (0 <? total_blocks live) && (0 <? Z.of_nat (length live))
    then lift (fragmentation_of (Z.of_nat (length live)) (total_blocks live)) else ret 0) w k) as Hk.
  { intros k Hk. destruct (_ && _); [by rewrite Hfrag|]. by injection Hfrag as <-. }
  apply Hk. wp_bind. wp_ret. wp_ret. eexists. rewrite set_held_back by done. done.
Qed.
End call.
End session.

(** ** Creating *)

Lemma session_create `{Crc32c} (c : kes_storage_config) (path : string) (w0 : world) :
  validate_config (Some c) = KES_SUCCESS -> cfg_device_path c = Some path ->
  0 <= cfg_block_size c < 2 ^ 32 -> cfg_device_size c < 2 ^ 63 ->
  has_flag (cfg_flags c) KES_STORAGE_CREATE = true ->
  has_flag (cfg_flags c) KES_STORAGE_READONLY = false ->
  world_ok w0 -> unlocked w0 path ->
  (forall f, w_files w0 !! path = Some f -> Forall is_byte f) ->
  wp (kes_storage_create (Some c) true) w0 (fun r w => exists code o, r = (code, o) /\
    ((code = KES_SUCCESS /\ exists sto, o = Some sto /\
        session path (created_desc (cfg_device_size c)) w0 [] 1 w sto) \/
     ((code = KES_ERROR_IO \/ code = KES_ERROR_NOMEM) /\ ~ quiet w0))).
Proof.
  intros Hv Hp Hb Hsz Hcr Hro Hok Hun Hbytes.
  assert (wp (kes_storage_create (Some c) true) w0 (fun r w => exists code o, r = (code, o) /\
    ((code = KES_SUCCESS /\ exists fd fs, o = Some (created_handle c fd) /\
        evolves w0 w fs (<[fd := (path, true, None)]> (fd_attrs w0)) /\ fd_attrs w0 !! fd = None /\
        (forall p, p ≠ path -> fs !! p = w_files w0 !! p)) \/
     ((code = KES_ERROR_IO \/ code = KES_ERROR_NOMEM) /\ ~ quiet w0)))) as Hwp.
  { apply (create_spec c path); [done..| |].
    - intros w' fs code _ _ Hcode Hq. eexists _, None. split; [done|]. right. split; [done|].
      intros Hq0. destruct (Hq Hq0) as (_ & _ & ?). congruence.
    - intros w' fd _ Hfree _ Hw'. do 2 eexists. split; [done|]. left. split; [done|].
      exists fd. eexists. split_and!; [done|exact Hw'|done|]. intros p Hne.
      by rewrite lookup_insert_ne. }
  destruct (wp_done _ _ _ Hwp) as (r & w & R & code & o & -> & Hc).
  unfold wp. rewrite R. exists code, o. split; [done|]. destruct Hc as [(-> & fd & fs & -> & Hw & Hfree & Hfs)|?];
    [|by right].
  left. split; [done|]. eexists. split; [done|]. destruct Hw as [F A O K].
  assert (created path c (mkSys w {[ fd := created_handle c fd ]} [])) as Hcreated
    by (by eapply (Created path c w0 w (created_handle c fd))).
  destruct (created_ok path c _ Hcreated) as (Hsize & Hsys & Hsound & _).
  destruct (created_file path c _ Hcreated) as (f0 & Hf0 & Hfile).
  destruct (created_sound _ _ Hsize Hf0) as (_ & Hdec & Hbits). rewrite <-Hfile in Hdec, Hbits.
  split; [done|done|done|done| |done| | | |done|done|].
  - intros i. split; [by intros ?%not_elem_of_empty|]. intros [_ Hbit]. by rewrite Hbits in Hbit.
  - unfold content. cbn. by setoid_rewrite Hdec.
  - by setoid_rewrite Hdec.
  - by setoid_rewrite Hdec.
  - by rewrite F.
Qed.

(** ** Opening again *)

(** A sound storage that nobody has locked can be opened, and each of its
    extents read, by any process. *)
Lemma reopen_reads `{Crc32c} path d flags live w :
  layout_ok d -> world_ok w -> unlocked w path -> is_Some (w_files w !! path) ->
  disk_sound d (content path w) -> quiet w ->
  Forall (extent_live d (content path w)) live -> ForallOrdPairs extents_disjoint live ->
  exists sto w1, kes_storage_open (Some path) flags true w = Done ((KES_SUCCESS, Some sto), w1) /\
    forall e size, e ∈ live -> 0 <= size <= extent_bytes d e -> exists sto' w2,
      kes_extent_read (Some sto) (Some e) true size 0 w1 =
        Done ((KES_SUCCESS, Some sto', take (Z.to_nat size) (extent_data d (content path w) e)), w2).
Proof.
  intros Hd Hok Hun [f Hf] Hsound Hq Hlive Hdis.
  assert (content path w = f) as Hcf by (unfold content; by rewrite Hf).
  assert (sys_ok path d (mkSys w ∅ live)) as Hs.
  { split; try done; [|apply Hsound]. cbn. unfold file_of. cbn. by rewrite Hf. }
  destruct (wp_done _ _ _ (sys_open path d Hd w ∅ live flags Hs)) as (r & w1 & R & Hc).
  destruct Hc as [(code & -> & _ & Href)|(sto & -> & Hop & _ & _ & Hw1)].
  { by destruct (sound_accepted d _ _ _ Hd Hsound Href). }
  exists sto, w1. split; [done|].
  destruct (step_open_ok path d Hd w ∅ live flags sto w1 Hs R) as [Hs1 _].
  assert (content path w1 = content path w) as Hc1 by (destruct Hw1 as [F _ _ _]; unfold content; by rewrite F).
  assert (quiet w1) as Hq1 by (by apply Hw1).
  intros e size He Hsize. pose proof (live_inside path d _ e Hs1 He) as Hin.
  pose proof (extent_pos_bounds d Hd e Hin) as (Hp & Hb & Hle).
  pose proof (map_offset_range d Hd) as Hr. unfold sizeof_desc in Hp, Hr.
  destruct (wp_done _ _ _ (sys_read path d Hd w1 _ live (sto_fd sto) sto e 0 size Hs1
              (lookup_insert_eq _ _ _) He ltac:(lia) ltac:(lia) ltac:(lia)))
    as (r & w2 & R2 & code & sto' & bs & -> & _ & Hpost).
  exists sto', w2. rewrite R2. change (file_of path _) with (content path w1) in Hpost.
  destruct Hpost as [(-> & _ & -> & _)|[(_ & ? & _)|(_ & Hn & _)]]; [|lia|done].
  rewrite extent_data_prefix by lia. by rewrite Z.add_0_r, Hc1.
Qed.
