(* ===== verification/Interleave.v ===== *)
(** * Calls of several processes, one system call at a time

    [System] takes the operations of the handles one after the other.  Here
    the processes run truly side by side: a process is idle or in the middle
    of an operation, and a step is the start of an operation, one system call
    of one process under any fault, or the death of a process at any point.
    The kernel is the one of [Posix]: [flock] keeps a process waiting while
    another one holds the lock, and nothing else orders the calls.  What a
    process computes between two system calls touches only its own handle, so
    it is part of the step; an operation returns in the step of its last
    system call. *)
From S2P Require Import Prelude Types Posix PosixFacts Crc Bitmap BitmapFacts Codec Storage Layout.
From S2P Require Import StorageFacts ExtentIO Lifecycle System.

(** What a process asks of the library through its handle. *)
Inductive call :=
  | CAlloc (req : kes_extent_request) (ext0 : kes_extent_descriptor)
  | CFree (e : kes_extent_descriptor)
  | CWrite (e : kes_extent_descriptor) (offset : Z) (data : list Z)
  | CRead (e : kes_extent_descriptor) (offset size : Z)
  | CSync.

Section interleave.
Context `{Crc32c}.

(** The operation as a tree of system calls that ends with the visible outcome
    and the handle after it. *)
Definition call_prog (fd : Z) (sto : kes_storage) (c : call) : M (label * kes_storage) :=
  match c with
  | CAlloc req ext0 =>
      let* (code, o, x) := kes_extent_allocate (Some sto) (Some req) (Some ext0) in
      ret (LAlloc fd req code (default ext0 x), default sto o)
  | CFree e =>
      let* (code, o) := kes_extent_free (Some sto) (Some e) in
      ret (LFree fd e code, default sto o)
  | CWrite e offset data =>
      let* (code, o) := kes_extent_write (Some sto) (Some e) (Some data)
                          (Z.of_nat (length data)) offset in
      ret (LWrite fd e offset data code, default sto o)
  | CRead e offset size =>
      let* (code, o, bytes) := kes_extent_read (Some sto) (Some e) true size offset in
      ret (LRead fd e offset size code bytes, default sto o)
  | CSync =>
      let* (code, o) := kes_storage_sync (Some sto) in
      ret (LSync fd code, default sto o)
  end.

(** A process between two operations, or in one of them: the handle it started
    with, the operation, and what is left to do. *)
Inductive process :=
  | Idle (sto : kes_storage)
  | Busy (sto : kes_storage) (c : call) (p : M (label * kes_storage)).

Definition handle_of (pr : process) : kes_storage :=
  match pr with Idle sto | Busy sto _ _ => sto end.

Record isys := mkISys {
  i_world : world;
  i_procs : gmap Z process;
  i_live : list kes_extent_descriptor
}.

(** ** What clients promise

    As in [System], extents passed to the library are in use; an extent is not
    freed while another operation on it is under way, nor used again once a
    free of it has started. *)

Definition extent_arg (c : call) : option kes_extent_descriptor :=
  match c with
  | CFree e | CWrite e _ _ | CRead e _ _ => Some e
  | CAlloc _ _ | CSync => None
  end.

(** The arguments of one operation. *)
Definition args_ok (live : list kes_extent_descriptor) (c : call) : Prop :=
  (forall e, extent_arg c = Some e -> e ∈ live) /\
  match c with
  | CAlloc req _ => request_ok req
  | CWrite _ offset data =>
      Forall is_byte data /\ 0 <= offset /\ offset + Z.of_nat (length data) < 2 ^ 64
  | CRead _ offset size => 0 <= offset /\ 0 <= size /\ offset + size < 2 ^ 64
  | CFree _ | CSync => True
  end.

(** Two operations under way at the same time. *)
Definition compatible (c c' : call) : Prop :=
  forall e, c = CFree e \/ c' = CFree e -> extent_arg c = Some e -> extent_arg c' ≠ Some e.

Definition call_allowed (procs : gmap Z process) (live : list kes_extent_descriptor) (c : call)
    : Prop :=
  args_ok live c /\
  forall fd sto c' p, procs !! fd = Some (Busy sto c' p) -> compatible c c'.

(** ** Steps *)

(** The extents in use after an operation returned. *)
Definition live_after (sto : kes_storage) (l : label) (live : list kes_extent_descriptor)
    : list kes_extent_descriptor :=
  match l with
  | LAlloc _ _ code e => live_alloc code e live
  | LFree _ e _ => if sto_readonly sto then live else live_free e live
  | _ => live
  end.

(** The process [fd] has reached [p]: the operation returns if that is all. *)
Definition settle (w : world) (procs : gmap Z process) (live : list kes_extent_descriptor)
    (fd : Z) (sto : kes_storage) (c : call) (p : M (label * kes_storage)) : option label * isys :=
  match p with
  | Ret (l, sto') => (Some l, mkISys w (<[fd := Idle sto']> procs) (live_after sto l live))
  | _ => (None, mkISys w (<[fd := Busy sto c p]> procs) live)
  end.

(** [EKill]: the process ends in the middle of an operation, or in none. *)
Inductive event :=
  | EStart (fd : Z) (c : call)
  | ECall (fd : Z) (sc : syscall) (f : fault)
  | EKill (fd : Z) (c : option call).

Definition call_of (pr : process) : option call :=
  match pr with Idle _ => None | Busy _ c _ => Some c end.

(** What a process was giving back when it ended is nobody's. *)
Definition given_up (c : option call) (live : list kes_extent_descriptor)
    : list kes_extent_descriptor :=
  match c with Some (CFree e) => live_free e live | _ => live end.

(** The next system call of a program, if it does not have to wait. *)
Definition advance {A} (p : M A) (f : fault) (w : world) : option (syscall * M A * world) :=
  match p with
  | Sys sc k =>
      match perform sc f w with
      | Some (b, w') => Some (sc, k b, w')
      | None => None
      end
  | _ => None
  end.

(** A step: what happens, and the outcome of the operation that thereby
    returns, if one does. *)
Inductive istep : isys -> event * option label -> isys -> Prop :=
  | IStart w procs live fd sto c r :
      procs !! fd = Some (Idle sto) -> call_allowed procs live c ->
      settle w procs live fd sto c (call_prog fd sto c) = r ->
      istep (mkISys w procs live) (EStart fd c, r.1) r.2
  | ICall w procs live fd sto c p f sc p' w' r :
      procs !! fd = Some (Busy sto c p) -> advance p f w = Some (sc, p', w') ->
      settle w' procs live fd sto c p' = r ->
      istep (mkISys w procs live) (ECall fd sc f, r.1) r.2
  (* of a process that ends nothing remains but what it has written: the
     kernel closes its descriptor, and with it releases its lock *)
  | IKill w procs live fd pr :
      procs !! fd = Some pr ->
      istep (mkISys w procs live) (EKill fd (call_of pr), None)
        (mkISys (do_close fd w) (delete fd procs) (given_up (call_of pr) live)).

(** The processes of a state of [System], before any of them calls. *)
Definition all_idle (s : sys) : isys :=
  mkISys (s_world s) (Idle <$> s_handles s) (s_live s).

(** The outcomes of a trace of [System], which also plans the faults. *)
Definition outcome_of (l : label) : option label :=
  match l with LFaults _ => None | _ => Some l end.

(** [l] is an outcome of the call [c]. *)
Definition label_of (fd : Z) (c : call) (l : label) : Prop :=
  match c, l with
  | CAlloc req _, LAlloc fd' req' _ _ => fd' = fd /\ req' = req
  | CFree e, LFree fd' e' _ => fd' = fd /\ e' = e
  | CWrite e offset data, LWrite fd' e' offset' data' _ =>
      fd' = fd /\ e' = e /\ offset' = offset /\ data' = data
  | CRead e offset size, LRead fd' e' offset' size' _ _ =>
      fd' = fd /\ e' = e /\ offset' = offset /\ size' = size
  | CSync, LSync fd' _ => fd' = fd
  | _, _ => False
  end.

(** A sequence of operations accounts for what was observed: the outcomes are
    those seen, in the order in which they were seen; and of a process that
    was killed at most the operation it was in took effect, just before its
    end. *)
Inductive explains : list label -> list (event * option label) -> Prop :=
  | ex_nil : explains [] []
  | ex_start ls fd c r evs :
      explains ls evs -> explains (option_list r ++ ls) ((EStart fd c, r) :: evs)
  | ex_call ls fd sc f r evs :
      explains ls evs -> explains (option_list r ++ ls) ((ECall fd sc f, r) :: evs)
  | ex_kill ls fd c lost evs :
      (forall l, lost = Some l -> exists c', c = Some c' /\ label_of fd c' l) ->
      explains ls evs -> explains (option_list lost ++ LKill fd :: ls) ((EKill fd c, None) :: evs).

Definition is_kill (ev : event) : bool := match ev with EKill _ _ => true | _ => false end.

(** Nobody is inside an operation. *)
Definition quiescent (i : isys) : Prop :=
  forall fd pr, i_procs i !! fd = Some pr -> pr = Idle (handle_of pr).
End interleave.
