(* ===== verification/Critical.v ===== *)
(** * A program's own view of its file, and critical sections

    An operation only uses the descriptor of its handle, so its effect on the
    world is its effect on the content of one file and on one open file
    description.  In that view: running a prefix of a program ([lrun]);
    programs that only touch descriptor and bitmap ([confined], [critical]);
    and the two facts that make interleaving harmless, a prefix of a critical
    section commutes with a write to the user area and leaves that area
    alone. *)
From S2P Require Import Prelude Types Posix PosixFacts Crc Bitmap BitmapFacts Codec Storage Layout.

(** ** System calls on one descriptor *)

Definition lperform (c : syscall) (flt : fault) (f : list Z) (o : ofd)
    : answer c * (list Z * ofd) :=
  match c return answer c * (list Z * ofd) with
  | Calloc n => (do_calloc n flt, (f, o))
  | Mutex_init => (do_mutex_init flt, (f, o))
  | Open _ _ => (-1, (f, o))
  | Close _ => (tt, (f, o))
  | Lseek _ off =>
      match flt with
      | FErr => (-1, (f, o))
      | _ => if off <? 0 then (-1, (f, o)) else (off, (f, set_pos off o))
      end
  | Read _ n =>
      match flt with
      | FErr => ((-1, []), (f, o))
      | _ => let bs := slice (Z.to_nat (ofd_pos o)) (Z.to_nat (limit flt n)) f in
             let k := Z.of_nat (length bs) in
             ((k, bs), (f, set_pos (ofd_pos o + k) o))
      end
  | Write _ bs =>
      match flt with
      | FErr => (-1, (f, o))
      | _ => if negb (ofd_writable o) then (-1, (f, o))
             else
               let bs' := take (Z.to_nat (limit flt (Z.of_nat (length bs)))) bs in
               let k := Z.of_nat (length bs') in
               (k, (if k =? 0 then f else splice (Z.to_nat (ofd_pos o)) bs' f,
                    set_pos (ofd_pos o + k) o))
      end
  | Fsync _ => (do_fsync flt, (f, o))
  | Flock _ m => match flt with FErr => (-1, (f, o)) | _ => (0, (f, set_lock (Some m) o)) end
  | Flock_un _ => (tt, (f, set_lock None o))
  end.

(** The calls of a handle on descriptor [fd]. *)
Definition local_call (fd : Z) (c : syscall) : Prop :=
  match c with
  | Lseek fd' _ | Read fd' _ | Write fd' _ | Fsync fd' | Flock fd' _ | Flock_un fd' => fd' = fd
  | _ => False
  end.
#[export] Instance local_call_dec fd c : Decision (local_call fd c).
Proof. destruct c; cbn; apply _. Defined.

Definition put_local (fd : Z) (f : list Z) (o : ofd) (w : world) : world :=
  mkWorld (<[ofd_path o := f]> (w_files w)) (<[fd := o]> (w_fds w)) (w_next_fd w) (w_script w).

Lemma put_local_id fd f o w :
  w_fds w !! fd = Some o -> w_files w !! ofd_path o = Some f -> put_local fd f o w = w.
Proof. intros Ho Hf. unfold put_local. rewrite !insert_id by done. by destruct w. Qed.

Lemma put_local_same fd f o w :
  w_files w !! ofd_path o = Some f -> put_local fd f o w = set_fds (<[fd := o]> (w_fds w)) w.
Proof. intros Hf. unfold put_local, set_fds. by rewrite insert_id. Qed.

Lemma lperform_path c flt f o : ofd_path (lperform c flt f o).2.2 = ofd_path o.
Proof. destruct c, flt; cbn; repeat case_match; done. Qed.

(** The kernel's view and the program's agree, unless the call has to wait. *)
Lemma perform_local fd c flt w o f :
  local_call fd c -> w_fds w !! fd = Some o -> w_files w !! ofd_path o = Some f ->
  (forall m, c = Flock fd m -> flt ≠ FErr -> ~ lock_conflict w fd o m) ->
  perform c flt w =
  Some ((lperform c flt f o).1,
        put_local fd (lperform c flt f o).2.1 (lperform c flt f o).2.2 w).
Proof.
  intros Hc Ho Hf Hl. pose proof (put_local_id fd f o w Ho Hf) as Hid.
  destruct c; cbn in Hc; try done; subst;
    cbn [perform lperform]; unfold do_lseek, do_read, do_write, do_flock, do_flock_un;
    rewrite ?Ho, ?Hf; cbn [default].
  - destruct flt; cbn [fst snd]; rewrite ?Hid; try done;
      (case_match; cbn [fst snd]; [by rewrite Hid|by rewrite put_local_same]).
  - destruct flt; cbn [fst snd]; rewrite ?Hid; try done; by rewrite put_local_same.
  - destruct flt; cbn [fst snd]; rewrite ?Hid; try done;
      (case_match; cbn [fst snd]; [by rewrite Hid|]);
      (case_match; [rewrite put_local_same by done; by destruct w|done]).
  - cbn [fst snd]. by rewrite Hid.
  - destruct flt; cbn [fst snd]; rewrite ?Hid; try done;
      (rewrite decide_False by (by apply Hl); by rewrite put_local_same).
  - cbn [fst snd]. by rewrite put_local_same.
Qed.

(** ** Prefixes of a program *)

Section runs.
Context (fd : Z) {A : Type}.
Implicit Types (p : M A) (f : list Z) (o : ofd) (flts : list fault).

(** The program after as many system calls as there are faults. *)
Fixpoint lrun p f o flts {struct flts} : option (M A * (list Z * ofd)) :=
  match flts with
  | [] => Some (p, (f, o))
  | flt :: r =>
      match p with
      | Sys c k =>
          if decide (local_call fd c) then
            let x := lperform c flt f o in lrun (k x.1) x.2.1 x.2.2 r
          else None
      | _ => None
      end
  end.

Lemma lrun_snoc p f o flts c k f' o' flt :
  lrun p f o flts = Some (Sys c k, (f', o')) -> local_call fd c ->
  lrun p f o (flts ++ [flt]) =
  Some (k (lperform c flt f' o').1, (lperform c flt f' o').2).
Proof using.
  intros Hr Hc. revert p f o Hr. induction flts as [|flt0 r IH]; intros p f o Hr; cbn in *.
  - injection Hr as -> -> ->. rewrite decide_True by done. by rewrite <-surjective_pairing.
  - destruct p as [|c0 k0| |]; try done. destruct (decide _); [|done]. by apply IH.
Qed.

Lemma lrun_path p f o flts x : lrun p f o flts = Some x -> ofd_path x.2.2 = ofd_path o.
Proof using.
  revert p f o. induction flts as [|flt r IH]; intros p f o Hr; cbn in Hr; [by injection Hr as <-|].
  destruct p as [|c k| |]; try done. destruct (decide _); [|done].
  rewrite (IH _ _ _ Hr). apply lperform_path.
Qed.

Lemma lrun_cons c k f o flt flts :
  local_call fd c ->
  lrun (Sys c k) f o (flt :: flts) =
  lrun (k (lperform c flt f o).1) (lperform c flt f o).2.1 (lperform c flt f o).2.2 flts.
Proof using. intros Hc. cbn [lrun]. by rewrite decide_True. Qed.

Lemma lrun_app p f o flts1 flts2 p1 f1 o1 :
  lrun p f o flts1 = Some (p1, (f1, o1)) -> lrun p f o (flts1 ++ flts2) = lrun p1 f1 o1 flts2.
Proof using.
  revert p f o. induction flts1 as [|flt r IH]; intros p f o Hr; cbn in *.
  - by injection Hr as -> -> ->.
  - destruct p as [|c k| |]; try done. destruct (decide _); [|done]. by apply IH.
Qed.

(** Where nobody else holds a lock, the program alone with the world does the
    same. *)
Lemma lrun_run path p f o flts p' f' o' w :
  w_fds w !! fd = Some o -> ofd_path o = path -> w_files w !! path = Some f ->
  unlocked_elsewhere w fd path ->
  lrun p f o flts = Some (p', (f', o')) ->
  exists script, forall rest,
    run p (set_script (script ++ rest) w) = run p' (put_local fd f' o' (set_script rest w)).
Proof using.
  intros Ho <- Hf Hun Hr. revert p f o w Ho Hf Hun Hr.
  induction flts as [|flt r IH]; intros p f o w Ho Hf Hun Hr; cbn in Hr.
  - injection Hr as -> -> ->. exists []. intros rest. cbn. by rewrite put_local_id.
  - destruct p as [|c k| |]; try done. destruct (decide (local_call fd c)) as [Hc|]; [|done].
    set (x := lperform c flt f o) in *. pose proof (lperform_path c flt f o) as Hp.
    fold x in Hp.
    destruct (IH (k x.1) x.2.1 x.2.2 (put_local fd x.2.1 x.2.2 w)) as [script Hs].
    { cbn. apply lookup_insert_eq. } { cbn. apply lookup_insert_eq. }
    { intros fd' a Hne. unfold fd_attrs. cbn. rewrite fmap_insert, lookup_insert_ne by done.
      rewrite Hp. by apply Hun. }
    { done. }
    exists (if may_fail c then flt :: script else script). intros rest.
    assert (forall s, set_script s (put_local fd x.2.1 x.2.2 w) =
                      put_local fd x.2.1 x.2.2 (set_script s w)) as Hcomm by done.
    assert (forall s flt', lperform c flt' f o = x ->
      perform c flt' (set_script s w) = Some (x.1, set_script s (put_local fd x.2.1 x.2.2 w)))
      as Hperf.
    { intros s flt' E. rewrite (perform_local fd c flt' (set_script s w) o f Hc Ho Hf), E; [done|].
      intros m _ _. apply no_lock_conflict. intros fd' a. apply Hun. }
    assert (run (Sys c k) (set_script ((if may_fail c then flt :: script else script) ++ rest) w) =
            run (k x.1) (set_script (script ++ rest) (put_local fd x.2.1 x.2.2 w))) as ->.
    { cbn [run]. unfold draw. destruct (may_fail c) eqn:Em; cbn [w_script set_script app].
      - change (set_script (script ++ rest) (set_script (flt :: script ++ rest) w))
          with (set_script (script ++ rest) w).
        by rewrite (Hperf _ flt eq_refl).
      - destruct c; try done; cbn in Hc; try done; by rewrite (Hperf _ FNone eq_refl). }
    rewrite (Hs rest), Hcomm. f_equal. unfold put_local. cbn.
    pose proof (lrun_path _ _ _ _ _ Hr) as Hp'. cbn in Hp'. rewrite Hp', Hp.
    by rewrite !insert_insert_eq.
Qed.
End runs.

(** ** Programs that only touch the metadata *)

Section critical.
Context (d : kes_storage_descriptor) (fd : Z).
Implicit Types (f : list Z) (o : ofd).

(** Bytes of the descriptor, or of the bitmap. *)
Definition in_metadata (p n : Z) : Prop :=
  0 <= p /\ (p + n <= sizeof_desc \/ map_offset d <= p /\ p + n <= map_offset d + map_bytes d).

(** Bytes between the two. *)
Definition in_user_area (p n : Z) : Prop := sizeof_desc <= p /\ p + n <= map_offset d.

Definition metadata_call (o : ofd) (c : syscall) : Prop :=
  match c with
  | Lseek fd' _ | Fsync fd' => fd' = fd
  | Read fd' n => fd' = fd /\ 0 <= n /\ in_metadata (ofd_pos o) n
  | Write fd' bs => fd' = fd /\ in_metadata (ofd_pos o) (Z.of_nat (length bs))
  | _ => False
  end.

Lemma metadata_local o c : metadata_call o c -> local_call fd c.
Proof using. destruct c; cbn; tauto. Qed.

(** Run from content [f] and description [o], whatever the faults, [p] only
    calls on the metadata, and when it is done [Q] holds. *)
Fixpoint confined {A} (p : M A) f o (Q : A -> list Z -> ofd -> Prop) {struct p} : Prop :=
  match p with
  | Ret a => Q a f o
  | Sys c k =>
      metadata_call o c /\
      forall flt, let x := lperform c flt f o in confined (k x.1) x.2.1 x.2.2 Q
  | Stuck | Hang => True
  end.

(** The rest of a critical section: calls on the metadata, then the unlocking
    of the file, with which the operation ends. *)
Fixpoint critical {A} (p : M A) f o {struct p} : Prop :=
  match p with
  | Ret _ => False
  | Sys c k =>
      c = Flock_un fd /\ (forall b, exists a, k b = Ret a) \/
      metadata_call o c /\
      forall flt, let x := lperform c flt f o in critical (k x.1) x.2.1 x.2.2
  | Stuck | Hang => True
  end.

Lemma confined_mono {A} (p : M A) f o (P Q : A -> list Z -> ofd -> Prop) :
  confined p f o P -> (forall a f' o', P a f' o' -> Q a f' o') -> confined p f o Q.
Proof using.
  revert f o. induction p as [a|c k IH| |]; intros f o Hp HPQ; cbn in *; auto.
  destruct Hp as [Hc Hk]. split; [done|]. intros flt. apply IH; [apply Hk|done].
Qed.

Lemma confined_bind {A B} (m : M A) (k : A -> M B) f o Q :
  confined m f o (fun a f' o' => confined (k a) f' o' Q) -> confined (bind m k) f o Q.
Proof using.
  revert f o. induction m as [a|c j IH| |]; intros f o Hm; cbn in *; auto.
  destruct Hm as [Hc Hj]. split; [done|]. intros flt. apply IH, Hj.
Qed.

Lemma critical_bind {A B} (m : M A) (k : A -> M B) f o :
  confined m f o (fun a f' o' => critical (k a) f' o') -> critical (bind m k) f o.
Proof using.
  revert f o. induction m as [a|c j IH| |]; intros f o Hm; cbn in *; auto.
  right. destruct Hm as [Hc Hj]. split; [done|]. intros flt. apply IH, Hj.
Qed.

Lemma critical_leave {A} (a : A) f o : critical (flock_un fd ;;; ret a) f o.
Proof using. cbn. left. split; [done|]. intros b. by exists a. Qed.

(** If every call fails, the section is left with the file as it was. *)
Lemma metadata_fails o c f : metadata_call o c -> (lperform c FErr f o).2 = (f, o).
Proof using. by destruct c. Qed.

Lemma critical_fails {A} (p : M A) f o :
  critical p f o ->
  exists n p' o', lrun fd p f o (replicate n FErr) = Some (p', (f, o')) /\
    match p' with Sys _ _ => False | _ => True end.
Proof using.
  revert f o. induction p as [a|c k IH| |]; intros f o Hp; [done| |by exists 0%nat, Stuck, o|by exists 0%nat, Hang, o].
  destruct Hp as [[-> Hret]|[Hc Hk]].
  - destruct (Hret tt) as [a Ea]. exists 1%nat, (Ret a), (set_lock None o). cbn.
    by rewrite decide_True, Ea.
  - specialize (Hk FErr). cbv zeta in Hk. rewrite (metadata_fails o c f Hc) in Hk.
    destruct (IH _ _ _ Hk) as (n & p' & o' & Hr & Hp'). exists (S n), p', o'. split; [|done].
    cbn [replicate]. rewrite lrun_cons by (by eapply metadata_local).
    by rewrite (metadata_fails o c f Hc).
Qed.

(** Values and memory accesses in between. *)
Lemma confined_lift {A} (x : option A) f o (Q : A -> list Z -> ofd -> Prop) :
  (forall a, x = Some a -> Q a f o) -> confined (lift x) f o Q.
Proof using. intros HQ. destruct x; cbn; auto. Qed.

Lemma confined_fsync f o (Q : Z -> list Z -> ofd -> Prop) :
  (forall r, Q r f o) -> confined (fsync fd) f o Q.
Proof using. intros HQ. cbn. split; [done|]. intros flt. apply HQ. Qed.

(** Seek to some place of the metadata, give up if that fails, transfer bytes
    there. *)
Lemma confined_seek_read {A} off n (K1 : M A) (K2 : Z * list Z -> M A) f o Q :
  0 <= n -> in_metadata off n -> confined K1 f o Q ->
  (forall k bs o', confined (K2 (k, bs)) f o' Q) ->
  confined (let* x := lseek fd off in if negb (x =? off) then K1 else bind (sys_read fd n) K2) f o Q.
Proof using.
  intros Hn Hin H1 H2. cbn. split; [done|].
  assert (confined (bind (sys_read fd n) K2) f (set_pos off o) Q) as Hgo.
  { cbn. split; [done|]. intros [| |m]; apply H2. }
  pose proof (proj1 Hin). destruct (Z.ltb_spec off 0); [lia|].
  intros [| |m]; cbn [fst snd]; rewrite ?Z.eqb_refl; cbn [negb]; try exact Hgo.
  destruct (Z.eqb_spec (-1) off); [lia|]. exact H1.
Qed.

Lemma confined_seek_write {A} off bs (K1 : M A) (K2 : Z -> M A) f o Q :
  in_metadata off (Z.of_nat (length bs)) -> confined K1 f o Q ->
  (forall k f' o', confined (K2 k) f' o' Q) ->
  confined (let* x := lseek fd off in if negb (x =? off) then K1 else bind (sys_write fd bs) K2) f o Q.
Proof using.
  intros Hin H1 H2. cbn. split; [done|].
  assert (confined (bind (sys_write fd bs) K2) f (set_pos off o) Q) as Hgo.
  { cbn. split; [done|]. intros [| |m]; cbn [fst snd]; repeat case_match; apply H2. }
  pose proof (proj1 Hin). destruct (Z.ltb_spec off 0); [lia|].
  intros [| |m]; cbn [fst snd]; rewrite ?Z.eqb_refl; cbn [negb]; try exact Hgo.
  destruct (Z.eqb_spec (-1) off); [lia|]. exact H1.
Qed.

(** What a sequential specification says of the result holds at the end. *)
Lemma confined_wp {A} path (p : M A) f o w (P : A -> list Z -> ofd -> Prop)
    (Q : A -> world -> Prop) :
  w_fds w !! fd = Some o -> ofd_path o = path -> w_files w !! path = Some f ->
  confined p f o P -> (forall script, wp p (set_script script w) Q) ->
  confined p f o (fun a f' o' => P a f' o' /\ exists w', Q a w').
Proof using.
  intros Ho <- Hf Hp Hwp. revert f o w Ho Hf Hp Hwp.
  induction p as [a|c k IH| |]; intros f o w Ho Hf Hp Hwp; cbn in *; auto.
  { split; [done|]. eexists. exact (Hwp []). }
  destruct Hp as [Hc Hk]. split; [done|]. intros flt. specialize (Hk flt).
  pose proof (lperform_path c flt f o) as Hpath.
  set (x := lperform c flt f o) in *.
  eapply (IH _ _ _ (put_local fd x.2.1 x.2.2 w)); [cbn; apply lookup_insert_eq..|done|].
  intros script. specialize (Hwp (flt :: script)). unfold wp in Hwp. cbn [run] in Hwp.
  assert (may_fail c = true) as Hm by (by destruct c). unfold draw in Hwp. rewrite Hm in Hwp.
  cbn [w_script set_script] in Hwp.
  rewrite (perform_local fd c flt _ o f) in Hwp;
    [exact Hwp|by eapply metadata_local|done|done|by intros m ->].
Qed.
End critical.

(** ** Critical sections and writes to the user area commute *)

Section commute.
Context (d : kes_storage_descriptor) (fd : Z) (Hd : layout_ok d).
Implicit Types (f : list Z) (o : ofd).

(** The file reaches to the end of the bitmap. *)
Definition long (f : list Z) : Prop := map_offset d + map_bytes d <= Z.of_nat (length f).

(** What the processes outside the critical section see of a change inside. *)
Definition same_outside f f' : Prop := length f' = length f /\ user_area_same d f f'.

#[export] Instance same_outside_preorder : PreOrder same_outside.
Proof using. split; [by intros f|]. intros f g h [L1 U1] [L2 U2]. split; [congruence|by etrans]. Qed.

Lemma limit_take_length flt (bs : list Z) :
  Z.of_nat (length (take (Z.to_nat (limit flt (Z.of_nat (length bs)))) bs)) <= Z.of_nat (length bs).
Proof using. rewrite length_take. lia. Qed.

Lemma lperform_metadata flt f o c :
  metadata_call d fd o c -> long f -> same_outside f (lperform c flt f o).2.1.
Proof using Hd.
  intros Hc Hl. unfold long in Hl. pose proof (map_offset_range d Hd). pose proof (map_bytes_pos d Hd).
  unfold sizeof_desc in *.
  destruct c as [| | | | | |fd' bs| | |]; cbn in Hc; try done; cbn [lperform];
    try (destruct flt; cbn; repeat case_match; done).
  destruct Hc as (_ & Hpos & Hin). unfold sizeof_desc in Hin.
  assert (forall flt', same_outside f
    (let bs' := take (Z.to_nat (limit flt' (Z.of_nat (length bs)))) bs in
     if Z.of_nat (length bs') =? 0 then f else splice (Z.to_nat (ofd_pos o)) bs' f)) as Hgo.
  { intros flt'. pose proof (limit_take_length flt' bs) as Hle. cbv zeta. case_match; [done|].
    split; [rewrite length_splice; lia|]. intros p n Hp Hn. apply slice_splice_disjoint; lia. }
  destruct flt; cbn [fst snd]; try done; (case_match; cbn [fst snd]; [done|]).
  - apply (Hgo FNone).
  - apply (Hgo (FShort n)).
Qed.

Lemma lperform_lock flt f o c :
  metadata_call d fd o c -> ofd_lock (lperform c flt f o).2.2 = ofd_lock o.
Proof using. intros Hc. destruct c, flt; cbn in Hc |- *; try done; repeat case_match; done. Qed.

Lemma same_outside_long f f' : same_outside f f' -> long f -> long f'.
Proof using. intros [L _]. unfold long. by rewrite L. Qed.

Lemma lperform_commute flt f o c pos bs :
  metadata_call d fd o c -> long f -> in_user_area d pos (Z.of_nat (length bs)) ->
  let x := lperform c flt f o in
  lperform c flt (splice (Z.to_nat pos) bs f) o = (x.1, (splice (Z.to_nat pos) bs x.2.1, x.2.2)).
Proof using Hd.
  intros Hc Hl [Hp Hb]. unfold long in Hl. pose proof (map_offset_range d Hd).
  pose proof (map_bytes_pos d Hd). unfold sizeof_desc in *.
  destruct c as [| | | | |fd' n|fd' bs'| | |]; cbn in Hc; try done; cbn [lperform]; cbv zeta.
  - destruct flt; cbn [fst snd]; try done; by case_match.
  - destruct Hc as (_ & Hn & Hpos & Hin). unfold sizeof_desc in Hin.
    assert (forall flt', slice (Z.to_nat (ofd_pos o)) (Z.to_nat (limit flt' n))
              (splice (Z.to_nat pos) bs f) =
            slice (Z.to_nat (ofd_pos o)) (Z.to_nat (limit flt' n)) f) as Hgo.
    { intros flt'. pose proof (limit_range flt' n Hn). apply slice_splice_disjoint; lia. }
    destruct flt; cbn [fst snd]; try done.
    + by rewrite (Hgo FNone).
    + by rewrite (Hgo (FShort n0)).
  - destruct Hc as (_ & Hpos & Hin). unfold sizeof_desc in Hin.
    assert (forall xs, Z.of_nat (length xs) <= Z.of_nat (length bs') ->
      splice (Z.to_nat (ofd_pos o)) xs (splice (Z.to_nat pos) bs f) =
      splice (Z.to_nat pos) bs (splice (Z.to_nat (ofd_pos o)) xs f)) as Hgo
      by (intros xs Hxs; apply splice_comm; lia).
    destruct flt; cbn [fst snd]; try done; (case_match; cbn [fst snd]; [done|]);
      (case_match; cbn [fst snd]; [done|]); rewrite Hgo by apply limit_take_length; done.
Qed.

(** The same for any part of a critical section that has not left it. *)
Lemma lrun_critical {A} (p : M A) f o flts c k f' o' :
  critical d fd p f o -> long f -> lrun fd p f o flts = Some (Sys c k, (f', o')) ->
  critical d fd (Sys c k) f' o' /\ same_outside f f' /\ ofd_lock o' = ofd_lock o /\
  forall pos bs, in_user_area d pos (Z.of_nat (length bs)) ->
    lrun fd p (splice (Z.to_nat pos) bs f) o flts =
    Some (Sys c k, (splice (Z.to_nat pos) bs f', o')).
Proof using Hd.
  revert p f o. induction flts as [|flt r IH]; intros p f o Hp Hl Hr.
  { cbn in Hr. injection Hr as -> -> ->. done. }
  destruct p as [|c0 k0| |]; try done. cbn [lrun] in *.
  destruct (decide (local_call fd c0)) as [Hloc|]; [|done].
  destruct Hp as [[-> Hret]|[Hc Hk]].
  { destruct (Hret (lperform (Flock_un fd) flt f o).1) as [a Ha]. cbv zeta in Hr.
    rewrite Ha in Hr. by destruct r. }
  specialize (Hk flt). pose proof (lperform_metadata flt f o c0 Hc Hl) as Hsame.
  cbv zeta in *. destruct (IH _ _ _ Hk) as (H1 & H2 & Hlock & H3);
    [by eapply same_outside_long|exact Hr|].
  split_and!; [done|by etrans|by rewrite Hlock, (lperform_lock flt f o c0 Hc)|]. intros pos bs Hin.
  rewrite lperform_commute by done. cbn [fst snd]. by apply H3.
Qed.

(** A call on the user area sees the same from outside and from inside a
    critical section. *)
Lemma lperform_user_read flt f f' o n :
  in_user_area d (ofd_pos o) n -> same_outside f f' ->
  lperform (Read fd n) flt f' o = ((lperform (Read fd n) flt f o).1, (f', (lperform (Read fd n) flt f o).2.2)).
Proof using.
  intros [Hp Hn] [_ Hs]. cbn [lperform]. unfold sizeof_desc in *.
  assert (forall flt', slice (Z.to_nat (ofd_pos o)) (Z.to_nat (limit flt' n)) f' =
                       slice (Z.to_nat (ofd_pos o)) (Z.to_nat (limit flt' n)) f) as Hgo.
  { intros flt'. destruct (Z.le_gt_cases 0 n).
    - pose proof (limit_range flt' n ltac:(done)). apply Hs; lia.
    - replace (Z.to_nat (limit flt' n)) with 0%nat; [done|]. destruct flt'; cbn; lia. }
  destruct flt as [| |m]; cbn [fst snd]; [|done|].
  - by rewrite (Hgo FNone).
  - by rewrite (Hgo (FShort m)).
Qed.

(** A write there, seen from either side: the same bytes at the same place. *)
Lemma lperform_user_write flt f f' o bs :
  exists xs, Z.of_nat (length xs) <= Z.of_nat (length bs) /\
  lperform (Write fd bs) flt f o =
    ((lperform (Write fd bs) flt f o).1,
     ((if (length xs =? 0)%nat then f else splice (Z.to_nat (ofd_pos o)) xs f),
      (lperform (Write fd bs) flt f o).2.2)) /\
  lperform (Write fd bs) flt f' o =
    ((lperform (Write fd bs) flt f o).1,
     ((if (length xs =? 0)%nat then f' else splice (Z.to_nat (ofd_pos o)) xs f'),
      (lperform (Write fd bs) flt f o).2.2)).
Proof using.
  assert (forall (xs : list Z) (g : list Z),
    (if Z.of_nat (length xs) =? 0 then g else splice (Z.to_nat (ofd_pos o)) xs g) =
    (if (length xs =? 0)%nat then g else splice (Z.to_nat (ofd_pos o)) xs g)) as Hif.
  { intros xs g. destruct xs; done. }
  cbn [lperform]. destruct (ofd_writable o); cbn [negb].
  - destruct flt as [| |m]; cbn [fst snd]; cbv zeta.
    + eexists (take _ bs). split; [apply (limit_take_length FNone)|]. by rewrite !Hif.
    + exists []. split; [cbn; lia|done].
    + eexists (take _ bs). split; [apply (limit_take_length (FShort m))|]. by rewrite !Hif.
  - exists []. split; [cbn; lia|]. by destruct flt.
Qed.
End commute.
