(* ===== verification/CallShapes.v ===== *)
(** * The system calls each operation makes

    Whatever the state of the file, an operation returns at once, or locks the
    file and stays in a critical section until its last system call, or seeks
    to a place of its extent and transfers bytes there with its last one. *)
From S2P Require Import Prelude Types Posix PosixFacts Crc Bitmap BitmapFacts Codec Storage Layout.
From S2P Require Import StorageFacts ExtentIO Lifecycle System SystemFacts Interleave Critical.

(** ** Shapes *)

Section shapes.
Context (d : kes_storage_descriptor) (fd : Z).

(** Every answer but [r0] ends the program. *)
Definition ends_unless {A R} (r0 : R) (k : R -> M A) : Prop := forall r, r ≠ r0 -> exists a, k r = Ret a.
Definition ends {A R} (k : R -> M A) : Prop := forall r, exists a, k r = Ret a.

Inductive shape {A} (f : list Z) (o : ofd) : M A -> Prop :=
  | sh_ret a : shape f o (Ret a)
  | sh_lock k :
      ends_unless 0 k -> critical d fd (k 0) f (set_lock (Some LOCK_EX) o) ->
      shape f o (Sys (Flock fd LOCK_EX) k)
  | sh_read off n k k2 :
      0 <= n -> in_user_area d off n -> ends_unless off k -> k off = Sys (Read fd n) k2 -> ends k2 ->
      shape f o (Sys (Lseek fd off) k)
  | sh_write off bs k k2 :
      in_user_area d off (Z.of_nat (length bs)) -> ends_unless off k ->
      k off = Sys (Write fd bs) k2 -> ends k2 -> shape f o (Sys (Lseek fd off) k).

(** The result may be repackaged. *)
Lemma critical_map {A B} (p : M A) (K : A -> M B) f o :
  ends K -> critical d fd p f o -> critical d fd (bind p K) f o.
Proof using.
  intros HK. revert f o. induction p as [a|c k IH| |]; intros f o Hp; cbn in *; try done.
  destruct Hp as [[-> Hk]|[Hc Hk]]; [left|right].
  - split; [done|]. intros b. destruct (Hk b) as [a ->]. apply HK.
  - split; [done|]. intros flt. apply IH, Hk.
Qed.

Lemma ends_unless_map {A B R} (r0 : R) (k : R -> M A) (K : A -> M B) :
  ends K -> ends_unless r0 k -> ends_unless r0 (fun r => bind (k r) K).
Proof using. intros HK Hk r Hr. destruct (Hk r Hr) as [a ->]. apply HK. Qed.

Lemma ends_map {A B R} (k : R -> M A) (K : A -> M B) :
  ends K -> ends k -> ends (fun r => bind (k r) K).
Proof using. intros HK Hk r. destruct (Hk r) as [a ->]. apply HK. Qed.

Lemma shape_map {A B} (p : M A) (K : A -> M B) f o : ends K -> shape f o p -> shape f o (bind p K).
Proof using.
  intros HK [a|k H1 H2|off n k k2 Hn Hin H1 H2 H3|off bs k k2 Hin H1 H2 H3]; cbn [bind].
  - destruct (HK a) as [b ->]. constructor.
  - constructor; [by apply (ends_unless_map 0)|by apply critical_map].
  - eapply (sh_read f o off n _ (fun b => bind (k2 b) K)); try done.
    + by apply (ends_unless_map off).
    + by rewrite H2.
    + by apply (ends_map (R := Z * list Z)).
  - eapply (sh_write f o off bs _ (fun b => bind (k2 b) K)); try done.
    + by apply (ends_unless_map off).
    + by rewrite H2.
    + by apply (ends_map (R := Z)).
Qed.

Lemma shape_lock {A} (K1 : A) (K2 : M A) f o :
  critical d fd K2 f (set_lock (Some LOCK_EX) o) ->
  shape f o (let* l := flock fd LOCK_EX in if negb (l =? 0) then ret K1 else K2).
Proof using.
  intros HK. cbn [bind flock syscall_tree]. constructor; [|exact HK].
  intros r Hr. destruct (Z.eqb_spec r 0); [done|]. cbn. by exists K1.
Qed.
End shapes.

Section calls.
Context `{Crc32c} (d : kes_storage_descriptor) (fd : Z) (Hd : layout_ok d).
Implicit Types (f : list Z) (o : ofd) (sto : kes_storage).

(** A world with that file and that description only. *)
Definition one_file (f : list Z) (o : ofd) : world :=
  mkWorld {[ ofd_path o := f ]} {[ fd := o ]} 0 [].

Lemma one_file_on f o script :
  on_file (set_script script (one_file f o)) fd (ofd_path o) (ofd_writable o) (ofd_lock o) f.
Proof using.
  split; [|apply lookup_singleton_eq]. unfold fd_attrs. cbn. by rewrite map_fmap_singleton, lookup_singleton_eq.
Qed.

Lemma confined_one_file {A} (p : M A) f o (P : A -> list Z -> ofd -> Prop) (Q : A -> world -> Prop) :
  confined d fd p f o P -> (forall script, wp p (set_script script (one_file f o)) Q) ->
  confined d fd p f o (fun a f' o' => P a f' o' /\ exists w', Q a w').
Proof using. apply (confined_wp d fd (ofd_path o)); [apply lookup_singleton_eq|done|apply lookup_singleton_eq]. Qed.

(** ** The two halves of a critical section *)

Lemma descriptor_metadata : in_metadata d 0 sizeof_desc.
Proof using. split; [done|by left]. Qed.

Lemma bitmap_metadata n : n <= map_bytes d -> in_metadata d (map_offset d) n.
Proof using Hd.
  pose proof (map_offset_range d Hd). unfold sizeof_desc in *. split; [lia|right; lia].
Qed.

Lemma confined_load_desc sto f o :
  handle_ok d sto -> sto_fd sto = fd -> disk_ok d f ->
  confined d fd (load_storage_descriptor sto) f o (fun r _ _ =>
    exists d', r.2 = set_desc d' sto /\ desc_ok d' /\ layout d' = layout d).
Proof using Hd.
  intros [_ Hdesc Hlay _] Hfd Hf.
  assert (confined d fd (load_storage_descriptor sto) f o (fun _ _ _ => True)) as Hc.
  { unfold load_storage_descriptor. rewrite Hfd.
    apply confined_seek_read; [done|apply descriptor_metadata|done|].
    intros k bs o'. cbv zeta. repeat case_match; done. }
  eapply confined_mono; [eapply (confined_one_file _ _ _ _ (fun r _ =>
    exists d', r.2 = set_desc d' sto /\ desc_ok d' /\ layout d' = layout d)); [exact Hc|]|].
  2:{ by intros a _ _ [_ [_ ?]]. }
  intros script. eapply load_desc_spec; [done|rewrite Hfd; apply one_file_on|apply Hf|].
  intros w' code d' _ Hd' Hpost. exists d'. split_and!; [done..|].
  by apply (load_desc_disk d _ _ _ _ _ Hd Hf Hdesc Hlay Hpost).
Qed.

Lemma confined_reload sto f o :
  handle_ok d sto -> sto_fd sto = fd -> disk_ok d f ->
  confined d fd (reload_metadata sto) f o (fun r _ _ =>
    handle_ok d r.2 /\ same_handle sto r.2 /\
    (r.1 = KES_SUCCESS -> exists bm, bitmap_of d bm /\ r.2 = reloaded_handle d f bm sto)).
Proof using Hd.
  intros Hh Hfd Hf. pose proof Hh as [H0 Hdesc Hlay (bm & Hbm & Hof)].
  pose proof (bitmap_of_bytes d bm Hof) as [Htb _]. pose proof (map_bytes_pos d Hd).
  pose proof (map_offset_range d Hd) as Hr. unfold sizeof_desc in Hr.
  assert (confined d fd (reload_metadata sto) f o (fun _ _ _ => True)) as Hc.
  { unfold reload_metadata. apply confined_bind. eapply confined_mono; [by apply confined_load_desc|].
    intros [code sto'] f' o' (d' & E & Hd' & Hlay'). cbn in E. subst sto'.
    case_match; [|done]. apply confined_bind. cbn [set_desc sto_bitmap sto_fd sto_desc].
    rewrite Hbm, Hfd, (bitmap_offset_layout d), bitmap_offset_exact by done.
    unfold kes_bitmap_load. destruct (Z.ltb_spec fd 0); [lia|].
    apply confined_seek_read; [lia|apply bitmap_metadata; lia|done|].
    intros k bs o''. case_match; [done|]. cbv zeta. case_match; [done|].
    apply confined_bind, confined_lift. done. }
  eapply confined_mono; [eapply (confined_one_file _ _ _ _ (fun r _ => handle_ok d r.2 /\
    same_handle sto r.2 /\
    (r.1 = KES_SUCCESS -> exists bm, bitmap_of d bm /\ r.2 = reloaded_handle d f bm sto))); [exact Hc|]|].
  2:{ by intros a _ _ [_ [_ ?]]. }
  intros script. eapply reload_spec; [done|done|rewrite Hfd; apply one_file_on|done|].
  intros w' code sto' _ Hh' Hs Hres. split_and!; [done..|]. cbn. intros ->.
  destruct Hres as [(_ & bm' & _ & ? & ?)|[? _]]; [by exists bm'|done].
Qed.

Lemma confined_persist sto f o :
  handle_ok d sto -> sto_fd sto = fd ->
  confined d fd (persist_metadata sto) f o (fun r _ _ => sto_fd r.2 = fd).
Proof using Hd.
  intros Hh Hfd. pose proof Hh as [H0 Hdesc Hlay (bm & Hbm & Hof)].
  pose proof (bitmap_of_bytes d bm Hof) as [Htb Hlen]. pose proof (map_bytes_pos d Hd).
  assert (bm_bytes bm = Some (bm_data bm)) as Hb.
  { unfold bm_bytes. destruct (Z.ltb_spec (Z.of_nat (length (bm_data bm))) (bm_total_bytes bm)); [lia|].
    by rewrite Htb, <-Hlen, Nat2Z.id, firstn_all. }
  unfold persist_metadata. apply confined_bind.
  rewrite Hbm, Hfd, (bitmap_offset_layout d), bitmap_offset_exact by done.
  unfold kes_bitmap_save. destruct (Z.ltb_spec fd 0); [lia|].
  rewrite Hb. cbn [lift]. change (bind (ret ?x) ?k) with (k x).
  apply confined_seek_write; [apply bitmap_metadata; lia|done|].
  intros k f1 o1. case_match; [done|]. cbn [confined ret]. rewrite Z.eqb_refl. cbn [negb].
  apply confined_bind. unfold refresh_checksum.
  rewrite Hbm, kes_bitmap_checksum_spec by apply Hof. cbn [lift]. change (bind (ret ?x) ?k) with (k x).
  cbn [confined ret]. rewrite Z.eqb_refl. cbn [negb].
  set (d' := set_checksum _ _). assert (desc_ok d') as Hd' by (by apply desc_ok_checksum).
  apply confined_bind. unfold save_storage_descriptor. cbn [sto_fd sto_desc set_desc]. rewrite Hfd.
  apply confined_seek_write; [|done|].
  { rewrite (length_encode_desc _ (proj1 (ok_reserved _ Hd'))). apply descriptor_metadata. }
  intros k' f2 o2. case_match; [done|]. cbn [confined ret]. rewrite Z.eqb_refl. cbn [negb].
  by apply confined_bind, confined_fsync.
Qed.

(** ** The operations *)

(** The unlocking with which the three locked operations end. *)
Lemma critical_unlock {A} sto (g : bool -> A) f o :
  sto_fd sto = fd ->
  critical d fd (flock_un (sto_fd sto) ;;; let* held := pthread_mutex_unlock true in ret (g held)) f o.
Proof using. intros ->. exact (critical_leave d fd (g false) f o). Qed.

Lemma held_handle sto : handle_ok d sto -> handle_ok d (set_held true sto).
Proof using. by intros []. Qed.

(** The handle after the search for free blocks. *)
Definition found_ok (req : kes_extent_request)
    (r : Z * kes_storage * kes_extent_descriptor) : Prop :=
  sto_fd r.1.2 = fd /\
  (r.1.1 = KES_SUCCESS -> handle_ok d (account_allocation r.1.2 req r.2).1).

Lemma confined_first_fit sto req ext0 f o f0 bm :
  handle_ok d sto -> sto_fd sto = fd -> disk_ok d f0 -> bitmap_of d bm ->
  0 < req_block_count req < 2 ^ 32 -> 0 <= req_hint_block req ->
  confined d fd (allocate_extent_first_fit (reloaded_handle d f0 bm sto) req ext0) f o
    (fun r _ _ => found_ok req r).
Proof using Hd.
  intros Hh Hfd Hf Hof Hk Hhint. destruct (reloaded_bitmap d f0 bm Hd Hf Hof) as (Hofr & Hwfr & _).
  assert (confined d fd (allocate_extent_first_fit (reloaded_handle d f0 bm sto) req ext0) f o
            (fun _ _ _ => True)) as Hc.
  { unfold allocate_extent_first_fit. apply confined_bind, confined_lift. intros [[code bm1] found] _.
    cbv zeta. case_match; [done|]. apply confined_bind, confined_lift. intros [code' bm2] _.
    cbv zeta. by case_match. }
  eapply confined_mono; [eapply (confined_one_file _ _ _ _ (fun r _ => found_ok req r)); [exact Hc|]|].
  2:{ by intros a _ _ [_ [_ ?]]. }
  intros script. eapply first_fit_spec; [reflexivity|exact Hofr|exact Hwfr|done|done| |].
  - intros s bm' _ Hof' _ _. split; [done|]. intros _. cbn [fst snd].
    by eapply account_allocation_handle.
  - intros _. by split.
Qed.

Lemma shape_allocate sto req ext0 f o :
  handle_ok d sto -> sto_fd sto = fd -> sto_lock sto = false -> request_ok req -> disk_ok d f ->
  shape d fd f o (kes_extent_allocate (Some sto) (Some req) (Some ext0)).
Proof using Hd.
  intros Hh Hfd Hlk [Hk Hhint] Hf. unfold kes_extent_allocate.
  destruct (sto_readonly sto); [constructor|].
  destruct (Z.eqb_spec (req_block_count req) 0); [constructor|]. rewrite Hlk. cbv zeta.
  cbn [pthread_mutex_lock]. change (bind (ret ?x) ?k) with (k x). cbv beta. cbn [sto_fd set_held].
  rewrite Hfd. apply shape_lock. apply critical_bind.
  eapply confined_mono; [apply confined_reload; [by apply held_handle|done|done]|].
  intros [code sto1] f1 o1 (Hh1 & Hsame & Hok). cbn [fst snd] in *.
  pose proof (same_handle_fd _ _ Hsame) as Hfd1. cbn in Hfd1. rewrite Hfd in Hfd1.
  apply critical_bind.
  assert (confined d fd
    (if code =? KES_SUCCESS
     then match sto_strategy sto1 with
          | KES_ALLOC_FIRST_FIT => allocate_extent_first_fit sto1 req ext0
          | _ => allocate_extent_first_fit sto1 req ext0
          end
     else ret (code, sto1, ext0)) f1 o1 (fun r _ _ => found_ok req r)) as Hc.
  { destruct (Z.eqb_spec code KES_SUCCESS) as [Hs|Hs]; [|by split].
    rewrite dispatch_strategy. destruct (Hok Hs) as (bm & Hof & ->).
    apply confined_first_fit; [by apply held_handle|done|done|done|lia|lia]. }
  eapply confined_mono; [exact Hc|].
  intros [[code2 sto2] ext2] f2 o2 [Hfd2 Hacc]. cbn [fst snd] in *.
  destruct (Z.eqb_spec code2 KES_SUCCESS) as [Hs|Hs].
  - specialize (Hacc Hs). destruct (account_allocation sto2 req ext2) as [sto3 ext3] eqn:E.
    apply critical_bind. eapply confined_mono; [apply confined_persist; [done|]|].
    + unfold account_allocation in E. injection E as <- _. done.
    + intros [code4 sto4] f4 o4 Hfd4. by apply critical_unlock.
  - destruct (Z.eqb_spec code2 KES_SUCCESS); [done|]. by apply critical_unlock.
Qed.

Lemma shape_sync sto f o :
  handle_ok d sto -> sto_fd sto = fd -> sto_lock sto = false -> disk_ok d f ->
  shape d fd f o (kes_storage_sync (Some sto)).
Proof using Hd.
  intros Hh Hfd Hlk Hf. unfold kes_storage_sync.
  destruct (sto_readonly sto); [constructor|]. rewrite Hlk. cbv zeta.
  cbn [pthread_mutex_lock]. change (bind (ret ?x) ?k) with (k x). cbv beta. cbn [sto_fd set_held].
  rewrite Hfd. apply shape_lock. apply critical_bind.
  eapply confined_mono; [apply confined_reload; [by apply held_handle|done|done]|].
  intros [code sto1] f1 o1 (Hh1 & Hsame & _). cbn [fst snd] in *.
  pose proof (same_handle_fd _ _ Hsame) as Hfd1. cbn in Hfd1. rewrite Hfd in Hfd1.
  apply critical_bind. case_match.
  - eapply confined_mono; [by apply confined_persist|].
    intros [code2 sto2] f2 o2 Hfd2. by apply critical_unlock.
  - by apply critical_unlock.
Qed.

Lemma shape_free sto e f o :
  handle_ok d sto -> sto_fd sto = fd -> sto_lock sto = false -> disk_ok d f ->
  extent_inside d e ->
  shape d fd f o (kes_extent_free (Some sto) (Some e)).
Proof using Hd.
  intros Hh Hfd Hlk Hf [[Hes Hec] _]. unfold kes_extent_free.
  destruct (sto_readonly sto); [constructor|]. rewrite Hlk. cbv zeta.
  cbn [pthread_mutex_lock]. change (bind (ret ?x) ?k) with (k x). cbv beta. cbn [sto_fd set_held].
  rewrite Hfd. apply shape_lock. apply critical_bind.
  eapply confined_mono; [apply confined_reload; [by apply held_handle|done|done]|].
  intros [code sto1] f1 o1 (Hh1 & Hsame & Hok). cbn [fst snd] in *.
  pose proof (same_handle_fd _ _ Hsame) as Hfd1. cbn in Hfd1. rewrite Hfd in Hfd1.
  destruct (Z.eqb_spec code KES_SUCCESS) as [Hs|Hs]; cbn [negb]; [|by apply critical_unlock].
  destruct (Hok Hs) as (bm & Hof & ->). destruct (reloaded_bitmap d f bm Hd Hf Hof) as (Hofr & _).
  apply critical_bind, confined_lift. intros b _. destruct b; cbn [negb]; [|by apply critical_unlock].
  apply critical_bind, confined_lift. intros [code' bm'] Hclear. cbn [reloaded_handle set_bitmap sto_bitmap] in Hclear.
  apply critical_bind. destruct (Z.eqb_spec code' KES_SUCCESS) as [Hs'|Hs']; [|by apply critical_unlock].
  assert (exists bm2, bm' = Some bm2 /\ bitmap_of d bm2) as (bm2 & -> & Hof2).
  { destruct (decide (range_ok (reloaded bm (disk_map d f)) (ext_start_block e) (ext_block_count e)))
      as [Hrange|Hno].
    - destruct (clear_range_spec _ _ _ (proj1 Hofr) Hes Hec Hrange) as (bm2 & E & Hs2 & (Ht2 & _) & _).
      rewrite E in Hclear. injection Hclear as <- <-. exists bm2. split; [done|]. split; [done|].
      rewrite Ht2. apply Hofr.
    - destruct (range_reject _ _ _ Hno) as [_ E]. rewrite E in Hclear. injection Hclear as <- _. discriminate Hs'. }
  eapply confined_mono; [apply confined_persist; [|done]|].
  { apply account_free_handle; [done|done|by apply held_handle|done]. }
  intros [code2 sto2] f2 o2 Hfd2. by apply critical_unlock.
Qed.

(** ** Reading and writing an extent *)

Lemma extent_user_area e offset size :
  extent_inside d e -> 0 <= offset -> offset + size <= extent_bytes d e ->
  in_user_area d (extent_pos d e + offset) size.
Proof using Hd.
  intros Hin H0 Hle. pose proof (extent_pos_bounds d Hd e Hin) as (? & ? & ?). split; lia.
Qed.

Lemma shape_read sto e offset size f o :
  handle_ok d sto -> sto_fd sto = fd -> sto_lock sto = false -> extent_inside d e ->
  0 <= offset -> 0 <= size -> offset + size < 2 ^ 64 ->
  shape d fd f o (kes_extent_read (Some sto) (Some e) true size offset).
Proof using Hd.
  intros Hh Hfd Hlk Hin Hoff Hsz Hnw. unfold kes_extent_read. cbn [negb].
  pose proof (extent_pos_bounds d Hd e Hin) as (Hp & Hb & Hle).
  pose proof (map_offset_range d Hd). pose proof (map_bytes_pos d Hd).
  destruct (extent_start_byte_exact d Hd _ e (h_layout _ _ Hh) Hin) as [-> ->].
  unfold sizeof_desc in *. rewrite (u64_small (offset + size)) by lia. cbv zeta.
  destruct (Z.ltb_spec (extent_bytes d e) (offset + size)); [constructor|].
  rewrite (i64_small (_ + offset)), (i64_small size), Hlk by lia.
  cbn [pthread_mutex_lock]. change (bind (ret ?x) ?k) with (k x). cbv beta. cbn [sto_fd set_held].
  rewrite Hfd. cbn [bind lseek syscall_tree].
  eapply (sh_read d fd f o (extent_pos d e + offset) size); [done|by apply extent_user_area| | |].
  - intros r Hr. destruct (Z.eqb_spec r (extent_pos d e + offset)); [done|]. eexists. reflexivity.
  - rewrite Z.eqb_refl. reflexivity.
  - intros [k bs]. cbn [bind ret pthread_mutex_unlock]. case_match; eexists; reflexivity.
Qed.

Lemma shape_write sto e offset data f o :
  handle_ok d sto -> sto_fd sto = fd -> sto_lock sto = false -> extent_inside d e ->
  0 <= offset -> offset + Z.of_nat (length data) < 2 ^ 64 ->
  shape d fd f o (kes_extent_write (Some sto) (Some e) (Some data) (Z.of_nat (length data)) offset).
Proof using Hd.
  intros Hh Hfd Hlk Hin Hoff Hnw. unfold kes_extent_write.
  destruct (sto_readonly sto); [constructor|].
  pose proof (extent_pos_bounds d Hd e Hin) as (Hp & Hb & Hle).
  pose proof (map_offset_range d Hd). pose proof (map_bytes_pos d Hd).
  destruct (extent_start_byte_exact d Hd _ e (h_layout _ _ Hh) Hin) as [-> ->].
  unfold sizeof_desc in *. rewrite (u64_small (offset + _)) by lia. cbv zeta.
  destruct (Z.ltb_spec (extent_bytes d e) (offset + Z.of_nat (length data))); [constructor|].
  rewrite (i64_small (_ + offset)), (i64_small (Z.of_nat _)), Hlk by lia.
  cbn [pthread_mutex_lock]. change (bind (ret ?x) ?k) with (k x). cbv beta. cbn [sto_fd set_held].
  rewrite Hfd, Z.ltb_irrefl, Nat2Z.id, firstn_all. cbn [bind lseek syscall_tree].
  eapply (sh_write d fd f o (extent_pos d e + offset) data); [by apply extent_user_area| | |].
  - intros r Hr. destruct (Z.eqb_spec r (extent_pos d e + offset)); [done|]. eexists. reflexivity.
  - rewrite Z.eqb_refl. reflexivity.
  - intros k. cbn [bind ret pthread_mutex_unlock]. case_match; eexists; reflexivity.
Qed.

(** Every operation an idle handle may start. *)
Lemma call_shape sto c live f o :
  handle_ok d sto -> sto_fd sto = fd -> sto_lock sto = false -> disk_ok d f ->
  (forall e, e ∈ live -> extent_inside d e) -> args_ok live c ->
  shape d fd f o (call_prog fd sto c).
Proof using Hd.
  intros Hh Hfd Hlk Hf Hlive [Harg Hc]. destruct c as [req ext0|e|e off data|e off size|];
    cbn [call_prog extent_arg] in *.
  - apply shape_map; [intros [[code s] x]; by eexists|by apply shape_allocate].
  - apply shape_map; [intros [code s]; by eexists|]. apply shape_free; auto.
  - destruct Hc as (_ & ? & ?). apply shape_map; [intros [code s]; by eexists|]. apply shape_write; auto.
  - destruct Hc as (? & ? & ?). apply shape_map; [intros [[code s] x]; by eexists|]. apply shape_read; auto.
  - apply shape_map; [intros [code s]; by eexists|by apply shape_sync].
Qed.
End calls.
