(* ===== verification/InterleaveFacts.v ===== *)
(** * Interleaved operations behave as if taken one at a time

    The simulation between the system-call level of [Interleave] and the
    operations of [System]: an operation takes effect when it returns, at its
    last system call.  Until then the state of [System] differs from the real
    one only by the positions of the descriptors in use and by the metadata
    already written by the one process in a critical section. *)
From S2P Require Import Prelude Types Posix PosixFacts Crc Bitmap BitmapFacts Codec Storage Layout.
From S2P Require Import StorageFacts ExtentIO Lifecycle System SystemFacts Interleave Critical CallShapes.

Section simulation.
Context `{Crc32c} (path : string) (d : kes_storage_descriptor).
Context (Hd : layout_ok d).
Implicit Types (w : world) (hs : gmap Z kes_storage) (live : list kes_extent_descriptor).

(** ** An operation run alone is a step of [System] *)

Lemma call_step w hs live fd sto c :
  sys_ok path d (mkSys w hs live) -> hs !! fd = Some sto -> args_ok live c ->
  wp (call_prog fd sto c) w (fun r w' =>
    sys_step path (mkSys w hs live) r.1 (mkSys w' (<[fd := r.2]> hs) (live_after sto r.1 live)) /\
    outcome_of r.1 = Some r.1 /\ label_of fd c r.1).
Proof using Hd.
  intros Hs Hfd [Harg Hc]. unfold wp. destruct c as [req ext0|e|e off data|e off size|];
    cbn [call_prog extent_arg] in *; rewrite run_seq.
  - destruct (wp_done _ _ _ (sys_alloc path d Hd w hs live fd sto req ext0 Hs Hfd Hc))
      as (r & w' & R & code & sto' & ext' & f' & -> & _). rewrite R. split; [|done].
    by eapply StepAlloc.
  - specialize (Harg e eq_refl).
    destruct (wp_done _ _ _ (sys_free path d Hd w hs live fd sto e Hs Hfd Harg))
      as (r & w' & R & code & sto' & f' & -> & _). rewrite R. split; [by eapply StepFree|done].
  - specialize (Harg e eq_refl). destruct Hc as (Hb & H0 & Hn).
    destruct (wp_done _ _ _ (sys_write path d Hd w hs live fd sto e off data Hs Hfd Harg H0 Hn))
      as (r & w' & R & code & sto' & f' & -> & _). rewrite R. split; [by eapply StepWrite|done].
  - specialize (Harg e eq_refl). destruct Hc as (H0 & H1 & Hn).
    destruct (wp_done _ _ _ (sys_read path d Hd w hs live fd sto e off size Hs Hfd Harg H0 H1 Hn))
      as (r & w' & R & code & sto' & bs & -> & _). rewrite R. split; [by eapply StepRead|done].
  - destruct (wp_done _ _ _ (sys_sync path d Hd w hs live fd sto Hs Hfd))
      as (r & w' & R & code & sto' & f' & -> & _). rewrite R. split; [by eapply StepSync|done].
Qed.

(** The description behind an open handle. *)
Lemma handle_description s fd sto :
  sys_ok path d s -> s_handles s !! fd = Some sto ->
  exists o, w_fds (s_world s) !! fd = Some o /\ ofd_path o = path /\ ofd_lock o = None.
Proof using.
  intros Hs Hfd. destruct (so_handles _ _ _ Hs _ _ Hfd) as [_ _ _ (wr & Ha & _)].
  destruct (fd_attrs_lookup _ _ _ Ha) as [pos Hpos]. eexists. split; [exact Hpos|done].
Qed.

Lemma handle_unlocked s fd : sys_ok path d s -> unlocked_elsewhere (s_world s) fd path.
Proof using. intros Hs fd' a _. apply (so_unlocked _ _ _ Hs). Qed.

Lemma handle_shape s fd sto c o :
  sys_ok path d s -> s_handles s !! fd = Some sto -> args_ok (s_live s) c ->
  shape d fd (file_of path s) o (call_prog fd sto c).
Proof using Hd.
  intros Hs Hfd Hc. destruct (so_handles _ _ _ Hs _ _ Hfd) as [E Hok Hlk _].
  eapply call_shape; [done|done|done|done|apply Hs| |exact Hc].
  intros e He. by apply (live_inside path d s).
Qed.

Lemma file_long s : sys_ok path d s -> long d (file_of path s).
Proof using. intros Hs. apply (dk_length _ _ (so_disk _ _ _ Hs)). Qed.

(** An operation followed to some point from a state of [System] is not
    undefined or hanging there, and if it has returned it was a step. *)
Lemma lrun_ok s fd sto c o flts p f' o' :
  sys_ok path d s -> s_handles s !! fd = Some sto -> args_ok (s_live s) c ->
  w_fds (s_world s) !! fd = Some o ->
  lrun fd (call_prog fd sto c) (file_of path s) o flts = Some (p, (f', o')) ->
  match p with
  | Ret (l, sto') => exists script,
      let w' := put_local fd f' o' (set_script [] (s_world s)) in
      sys_step path (mkSys (set_script script (s_world s)) (s_handles s) (s_live s)) l
        (mkSys w' (<[fd := sto']> (s_handles s)) (live_after sto l (s_live s))) /\
      outcome_of l = Some l /\ label_of fd c l
  | Sys _ _ => True
  | Stuck | Hang => False
  end.
Proof using Hd.
  intros Hs Hfd Hc Ho Hr. destruct (handle_description _ _ _ Hs Hfd) as (o1 & Ho1 & Hp & _).
  assert (o1 = o) as -> by congruence. clear Ho1. destruct s as [w hs live]. cbn [s_world s_handles s_live] in *.
  destruct (lrun_run fd path _ _ _ _ _ _ _ w Ho Hp (so_file _ _ _ Hs) (handle_unlocked _ fd Hs) Hr)
    as [script Hrun]. specialize (Hrun []). rewrite app_nil_r in Hrun.
  destruct (step_faults_ok path d w hs live script Hs) as [Hs' _].
  pose proof (call_step _ _ _ fd sto c Hs' Hfd Hc) as Hwp. unfold wp in Hwp. rewrite Hrun in Hwp.
  destruct p as [[l sto']| | |]; cbn [run] in Hwp; [|done..]. by exists script.
Qed.

(** ** The relation *)

(** Where the operation [c] of [fd] is, having come to [p]: [F] and [o] are the
    file and its description in the state of [System], [f] and [o'] the real
    ones, and [h] is the process in its critical section, if any. *)
Inductive phase (fd : Z) (sto : kes_storage) (c : call) (p : M (label * kes_storage))
    (h : option Z) (F : list Z) (o : ofd) (f : list Z) (o' : ofd) : Prop :=
  | ph_waiting :
      h ≠ Some fd -> p = call_prog fd sto c -> o' = o -> phase fd sto c p h F o f o'
  | ph_seeked off k :
      h ≠ Some fd -> call_prog fd sto c = Sys (Lseek fd off) k ->
      (forall F0, lrun fd (call_prog fd sto c) F0 o [FNone] = Some (p, (F0, o'))) ->
      phase fd sto c p h F o f o'
  | ph_holding k flts :
      h = Some fd -> call_prog fd sto c = Sys (Flock fd LOCK_EX) k ->
      lrun fd (call_prog fd sto c) F o (FNone :: flts) = Some (p, (f, o')) ->
      phase fd sto c p h F o f o'.

Definition is_sys {A} (p : M A) : Prop := match p with Sys _ _ => True | _ => False end.

Definition busy (procs : gmap Z process) (fd : Z) : Prop :=
  exists sto c p, procs !! fd = Some (Busy sto c p).

Record linked (s : sys) (i : isys) (f : list Z) (h : option Z) : Prop := {
  lk_ok : sys_ok path d s;
  lk_live : i_live i `sublist_of` s_live s;
  lk_handles : s_handles s = handle_of <$> i_procs i;
  lk_files : w_files (i_world i) = <[path := f]> (w_files (s_world s));
  lk_next : w_next_fd (i_world i) = w_next_fd (s_world s);
  lk_free : h = None -> f = file_of path s;
  lk_holder : forall fd, h = Some fd -> busy (i_procs i) fd;
  lk_rest : forall fd, ~ busy (i_procs i) fd ->
    w_fds (i_world i) !! fd = w_fds (s_world s) !! fd;
  lk_busy : forall fd sto c p, i_procs i !! fd = Some (Busy sto c p) ->
    args_ok (s_live s) c /\ is_sys p /\
    exists o o', w_fds (s_world s) !! fd = Some o /\ w_fds (i_world i) !! fd = Some o' /\
                 phase fd sto c p h (file_of path s) o f o';
  lk_compat : forall fd fd' sto sto' c c' p p', fd ≠ fd' ->
    i_procs i !! fd = Some (Busy sto c p) -> i_procs i !! fd' = Some (Busy sto' c' p') ->
    compatible c c'
}.

Lemma compatible_sym c c' : compatible c c' -> compatible c' c.
Proof using. intros Hc e He Harg Harg'. apply (Hc e); tauto. Qed.

(** Who is not in the critical section does not see what happens there. *)
Lemma phase_outside fd sto c p h h' F F' o f f' o' :
  h ≠ Some fd -> h' ≠ Some fd ->
  phase fd sto c p h F o f o' -> phase fd sto c p h' F' o f' o'.
Proof using. intros H1 H2 [? ? ?|off k ? ? ?|? ? ? ? ?]; [by apply ph_waiting|by eapply ph_seeked|done]. Qed.

(** Who is in it has the lock, and what it does commutes with writes to
    extents. *)
Lemma holding_facts s fd sto c o k flts p f o' :
  sys_ok path d s -> s_handles s !! fd = Some sto -> args_ok (s_live s) c ->
  w_fds (s_world s) !! fd = Some o -> call_prog fd sto c = Sys (Flock fd LOCK_EX) k -> is_sys p ->
  lrun fd (call_prog fd sto c) (file_of path s) o (FNone :: flts) = Some (p, (f, o')) ->
  critical d fd p f o' /\ same_outside d (file_of path s) f /\
  ofd_lock o' = Some LOCK_EX /\ ofd_path o' = path /\
  forall pos bs, in_user_area d pos (Z.of_nat (length bs)) ->
    lrun fd (call_prog fd sto c) (splice (Z.to_nat pos) bs (file_of path s)) o (FNone :: flts) =
    Some (p, (splice (Z.to_nat pos) bs f, o')).
Proof using Hd.
  intros Hs Hfd Hc Ho EP Hp Hr. destruct p as [|sc k'| |]; try done.
  pose proof (lrun_path _ _ _ _ _ _ Hr) as Hpath. cbn [snd] in Hpath.
  destruct (handle_description _ _ _ Hs Hfd) as (o1 & Ho1 & Hp1 & _).
  assert (o1 = o) as -> by congruence.
  pose proof (handle_shape s fd sto c o Hs Hfd Hc) as Hsh.
  destruct Hsh as [a|k0 H1 H2|off n k0 k2 ? ? ? ? ?|off bs k0 k2 ? ? ? ?]; try discriminate EP.
  rewrite lrun_cons in Hr by done.
  destruct (lrun_critical d fd Hd _ _ _ _ _ _ _ _ H2 (file_long s Hs) Hr) as (C1 & C2 & C3 & C4).
  split_and!; [done|done|done|congruence|]. intros pos bs Hin. rewrite lrun_cons by done. by apply C4.
Qed.

Lemma linked_handle s i f h fd pr :
  linked s i f h -> i_procs i !! fd = Some pr -> s_handles s !! fd = Some (handle_of pr).
Proof using. intros Hl Hpr. by rewrite (lk_handles _ _ _ _ Hl), lookup_fmap, Hpr. Qed.

(** The rest of the file is the same for everybody. *)
Lemma linked_outside s i f h : linked s i f h -> same_outside d (file_of path s) f.
Proof using Hd.
  intros Hl. destruct h as [fd|]; [|by rewrite (lk_free _ _ _ _ Hl)].
  destruct (lk_holder _ _ _ _ Hl fd eq_refl) as (sto & c & p & Hb).
  destruct (lk_busy _ _ _ _ Hl _ _ _ _ Hb) as (Hc & Hp & o & o' & Ho & Ho' & Hph).
  destruct Hph as [?|?|k flts _ EP Hr]; [done|done|].
  by apply (holding_facts s fd sto c o k flts p f o' (lk_ok _ _ _ _ Hl) (linked_handle _ _ _ _ _ _ Hl Hb)).
Qed.
End simulation.
