(* ===== verification/Simulation.v ===== *)
(** * The simulation, step by step

    Every step of the interleaved system keeps it linked to a state of
    [System]; the step in which an operation returns is the one in which it
    happens there.  A process killed inside its critical section might as well
    have had all its remaining system calls fail: its operation happens when
    it is killed. *)
From S2P Require Import Prelude Types Posix PosixFacts Crc Bitmap BitmapFacts Codec Storage Layout.
From S2P Require Import StorageFacts ExtentIO Lifecycle System SystemFacts Interleave Critical CallShapes.
From S2P Require Import InterleaveFacts.

Section simulation.
Context `{Crc32c} (path : string) (d : kes_storage_descriptor).
Context (Hd : layout_ok d).
Implicit Types (w : world) (procs : gmap Z process) (live : list kes_extent_descriptor).

Abbreviation linked := (linked path d).

(** ** Returning *)

(** The step of an operation that returns now, in both systems: [F'] and [f']
    are the file afterwards, seen from [System] and for real. *)
Record returns_now (s : sys) (w : world) procs live (f : list Z) (h : option Z)
    (fd : Z) (sto : kes_storage) (c : call) (flts : list fault)
    (l : label) (sto' : kes_storage) (w' : world) (F' f' : list Z) (o o' : ofd) (h' : option Z)
    : Prop := {
  rn_handle : s_handles s !! fd = Some sto;
  rn_args : args_ok (s_live s) c;
  rn_alone : forall fd' sto2 c2 p2, fd' ≠ fd -> procs !! fd' = Some (Busy sto2 c2 p2) ->
    compatible c c2;
  rn_description : w_fds (s_world s) !! fd = Some o;
  rn_run : lrun fd (call_prog fd sto c) (file_of path s) o flts = Some (Ret (l, sto'), (F', o'));
  rn_files : w_files w' = <[path := f']> (w_files w);
  rn_fds : w_fds w' = <[fd := o']> (w_fds w);
  rn_next : w_next_fd w' = w_next_fd w;
  rn_free : h' = None -> f' = F';
  rn_holder : h' ≠ Some fd /\ (h' = h \/ h = Some fd /\ h' = None);
  rn_phases : forall fd' sto2 c2 p2 o2 o2', fd' ≠ fd -> procs !! fd' = Some (Busy sto2 c2 p2) ->
    w_fds (s_world s) !! fd' = Some o2 -> h = Some fd' ->
    phase fd' sto2 c2 p2 h (file_of path s) o2 f o2' -> phase fd' sto2 c2 p2 h' F' o2 f' o2'
}.

(** Extents used by others stay in use. *)
Lemma args_after fd sto c l c2 live :
  label_of fd c l -> compatible c c2 -> args_ok live c2 -> args_ok (live_after sto l live) c2.
Proof using.
  intros Hl Hcc [Harg Hc]. split; [|done]. intros e He. specialize (Harg e He).
  destruct l as [|? ? code ext|fd' e' code| | | | | |]; cbn; try done; [by apply live_alloc_elem|].
  destruct (sto_readonly sto); [done|].
  apply list_elem_of_filter. split; [|done]. intros ->.
  destruct c as [|e0| | |]; try done. destruct Hl as [_ ->]. apply (Hcc e0); auto.
Qed.

(** The clients may know less than is in use: what a process had got or given
    back when it was killed. *)
Lemma live_free_sublist e live live' :
  live `sublist_of` live' -> live_free e live `sublist_of` live_free e live'.
Proof using.
  intros Hs. induction Hs as [|e0 l l' _ IH|e0 l l' _ IH]; unfold live_free in *;
    rewrite ?filter_cons; [done| |]; repeat case_decide; solve [done|by constructor].
Qed.

Lemma live_after_sublist sto l live live' :
  live `sublist_of` live' -> live_after sto l live `sublist_of` live_after sto l live'.
Proof using.
  intros Hs. destruct l as [|? ? code ext|fd' e' code| | | | | |]; cbn; try done.
  - unfold live_alloc. case_match; [by constructor|done].
  - case_match; [done|by apply live_free_sublist].
Qed.

Lemma args_mono c live live' : live `sublist_of` live' -> args_ok live c -> args_ok live' c.
Proof using. intros Hs [Harg Hc]. split; [|done]. intros e He. eapply elem_of_sublist; eauto. Qed.

Lemma link_return s w procs live f h fd sto c flts l sto' w' F' f' o o' h' :
  linked s (mkISys w procs live) f h ->
  returns_now s w procs live f h fd sto c flts l sto' w' F' f' o o' h' ->
  exists ls s', traces (sys_step path) s ls s' /\ omap outcome_of ls = [l] /\
    linked s' (mkISys w' (<[fd := Idle sto']> procs) (live_after sto l live)) f' h' /\
    s_live s' = live_after sto l (s_live s) /\ label_of fd c l.
Proof using Hd.
  intros Hlk Hn.
  pose proof Hlk as [Hs Hli Hhs Hfiles Hnx Hfr Hho Hrest Hbusy Hcomp]. cbn [i_world i_procs i_live] in *.
  destruct Hn as [N1 N2 N3 N4 N5 N6 N7 N8 N9 N10 N11].
  destruct (lrun_ok path d Hd s fd sto c o flts _ F' o' Hs N1 N2 N4 N5) as (script & Hstep & Hout & Hfree).
  destruct (handle_description path d s fd sto Hs N1) as (o1 & Ho1 & Hp1 & _).
  assert (o1 = o) as -> by congruence. clear Ho1.
  pose proof (lrun_path _ _ _ _ _ _ N5) as Hp'. cbn [snd] in Hp'. rewrite Hp1 in Hp'.
  destruct s as [ws hs sl]. cbn [s_world s_handles s_live] in *.
  set (s1 := mkSys (set_script script ws) hs sl) in *.
  set (s2 := mkSys (put_local fd F' o' (set_script [] ws)) _ _) in *.
  assert (sys_ok path d s1) as Hs1 by (apply (step_preserves path d Hd _ _ _ Hs (StepFaults path ws hs sl script))).
  assert (sys_ok path d s2) as Hs2 by (apply (step_preserves path d Hd _ _ _ Hs1 Hstep)).
  assert (file_of path s2 = F') as Hfile.
  { unfold file_of. cbn. by rewrite Hp', lookup_insert_eq. }
  exists [LFaults script; l], s2. split_and!.
  { eapply trace_cons; [constructor|]. eapply trace_cons; [exact Hstep|constructor]. }
  { cbn. by rewrite Hout. }
  2,3: done.
  assert (forall fd', busy (<[fd := Idle sto']> procs) fd' -> fd' ≠ fd /\ busy procs fd') as Hb.
  { intros fd' (sto2 & c2 & p2 & [[_ ?]|[Hne Hb]]%lookup_insert_Some); [done|]. split; [done|].
    by exists sto2, c2, p2. }
  split; cbn [i_world i_procs i_live s2 s_world s_handles s_live w_files w_fds put_local set_script]; rewrite ?Hfile.
  - done.
  - by apply live_after_sublist.
  - by rewrite fmap_insert, Hhs.
  - by rewrite N6, Hfiles, Hp', !insert_insert_eq.
  - by rewrite N8, Hnx.
  - done.
  - intros fd' ->. destruct N10 as [Hne [Heq|[_ ?]]]; [|done].
    destruct (Hho fd' (eq_sym Heq)) as (sto2 & c2 & p2 & Hb2). exists sto2, c2, p2.
    rewrite lookup_insert_ne; [done|]. congruence.
  - intros fd' Hnb. rewrite N7. destruct (decide (fd' = fd)) as [->|Hne]; [by rewrite !lookup_insert_eq|].
    rewrite !lookup_insert_ne by done. apply Hrest. intros (sto2 & c2 & p2 & Hb2). apply Hnb.
    exists sto2, c2, p2. by rewrite lookup_insert_ne.
  - intros fd' sto2 c2 p2 [[_ ?]|[Hne Hb2]]%lookup_insert_Some; [done|].
    destruct (Hbusy _ _ _ _ Hb2) as (Hc2 & Hsys & o2 & o2' & Ho2 & Ho2' & Hph).
    split; [eapply args_after; eauto|]. split; [done|]. exists o2, o2'.
    rewrite N7, !lookup_insert_ne by done. split_and!; [done|done|].
    destruct (decide (h = Some fd')) as [Hh|Hh]; [by eapply N11|].
    eapply phase_outside; [exact Hh| |exact Hph].
    destruct N10 as [_ [->|[_ ->]]]; done.
  - intros fd1 fd2 sto1 sto2 c1 c2 p1 p2 Hne [[_ ?]|[_ H1]]%lookup_insert_Some
      [[_ ?]|[_ H2]]%lookup_insert_Some; try done. by eapply Hcomp.
Qed.

(** ** Going on *)

(** The step of an operation that goes on: it has made progress to [p], and
    nobody else notices. *)
Lemma link_continue s w procs live f h fd sto c pr w' p f' o o' h' :
  linked s (mkISys w procs live) f h ->
  procs !! fd = Some pr -> handle_of pr = sto -> args_ok (s_live s) c -> is_sys p ->
  (forall fd' sto2 c2 p2, fd' ≠ fd -> procs !! fd' = Some (Busy sto2 c2 p2) -> compatible c c2) ->
  w_fds (s_world s) !! fd = Some o -> w_fds w' = <[fd := o']> (w_fds w) ->
  w_files w' = <[path := f']> (w_files w) -> w_next_fd w' = w_next_fd w ->
  (h' = None -> f' = file_of path s) -> (h = h' /\ (h = Some fd \/ f' = f) \/ h = None /\ h' = Some fd) ->
  phase fd sto c p h' (file_of path s) o f' o' ->
  linked s (mkISys w' (<[fd := Busy sto c p]> procs) live) f' h'.
Proof using.
  intros Hlk Hpr Hsto Hc Hp Hcc Ho Hfds Hfs Hnext Hfree Hh Hph.
  pose proof Hlk as [Hs Hli Hhs Hfiles Hnx Hfr Hho Hrest Hbusy Hcomp]. cbn [i_world i_procs i_live] in *.
  split; cbn [i_world i_procs i_live]; try done.
  - rewrite fmap_insert, insert_id; [done|]. by rewrite lookup_fmap, Hpr, <-Hsto.
  - by rewrite Hfs, Hfiles, insert_insert_eq.
  - by rewrite Hnext.
  - intros fd' ->. destruct (decide (fd' = fd)) as [->|Hne].
    + exists sto, c, p. apply lookup_insert_eq.
    + destruct Hh as [[-> _]|[_ [= ?]]]; [|done].
      destruct (Hho fd' eq_refl) as (sto2 & c2 & p2 & Hb). exists sto2, c2, p2.
      by rewrite lookup_insert_ne.
  - intros fd' Hnb. rewrite Hfds. destruct (decide (fd' = fd)) as [->|Hne].
    + exfalso. apply Hnb. exists sto, c, p. apply lookup_insert_eq.
    + rewrite lookup_insert_ne by done. apply Hrest. intros (sto2 & c2 & p2 & Hb2). apply Hnb.
      exists sto2, c2, p2. by rewrite lookup_insert_ne.
  - intros fd' sto2 c2 p2 [[<- [= <- <- <-]]|[Hne Hb2]]%lookup_insert_Some.
    { split; [done|]. split; [done|]. exists o, o'. by rewrite Hfds, lookup_insert_eq. }
    destruct (Hbusy _ _ _ _ Hb2) as (Hc2 & Hsys & o2 & o2' & Ho2 & Ho2' & Hph2).
    split; [done|]. split; [done|]. exists o2, o2'. rewrite Hfds, lookup_insert_ne by done.
    split_and!; [done|done|]. destruct Hh as [[<- [->| ->]]|[-> ->]]; [| done |];
      (eapply phase_outside; [| |exact Hph2]; congruence).
  - intros fd1 fd2 sto1 sto2 c1 c2 p1 p2 Hne [[<- [= <- <- <-]]|[Hne1 H1]]%lookup_insert_Some
      [[<- [= <- <- <-]]|[Hne2 H2]]%lookup_insert_Some; try done.
    + apply (Hcc fd2 sto2 c2 p2); [congruence|done].
    + apply compatible_sym. apply (Hcc fd1 sto1 c1 p1); [congruence|done].
    + by apply (Hcomp fd1 fd2 sto1 sto2 c1 c2 p1 p2).
Qed.

(** ** The cases *)

Lemma advance_local {A} fd sc0 (k : answer sc0 -> M A) flt w sc p' w' o f :
  local_call fd sc0 -> w_fds w !! fd = Some o -> w_files w !! ofd_path o = Some f ->
  advance (Sys sc0 k) flt w = Some (sc, p', w') ->
  let x := lperform sc0 flt f o in
  p' = k x.1 /\ w' = put_local fd x.2.1 x.2.2 w /\
  forall m, sc0 = Flock fd m -> flt ≠ FErr -> ~ lock_conflict w fd o m.
Proof using.
  intros Hloc Ho Hf Ha x.
  assert (forall m, sc0 = Flock fd m -> flt ≠ FErr -> ~ lock_conflict w fd o m) as Hno.
  { intros m -> Hflt Hcf. cbn in Ha. unfold do_flock in Ha. rewrite Ho in Ha.
    rewrite decide_True in Ha by done. by destruct flt. }
  cbn [advance] in Ha. rewrite (perform_local fd sc0 flt w o f Hloc Ho Hf Hno) in Ha.
  by injection Ha as _ <- <-.
Qed.

(** What a busy process finds. *)
Record at_work (s : sys) (w : world) (f : list Z) (fd : Z) (sto : kes_storage) (c : call)
    (o o' : ofd) : Prop := {
  aw_handle : s_handles s !! fd = Some sto;
  aw_args : args_ok (s_live s) c;
  aw_there : w_fds (s_world s) !! fd = Some o;
  aw_here : w_fds w !! fd = Some o';
  aw_path : ofd_path o = path;
  aw_lock : ofd_lock o = None;
  aw_file : w_files w !! path = Some f;
  aw_shape : shape d fd (file_of path s) o (call_prog fd sto c)
}.

Lemma linked_at_work s w procs live f h fd sto c p :
  linked s (mkISys w procs live) f h -> procs !! fd = Some (Busy sto c p) ->
  is_sys p /\ exists o o', at_work s w f fd sto c o o' /\
    phase fd sto c p h (file_of path s) o f o'.
Proof using Hd.
  intros Hlk Hb. destruct (lk_busy _ _ _ _ _ _ Hlk _ _ _ _ Hb) as (Hc & Hp & o & o' & Ho & Ho' & Hph).
  pose proof (linked_handle _ _ _ _ _ _ _ _ Hlk Hb) as Hfd. cbn [handle_of] in Hfd.
  pose proof (lk_ok _ _ _ _ _ _ Hlk) as Hs.
  destruct (handle_description path d s fd sto Hs Hfd) as (o1 & Ho1 & Hp1 & Hl1).
  assert (o1 = o) as -> by congruence.
  split; [done|]. exists o, o'. split; [|done]. split; try done.
  - pose proof (lk_files _ _ _ _ _ _ Hlk) as Hf. cbn in Hf. by rewrite Hf, lookup_insert_eq.
  - by apply (handle_shape path d Hd).
Qed.

(** The process that has the lock keeps the others out. *)
Lemma lock_excludes s w procs live f h fd sto c p o :
  linked s (mkISys w procs live) f h -> procs !! fd = Some (Busy sto c p) ->
  ofd_path o = path -> h ≠ Some fd -> ~ lock_conflict w fd o LOCK_EX -> h = None.
Proof using Hd.
  intros Hlk Hb Hp Hh Hno. destruct h as [fd'|]; [|done]. exfalso. apply Hno.
  destruct (lk_holder _ _ _ _ _ _ Hlk fd' eq_refl) as (sto2 & c2 & p2 & Hb2).
  destruct (linked_at_work _ _ _ _ _ _ _ _ _ _ Hlk Hb2) as (Hsys & o2 & o2' & Haw & Hph).
  destruct Haw as [A1 A2 A3 A4 A5 A6 A7 A8].
  destruct Hph as [?|?|k flts _ EP Hr]; [done|done|].
  destruct (holding_facts path d Hd s fd' sto2 c2 o2 k flts p2 f o2' (lk_ok _ _ _ _ _ _ Hlk) A1 A2 A3 EP
              Hsys Hr) as (_ & _ & Hlock & Hpath & _).
  exists fd', o2'. split; [done|]. split; [congruence|]. split; [congruence|]. by left.
Qed.

(** [live]: the extents in use before the step. *)
Definition simulated (s : sys) live (r : option label) (i : isys) : Prop :=
  exists ls s' f' h', traces (sys_step path) s ls s' /\
    omap outcome_of ls = option_list r /\ linked s' i f' h' /\
    (s_live s = live -> s_live s' = i_live i).

(** The same change to the file seen from inside and outside. *)
Definition same_write (F F' f f' : list Z) : Prop :=
  F' = F /\ f' = f \/
  exists pos xs, in_user_area d pos (Z.of_nat (length xs)) /\
    F' = splice (Z.to_nat pos) xs F /\ f' = splice (Z.to_nat pos) xs f.

(** An operation outside the critical section returns. *)
Lemma sim_outside s w procs live f h fd sto c p o o1 flts l sto' F' f' o' :
  linked s (mkISys w procs live) f h -> procs !! fd = Some (Busy sto c p) -> h ≠ Some fd ->
  at_work s w f fd sto c o o1 ->
  lrun fd (call_prog fd sto c) (file_of path s) o flts = Some (Ret (l, sto'), (F', o')) ->
  same_write (file_of path s) F' f f' ->
  simulated s live (Some l)
    (mkISys (put_local fd f' o' w) (<[fd := Idle sto']> procs) (live_after sto l live)).
Proof using Hd.
  intros Hlk Hb Hh [A1 A2 A3 A4 A5 A6 A7 A8] Hr Hsw.
  pose proof (lrun_path _ _ _ _ _ _ Hr) as Hpath. cbn [snd] in Hpath. rewrite A5 in Hpath.
  destruct (link_return s w procs live f h fd sto c flts l sto' (put_local fd f' o' w) F' f' o o' h Hlk)
    as (ls & s' & Ht & Hout & Hlk' & Hl' & _); [|exists ls, s', f', h; split_and!; [done..|by intros <-]].
  split; try done.
  - intros fd' sto2 c2 p2 Hne Hb2. by apply (lk_compat _ _ _ _ _ _ Hlk fd fd' sto sto2 c c2 p p2).
  - cbn. by rewrite Hpath.
  - intros ->. pose proof (lk_free _ _ _ _ _ _ Hlk eq_refl) as ->.
    by destruct Hsw as [[-> ->]|(pos & xs & _ & -> & ->)].
  - split; [done|by left].
  - intros fd' sto2 c2 p2 o2 o2' Hne Hb2 Ho2 Hh2 Hph.
    destruct Hsw as [[-> ->]|(pos & xs & Hin & -> & ->)]; [done|].
    destruct (linked_at_work _ _ _ _ _ _ _ _ _ _ Hlk Hb2) as (Hsys & o3 & o3' & [B1 B2 B3 _ _ _ _ _] & _).
    destruct Hph as [?|?|k flts2 _ EP Hr2]; [done|done|].
    destruct (holding_facts path d Hd s fd' sto2 c2 o2 k flts2 p2 f o2' (lk_ok _ _ _ _ _ _ Hlk) B1 B2 Ho2
                EP Hsys Hr2) as (_ & _ & _ & _ & Hcomm).
    eapply ph_holding; [done|exact EP|by apply Hcomm].
Qed.

(** An operation makes progress without returning. *)
Lemma sim_progress s w procs live f h fd sto c p p' o o1 o' f' h' :
  linked s (mkISys w procs live) f h -> procs !! fd = Some (Busy sto c p) ->
  at_work s w f fd sto c o o1 -> is_sys p' -> ofd_path o' = path ->
  (h' = None -> f' = file_of path s) ->
  (h = h' /\ (h = Some fd \/ f' = f) \/ h = None /\ h' = Some fd) ->
  phase fd sto c p' h' (file_of path s) o f' o' ->
  simulated s live None (mkISys (put_local fd f' o' w) (<[fd := Busy sto c p']> procs) live).
Proof using.
  intros Hlk Hb [A1 A2 A3 A4 A5 A6 A7 A8] Hp Hpath Hfree Hh Hph.
  exists [], s, f', h'. split; [constructor|]. split; [done|]. split; [|done].
  eapply (link_continue s w procs live f h fd sto c (Busy sto c p)); try done.
  - intros fd' sto2 c2 p2 Hne Hb2. by apply (lk_compat _ _ _ _ _ _ Hlk fd fd' sto sto2 c c2 p p2).
  - cbn. by rewrite Hpath.
Qed.

(** An operation is never undefined or hanging. *)
Lemma sim_is_sys s f h i fd sto c o o1 flts p f' o' :
  linked s i f h -> at_work s (i_world i) f fd sto c o o1 ->
  lrun fd (call_prog fd sto c) (file_of path s) o flts = Some (p, (f', o')) ->
  (forall a, p ≠ Ret a) -> is_sys p.
Proof using Hd.
  intros Hlk [A1 A2 A3 A4 A5 A6 A7 A8] Hr Hp.
  pose proof (lrun_ok path d Hd s fd sto c o flts p f' o' (lk_ok _ _ _ _ _ _ Hlk) A1 A2 A3 Hr).
  destruct p as [a| | |]; try done. by destruct (Hp a).
Qed.

Lemma settle_sys w procs live fd sto c p :
  is_sys p -> settle w procs live fd sto c p = (None, mkISys w (<[fd := Busy sto c p]> procs) live).
Proof using. by destruct p. Qed.

Lemma lperform_lock_ok flt m f o :
  flt ≠ FErr -> lperform (Flock 0 m) flt f o = (0, (f, set_lock (Some m) o)).
Proof using. by destruct flt. Qed.

Lemma lperform_seek_ok flt off f o :
  flt ≠ FErr -> 0 <= off -> lperform (Lseek 0 off) flt f o = (off, (f, set_pos off o)).
Proof using. intros Hf Ho. destruct flt; [|done|]; cbn; destruct (Z.ltb_spec off 0); done || lia. Qed.

(** ** Locking *)

Lemma sim_lock s w procs live f h fd sto c o flt sc p' w' k :
  linked s (mkISys w procs live) f h -> procs !! fd = Some (Busy sto c (call_prog fd sto c)) ->
  h ≠ Some fd -> at_work s w f fd sto c o o ->
  call_prog fd sto c = Sys (Flock fd LOCK_EX) k -> ends_unless 0 k ->
  critical d fd (k 0) (file_of path s) (set_lock (Some LOCK_EX) o) ->
  advance (Sys (Flock fd LOCK_EX) k) flt w = Some (sc, p', w') ->
  let r := settle w' procs live fd sto c p' in simulated s live r.1 r.2.
Proof using Hd.
  intros Hlk Hb Hh Haw EP Hend Hcrit Hadv. pose proof Haw as [A1 A2 A3 A4 A5 A6 A7 A8].
  destruct (advance_local fd _ k flt w sc p' w' o f) as (-> & -> & Hno); [done|done|by rewrite A5|done|].
  assert (flt = FErr \/ flt ≠ FErr) as [->|Hflt] by (destruct flt; auto).
  - destruct (Hend (-1)) as [[l sto'] Ek]; [done|]. cbn [lperform fst snd]. rewrite Ek. cbn [settle fst snd].
    eapply (sim_outside s w procs live f h fd sto c _ o o [FErr]); [done|done|done|done| |by left].
    rewrite EP, lrun_cons by done. cbn. by rewrite Ek.
  - change (lperform (Flock fd LOCK_EX) flt f o) with (lperform (Flock 0 LOCK_EX) flt f o).
    rewrite lperform_lock_ok by done. cbn [fst snd].
    assert (h = None) as -> by (eapply (lock_excludes s w procs live f h fd); eauto).
    pose proof (lk_free _ _ _ _ _ _ Hlk eq_refl) as ->.
    assert (lrun fd (call_prog fd sto c) (file_of path s) o [FNone] =
            Some (k 0, (file_of path s, set_lock (Some LOCK_EX) o))) as Hr.
    { by rewrite EP, lrun_cons. }
    assert (is_sys (k 0)) as Hsys.
    { eapply sim_is_sys; [exact Hlk|exact Haw|exact Hr|]. intros a E. by rewrite E in Hcrit. }
    rewrite settle_sys by done. cbn [fst snd].
    eapply (sim_progress s w procs live _ None fd sto c _ _ o o _ _ (Some fd)); try done; [by right|].
    by eapply ph_holding.
Qed.

(** ** Seeking *)

Lemma sim_seek s w procs live f h fd sto c o flt sc p' w' off k :
  linked s (mkISys w procs live) f h -> procs !! fd = Some (Busy sto c (call_prog fd sto c)) ->
  h ≠ Some fd -> at_work s w f fd sto c o o ->
  call_prog fd sto c = Sys (Lseek fd off) k -> 0 <= off -> ends_unless off k -> is_sys (k off) ->
  advance (Sys (Lseek fd off) k) flt w = Some (sc, p', w') ->
  let r := settle w' procs live fd sto c p' in simulated s live r.1 r.2.
Proof using Hd.
  intros Hlk Hb Hh Haw EP Hoff Hend Hsys Hadv. pose proof Haw as [A1 A2 A3 A4 A5 A6 A7 A8].
  destruct (advance_local fd _ k flt w sc p' w' o f) as (-> & -> & _); [done|done|by rewrite A5|done|].
  assert (flt = FErr \/ flt ≠ FErr) as [->|Hflt] by (destruct flt; auto).
  - destruct (Hend (-1)) as [[l sto'] Ek]; [lia|]. cbn [lperform fst snd]. rewrite Ek. cbn [settle fst snd].
    eapply (sim_outside s w procs live f h fd sto c _ o o [FErr]); [done|done|done|done| |by left].
    rewrite EP, lrun_cons by done. cbn. by rewrite Ek.
  - change (lperform (Lseek fd off) flt f o) with (lperform (Lseek 0 off) flt f o).
    rewrite lperform_seek_ok by done. cbn [fst snd]. rewrite settle_sys by done. cbn [fst snd].
    eapply (sim_progress s w procs live f h fd sto c _ _ o o _ f h); try done.
    { intros ->. apply (lk_free _ _ _ _ _ _ Hlk eq_refl). } { left. auto. }
    eapply ph_seeked; [done|exact EP|]. intros F0. rewrite EP, lrun_cons by done.
    change (lperform (Lseek fd off) FNone F0 o) with (lperform (Lseek 0 off) FNone F0 o).
    by rewrite lperform_seek_ok.
Qed.

(** ** The transfer after a seek *)

Lemma sim_transfer s w procs live f h fd sto c o o1 flt sc p p' w' off k :
  linked s (mkISys w procs live) f h -> procs !! fd = Some (Busy sto c p) ->
  h ≠ Some fd -> at_work s w f fd sto c o o1 -> call_prog fd sto c = Sys (Lseek fd off) k ->
  (forall F0, lrun fd (call_prog fd sto c) F0 o [FNone] = Some (p, (F0, o1))) ->
  advance p flt w = Some (sc, p', w') ->
  let r := settle w' procs live fd sto c p' in simulated s live r.1 r.2.
Proof using Hd.
  intros Hlk Hb Hh Haw EP Hr Hadv. pose proof Haw as [A1 A2 A3 A4 A5 A6 A7 A8].
  pose proof (linked_outside path d Hd _ _ _ _ Hlk) as Hsame.
  pose proof (lrun_path _ _ _ _ _ _ (Hr [])) as Hp1. cbn [snd] in Hp1. rewrite A5 in Hp1.
  pose proof (Hr (file_of path s)) as Hr0.
  remember (call_prog fd sto c) as P eqn:EQ.
  destruct A8 as [a|k0 H1 H2|off0 n k0 k2 Hn [Hin1 Hin2] H1 H2 H3|off0 bs k0 k2 [Hin1 Hin2] H1 H2 H3];
    try discriminate EP; unfold sizeof_desc in Hin1;
    rewrite lrun_cons in Hr0 by done;
    change (lperform (Lseek fd off0)) with (lperform (Lseek 0 off0)) in Hr0;
    rewrite lperform_seek_ok in Hr0 by (done || lia); cbn [fst snd lrun] in Hr0;
    rewrite H2 in Hr0; injection Hr0 as <- <-.
  - pose proof (lperform_user_read d fd flt _ f (set_pos off0 o) n (conj Hin1 Hin2) Hsame) as Hx.
    destruct (advance_local fd (Read fd n) k2 flt w sc p' w' (set_pos off0 o) f) as (-> & -> & _);
      [done|done|by cbn; rewrite A5|done|].
    rewrite Hx. cbn [fst snd].
    destruct (H3 (lperform (Read fd n) flt (file_of path s) (set_pos off0 o)).1) as [[l sto'] Ek].
    rewrite Ek. cbn [settle fst snd].
    eapply (sim_outside s w procs live f h fd sto c _ o _ [FNone; flt]); [done|done|done|done| |by left].
    rewrite <-EQ. change [FNone; flt] with ([FNone] ++ [flt]).
    erewrite lrun_snoc; [|apply Hr|done]. rewrite Ek. do 2 f_equal.
    rewrite (lperform_user_read d fd flt (file_of path s) (file_of path s) (set_pos off0 o) n (conj Hin1 Hin2))
      by done.
    done.
  - destruct (lperform_user_write fd flt (file_of path s) f (set_pos off0 o) bs) as (xs & Hxs & HF & Hf).
    destruct (advance_local fd (Write fd bs) k2 flt w sc p' w' (set_pos off0 o) f) as (-> & -> & _);
      [done|done|by cbn; rewrite A5|done|].
    rewrite Hf. cbn [fst snd].
    destruct (H3 (lperform (Write fd bs) flt (file_of path s) (set_pos off0 o)).1) as [[l sto'] Ek].
    rewrite Ek. cbn [settle fst snd].
    eapply (sim_outside s w procs live f h fd sto c _ o _ [FNone; flt]); [done|done|done|done| |].
    + rewrite <-EQ. change [FNone; flt] with ([FNone] ++ [flt]).
    erewrite lrun_snoc; [|apply Hr|done]. rewrite Ek. do 2 f_equal.
      rewrite HF at 1. reflexivity.
    + destruct (Nat.eqb_spec (length xs) 0); [by left|]. right.
      exists off0, xs. split; [|done]. split; [done|lia].
Qed.

(** ** Inside the critical section *)

Lemma sim_unlock s w procs live f fd sto c p o o' flts l sto' k :
  linked s (mkISys w procs live) f (Some fd) -> procs !! fd = Some (Busy sto c p) ->
  at_work s w f fd sto c o o' ->
  lrun fd (call_prog fd sto c) (file_of path s) o flts = Some (Sys (Flock_un fd) k, (f, o')) ->
  k tt = Ret (l, sto') ->
  simulated s live (Some l) (mkISys (put_local fd f (set_lock None o') w) (<[fd := Idle sto']> procs)
                          (live_after sto l live)).
Proof using Hd.
  intros Hlk Hb [A1 A2 A3 A4 A5 A6 A7 A8] Hr Ek.
  pose proof (lrun_path _ _ _ _ _ _ Hr) as Hpath. cbn [snd] in Hpath. rewrite A5 in Hpath.
  destruct (link_return s w procs live f (Some fd) fd sto c (flts ++ [FNone]) l sto'
    (put_local fd f (set_lock None o') w) f f o (set_lock None o') None Hlk)
    as (ls & s' & Ht & Hout & Hlk' & Hl' & _); [|exists ls, s', f, None; split_and!; [done..|by intros <-]].
  split; try done.
  - intros fd' sto2 c2 p2 Hne Hb2. by apply (lk_compat _ _ _ _ _ _ Hlk fd fd' sto sto2 c c2 p p2).
  - erewrite lrun_snoc; [|exact Hr|done]. cbn. by rewrite Ek.
  - cbn. by rewrite Hpath.
  - split; [done|by right].
  - intros fd' sto2 c2 p2 o2 o2' Hne _ _ [= ?]. congruence.
Qed.

Lemma sim_critical s w procs live f fd sto c p o o' flt flts k sc p' w' :
  linked s (mkISys w procs live) f (Some fd) -> procs !! fd = Some (Busy sto c p) -> is_sys p ->
  at_work s w f fd sto c o o' -> call_prog fd sto c = Sys (Flock fd LOCK_EX) k ->
  lrun fd (call_prog fd sto c) (file_of path s) o (FNone :: flts) = Some (p, (f, o')) ->
  advance p flt w = Some (sc, p', w') ->
  let r := settle w' procs live fd sto c p' in simulated s live r.1 r.2.
Proof using Hd.
  intros Hlk Hb Hsys Haw EP Hr Hadv. pose proof Haw as [A1 A2 A3 A4 A5 A6 A7 A8].
  destruct (holding_facts path d Hd s fd sto c o k flts p f o' (lk_ok _ _ _ _ _ _ Hlk) A1 A2 A3 EP
              Hsys Hr) as (Hcrit & _ & _ & Hpath & _).
  destruct p as [|sc0 k0| |]; try done. destruct Hcrit as [[-> Hend]|[Hmeta Hk]].
  - destruct (advance_local fd _ k0 flt w sc p' w' o' f) as (-> & -> & _);
      [done|done|by rewrite Hpath|done|].
    destruct (Hend tt) as [[l sto'] Ek]. cbn [lperform fst snd]. rewrite Ek. cbn [settle fst snd].
    by eapply sim_unlock.
  - pose proof (metadata_local d fd o' sc0 Hmeta) as Hloc.
    destruct (advance_local fd sc0 k0 flt w sc p' w' o' f) as (-> & -> & _);
      [done|done|by rewrite Hpath|done|].
    specialize (Hk flt). cbv zeta in Hk. pose proof (lperform_path sc0 flt f o') as Hpath'.
    rewrite Hpath in Hpath'. set (x := lperform sc0 flt f o') in *.
    assert (lrun fd (call_prog fd sto c) (file_of path s) o (FNone :: flts ++ [flt]) =
            Some (k0 x.1, (x.2.1, x.2.2))) as Hr'.
    { change (FNone :: flts ++ [flt]) with ((FNone :: flts) ++ [flt]).
      erewrite lrun_snoc; [|exact Hr|done]. fold x. by destruct x as [? []]. }
    assert (is_sys (k0 x.1)) as Hsys'.
    { eapply sim_is_sys; [exact Hlk|exact Haw|exact Hr'|]. intros a E. by rewrite E in Hk. }
    rewrite settle_sys by done. cbn [fst snd].
    eapply (sim_progress s w procs live f (Some fd) fd sto c _ _ o o' x.2.2 x.2.1 (Some fd)); try done.
    { left. auto. }
    by eapply ph_holding.
Qed.

(** ** Starting and calling *)

Lemma sim_start s w procs live f h fd sto c :
  linked s (mkISys w procs live) f h -> procs !! fd = Some (Idle sto) ->
  call_allowed procs live c ->
  let r := settle w procs live fd sto c (call_prog fd sto c) in simulated s live r.1 r.2.
Proof using Hd.
  intros Hlk Hb [Hargs Hcc]. pose proof Hlk as [Hs Hli Hhs Hfiles Hnx Hfr Hho Hrest Hbusy Hcomp].
  cbn [i_world i_procs i_live] in *. apply (args_mono _ _ _ Hli) in Hargs.
  pose proof (linked_handle _ _ _ _ _ _ _ _ Hlk Hb) as Hfd. cbn [handle_of] in Hfd.
  destruct (handle_description path d s fd sto Hs Hfd) as (o & Ho & Hp & Hl).
  assert (~ busy procs fd) as Hnb by (intros (? & ? & ? & ?); congruence).
  assert (h ≠ Some fd) as Hh by (intros ->; by destruct (Hnb (Hho fd eq_refl))).
  pose proof (Hrest fd Hnb) as Ho'. rewrite Ho in Ho'.
  assert (w_files w !! path = Some f) as Hf by (by rewrite Hfiles, lookup_insert_eq).
  assert (h = None -> f = file_of path s) as Hfree by done.
  destruct (call_prog fd sto c) as [[l sto']|sc k| |] eqn:EP; cbn [settle fst snd].
  - destruct (link_return s w procs live f h fd sto c [] l sto' w (file_of path s) f o o h Hlk)
      as (ls & s' & Ht & Hout & Hlk' & Hl' & _); [|exists ls, s', f, h; split_and!; [done..|by intros <-]].
    split; try done.
    + intros fd' sto2 c2 p2 _. apply Hcc.
    + by rewrite EP.
    + by rewrite insert_id.
    + by rewrite insert_id.
    + split; [done|by left].
  - exists [], s, f, h. split; [constructor|]. split; [done|]. split; [|done]. rewrite <-EP.
    eapply (link_continue s w procs live f h fd sto c (Idle sto)); try done.
    + by rewrite EP.
    + intros fd' sto2 c2 p2 _. apply Hcc.
    + by rewrite insert_id.
    + by rewrite insert_id.
    + left. auto.
    + by apply ph_waiting.
  - pose proof (lrun_ok path d Hd s fd sto c o [] _ _ _ Hs Hfd Hargs Ho eq_refl) as Hno. by rewrite EP in Hno.
  - pose proof (lrun_ok path d Hd s fd sto c o [] _ _ _ Hs Hfd Hargs Ho eq_refl) as Hno. by rewrite EP in Hno.
Qed.

Lemma sim_call s w procs live f h fd sto c p flt sc p' w' :
  linked s (mkISys w procs live) f h -> procs !! fd = Some (Busy sto c p) ->
  advance p flt w = Some (sc, p', w') ->
  let r := settle w' procs live fd sto c p' in simulated s live r.1 r.2.
Proof using Hd.
  intros Hlk Hb Hadv. destruct (linked_at_work _ _ _ _ _ _ _ _ _ _ Hlk Hb) as (Hsys & o & o' & Haw & Hph).
  destruct Hph as [Hh -> ->|off k Hh EP Hr|k flts -> EP Hr].
  - pose proof (aw_shape _ _ _ _ _ _ _ _ Haw) as Hsh. remember (call_prog fd sto c) as P eqn:EP.
    destruct Hsh as [a|k H1 H2|off n k k2 Hn [Hin _] H1 H2 H3|off bs k k2 [Hin _] H1 H2 H3];
      [done| | |]; rewrite EP in Hb; symmetry in EP; unfold sizeof_desc in *.
    + by eapply sim_lock.
    + eapply sim_seek; [done..|lia|done|by rewrite H2|done].
    + eapply sim_seek; [done..|lia|done|by rewrite H2|done].
  - by eapply sim_transfer.
  - by eapply sim_critical.
Qed.

(** ** Killed processes *)

(** A process outside the critical section leaves no trace. *)
Lemma link_kill s w procs live f h fd pr live' :
  linked s (mkISys w procs live) f h -> procs !! fd = Some pr -> h ≠ Some fd ->
  live' `sublist_of` s_live s ->
  let s' := mkSys (do_close fd (s_world s)) (delete fd (s_handles s)) (s_live s) in
  sys_step path s (LKill fd) s' /\ linked s' (mkISys (do_close fd w) (delete fd procs) live') f h.
Proof using Hd.
  intros Hlk Hpr Hh Hsub. pose proof (linked_handle _ _ _ _ _ _ _ _ Hlk Hpr) as Hfd.
  pose proof Hlk as [Hs Hli Hhs Hfiles Hnx Hfr Hho Hrest Hbusy Hcomp].
  destruct s as [ws hs sl]. cbn [s_world s_handles s_live i_world i_procs i_live] in *.
  destruct (step_kill_ok path d ws hs sl fd _ Hs Hfd) as [[Hs' _] Hfile].
  split; [by eapply StepKill|].
  assert (forall fd', fd' ≠ fd -> busy procs fd' -> busy (delete fd procs) fd') as Hb.
  { intros fd' Hne (sto & c & p & Hb). exists sto, c, p. by rewrite lookup_delete_ne. }
  split; cbn [i_world i_procs i_live s_world s_handles s_live do_close set_fds w_files w_fds w_next_fd];
    rewrite ?Hfile; try done.
  - by rewrite fmap_delete, Hhs.
  - intros fd' ->. apply Hb; [congruence|by apply Hho].
  - intros fd' Hnb. destruct (decide (fd' = fd)) as [->|Hne]; [by rewrite !lookup_delete_eq|].
    rewrite !lookup_delete_ne by done. apply Hrest. intros Hb'. by apply Hnb, Hb.
  - intros fd' sto c p [Hne Hb']%lookup_delete_Some. rewrite !lookup_delete_ne by done. by apply Hbusy.
  - intros fd1 fd2 sto1 sto2 c1 c2 p1 p2 Hne [_ H1]%lookup_delete_Some [_ H2]%lookup_delete_Some.
    by apply (Hcomp fd1 fd2 sto1 sto2 c1 c2 p1 p2).
Qed.

(** One inside may as well have found every remaining call to fail. *)
Lemma sim_abandon s w procs live f fd sto c p :
  linked s (mkISys w procs live) f (Some fd) -> procs !! fd = Some (Busy sto c p) ->
  exists ls s' l sto' o', traces (sys_step path) s ls s' /\ omap outcome_of ls = [l] /\
    label_of fd c l /\ s_live s' = live_after sto l (s_live s) /\
    put_local fd f o' w = set_fds (<[fd := o']> (w_fds w)) w /\
    linked s' (mkISys (put_local fd f o' w) (<[fd := Idle sto']> procs) (live_after sto l live)) f None.
Proof using Hd.
  intros Hlk Hb. destruct (linked_at_work _ _ _ _ _ _ _ _ _ _ Hlk Hb) as (Hsys & o & o' & Haw & Hph).
  pose proof Haw as [A1 A2 A3 A4 A5 A6 A7 A8]. pose proof (lk_ok _ _ _ _ _ _ Hlk) as Hs.
  destruct Hph as [?|?|k flts _ EP Hr]; [done|done|].
  destruct (holding_facts path d Hd s fd sto c o k flts p f o' Hs A1 A2 A3 EP Hsys Hr) as (Hcrit & _).
  destruct (critical_fails d fd p f o' Hcrit) as (n & p' & o2 & Hr2 & Hp').
  rewrite <-(lrun_app _ _ _ _ _ _ _ _ _ Hr) in Hr2.
  pose proof (lrun_path _ _ _ _ _ _ Hr2) as Hpath. cbn [snd] in Hpath. rewrite A5 in Hpath.
  pose proof (lrun_ok path d Hd s fd sto c o _ p' f o2 Hs A1 A2 A3 Hr2) as Hok.
  destruct p' as [[l sto']| | |]; try done.
  destruct (link_return s w procs live f (Some fd) fd sto c
    ((FNone :: flts) ++ replicate n FErr) l sto' (put_local fd f o2 w) f f o o2 None Hlk)
    as (ls & s' & Ht & Hout & Hlk' & Hlive & Hlab); [|exists ls, s', l, sto', o2; split_and!; try done; apply put_local_same; by rewrite Hpath].
  split; try done.
  - intros fd' sto2 c2 p2 Hne Hb2. by apply (lk_compat _ _ _ _ _ _ Hlk fd fd' sto sto2 c c2 p p2).
  - cbn. by rewrite Hpath.
  - split; [done|by right].
  - intros fd' sto2 c2 p2 o3 o3' Hne _ _ [= ?]. congruence.
Qed.

Lemma given_up_sublist c live : given_up c live `sublist_of` live.
Proof using. destruct c as [[| | | |]|]; cbn; try done. apply sublist_filter. Qed.

(** What the operation did to the extents in use covers what is left of them. *)
Lemma given_up_after fd sto c l live live' :
  label_of fd c l -> live `sublist_of` live' ->
  given_up (Some c) live `sublist_of` live_after sto l live'.
Proof using.
  intros Hlab Hs. destruct c, l; cbn in *; try done.
  - unfold live_alloc. case_match; [by constructor|done].
  - destruct Hlab as [_ ->]. case_match; [|by apply live_free_sublist].
    etrans; [apply sublist_filter|done].
Qed.

Lemma sim_kill_step s w procs live f h fd pr :
  linked s (mkISys w procs live) f h -> procs !! fd = Some pr ->
  exists ls s' f' h', traces (sys_step path) s ls s' /\
    explains (omap outcome_of ls) [(EKill fd (call_of pr), None)] /\
    linked s' (mkISys (do_close fd w) (delete fd procs) (given_up (call_of pr) live)) f' h'.
Proof using Hd.
  intros Hlk Hpr. pose proof (lk_live _ _ _ _ _ _ Hlk) as Hli. cbn in Hli.
  destruct (decide (h = Some fd)) as [->|Hh].
  - destruct (lk_holder _ _ _ _ _ _ Hlk fd eq_refl) as (sto & c & p & Hb). cbn in Hb.
    assert (pr = Busy sto c p) as -> by congruence. cbn [call_of].
    destruct (sim_abandon _ _ _ _ _ _ _ _ _ Hlk Hb) as (ls & s1 & l & sto' & o' & Ht & Hout & Hlab & Hl1 & Hw & Hlk1).
    destruct (link_kill s1 _ _ _ f None fd _ (given_up (Some c) live) Hlk1 (lookup_insert_eq _ _ _))
      as [Hstep Hlk2]; [done| |].
    { rewrite Hl1. by eapply given_up_after. }
    exists (ls ++ [LKill fd]). eexists. exists f, None. split_and!.
    + eapply traces_app; [exact Ht|]. econstructor; [exact Hstep|constructor].
    + rewrite omap_app, Hout. cbn. apply (ex_kill [] fd (Some c) (Some l)); [|constructor].
      intros l0 [= <-]. by exists c.
    + rewrite delete_insert_eq, Hw in Hlk2. unfold do_close in Hlk2 at 2. cbn [w_fds set_fds] in Hlk2.
      rewrite delete_insert_eq in Hlk2. exact Hlk2.
  - destruct (link_kill s w procs live f h fd pr (given_up (call_of pr) live) Hlk Hpr Hh)
      as [Hstep Hlk2].
    { etrans; [apply given_up_sublist|done]. }
    exists [LKill fd]. eexists. exists f, h. split_and!; [| |exact Hlk2].
    + econstructor; [exact Hstep|constructor].
    + apply (ex_kill [] fd (call_of pr) None); [done|constructor].
Qed.

(** ** Every step *)

Lemma sim_step s i f h ev r i' :
  linked s i f h -> istep i (ev, r) i' ->
  exists ls s' f' h', traces (sys_step path) s ls s' /\ explains (omap outcome_of ls) [(ev, r)] /\
    linked s' i' f' h' /\ (is_kill ev = false -> s_live s = i_live i -> s_live s' = i_live i').
Proof using Hd.
  intros Hlk Hstep. inversion Hstep; subst.
  - edestruct sim_start as (ls & s' & f' & h' & Ht & Ho & Hlk' & Hli'); [done..|].
    exists ls, s', f', h'. rewrite Ho. split_and!; [done| |done|done].
    rewrite <-(app_nil_r (option_list _)). apply ex_start. constructor.
  - edestruct sim_call as (ls & s' & f' & h' & Ht & Ho & Hlk' & Hli'); [done..|].
    exists ls, s', f', h'. rewrite Ho. split_and!; [done| |done|done].
    rewrite <-(app_nil_r (option_list _)). apply ex_call. constructor.
  - edestruct sim_kill_step as (ls & s' & f' & h' & Ht & Ho & Hlk'); [done..|].
    by exists ls, s', f', h'.
Qed.

Lemma explains_app ls1 ls2 evs1 evs2 :
  explains ls1 evs1 -> explains ls2 evs2 -> explains (ls1 ++ ls2) (evs1 ++ evs2).
Proof using.
  intros H1 H2. induction H1; cbn; rewrite <-?(assoc (++)); try done; by constructor.
Qed.

Lemma sim_trace s i f h evs i' :
  linked s i f h -> traces istep i evs i' ->
  exists ls s' f' h', traces (sys_step path) s ls s' /\ explains (omap outcome_of ls) evs /\
    linked s' i' f' h' /\
    (Forall (fun ev => is_kill ev.1 = false) evs -> s_live s = i_live i -> s_live s' = i_live i').
Proof using Hd.
  intros Hlk Ht. revert s f h Hlk. induction Ht as [i|i [ev r] i1 evs i2 Hstep _ IH]; intros s f h Hlk.
  - exists [], s, f, h. split_and!; [constructor|constructor|done|done].
  - destruct (sim_step s i f h ev r i1 Hlk Hstep) as (ls & s1 & f1 & h1 & Ht1 & Ho1 & Hlk1 & Hl1).
    destruct (IH s1 f1 h1 Hlk1) as (ls2 & s2 & f2 & h2 & Ht2 & Ho2 & Hlk2 & Hl2).
    exists (ls ++ ls2), s2, f2, h2. split_and!; [by eapply traces_app| |done|].
    + rewrite omap_app. by apply (explains_app _ _ [(ev, r)]).
    + intros [Hk Hks]%Forall_cons Heq. auto.
Qed.

(** Before anybody calls, the two systems are in the same state. *)
Lemma linked_idle s : sys_ok path d s -> linked s (all_idle s) (file_of path s) None.
Proof using.
  intros Hs. assert (forall fd, ~ busy (i_procs (all_idle s)) fd) as Hno.
  { intros fd (sto & c & p & Hb). cbn in Hb. rewrite lookup_fmap in Hb.
    by destruct (s_handles s !! fd). }
  split; cbn [all_idle i_world i_procs i_live]; try done.
  - rewrite <-map_fmap_compose. symmetry. apply map_fmap_id.
  - by rewrite insert_id by apply Hs.
  - intros fd sto c p Hb. destruct (Hno fd). by exists sto, c, p.
  - intros fd fd' sto sto' c c' p p' _ Hb. destruct (Hno fd). by exists sto, c, p.
Qed.
End simulation.
