(* ===== verification/CallBounds.v ===== *)
(** * How many system calls an operation makes

    Whatever the answers of the kernel: two to load or save the descriptor or
    the bitmap, one to synchronise, lock or unlock, so at most eleven in all. *)
From S2P Require Import Prelude Types Posix PosixFacts Crc Bitmap BitmapFacts Codec Storage Layout.
From S2P Require Import StorageFacts ExtentIO Lifecycle System Interleave.

(** At most [n] system calls are left. *)
Fixpoint bounded {A} (p : M A) (n : nat) {struct p} : Prop :=
  match p with
  | Sys c k => match n with O => False | S n' => forall b, bounded (k b) n' end
  | _ => True
  end.

Lemma bounded_mono {A} (p : M A) n m : bounded p n -> (n <= m)%nat -> bounded p m.
Proof.
  revert n m. induction p as [a|c k IH| |]; intros n m Hp Hle; cbn in *; try done.
  destruct n as [|n], m as [|m]; try done; [lia|]. intros b. apply (IH b n); [done|lia].
Qed.

Lemma bounded_bind {A B} (p : M A) (k : A -> M B) n m :
  bounded p n -> (forall a, bounded (k a) m) -> bounded (bind p k) (n + m).
Proof.
  intros Hp Hk. revert n Hp. induction p as [a|c j IH| |]; intros n Hp; cbn in *; try done.
  - by apply (bounded_mono _ m); [|lia].
  - destruct n as [|n]; [done|]. cbn. intros b. by apply IH.
Qed.

Lemma bounded_lift {A} (x : option A) : bounded (lift x) 0.
Proof. by destruct x. Qed.

Lemma bounded_call c : bounded (syscall_tree c) 1.
Proof. done. Qed.

(** Splits a sequence whose first part makes [n] calls. *)
Ltac bounded_step n :=
  match goal with
  | |- bounded (bind ?p ?k) ?m =>
      refine (bounded_mono _ (n + (m - n)) _ (bounded_bind p k n (m - n) _ _) _); [| |lia]
  end.
(** Ends, tests and memory accesses. *)
Ltac bounded_easy :=
  repeat first
    [ exact I
    | match goal with |- bounded (if ?b then _ else _) _ => destruct b end
    | match goal with |- bounded (let '(_, _) := ?x in _) _ => destruct x end
    | match goal with |- bounded (bind (ret ?a) ?k) ?n => change (bounded (k a) n) end
    | match goal with |- forall _, _ => intros ? end ].

Lemma bounded_load_desc sto : bounded (load_storage_descriptor sto) 2.
Proof.
  unfold load_storage_descriptor. bounded_step 1%nat; [apply bounded_call|]. bounded_easy.
  bounded_step 1%nat; [apply bounded_call|]. intros [k bs]. cbv zeta. bounded_easy.
Qed.

Lemma bounded_save_desc sto : bounded (save_storage_descriptor sto) 2.
Proof.
  unfold save_storage_descriptor. bounded_step 1%nat; [apply bounded_call|]. bounded_easy.
  bounded_step 1%nat; [apply bounded_call|]. bounded_easy.
Qed.

Lemma bounded_bitmap_load bm fd off : bounded (kes_bitmap_load bm fd off) 2.
Proof.
  unfold kes_bitmap_load. destruct bm as [bm|]; bounded_easy.
  bounded_step 1%nat; [apply bounded_call|]. bounded_easy.
  bounded_step 1%nat; [apply bounded_call|]. intros [k bs]. cbv zeta. bounded_easy.
  bounded_step 0%nat; [apply bounded_lift|]. bounded_easy.
Qed.

Lemma bounded_bitmap_save bm fd off : bounded (kes_bitmap_save bm fd off) 2.
Proof.
  unfold kes_bitmap_save. destruct bm as [bm|]; bounded_easy.
  bounded_step 1%nat; [apply bounded_call|]. bounded_easy.
  bounded_step 0%nat; [apply bounded_lift|]. bounded_easy.
  bounded_step 1%nat; [apply bounded_call|]. bounded_easy.
Qed.

Lemma bounded_reload sto : bounded (reload_metadata sto) 4.
Proof.
  unfold reload_metadata. bounded_step 2%nat; [apply bounded_load_desc|]. bounded_easy.
  bounded_step 2%nat; [apply bounded_bitmap_load|]. bounded_easy.
Qed.

Section with_crc.
Context `{Crc32c}.

Lemma bounded_refresh sto : bounded (refresh_checksum sto) 0.
Proof.
  unfold refresh_checksum. bounded_step 0%nat; [apply bounded_lift|].
  intros [code [c|]]; bounded_easy.
Qed.

Lemma bounded_persist sto : bounded (persist_metadata sto) 5.
Proof.
  unfold persist_metadata. bounded_step 2%nat; [apply bounded_bitmap_save|]. bounded_easy.
  bounded_step 0%nat; [apply bounded_refresh|]. bounded_easy.
  bounded_step 2%nat; [apply bounded_save_desc|]. bounded_easy.
  bounded_step 1%nat; [apply bounded_call|]. bounded_easy.
Qed.

Lemma bounded_first_fit sto req ext : bounded (allocate_extent_first_fit sto req ext) 0.
Proof.
  unfold allocate_extent_first_fit. bounded_step 0%nat; [apply bounded_lift|].
  intros [[code bm] found]. cbv zeta. bounded_easy.
  bounded_step 0%nat; [apply bounded_lift|]. bounded_easy.
Qed.

Lemma bounded_lock b : bounded (pthread_mutex_lock b) 0.
Proof. by destruct b. Qed.

Lemma bounded_leave {A} fd (g : bool -> A) h :
  bounded (flock_un fd ;;; let* held := pthread_mutex_unlock h in ret (g held)) 1.
Proof. bounded_step 1%nat; [apply bounded_call|]. bounded_easy. Qed.

(** ** The operations *)

Lemma bounded_sync sto : bounded (kes_storage_sync (Some sto)) 11.
Proof.
  unfold kes_storage_sync. bounded_easy. bounded_step 0%nat; [apply bounded_lock|]. bounded_easy.
  cbv zeta. bounded_step 1%nat; [apply bounded_call|]. bounded_easy.
  bounded_step 4%nat; [apply bounded_reload|]. bounded_easy.
  bounded_step 5%nat; [case_match; [apply bounded_persist|done]|]. bounded_easy.
  apply bounded_leave.
Qed.

Lemma bounded_allocate sto req ext : bounded (kes_extent_allocate (Some sto) (Some req) (Some ext)) 11.
Proof.
  unfold kes_extent_allocate. bounded_easy. bounded_step 0%nat; [apply bounded_lock|]. bounded_easy.
  cbv zeta. bounded_step 1%nat; [apply bounded_call|]. bounded_easy.
  bounded_step 4%nat; [apply bounded_reload|]. intros [code sto1].
  bounded_step 0%nat; [repeat case_match; (apply bounded_first_fit || done)|]. intros [[code2 sto2] ext2].
  case_match. bounded_step 5%nat; [case_match; [apply bounded_persist|done]|]. bounded_easy.
  apply bounded_leave.
Qed.

Lemma bounded_free sto e : bounded (kes_extent_free (Some sto) (Some e)) 11.
Proof.
  unfold kes_extent_free. bounded_easy. bounded_step 0%nat; [apply bounded_lock|]. bounded_easy.
  cbv zeta. bounded_step 1%nat; [apply bounded_call|]. bounded_easy.
  bounded_step 4%nat; [apply bounded_reload|]. bounded_easy.
  { eapply bounded_mono; [apply bounded_leave|lia]. }
  bounded_step 0%nat; [apply bounded_lift|]. bounded_easy.
  { eapply bounded_mono; [apply bounded_leave|lia]. }
  bounded_step 0%nat; [apply bounded_lift|]. bounded_easy.
  bounded_step 5%nat; [case_match; [apply bounded_persist|done]|]. intros r. apply bounded_leave.
Qed.

Lemma bounded_read sto e size off : bounded (kes_extent_read (Some sto) (Some e) true size off) 2.
Proof.
  unfold kes_extent_read. cbn [negb]. cbv zeta. bounded_easy.
  bounded_step 0%nat; [apply bounded_lock|]. bounded_easy.
  bounded_step 1%nat; [apply bounded_call|]. bounded_easy.
  bounded_step 1%nat; [apply bounded_call|]. bounded_easy.
Qed.

Lemma bounded_write sto e buf size off : bounded (kes_extent_write (Some sto) (Some e) (Some buf) size off) 2.
Proof.
  unfold kes_extent_write. cbv zeta. bounded_easy.
  bounded_step 0%nat; [apply bounded_lock|]. bounded_easy.
  bounded_step 1%nat; [apply bounded_call|]. bounded_easy.
  bounded_step 1%nat; [apply bounded_call|]. bounded_easy.
Qed.

Lemma call_bounded fd sto c : bounded (call_prog fd sto c) 11.
Proof.
  destruct c as [req ext0|e|e off data|e off size|]; cbn [call_prog].
  - bounded_step 11%nat; [apply bounded_allocate|]. bounded_easy.
  - bounded_step 11%nat; [apply bounded_free|]. bounded_easy.
  - bounded_step 2%nat; [apply bounded_write|]. bounded_easy.
  - bounded_step 2%nat; [apply bounded_read|]. bounded_easy.
  - bounded_step 11%nat; [apply bounded_sync|]. bounded_easy.
Qed.
End with_crc.
