(* ===== verification/InterleaveProps.v ===== *)
(** * Properties of concurrent operations

    Linearizability of the operations that several processes carry out side by
    side, even if some of them are killed, what it means for their extents, and
    that every operation gets to its end: no two processes wait for each other, and no operation makes more
    than eleven system calls. *)
From S2P Require Import Prelude Types Posix PosixFacts Crc Bitmap BitmapFacts Codec Storage Layout.
From S2P Require Import StorageFacts ExtentIO Lifecycle System SystemFacts Demo Interleave Critical.
From S2P Require Import CallShapes InterleaveFacts Simulation CallBounds StorageProps SystemProps.

(** ** Who has the lock *)

Section locks.
Context `{Crc32c} (path : string) (d : kes_storage_descriptor) (Hd : layout_ok d).

(** Only the process in its critical section has a lock on the file. *)
Lemma lock_owner s i f h fd o :
  linked path d s i f h -> w_fds (i_world i) !! fd = Some o -> ofd_path o = path ->
  ofd_lock o ≠ None -> h = Some fd.
Proof using Hd.
  intros Hlk Ho Hp Hl. pose proof (lk_ok _ _ _ _ _ _ Hlk) as Hs.
  assert (forall o1, w_fds (s_world s) !! fd = Some o1 -> ofd_path o1 = path -> ofd_lock o1 = None) as Hun.
  { intros o1 Ho1 Hp1. apply (so_unlocked _ _ _ Hs fd (ofd_attr o1)); [|done].
    unfold fd_attrs. by rewrite lookup_fmap, Ho1. }
  destruct i as [w procs live]. cbn [i_world] in Ho.
  destruct (procs !! fd) as [[sto|sto c p]|] eqn:E.
  1,3: destruct Hl; apply Hun; [|done]; pose proof (lk_rest _ _ _ _ _ _ Hlk fd) as Hr; cbn in Hr;
       rewrite Hr in Ho; [done|]; intros (? & ? & ? & ?); congruence.
  destruct (linked_at_work path d Hd _ _ _ _ _ _ _ _ _ _ Hlk E) as (Hsys & o1 & o' & [A1 A2 A3 A4 A5 A6 A7 A8] & Hph).
  assert (o' = o) as -> by congruence.
  destruct Hph as [_ _ ->|off k Hh EP Hr|k flts -> EP Hr]; [congruence| |done].
  specialize (Hr []). rewrite EP, lrun_cons in Hr by done. cbn in Hr.
  destruct (off <? 0); cbn in Hr; injection Hr as _ <-; done.
Qed.

Lemma lock_free s i f fd o m :
  linked path d s i f None -> ofd_path o = path -> ~ lock_conflict (i_world i) fd o m.
Proof using Hd.
  intros Hlk Hp (fd' & o' & Ho' & Hne & Hp' & Hl).
  assert (None = Some fd') as Hc; [|done].
  eapply lock_owner; [exact Hlk|exact Ho'|congruence|]. by destruct Hl as [->|[_ ->]].
Qed.

(** ** Progress *)

Definition can_step (i : isys) (fd : Z) : Prop :=
  exists sc r i', istep i (ECall fd sc FNone, r) i'.

(** [fd] is at its [flock], and [fd'] has the file locked. *)
Definition waits_for (i : isys) (fd fd' : Z) : Prop :=
  fd' ≠ fd /\
  (exists sto c k, i_procs i !! fd = Some (Busy sto c (Sys (Flock fd LOCK_EX) k))) /\
  exists o, w_fds (i_world i) !! fd' = Some o /\ ofd_path o = path /\ ofd_lock o = Some LOCK_EX.

Lemma can_step_intro w procs live fd sto c sc (k : answer sc -> M (label * kes_storage)) x :
  procs !! fd = Some (Busy sto c (Sys sc k)) -> perform sc FNone w = Some x ->
  can_step (mkISys w procs live) fd.
Proof using.
  intros Hb Hp. destruct x as [b w'].
  assert (advance (Sys sc k) FNone w = Some (sc, k b, w')) as Ha by (cbn; by rewrite Hp).
  exists sc, (settle w' procs live fd sto c (k b)).1, (settle w' procs live fd sto c (k b)).2.
  by eapply ICall.
Qed.

(** Only [flock] can keep a process waiting. *)
Lemma perform_no_wait sc flt w :
  (forall fd m, sc ≠ Flock fd m) -> exists x, perform sc flt w = Some x.
Proof using. intros Hno. destruct sc; cbn; try by eexists. by destruct (Hno fd m). Qed.

Lemma holder_can_step s w procs live f fd :
  linked path d s (mkISys w procs live) f (Some fd) ->
  can_step (mkISys w procs live) fd /\
  exists o, w_fds w !! fd = Some o /\ ofd_path o = path /\ ofd_lock o = Some LOCK_EX.
Proof using Hd.
  intros Hlk. destruct (lk_holder _ _ _ _ _ _ Hlk fd eq_refl) as (sto & c & p & Hb). cbn in Hb.
  destruct (linked_at_work path d Hd _ _ _ _ _ _ _ _ _ _ Hlk Hb) as (Hsys & o & o' & Haw & Hph).
  destruct Haw as [A1 A2 A3 A4 A5 A6 A7 A8].
  destruct Hph as [?|?|k flts _ EP Hr]; [done|done|].
  destruct (holding_facts path d Hd s fd sto c o k flts p f o' (lk_ok _ _ _ _ _ _ Hlk) A1 A2 A3 EP
              Hsys Hr) as (Hcrit & _ & Hlock & Hpath & _).
  split; [|by exists o']. destruct p as [|sc k'| |]; try done.
  destruct (perform_no_wait sc FNone w) as [x Hx]; [|by eapply can_step_intro].
  intros fd' m ->. destruct Hcrit as [[Hc _]|[Hc _]]; [discriminate Hc|destruct Hc].
Qed.

Lemma linked_progress s i f h fd :
  linked path d s i f h -> busy (i_procs i) fd ->
  can_step i fd \/ exists fd', waits_for i fd fd' /\ can_step i fd'.
Proof using Hd.
  intros Hlk (sto & c & p & Hb). destruct i as [w procs live]. cbn in Hb.
  destruct (linked_at_work path d Hd _ _ _ _ _ _ _ _ _ _ Hlk Hb) as (Hsys & o & o' & Haw & Hph).
  pose proof Haw as [A1 A2 A3 A4 A5 A6 A7 A8].
  assert (forall sc k, p = Sys sc k -> (forall fd' m, sc ≠ Flock fd' m) -> can_step (mkISys w procs live) fd)
    as Hgo.
  { intros sc k -> Hno. destruct (perform_no_wait sc FNone w Hno) as [x Hx]. by eapply can_step_intro. }
  destruct Hph as [Hh -> ->|off k Hh EP Hr|k flts -> EP Hr].
  - remember (call_prog fd sto c) as P eqn:EP.
    destruct A8 as [a|k H1 H2|off n k k2 Hn Hin H1 H2 H3|off bs k k2 Hin H1 H2 H3];
      [done| |left; by apply (Hgo _ _ eq_refl)|left; by apply (Hgo _ _ eq_refl)].
    destruct h as [fd'|].
    + right. exists fd'. destruct (holder_can_step _ _ _ _ _ _ Hlk) as [Hcan Hlock].
      split; [|done]. split; [congruence|]. split; [by exists sto, c, k|done].
    + left. eapply (can_step_intro w procs live fd sto c (Flock fd LOCK_EX) k); [done|]. cbn. unfold do_flock.
      rewrite A4, decide_False; [done|]. by apply (lock_free s (mkISys w procs live) f).
  - left. specialize (Hr []). remember (call_prog fd sto c) as P eqn:EQ.
    destruct A8 as [a|k0 H1 H2|off0 n k0 k2 Hn [Hin _] H1 H2 H3|off0 bs k0 k2 [Hin _] H1 H2 H3];
      try discriminate EP; unfold sizeof_desc in Hin; rewrite lrun_cons in Hr by done; cbn in Hr;
      (destruct (Z.ltb_spec off0 0); [lia|]); cbn in Hr; rewrite H2 in Hr; injection Hr as <- _;
      by apply (Hgo _ _ eq_refl).
  - left. by eapply holder_can_step.
Qed.
End locks.

(** ** Counting *)

Definition is_start (fd : Z) (ev : event * option label) : bool :=
  match ev.1 with EStart fd' _ => bool_decide (fd' = fd) | _ => false end.
Definition is_call (fd : Z) (ev : event * option label) : bool :=
  match ev.1 with ECall fd' _ _ => bool_decide (fd' = fd) | _ => false end.
Definition count (P : event * option label -> bool) (evs : list (event * option label)) : nat :=
  length (List.filter P evs).

Lemma count_cons P ev evs :
  count P (ev :: evs) = if P ev then S (count P evs) else count P evs.
Proof. unfold count. cbn. by destruct (P ev). Qed.

Section counting.
Context `{Crc32c}.

Definition left_to_do (i : isys) (fd : Z) (n : nat) : Prop :=
  forall sto c p, i_procs i !! fd = Some (Busy sto c p) -> bounded p n.

Lemma settle_left w procs live fd fd' sto c p n :
  bounded p n -> left_to_do (mkISys w procs live) fd' n ->
  left_to_do (settle w procs live fd sto c p).2 fd' n.
Proof using.
  intros Hp Hl sto' c' p' Hb.
  assert (procs !! fd' = Some (Busy sto' c' p') \/ p' = p) as [Hb'|Hpp].
  { destruct p as [[l s]| | |]; cbn in Hb; apply lookup_insert_Some in Hb as [[_ E]|[_ E]];
      try (injection E as _ _ ->); auto; done. }
  - by eapply Hl.
  - by rewrite Hpp.
Qed.

Lemma settle_other w w' procs live fd fd' sto c p n :
  fd ≠ fd' -> left_to_do (mkISys w' procs live) fd' n ->
  left_to_do (settle w procs live fd sto c p).2 fd' n.
Proof using.
  intros Hne Hl sto' c' p' Hb. apply (Hl sto' c').
  by destruct p as [[l s]| | |]; cbn in Hb |- *; rewrite lookup_insert_ne in Hb.
Qed.

Lemma calls_count i evs i' fd n :
  left_to_do i fd n -> traces istep i evs i' ->
  (count (is_call fd) evs <= n + 11 * count (is_start fd) evs)%nat.
Proof using.
  intros Hl Ht. revert n Hl. induction Ht as [i|i ev i1 evs i2 Hstep _ IH]; intros n Hl; [cbn; lia|].
  destruct Hstep as [w procs live fd' sto c r Hb Hc <-|w procs live fd' sto c p flt sc p' w' r Hb Ha <-
    |w procs live fd' pr Hpr];
    rewrite !count_cons; cbn [is_start is_call fst];
    [| |apply IH; intros sto c p Hb; cbn in Hb; apply lookup_delete_Some in Hb as [_ Hb]; by eapply Hl];
    (destruct (decide (fd' = fd)) as [->|Hne];
     [rewrite bool_decide_eq_true_2 by done|rewrite bool_decide_eq_false_2 by done]).
  - specialize (IH (n + 11)%nat). enough (left_to_do (settle w procs live fd sto c (call_prog fd sto c)).2 fd (n + 11)) as Hl';
      [specialize (IH Hl'); lia|].
    apply settle_left; [eapply bounded_mono; [apply call_bounded|lia]|].
    intros sto' c' p' Hb'. cbn in Hb'. congruence.
  - apply IH. by eapply settle_other.
  - pose proof (Hl _ _ _ Hb) as Hp. destruct p as [|sc0 k| |]; try done. cbn in Ha, Hp.
    destruct (perform sc0 flt w) as [[b w1]|]; [|done]. injection Ha as <- <- <-.
    destruct n as [|n]; [done|]. specialize (Hp b).
    assert (left_to_do (settle w1 procs live fd sto c (k b)).2 fd n) as Hl'.
    { intros sto' c' p' Hb'. destruct (k b) as [[l s]| | |]; cbn in Hb';
        rewrite lookup_insert_eq in Hb'; try done; by injection Hb' as _ _ <-. }
    specialize (IH n Hl'). lia.
  - apply IH. by eapply settle_other.
Qed.
End counting.

(** ** The properties *)

(** Without killed processes the outcomes are simply the ones seen. *)
Lemma explains_all ls evs :
  explains ls evs -> Forall (fun ev => is_kill ev.1 = false) evs -> ls = omap snd evs.
Proof.
  induction 1 as [|ls fd c r evs _ IH|ls fd sc f r evs _ IH|]; intros [Hk Hks]%Forall_cons || intros _;
    [done| | |done]; rewrite (IH Hks); by destruct r.
Qed.

Lemma quiet_together w procs live s f :
  forall `{Crc32c} path d, linked path d s (mkISys w procs live) f None -> quiescent (mkISys w procs live) ->
  w = set_script (w_script w) (s_world s) /\ procs = Idle <$> s_handles s.
Proof.
  intros Hcrc path d Hlk Hq. pose proof Hlk as [Hs Hli Hhs Hfiles Hnx Hfr _ Hrest _ _].
  assert (forall fd, ~ busy procs fd) as Hnb.
  { intros fd (sto & c & p & Hb). specialize (Hq fd _ Hb). discriminate Hq. }
  cbn [i_world i_procs i_live] in *. split.
  - rewrite (Hfr eq_refl), insert_id in Hfiles by apply Hs.
    assert (w_fds w = w_fds (s_world s)) as Hfds by (apply map_eq; intros fd; by apply Hrest).
    destruct w, (s_world s). cbn in *. by subst.
  - rewrite Hhs. apply map_eq. intros fd. rewrite !lookup_fmap.
    destruct (procs !! fd) as [pr|] eqn:E; [|done]. cbn. by rewrite <-(Hq fd pr E).
Qed.

Section properties.
Context `{Crc32c} (path : string).

Definition real_file (i : isys) : list Z := default [] (w_files (i_world i) !! path).

Lemma reachable_linked c s0 evs i :
  reachable path c s0 -> traces istep (all_idle s0) evs i ->
  layout_ok (created_desc (cfg_device_size c)) /\
  exists ls s f h, traces (sys_step path) s0 ls s /\ explains (omap outcome_of ls) evs /\
    linked path (created_desc (cfg_device_size c)) s i f h /\
    (Forall (fun ev => is_kill ev.1 = false) evs -> s_live s = i_live i).
Proof.
  intros Hs Ht. destruct (reachable_ok path c s0 Hs) as [Hsize Hok].
  pose proof (created_layout_ok _ Hsize) as Hd. split; [done|].
  destruct (sim_trace path _ Hd s0 _ _ None evs i (linked_idle path _ s0 Hok) Ht)
    as (ls & s & f & h & Hls & Hout & Hlk & Hlive). exists ls, s, f, h. auto.
Qed.

(** C5: Linearizability and crash safety.  Whatever the interleaving of the
    system calls of several processes, whatever the faults, and wherever
    processes are killed, the operations return what they return when carried
    out one after the other, in the order in which they return; a killed
    process is one that has first completed its operation or not begun it.  At
    every moment the handles and the content of the extents in use are those
    of that sequential run, and once nobody is inside an operation so are all
    files and descriptors.  No extent is in use that is not in use there; a
    difference comes only from killed processes. *)
Theorem interleaving_linearizable (c : kes_storage_config) (s0 : sys)
    (evs : list (event * option label)) (i : isys)
    (Hs : reachable path c s0) (Ht : traces istep (all_idle s0) evs i) :
  let d := created_desc (cfg_device_size c) in
  exists ls s, traces (sys_step path) s0 ls s /\ explains (omap outcome_of ls) evs /\
    i_live i `sublist_of` s_live s /\ s_handles s = handle_of <$> i_procs i /\
    (forall e, e ∈ i_live i -> extent_data d (real_file i) e = extent_data d (file_of path s) e) /\
    (quiescent i -> i_world i = s_world s /\ i_procs i = Idle <$> s_handles s) /\
    (Forall (fun ev => is_kill ev.1 = false) evs ->
       omap outcome_of ls = omap snd evs /\ s_live s = i_live i).
Proof.
  intros d. destruct (reachable_linked c s0 evs i Hs Ht) as (Hd & ls & s & f & h & Hls & Hout & Hlk & Hlive).
  fold d in Hd, Hlk. pose proof Hlk as [Hok Hli Hhs Hfiles _ _ _ _ _ _].
  assert (real_file i = f) as Hf by (unfold real_file; by rewrite Hfiles, lookup_insert_eq).
  destruct i as [w procs live], s as [ws hs sl]. cbn [i_world i_procs i_live s_world s_handles s_live] in *.
  exists (ls ++ [LFaults (w_script w)]), (mkSys (set_script (w_script w) ws) hs sl).
  rewrite omap_app. cbn [omap list_omap outcome_of]. rewrite app_nil_r.
  split_and!; cbn [s_live s_handles s_world]; try done.
  - eapply traces_app; [exact Hls|]. econstructor; constructor.
  - intros e He. rewrite Hf. destruct (linked_outside path d Hd _ _ _ _ Hlk) as [_ Ha].
    apply extent_data_area; [done|exact Ha|]. eapply live_inside; [exact Hok|]. by eapply elem_of_sublist.
  - intros Hq. assert (h = None) as ->.
    { destruct h as [fd|]; [|done]. destruct (lk_holder _ _ _ _ _ _ Hlk fd eq_refl) as (sto & cc & p & Hb).
      specialize (Hq fd _ Hb). discriminate Hq. }
    exact (quiet_together w procs live _ f path d Hlk Hq).
  - intros Hk. split; [by apply explains_all|by apply Hlive].
Qed.

(** C7: At every moment of every interleaving, even in the middle of operations
    and after failed ones or the death of processes, no two extents in use share a block, all of them lie
    between the descriptor and the bitmap, and at most one process has the file
    locked. *)
Theorem interleaved_extents_safe (c : kes_storage_config) (s0 : sys)
    (evs : list (event * option label)) (i : isys)
    (Hs : reachable path c s0) (Ht : traces istep (all_idle s0) evs i) :
  let d := created_desc (cfg_device_size c) in
  ForallOrdPairs extents_disjoint (i_live i) /\
  (forall e, e ∈ i_live i ->
     0 < ext_block_count e /\
     sizeof_desc <= extent_pos d e /\ extent_pos d e + extent_bytes d e <= map_offset d) /\
  forall fd fd' o o', w_fds (i_world i) !! fd = Some o -> w_fds (i_world i) !! fd' = Some o' ->
    ofd_path o = path -> ofd_path o' = path -> ofd_lock o ≠ None -> ofd_lock o' ≠ None -> fd = fd'.
Proof.
  intros d. destruct (reachable_linked c s0 evs i Hs Ht) as (Hd & ls & s & f & h & _ & _ & Hlk & _).
  fold d in Hd, Hlk. pose proof Hlk as [Hok Hli _ _ _ _ _ _ _ _]. pose proof Hok as [_ _ _ _ _ Hl Hp].
  split_and!; [by eapply ord_pairs_sublist| |].
  - intros e He. apply (elem_of_sublist _ _ _ He) in Hli. rewrite Forall_forall in Hl. destruct (Hl e Hli) as (Hin & Hc & _).
    destruct (extent_pos_bounds d Hd e Hin) as (? & _ & ?). done.
  - intros fd fd' o o' Ho Ho' Hpo Hpo' Hlo Hlo'.
    pose proof (lock_owner path d Hd _ _ _ _ _ _ Hlk Ho Hpo Hlo) as H1.
    pose proof (lock_owner path d Hd _ _ _ _ _ _ Hlk Ho' Hpo' Hlo') as H2. congruence.
Qed.

(** C6: No deadlock and no undefined behaviour: at every moment of every
    interleaving a process inside an operation can make its next system call,
    or it is waiting for the lock and the process that has it can make its
    own. *)
Theorem interleaving_progress (c : kes_storage_config) (s0 : sys)
    (evs : list (event * option label)) (i : isys) (fd : Z)
    (Hs : reachable path c s0) (Ht : traces istep (all_idle s0) evs i)
    (Hb : busy (i_procs i) fd) :
  can_step i fd \/ exists fd', waits_for path i fd fd' /\ can_step i fd'.
Proof.
  destruct (reachable_linked c s0 evs i Hs Ht) as (Hd & ls & s & f & h & _ & _ & Hlk & _).
  by eapply linked_progress.
Qed.

End properties.

(** ** A schedule played, without faults *)

#[local] Existing Instance demo_crc.

Inductive move :=
  | Start (c : call)
  | Next
  | Kill.

Definition play_step (i : isys) (fd : Z) (x : move) : option ((event * option label) * isys) :=
  match x, i_procs i !! fd with
  | Start c, Some (Idle sto) =>
      let r := settle (i_world i) (i_procs i) (i_live i) fd sto c (call_prog fd sto c) in
      Some ((EStart fd c, r.1), r.2)
  | Next, Some (Busy sto c p) =>
      match advance p FNone (i_world i) with
      | Some (sc, p', w') =>
          let r := settle w' (i_procs i) (i_live i) fd sto c p' in Some ((ECall fd sc FNone, r.1), r.2)
      | None => None
      end
  | Kill, Some pr =>
      Some ((EKill fd (call_of pr), None),
            mkISys (do_close fd (i_world i)) (delete fd (i_procs i)) (given_up (call_of pr) (i_live i)))
  | _, _ => None
  end.

Fixpoint play (i : isys) (xs : list (Z * move)) : option (list (event * option label) * isys) :=
  match xs with
  | [] => Some ([], i)
  | (fd, x) :: xs' =>
      '(ev, i1) ← play_step i fd x; '(evs, i2) ← play i1 xs'; Some (ev :: evs, i2)
  end.

Definition outcomes (i : isys) (xs : list (Z * move)) : option (list label) :=
  match play i xs with Some (evs, _) => Some (omap snd evs) | None => None end.

(** Calls that name no extent are always allowed. *)
Definition free_call (x : move) : Prop :=
  match x with
  | Next | Kill | Start CSync => True
  | Start (CAlloc req _) => request_ok req
  | _ => False
  end.

Lemma play_traces i xs evs i' :
  Forall (fun x => free_call x.2) xs -> play i xs = Some (evs, i') -> traces istep i evs i'.
Proof.
  intros Hx. revert i evs. induction Hx as [|[fd x] xs Hfx _ IH]; intros i evs Hp; cbn in Hp.
  { injection Hp as <- <-. constructor. }
  destruct (play_step i fd x) as [[ev i1]|] eqn:E; [|done]. cbn in Hp.
  destruct (play i1 xs) as [[evs1 i2]|] eqn:E2; [|done]. cbn in Hp. injection Hp as <- <-.
  econstructor; [|by apply IH]. destruct i as [w procs live]. unfold play_step in E. cbn [i_world i_procs i_live] in E.
  cbn [snd] in Hfx.
  destruct x as [c| |], (procs !! fd) as [[sto|sto c0 p]|] eqn:Eb; try done.
  - injection E as <- <-. eapply IStart; [exact Eb| |reflexivity].
    destruct c; try done; (split; [by split|]); intros fd' sto' c' p' _ e _ He; done.
  - destruct (advance p FNone w) as [[[sc p'] w']|] eqn:Ea; [|done]. injection E as <- <-.
    by eapply ICall.
  - injection E as <- <-. by apply (IKill w procs live fd (Idle sto)).
  - injection E as <- <-. by apply (IKill w procs live fd (Busy sto c0 p)).
Qed.

Definition demo_two : isys := all_idle (demo_sys demo_image [] []).

Definition demo_alloc : move := Start (CAlloc (mkRequest 2 0 0 0) (mkExtent 0 0 0 0)).

(** Both processes ask for two blocks; the second one starts while the first
    one is in its critical section and has to wait at its [flock]. *)
Definition demo_schedule : list (Z * move) :=
  [(3, demo_alloc); (3, Next); (4, demo_alloc)] ++ replicate 10 (3, Next) ++ replicate 11 (4, Next).

Example demo_schedule_outcomes :
  outcomes demo_two demo_schedule =
  Some [LAlloc 3 (mkRequest 2 0 0 0) KES_SUCCESS (mkExtent 0 2 0 2);
        LAlloc 4 (mkRequest 2 0 0 0) KES_SUCCESS (mkExtent 2 2 0 3)].
Proof. vm_compute. reflexivity. Qed.

(** The second process cannot lock while the first one has the lock. *)
Example demo_blocked :
  outcomes demo_two (take 3 demo_schedule ++ [(4, Next)]) = None.
Proof. vm_compute. reflexivity. Qed.

(** The first process is killed after it has written the bitmap and before it
    writes the descriptor: the lock is free, its two blocks stay allocated, and
    its identifier is given out again. *)
Example demo_killed :
  outcomes demo_two ([(3, demo_alloc)] ++ replicate 7 (3, Next) ++ [(4, demo_alloc); (3, Kill)]
                     ++ replicate 11 (4, Next)) =
  Some [LAlloc 4 (mkRequest 2 0 0 0) KES_SUCCESS (mkExtent 2 2 0 2)].
Proof. vm_compute. reflexivity. Qed.

(** ** Instances *)

(** A synchronisation started on a fresh storage. *)
Lemma demo_started :
  exists w fd k, let s0 := mkSys w {[ fd := created_handle demo_config fd ]} [] in
  let i := mkISys w {[ fd := Busy (created_handle demo_config fd) CSync (Sys (Flock fd LOCK_EX) k) ]} [] in
    reachable demo_path demo_config s0 /\ traces istep (all_idle s0) [(EStart fd CSync, None)] i.
Proof.
  destruct demo_created as (w & fd & Hc & _).
  assert (exists k, call_prog fd (created_handle demo_config fd) CSync = Sys (Flock fd LOCK_EX) k)
    as [k E] by (eexists; reflexivity).
  exists w, fd, k. cbv zeta. split; [by apply reach_created|].
  apply (trace_cons _ _ (EStart fd CSync, None)
    (mkISys w {[ fd := Busy (created_handle demo_config fd) CSync (Sys (Flock fd LOCK_EX) k) ]} []));
    [|constructor].
  unfold all_idle. cbn [s_world s_handles s_live]. rewrite map_fmap_singleton.
  apply (IStart w {[ fd := Idle (created_handle demo_config fd) ]} [] fd
    (created_handle demo_config fd) CSync (None, mkISys w
      {[ fd := Busy (created_handle demo_config fd) CSync (Sys (Flock fd LOCK_EX) k) ]} [])).
  - apply lookup_singleton_eq.
  - split; [by split|]. intros fd' sto c p _ e _ He. discriminate He.
  - rewrite E. cbn [settle]. by rewrite insert_singleton_eq.
Qed.

Lemma interleaving_linearizable_witness :
  exists s0 (evs : list (event * option label)) i, let d := created_desc (cfg_device_size demo_config) in
  exists ls s, traces (sys_step demo_path) s0 ls s /\ explains (omap outcome_of ls) evs /\
    i_live i `sublist_of` s_live s /\ s_handles s = handle_of <$> i_procs i /\
    (forall e, e ∈ i_live i ->
       extent_data d (real_file demo_path i) e = extent_data d (file_of demo_path s) e) /\
    (quiescent i -> i_world i = s_world s /\ i_procs i = Idle <$> s_handles s) /\
    (Forall (fun ev => is_kill ev.1 = false) evs ->
       omap outcome_of ls = omap snd evs /\ s_live s = i_live i).
Proof.
  destruct demo_started as (w & fd & k & Hr & Ht). do 3 eexists.
  apply (interleaving_linearizable demo_path demo_config _ _ _ Hr).
  eapply traces_app; [exact Ht|]. eapply trace_cons; [|constructor].
  eapply IKill. apply lookup_singleton_eq.
Defined.

Lemma interleaved_extents_safe_witness :
  exists i, let d := created_desc (cfg_device_size demo_config) in
  ForallOrdPairs extents_disjoint (i_live i) /\
  (forall e, e ∈ i_live i ->
     0 < ext_block_count e /\
     sizeof_desc <= extent_pos d e /\ extent_pos d e + extent_bytes d e <= map_offset d) /\
  forall fd fd' o o', w_fds (i_world i) !! fd = Some o -> w_fds (i_world i) !! fd' = Some o' ->
    ofd_path o = demo_path -> ofd_path o' = demo_path -> ofd_lock o ≠ None -> ofd_lock o' ≠ None ->
    fd = fd'.
Proof.
  destruct demo_started as (w & fd & k & Hr & Ht). eexists.
  exact (interleaved_extents_safe demo_path demo_config _ _ _ Hr Ht).
Defined.

Lemma interleaving_progress_witness :
  exists i fd, can_step i fd \/ exists fd', waits_for demo_path i fd fd' /\ can_step i fd'.
Proof.
  destruct demo_started as (w & fd & k & Hr & Ht). eexists _, fd.
  apply (interleaving_progress demo_path demo_config _ _ _ fd Hr Ht).
  eexists _, _, _. apply lookup_singleton_eq.
Defined.

