(* ===== verification/ExampleUsage.v ===== *)
(** * The example program: [examples/example_kes_usage.c]

    A client of the storage interface: it creates a 50 MiB storage, allocates
    four extents, writes a formatted message to each and reads it back, frees
    two of them, allocates a larger one, synchronises, closes, and prints what
    it does.  The program is a computation over the world of [Posix] that also
    prints and may end early by [exit]. *)
From Stdlib Require Import SpecFloat Ascii.
From stdpp Require Import pretty.
From S2P Require Import Prelude Types Posix Crc Bitmap Codec Storage.

(** ** Formatted text *)

(** The arguments of a [printf]: integers, doubles and strings. *)
Inductive arg :=
  | AInt (z : Z)
  | ADouble (x : spec_float)
  | AString (s : string).

(** A call of [printf]: the format as the source spells it ([\n] and [%%] left
    as they are) and the values passed.  What the C library makes of them on
    the terminal is not modelled, except for [snprintf] below. *)
Record printed := Printf { pf_format : string; pf_args : list arg }.

(** The text of a format that only has integer conversions; [None] when it has
    others or too few arguments. *)
Fixpoint format (fmt : string) (args : list arg) : option string :=
  match fmt with
  | EmptyString => Some EmptyString
  | String "%"%char (String "d"%char rest) | String "%"%char (String "u"%char rest)
  | String "%"%char (String "l"%char (String "u"%char rest)) =>
      match args with
      | AInt z :: args => s ← format rest args; Some (pretty z +:+ s)
      | _ => None
      end
  | String "%"%char _ => None
  | String c rest => s ← format rest args; Some (String c s)
  end.

Definition bytes_of_string (s : string) : list Z :=
  map (fun c => Z.of_nat (Ascii.nat_of_ascii c)) (String.list_ascii_of_string s).
Definition string_of_bytes (bs : list Z) : string :=
  String.string_of_list_ascii (map (fun b => Ascii.ascii_of_nat (Z.to_nat b)) bs).

(** [snprintf(buf, size, fmt, ...)]: the new content of [buf]. *)
Definition snprintf (buf : list Z) (size : Z) (fmt : string) (args : list arg)
    : option (list Z) :=
  s ← format fmt args;
  Some (splice 0 (take (Z.to_nat (size - 1)) (bytes_of_string s) ++ [0]) buf).

(** The characters up to the terminating null; [None] if there is none. *)
Fixpoint c_string (buf : list Z) : option (list Z) :=
  match buf with
  | [] => None
  | b :: rest => if b =? 0 then Some [] else s ← c_string rest; Some (b :: s)
  end.
Definition strlen (buf : list Z) : option Z := Z.of_nat ∘ length <$> c_string buf.

(** What [%.100s] prints: at most 100 characters, up to the null if it is
    among them. *)
Fixpoint first_chars (n : nat) (buf : list Z) : option (list Z) :=
  match n, buf with
  | O, _ => Some []
  | S _, [] => None
  | S n, b :: rest => if b =? 0 then Some [] else s ← first_chars n rest; Some (b :: s)
  end.

(** ** Programs that print and exit *)

(** [inl]: the value computed; [inr]: the status passed to [exit]. *)
Definition P (A : Type) : Type := M (list printed * (A + Z)).

Definition preturn {A} (a : A) : P A := ret ([], inl a).
Definition pbind {A B} (m : P A) (k : A -> P B) : P B :=
  let* (out, r) := m in
  match r with
  | inl a => let* (out', r') := k a in ret (out ++ out', r')
  | inr status => ret (out, inr status)
  end.
Definition call {A} (m : M A) : P A := let* a := m in ret ([], inl a).
Definition exit {A} (status : Z) : P A := ret ([], inr status).
Definition printf (fmt : string) (args : list arg) : P () := ret ([Printf fmt args], inl tt).

(** A value that is there unless the program is undefined: an element of an
    array, the text a conversion needs, the target of a pointer. *)
Definition the {A} (o : option A) : P A := call (lift o).

Notation "'let!' x ':=' m 'in' k" := (pbind m (fun x => k))
  (at level 10, x pattern, m at level 100, k at level 200,
   format "'[v' 'let!'  x  ':='  m  'in' '/' k ']'") : kes_scope.

(** [for (int i = lo; i < lo + n; i++) body] over the variables [s]. *)
Fixpoint for_range {S} (lo : Z) (n : nat) (body : Z -> S -> P S) (s : S) : P S :=
  match n with
  | O => preturn s
  | Datatypes.S n => let! s := body lo s in for_range (lo + 1) n body s
  end.

(** ** The program *)

Section program.
Context `{Crc32c}.

Definition print_error_and_exit {A} (operation : string) (error_code : Z) : P A :=
  let! message := the (kes_get_error_string error_code) in
  let! _ := printf "Error in %s: %s\n" [AString operation; AString message] in
  exit 1.

(** [if (result != KES_SUCCESS) print_error_and_exit(operation, result);] *)
Definition require_success (operation : string) (result : Z) : P () :=
  if negb (result =? KES_SUCCESS) then print_error_and_exit operation result else preturn tt.

(** [100.0 * n / total]. *)
Definition percent (n total : Z) : spec_float :=
  SFdiv 53 1024 (SFmul 53 1024 (u64_to_double 100) (u64_to_double n)) (u64_to_double total).

(** The handle after the query.  [stats] is not initialised before it. *)
Definition print_storage_info (storage : kes_storage) : P kes_storage :=
  let! (_, sto, stats) := call (kes_storage_get_stats (Some storage) true) in
  let! storage := the sto in
  let! stats := the stats in
  let! _ := printf "\nStorage Information:\n" [] in
  let! _ := printf "  Total blocks: %lu\n" [AInt (st_total_blocks stats)] in
  let! _ := printf "  Free blocks:  %lu (%.1f%%)\n"
              [AInt (st_free_blocks stats);
               ADouble (percent (st_free_blocks stats) (st_total_blocks stats))] in
  let! _ := printf "  Used blocks:  %lu (%.1f%%)\n"
              [AInt (st_used_blocks stats);
               ADouble (percent (st_used_blocks stats) (st_total_blocks stats))] in
  let! _ := printf "  Allocated extents: %lu\n" [AInt (st_allocated_extents stats)] in
  let! _ := printf "  Fragmentation: %lu%%\n" [AInt (st_fragmentation stats)] in
  let! _ := printf "\n" [] in
  preturn storage.

Definition example_path : string := "/tmp/example_storage.kes".
Definition config : kes_storage_config :=
  mkConfig (Some example_path) (50 * 1024 * 1024) KES_DEFAULT_BLOCK_SIZE
    (Z.lor KES_STORAGE_CREATE KES_STORAGE_TRUNCATE) KES_ALLOC_FIRST_FIT.

Definition request : kes_extent_request := mkRequest 8 0 0 0.
Definition large_request : kes_extent_request := mkRequest 20 0 0 0.

(** [printf]s about an extent pass its fields. *)
Definition extent_args (e : kes_extent_descriptor) : list arg :=
  [AInt (ext_start_block e); AInt (ext_block_count e); AInt (ext_extent_id e)].

(** One round of the allocation loop. *)
Definition allocate_one (i : Z) (s : kes_storage * list kes_extent_descriptor)
    : P (kes_storage * list kes_extent_descriptor) :=
  let '(storage, extents) := s in
  let! ext := the (extents !! Z.to_nat i) in
  let! (result, sto, ext) := call (kes_extent_allocate (Some storage) (Some request) (Some ext)) in
  let! storage := the sto in
  let! ext := the ext in
  let! _ := require_success "kes_extent_allocate" result in
  let! _ := printf "  Allocated extent %d: start_block=%lu, count=%u, id=%lu\n"
              (AInt (i + 1) :: extent_args ext) in
  preturn (storage, <[Z.to_nat i := ext]> extents).

(** The text written to extent [i]; [buf] is the array it goes to. *)
Definition describe (i : Z) (ext : kes_extent_descriptor) (buf : list Z) : option (list Z) :=
  snprintf buf 1024
    ("This is test data for extent %d (ID: %lu). " +:+
     "The extent starts at block %lu and contains %u blocks. " +:+
     "This demonstrates basic KES functionality!")
    [AInt (i + 1); AInt (ext_extent_id ext); AInt (ext_start_block ext);
     AInt (ext_block_count ext)].

(** One round of the writing loop; [data] is the array on the stack, of
    indeterminate content. *)
Definition write_one (extents : list kes_extent_descriptor) (data : list Z) (i : Z)
    (storage : kes_storage) : P kes_storage :=
  let! ext := the (extents !! Z.to_nat i) in
  let! data := the (describe i ext data) in
  let! len := the (strlen data) in
  let! (result, sto) := call (kes_extent_write (Some storage) (Some ext) (Some data) (len + 1) 0) in
  let! storage := the sto in
  let! _ := require_success "kes_extent_write" result in
  preturn storage.

(** One round of the reading loop. *)
Definition read_one (extents : list kes_extent_descriptor) (expected_data : list Z) (i : Z)
    (storage : kes_storage) : P kes_storage :=
  let read_buffer := replicate 1024 0 in
  let! ext := the (extents !! Z.to_nat i) in
  let! expected_data := the (describe i ext expected_data) in
  let! len := the (strlen expected_data) in
  let data_size := len + 1 in
  let! (result, sto, bs) := call (kes_extent_read (Some storage) (Some ext) true data_size 0) in
  let! storage := the sto in
  let read_buffer := splice 0 bs read_buffer in
  let! _ :=
    if negb (result =? KES_SUCCESS) then
      let! message := the (kes_get_error_string result) in
      let! _ := printf "Failed to read extent %d (ID: %lu, start_block: %lu): %s\n"
                  [AInt (i + 1); AInt (ext_extent_id ext); AInt (ext_start_block ext);
                   AString message] in
      print_error_and_exit "kes_extent_read" result
    else preturn tt in
  let! shown := the (first_chars 100 read_buffer) in
  let! _ := printf "  Extent %d data: %.100s...\n"
              [AInt (i + 1); AString (string_of_bytes shown)] in
  preturn storage.

(** [kes_extent_free(storage, &extents[i])] and its check. *)
Definition free_one (extents : list kes_extent_descriptor) (i : Z) (storage : kes_storage)
    : P kes_storage :=
  let! ext := the (extents !! Z.to_nat i) in
  let! (result, sto) := call (kes_extent_free (Some storage) (Some ext)) in
  let! storage := the sto in
  let! _ := require_success "kes_extent_free" result in
  preturn storage.

(** Creation, and the four small extents. *)
Definition prepare (extents : list kes_extent_descriptor)
    : P (kes_storage * list kes_extent_descriptor) :=
  let! _ := printf "=== KES Storage Example ===\n" [] in
  let! _ := printf "Creating storage...\n" [] in
  let! (result, sto) := call (kes_storage_create (Some config) true) in
  let! _ := require_success "kes_storage_create" result in
  let! storage := the sto in
  let! storage := print_storage_info storage in
  let! _ := printf "Allocating extents...\n" [] in
  let! (storage, extents) := for_range 0 4 allocate_one (storage, extents) in
  let! storage := print_storage_info storage in
  preturn (storage, extents).

(** Writing, reading back, and freeing extents 2 and 4. *)
Definition exercise (extents : list kes_extent_descriptor) (junk : Z -> list Z)
    (storage : kes_storage) : P kes_storage :=
  let! _ := printf "Writing data to extents...\n" [] in
  let! storage := for_range 0 4 (fun i => write_one extents (junk i) i) storage in
  let! _ := printf "Reading data back...\n" [] in
  let! storage := for_range 0 4 (fun i => read_one extents (junk (4 + i)) i) storage in
  let! _ := printf "\nFreeing extents 2 and 4...\n" [] in
  let! storage := free_one extents 1 storage in
  let! storage := free_one extents 3 storage in
  print_storage_info storage.

(** The larger extent. *)
Definition enlarge (large_extent : kes_extent_descriptor) (storage : kes_storage)
    : P kes_storage :=
  let! _ := printf "Allocating a larger extent...\n" [] in
  let! (result, sto, ext) :=
    call (kes_extent_allocate (Some storage) (Some large_request) (Some large_extent)) in
  let! storage := the sto in
  let! large_extent := the ext in
  let! _ := require_success "large allocation" result in
  let! _ := printf "  Large extent: start_block=%lu, count=%u, id=%lu\n"
              (extent_args large_extent) in
  let! storage := print_storage_info storage in
  let extent_bytes := kes_calculate_extent_size (Some large_extent) in
  let! _ := printf "Large extent size: %zu bytes (%.1f KB)\n"
              [AInt extent_bytes;
               ADouble (SFdiv 53 1024 (u64_to_double extent_bytes) (u64_to_double 1024))] in
  preturn storage.

(** Synchronisation, version and closing. *)
Definition finish (storage : kes_storage) : P () :=
  let! _ := printf "\nSynchronizing storage...\n" [] in
  let! (result, sto) := call (kes_storage_sync (Some storage)) in
  let! storage := the sto in
  let! _ := require_success "kes_storage_sync" result in
  let! storage := print_storage_info storage in
  let '(major, minor, patch) := kes_get_version true true true in
  let! major := the major in
  let! minor := the minor in
  let! patch := the patch in
  let! _ := printf "KES Library Version: %u.%u.%u\n" [AInt major; AInt minor; AInt patch] in
  let! _ := printf "\nClosing storage...\n" [] in
  let! result := call (kes_storage_close (Some storage)) in
  let! _ := require_success "kes_storage_close" result in
  let! _ := printf "✅ Example completed successfully!\n" [] in
  printf "\nTo clean up, remove: /tmp/example_storage.kes\n" [].

(** [main]: what it prints and its exit status.  The arguments are the
    indeterminate contents of its variables: the array of extents, the larger
    extent, and the text buffer of each round of the loops. *)
Definition main (extents : list kes_extent_descriptor) (large_extent : kes_extent_descriptor)
    (junk : Z -> list Z) : M (list printed * Z) :=
  let* (out, r) :=
    let! (storage, extents) := prepare extents in
    let! storage := exercise extents junk storage in
    let! storage := enlarge large_extent storage in
    finish storage in
  ret (out, match r with inl _ => 0 | inr status => status end).
End program.
