(* ===== verification/ExampleProps.v ===== *)
(** * The example program runs to its end

    [main] of [examples/example_kes_usage.c] against the session rules: under
    any faults it returns; it exits 0 having printed exactly
    [expected_output], or exits 1 because of a fault after printing a
    beginning of it and the error.  Without faults the storage it leaves can be
    read by another process. *)
From Stdlib Require Import SpecFloat.
From S2P Require Import Prelude Types Posix PosixFacts Crc Bitmap BitmapFacts Codec Storage Layout.
From S2P Require Import StorageFacts ExtentIO Lifecycle FirstFit System SystemFacts Spec.
From S2P Require Import Refinement Accounting Session Demo ExampleUsage.

(** ** Reasoning about programs that print and exit *)

Definition error_line (p : printed) : Prop :=
  pf_format p = "Error in %s: %s\n"%string \/
  pf_format p = "Failed to read extent %d (ID: %lu, start_block: %lu): %s\n"%string.

(** The output of a run that ended early, [out] being that of a full one. *)
Definition stopped_early (out actual : list printed) : Prop :=
  exists before errors, actual = before ++ errors /\ before `prefix_of` out /\
    errors ≠ [] /\ Forall error_line errors.

Section rules.
Context (noisy : Prop).

(** The computation returns; it ends normally with exactly the output [out],
    or exits with status 1 because of a fault. *)
Definition runs {A} (m : P A) (w : world) (out : list printed) (Q : A -> world -> Prop) : Prop :=
  wp m w (fun r w' =>
    match r.2 with
    | inl a => r.1 = out /\ Q a w'
    | inr status => status = 1 /\ noisy /\ stopped_early out r.1
    end).

Lemma runs_return {A} (a : A) w (Q : A -> world -> Prop) : Q a w -> runs (preturn a) w [] Q.
Proof. by split. Qed.

Lemma stopped_early_app out1 out2 actual :
  stopped_early out1 actual -> stopped_early (out1 ++ out2) actual.
Proof.
  intros (before & errors & -> & Hp & ? & ?). exists before, errors. split_and!; [done| |done|done].
  by apply prefix_app_r.
Qed.

Lemma stopped_early_cons out1 out2 actual :
  stopped_early out2 actual -> stopped_early (out1 ++ out2) (out1 ++ actual).
Proof.
  intros (before & errors & -> & Hp & ? & ?). exists (out1 ++ before), errors.
  split_and!; [by rewrite app_assoc|by apply prefix_app|done|done].
Qed.

Lemma runs_bind {A B} (m : P A) (k : A -> P B) w out1 out2 Q R :
  runs m w out1 R -> (forall a w', R a w' -> runs (k a) w' out2 Q) ->
  runs (pbind m k) w (out1 ++ out2) Q.
Proof.
  intros Hm Hk. wp_bind. eapply wp_mono; [exact Hm|]. intros [o [a|status]] w'; cbn.
  - intros [-> Ha]. wp_bind. eapply wp_mono; [exact (Hk a w' Ha)|]. intros [o' [b|status']] w''; cbn.
    + intros [-> Hb]. by split.
    + intros (-> & Hn & Hs). split_and!; [done|done|by apply stopped_early_cons].
  - intros (-> & Hn & Hs). split_and!; [done|done|by apply stopped_early_app].
Qed.

(** Binding a computation that prints nothing, or one line. *)
Lemma runs_then {A B} (m : P A) (k : A -> P B) w out Q :
  runs m w [] (fun a w' => runs (k a) w' out Q) -> runs (pbind m k) w out Q.
Proof. intros Hm. change out with ([] ++ out). eapply runs_bind; [exact Hm|]. by intros a w'. Qed.

Lemma runs_printf {B} fmt args (k : () -> P B) w out Q :
  runs (k tt) w out Q -> runs (pbind (printf fmt args) k) w (Printf fmt args :: out) Q.
Proof.
  intros Hk. change (_ :: out) with ([Printf fmt args] ++ out).
  apply (runs_bind _ _ _ _ _ _ (fun _ w' => w' = w)); [by split|]. intros [] w' ->. done.
Qed.

Lemma runs_the {A B} (o : option A) a (k : A -> P B) w out Q :
  o = Some a -> runs (k a) w out Q -> runs (pbind (the o) k) w out Q.
Proof. intros ->. intros Hk. apply runs_then. by split. Qed.

Lemma runs_call {A B} (m : M A) (k : A -> P B) w out Q :
  wp m w (fun a w' => runs (k a) w' out Q) -> runs (pbind (call m) k) w out Q.
Proof.
  intros Hm. apply runs_then. unfold runs, call. wp_bind. eapply wp_mono; [exact Hm|].
  intros a w' Hk. wp_ret. by split.
Qed.

(** Stopping with an error. *)
Lemma runs_error {A} operation code w out (Q : A -> world -> Prop) :
  noisy -> is_Some (kes_get_error_string code) ->
  runs (print_error_and_exit operation code) w out Q.
Proof.
  intros Hn [s Hs]. unfold print_error_and_exit. rewrite Hs. cbn. split_and!; [done|done|].
  exists [], [Printf "Error in %s: %s\n" [AString operation; AString s]]. split_and!; [done| |done|].
  - apply prefix_nil.
  - constructor; [by left|done].
Qed.

Lemma runs_require {B} operation code (k : () -> P B) w out Q :
  (code = KES_SUCCESS /\ runs (k tt) w out Q) \/
  (code ≠ KES_SUCCESS /\ noisy /\ is_Some (kes_get_error_string code)) ->
  runs (pbind (require_success operation code) k) w out Q.
Proof.
  intros [[-> Hk]|(Hne & Hn & Hs)]; apply runs_then; unfold require_success.
  - by split.
  - rewrite (proj2 (Z.eqb_neq _ _) Hne). cbn [negb]. by apply runs_error.
Qed.

(** A counting loop: [I i] holds before round [i], which prints [line i]. *)
Lemma runs_for {S} n lo (body : Z -> S -> P S) (line : Z -> list printed)
    (I : Z -> S -> world -> Prop) s w :
  I lo s w ->
  (forall i s w, lo <= i < lo + Z.of_nat n -> I i s w -> runs (body i s) w (line i) (I (i + 1))) ->
  runs (for_range lo n body s) w (concat (map line (seqZ lo (Z.of_nat n)))) (I (lo + Z.of_nat n)).
Proof.
  revert lo s w. induction n as [|n IH]; intros lo s w HI Hbody.
  - rewrite Z.add_0_r. by apply runs_return.
  - rewrite (seqZ_cons lo) by lia. cbn [map concat for_range]. eapply runs_bind.
    + apply Hbody; [lia|done].
    + intros s' w' HI'. replace (Z.pred (Z.of_nat (Datatypes.S n))) with (Z.of_nat n) by lia.
      replace (Z.succ lo) with (lo + 1) by lia.
      replace (lo + Z.of_nat (Datatypes.S n)) with (lo + 1 + Z.of_nat n) by lia.
      apply IH; [done|]. intros i s'' w'' Hi. apply Hbody. lia.
Qed.

Lemma runs_for_then {S B} n lo (body : Z -> S -> P S) (k : S -> P B) (line : Z -> list printed)
    (I : Z -> S -> world -> Prop) s w out out' Q :
  I lo s w ->
  (forall i s w, lo <= i < lo + Z.of_nat n -> I i s w -> runs (body i s) w (line i) (I (i + 1))) ->
  (forall s w, I (lo + Z.of_nat n) s w -> runs (k s) w out Q) ->
  out' = concat (map line (seqZ lo (Z.of_nat n))) ++ out ->
  runs (pbind (for_range lo n body s) k) w out' Q.
Proof. intros HI Hbody Hk ->. eapply runs_bind; [by apply runs_for|done]. Qed.

Lemma runs_mono {A} (m : P A) w out (Q Q' : A -> world -> Prop) :
  runs m w out Q -> (forall a w', Q a w' -> Q' a w') -> runs m w out Q'.
Proof.
  intros Hm HQ. eapply wp_mono; [exact Hm|]. intros [o [a|status]] w'; cbn; [|done].
  intros [-> Ha]. auto.
Qed.

Lemma runs_eq {A} (m : P A) w out out' Q : runs m w out Q -> out = out' -> runs m w out' Q.
Proof. by intros ? ->. Qed.
End rules.

(** ** What the program prints *)

Section expected.
Definition info_lines (free used allocated fragmentation : Z) : list printed :=
  [Printf "\nStorage Information:\n" [];
   Printf "  Total blocks: %lu\n" [AInt 6400];
   Printf "  Free blocks:  %lu (%.1f%%)\n" [AInt free; ADouble (percent free 6400)];
   Printf "  Used blocks:  %lu (%.1f%%)\n" [AInt used; ADouble (percent used 6400)];
   Printf "  Allocated extents: %lu\n" [AInt allocated];
   Printf "  Fragmentation: %lu%%\n" [AInt fragmentation];
   Printf "\n" []].

(** The extents it gets: number [i] starts at block [8 i] and has identifier
    [i + 2]. *)
Definition extent (i : Z) : kes_extent_descriptor := mkExtent (8 * i) 8 0 (i + 2).
Definition large_extent : kes_extent_descriptor := mkExtent 24 20 0 6.

Definition allocated_line (i : Z) : printed :=
  Printf "  Allocated extent %d: start_block=%lu, count=%u, id=%lu\n"
    [AInt (i + 1); AInt (8 * i); AInt 8; AInt (i + 2)].

(** The message written to extent [i], and its first hundred characters. *)
Definition message (i : Z) : string :=
  "This is test data for extent " +:+ pretty.pretty (i + 1) +:+ " (ID: " +:+ pretty.pretty (i + 2) +:+
  "). The extent starts at block " +:+ pretty.pretty (8 * i) +:+
  " and contains 8 blocks. This demonstrates basic KES functionality!".
Definition read_line (i : Z) : printed :=
  Printf "  Extent %d data: %.100s...\n" [AInt (i + 1); AString (String.substring 0 100 (message i))].

Definition expected_output : list printed :=
  [Printf "=== KES Storage Example ===\n" []; Printf "Creating storage...\n" []] ++
  info_lines 6398 0 0 0 ++
  [Printf "Allocating extents...\n" []] ++ map allocated_line [0; 1; 2; 3] ++
  info_lines 6366 32 4 9 ++
  [Printf "Writing data to extents...\n" []; Printf "Reading data back...\n" []] ++
  map read_line [0; 1; 2; 3] ++
  [Printf "\nFreeing extents 2 and 4...\n" []] ++ info_lines 6382 16 2 6 ++
  [Printf "Allocating a larger extent...\n" [];
   Printf "  Large extent: start_block=%lu, count=%u, id=%lu\n" [AInt 24; AInt 20; AInt 6]] ++
  info_lines 6362 36 3 5 ++
  [Printf "Large extent size: %zu bytes (%.1f KB)\n"
     [AInt 163840; ADouble (SFdiv 53 1024 (u64_to_double 163840) (u64_to_double 1024))];
   Printf "\nSynchronizing storage...\n" []] ++
  info_lines 6362 36 3 5 ++
  [Printf "KES Library Version: %u.%u.%u\n" [AInt 2; AInt 0; AInt 0];
   Printf "\nClosing storage...\n" [];
   Printf "✅ Example completed successfully!\n" [];
   Printf "\nTo clean up, remove: /tmp/example_storage.kes\n" []].
End expected.

(** ** Its phases *)

Section phases.
Context `{Crc32c} (w0 : world).
Abbreviation d := (created_desc (cfg_device_size config)).
Abbreviation noisy := (~ quiet w0).
Abbreviation sess := (session example_path d w0).
Abbreviation data w e := (extent_data d (content example_path w) e).

Lemma example_layout : layout_ok d.
Proof using. apply created_layout_ok. cbn. lia. Qed.

Lemma example_geometry :
  desc_total_blocks d = 6400 /\ desc_user_blocks d = 6398 /\ desc_block_size d = 8192.
Proof using. by vm_compute. Qed.

(** Looking at the statistics changes nothing. *)
Lemma info_shown live next w sto frag :
  sess live next w sto ->
  (if (0 <? total_blocks live) && (0 <? Z.of_nat (length live))
   then fragmentation_of (Z.of_nat (length live)) (total_blocks live) else Some 0) = Some frag ->
  runs noisy (print_storage_info sto) w
    (info_lines (6398 - total_blocks live) (total_blocks live) (Z.of_nat (length live)) frag)
    (fun s w' => s = sto /\ w' = w).
Proof using.
  intros Hs Hf. unfold print_storage_info. apply runs_call.
  eapply wp_mono; [exact (session_stats _ _ example_layout _ _ _ _ _ Hs _ Hf)|].
  intros r w' (stats & -> & -> & Ht & Hfr & Hu & Ha & Hg). destruct example_geometry as (Gt & Gu & _).
  rewrite Gt in Ht. rewrite Gu in Hfr.
  eapply runs_the; [done|]. eapply runs_the; [done|]. rewrite Ht, Hfr, Hu, Ha, Hg.
  do 7 apply runs_printf. by apply runs_return.
Qed.

Lemma run_info {B} live next w sto frag (k : kes_storage -> P B) out Q :
  sess live next w sto ->
  (if (0 <? total_blocks live) && (0 <? Z.of_nat (length live))
   then fragmentation_of (Z.of_nat (length live)) (total_blocks live) else Some 0) = Some frag ->
  runs noisy (k sto) w out Q ->
  runs noisy (pbind (print_storage_info sto) k) w
    (info_lines (6398 - total_blocks live) (total_blocks live) (Z.of_nat (length live)) frag ++ out) Q.
Proof using.
  intros Hs Hf Hk. eapply runs_bind; [by eapply info_shown|]. by intros s w' [-> ->].
Qed.

(** The extents in use before round [i] of the allocation loop. *)
Definition allocated (i : Z) : list kes_extent_descriptor := reverse (extent <$> seqZ 0 i).

Lemma four_rounds i : 0 <= i < 4 -> i = 0 \/ i = 1 \/ i = 2 \/ i = 3.
Proof using. lia. Qed.

Lemma allocated_next i : 0 <= i < 4 ->
  first_free 6398 (blocks_of (allocated i)) 8 0 = Some (8 * i) /\
  extent i :: allocated i = allocated (i + 1) /\ length (allocated i) = Z.to_nat i.
Proof using. by intros [->|[->|[->| ->]]]%four_rounds; vm_compute. Qed.

Lemma run_allocate i storage extents w :
  0 <= i < 4 -> length extents = 4%nat -> sess (allocated i) (i + 1) w storage ->
  runs noisy (allocate_one i (storage, extents)) w [allocated_line i]
    (fun s w' => sess (allocated (i + 1)) (i + 1 + 1) w' (s.1) /\ s.2 = <[Z.to_nat i := extent i]> extents).
Proof using.
  intros Hi Hlen Hs. unfold allocate_one.
  destruct (lookup_lt_is_Some_2 extents (Z.to_nat i)) as [ext0 Hext0]; [lia|].
  eapply runs_the; [exact Hext0|]. apply runs_call. destruct (allocated_next i Hi) as (Hff & Hc & Hl).
  eapply wp_mono.
  - apply (session_alloc example_path d example_layout w0 _ _ _ _ Hs 8 (8 * i)); [lia|lia|lia|].
    by rewrite (proj1 (proj2 example_geometry)).
  - intros r w' (code & sto' & ext' & -> & Hcase). eapply runs_the; [done|]. eapply runs_the; [done|].
    apply runs_require. destruct Hcase as [(-> & -> & Hs' & _)|(-> & Hn)]; [left|by right].
    split; [done|]. unfold allocated_line. unfold extent in *.
    replace (i + 2) with (i + 1 + 1) in * by lia. apply runs_printf, runs_return. cbn [fst snd]. split; [|done].
    by rewrite <-Hc.
Qed.

(** ** The messages *)

(** What is written to extent [i]: the message and its terminator. *)
Definition text (i : Z) : list Z := bytes_of_string (message i) ++ [0].

Lemma splice_front (bs l : list Z) : splice 0 bs l = bs ++ drop (length bs) l.
Proof using. unfold splice. by rewrite pad_to_id by lia. Qed.


Lemma text_facts i : 0 <= i < 4 ->
  (1 <= length (text i) <= 200)%nat /\ Forall is_byte (text i) /\
  (forall rest, strlen (text i ++ rest) = Some (Z.of_nat (length (text i)) - 1)) /\
  (forall buf, describe i (extent i) buf = Some (splice 0 (text i) buf)) /\
  (forall rest, string_of_bytes <$> first_chars 100 (text i ++ rest)
     = Some (String.substring 0 100 (message i))).
Proof using.
  intros Hi. assert (Forall is_byte (text i)) as Hb.
  { apply Forall_app. split; [|by repeat constructor]. unfold bytes_of_string. rewrite Forall_map.
    apply Forall_true. intros c. unfold is_byte. pose proof (Ascii.nat_ascii_bounded c). lia. }
  destruct (four_rounds i Hi) as [->|[->|[->| ->]]];
    (split_and!; [vm_compute; lia|vm_compute; lia|exact Hb|by intros rest; vm_compute..]).
Qed.

(** Extent [i] holds its message. *)
Definition written (w : world) (i : Z) : Prop :=
  take (length (text i)) (data w (extent i)) = text i.

Lemma extent_allocated i : 0 <= i < 4 -> extent i ∈ allocated 4.
Proof using. by intros [->|[->|[->| ->]]]%four_rounds; apply (bool_decide_unpack (_ ∈ _)). Qed.

Definition extents : list kes_extent_descriptor := extent <$> seqZ 0 4.
Lemma extents_lookup i : 0 <= i < 4 -> extents !! Z.to_nat i = Some (extent i).
Proof using. by intros [->|[->|[->| ->]]]%four_rounds. Qed.

Lemma extent_inj i j : extent i = extent j -> i = j.
Proof using. unfold extent. intros [= ? ?]. lia. Qed.

Lemma extent_room i : extent_bytes d (extent i) = 65536.
Proof using. unfold extent_bytes. by rewrite (proj2 (proj2 example_geometry)). Qed.

Lemma run_write i junk storage w :
  0 <= i < 4 -> length junk = 1024%nat -> Forall is_byte junk ->
  sess (allocated 4) 5 w storage -> (forall j, 0 <= j < i -> written w j) ->
  runs noisy (write_one extents junk i storage) w []
    (fun s w' => sess (allocated 4) 5 w' s /\ forall j, 0 <= j < i + 1 -> written w' j).
Proof using.
  intros Hi Hlen Hj Hs Hold. destruct (text_facts i Hi) as (Ht & Hb & Hstr & Hdesc & _).
  unfold write_one. eapply runs_the; [by apply extents_lookup|].
  eapply runs_the; [apply Hdesc|]. rewrite splice_front. eapply runs_the; [apply Hstr|].
  rewrite Z.sub_add. apply runs_call. eapply wp_mono.
  - apply (session_write example_path d example_layout w0 _ _ _ _ Hs (extent i)).
    + by apply extent_allocated.
    + apply Forall_app. split; [done|by apply Forall_drop].
    + rewrite length_app, length_drop. lia.
    + rewrite extent_room. lia.
  - intros r w' (code & sto' & -> & Hcase). eapply runs_the; [done|]. apply runs_require.
    destruct Hcase as [(-> & Hs' & Hnew & Hkeep)|(-> & Hn)]; [left|by right].
    split; [done|]. apply runs_return. split; [done|]. intros j Hjr. unfold written.
    destruct (decide (j = i)) as [->|Hne].
    + rewrite Nat2Z.id in Hnew. by rewrite Hnew, take_app_length.
    + rewrite Hkeep; [apply Hold; lia|apply extent_allocated; lia|by intros ?%extent_inj].
Qed.

Lemma run_read i junk storage w :
  0 <= i < 4 -> length junk = 1024%nat ->
  sess (allocated 4) 5 w storage -> (forall j, 0 <= j < 4 -> written w j) ->
  runs noisy (read_one extents junk i storage) w [read_line i]
    (fun s w' => sess (allocated 4) 5 w' s /\ forall j, 0 <= j < 4 -> written w' j).
Proof using.
  intros Hi Hlen Hs Hold. destruct (text_facts i Hi) as (Ht & Hb & Hstr & Hdesc & Hshow).
  unfold read_one. eapply runs_the; [by apply extents_lookup|].
  eapply runs_the; [apply Hdesc|]. rewrite splice_front. eapply runs_the; [apply Hstr|].
  cbv zeta. rewrite Z.sub_add. apply runs_call. eapply wp_mono.
  - apply (session_read example_path d example_layout w0 _ _ _ _ Hs (extent i) (Z.of_nat (length (text i)))).
    + by apply extent_allocated.
    + rewrite extent_room. lia.
  - intros r w' (code & sto' & bs & -> & Hcase). eapply runs_the; [done|].
    rewrite Nat2Z.id in Hcase. destruct Hcase as [(-> & Hs' & -> & Hsame)|(-> & Hn)].
    + rewrite (Hold i Hi), splice_front. apply runs_then, runs_return.
      destruct (proj1 (fmap_Some _ _ _) (Hshow (drop (length (text i)) (replicate 1024 0))))
        as (shown & Hshown & Htext).
      eapply runs_the; [exact Hshown|]. rewrite <-Htext. unfold read_line. rewrite Htext.
      apply runs_printf, runs_return. split; [done|]. intros j Hj. unfold written. rewrite Hsame.
      by apply Hold.
    + apply runs_then. change (negb (KES_ERROR_IO =? KES_SUCCESS)) with true. cbv iota.
      eapply runs_the; [done|]. unfold runs. cbn. split_and!; [done|done|].
      exists [], [Printf "Failed to read extent %d (ID: %lu, start_block: %lu): %s\n"
                    [AInt (i + 1); AInt (i + 2); AInt (8 * i); AString "I/O error"];
                  Printf "Error in %s: %s\n" [AString "kes_extent_read"; AString "I/O error"]].
      split_and!; [done|apply prefix_nil|done|]. constructor; [by right|]. constructor; [by left|done].
Qed.

(** ** Freeing, the larger extent, the end *)

(** Extents 1 and 3 (counting from 1) after the other two are freed. *)
Definition kept : list kes_extent_descriptor := [extent 2; extent 0].

Lemma run_free {B} live live' i storage w (k : kes_storage -> P B) out Q :
  0 <= i < 4 -> sess live 5 w storage -> extent i ∈ live -> live' = live_free (extent i) live ->
  length live = S (length live') -> (length live <= 4)%nat ->
  (forall s w', sess live' 5 w' s ->
     (forall e, e ∈ live' -> data w' e = data w e) -> runs noisy (k s) w' out Q) ->
  runs noisy (pbind (free_one extents i storage) k) w out Q.
Proof using.
  intros Hi Hs He -> Hlen Hle Hk. apply runs_then. unfold free_one.
  eapply runs_the; [by apply extents_lookup|]. apply runs_call. eapply wp_mono.
  - apply (session_free example_path d example_layout w0 _ _ _ _ Hs _ He); lia.
  - intros r w' (code & sto' & -> & Hcase). eapply runs_the; [done|]. apply runs_require.
    destruct Hcase as [(-> & Hs' & Hkeep)|(-> & Hn)]; [left|by right].
    split; [done|]. apply runs_return, Hk; [done|]. unfold live_free.
    intros e [Hne He']%list_elem_of_filter. by apply Hkeep.
Qed.

Lemma run_prepare extents0 :
  length extents0 = 4%nat -> world_ok w0 -> unlocked w0 example_path ->
  (forall f, w_files w0 !! example_path = Some f -> Forall is_byte f) ->
  runs noisy (prepare extents0) w0
    ([Printf "=== KES Storage Example ===\n" []; Printf "Creating storage...\n" []] ++
     info_lines 6398 0 0 0 ++ [Printf "Allocating extents...\n" []] ++
     map allocated_line [0; 1; 2; 3] ++ info_lines 6366 32 4 9)
    (fun s w => s.2 = extents /\ sess (allocated 4) 5 w (s.1)).
Proof using.
  intros Hlen Hok Hun Hbytes. unfold prepare. do 2 apply runs_printf. apply runs_call.
  eapply wp_mono; [by apply (session_create config example_path)|].
  intros r w (code & o & -> & Hcase). apply runs_require.
  destruct Hcase as [(-> & sto & -> & Hs)|([-> | ->] & Hn)]; [left|by right..]. split; [done|].
  eapply runs_the; [done|]. eapply (run_info [] 1); [exact Hs|done|]. apply runs_printf.
  eapply (runs_for_then _ _ _ _ _ (fun i => [allocated_line i]) (fun i s w => length s.2 = 4%nat /\
      sess (allocated i) (i + 1) w s.1 /\
      forall j, 0 <= j < i -> s.2 !! Z.to_nat j = Some (extent j))); [| | |done].
  - split_and!; [done|exact Hs|cbn; lia].
  - intros i [storage es] w1 Hi (Hl & Hs1 & Hes). eapply wp_mono; [by apply run_allocate|].
      intros [o [[storage2 es2]|status]] w2; cbn; [|done]. intros (-> & Hs2 & ->). split; [done|].
      split_and!; [by rewrite length_insert|done|]. intros j Hj.
      destruct (decide (j = i)) as [->|Hne]; [apply list_lookup_insert_eq; cbn in Hl; lia|].
      rewrite list_lookup_insert_ne by lia. apply Hes. lia.
  - intros [storage es] w1 (Hl & Hs1 & Hes). cbn [fst snd] in *.
    rewrite <-(app_nil_r (info_lines 6366 32 4 9)).
    eapply (run_info (allocated 4) 5); [exact Hs1|by vm_compute|]. apply runs_return. split; [|done].
    cbn [snd]. apply list_eq_same_length with 4%nat; [done|done|].
    intros j x y Hj Hx Hy. specialize (Hes (Z.of_nat j) ltac:(lia)).
    pose proof (extents_lookup (Z.of_nat j) ltac:(lia)). rewrite Nat2Z.id in *. congruence.
Qed.

Lemma run_exercise junk storage w :
  (forall i, 0 <= i < 8 -> length (junk i) = 1024%nat /\ Forall is_byte (junk i)) ->
  sess (allocated 4) 5 w storage ->
  runs noisy (exercise extents junk storage) w
    ([Printf "Writing data to extents...\n" []; Printf "Reading data back...\n" []] ++
     map read_line [0; 1; 2; 3] ++
     [Printf "\nFreeing extents 2 and 4...\n" []] ++ info_lines 6382 16 2 6)
    (fun s w => sess kept 5 w s /\ written w 0 /\ written w 2).
Proof using.
  intros Hjunk Hs. unfold exercise. apply runs_printf.
  eapply (runs_for_then _ _ _ _ _ (fun _ => []) (fun i s w => sess (allocated 4) 5 w s /\
    forall j, 0 <= j < i -> written w j)); [by split; [|lia]| | |done].
  { intros i s1 w1 Hi [Hs1 Hw1]. destruct (Hjunk i ltac:(lia)). by apply run_write. }
  intros s1 w1 [Hs1 Hw1]. apply runs_printf.
  eapply (runs_for_then _ _ _ _ _ (fun i => [read_line i]) (fun _ s w => sess (allocated 4) 5 w s /\
    forall j, 0 <= j < 4 -> written w j)); [done| | |done].
  { intros i s2 w2 Hi [Hs2 Hw2]. destruct (Hjunk (4 + i) ltac:(lia)). by apply run_read. }
  intros s2 w2 [Hs2 Hw2]. apply runs_printf.
  eapply (run_free _ [extent 3; extent 2; extent 0]); [lia|exact Hs2|by apply extent_allocated|done..|].
  intros s3 w3 Hs3 Hk3.
  eapply (run_free _ kept); [lia|exact Hs3|by left|done|done|cbn; lia|]. intros s4 w4 Hs4 Hk4.
  assert (forall e, e ∈ kept -> data w4 e = data w2 e) as Hk.
  { intros e He. rewrite Hk4 by done. apply Hk3. by right. }
  eapply runs_mono; [by eapply (info_shown kept 5)|]. intros s w' [-> ->]. split; [done|].
  split; unfold written; rewrite Hk by (apply (bool_decide_unpack (_ ∈ kept)); done); apply Hw2; lia.
Qed.

Lemma run_enlarge large0 storage w :
  sess kept 5 w storage -> written w 0 -> written w 2 ->
  runs noisy (enlarge large0 storage) w
    ([Printf "Allocating a larger extent...\n" [];
      Printf "  Large extent: start_block=%lu, count=%u, id=%lu\n" [AInt 24; AInt 20; AInt 6]] ++
     info_lines 6362 36 3 5 ++
     [Printf "Large extent size: %zu bytes (%.1f KB)\n"
       [AInt 163840; ADouble (SFdiv 53 1024 (u64_to_double 163840) (u64_to_double 1024))]])
    (fun s w => sess (large_extent :: kept) 6 w s /\ written w 0 /\ written w 2).
Proof using.
  intros Hs H0 H2. unfold enlarge. apply runs_printf, runs_call. eapply wp_mono.
  - apply (session_alloc example_path d example_layout w0 _ _ _ _ Hs 20 24); [lia|lia|done|].
    rewrite (proj1 (proj2 example_geometry)). by vm_compute.
  - intros r w' (code & sto' & ext' & -> & Hcase). eapply runs_the; [done|]. eapply runs_the; [done|].
    apply runs_require. destruct Hcase as [(-> & -> & Hs' & Hkeep)|(-> & Hn)]; [left|by right].
    split; [done|]. apply runs_printf. eapply (run_info (large_extent :: kept) 6); [exact Hs'|by vm_compute|].
    apply runs_printf, runs_return. split; [done|].
    split; unfold written; rewrite Hkeep by (apply (bool_decide_unpack (_ ∈ kept)); done); done.
Qed.

Lemma run_finish storage w :
  sess (large_extent :: kept) 6 w storage -> written w 0 -> written w 2 ->
  runs noisy (finish storage) w
    ([Printf "\nSynchronizing storage...\n" []] ++ info_lines 6362 36 3 5 ++
     [Printf "KES Library Version: %u.%u.%u\n" [AInt 2; AInt 0; AInt 0];
      Printf "\nClosing storage...\n" [];
      Printf "✅ Example completed successfully!\n" [];
      Printf "\nTo clean up, remove: /tmp/example_storage.kes\n" []])
    (fun _ w => fd_attrs w = fd_attrs w0 /\ world_ok w /\
       (forall p, p ≠ example_path -> w_files w !! p = w_files w0 !! p) /\
       (quiet w0 -> quiet w /\ is_Some (w_files w !! example_path) /\
          disk_sound d (content example_path w) /\
          set_bits 6398 (disk_bit d (content example_path w)) (blocks_of (large_extent :: kept)) /\
          written w 0 /\ written w 2)).
Proof using.
  intros Hs H0 H2. unfold finish. apply runs_printf, runs_call. eapply wp_mono;
    [by apply (session_sync example_path d example_layout w0 _ _ _ _ Hs)|].
  intros r w1 (code & sto1 & -> & Hcase). eapply runs_the; [done|]. apply runs_require.
  destruct Hcase as [(-> & Hs1 & Hkeep1)|(-> & Hn)]; [left|by right]. split; [done|].
  eapply (run_info (large_extent :: kept) 6); [exact Hs1|by vm_compute|].
  cbn [kes_get_version]. do 3 (eapply runs_the; [done|]). do 2 apply runs_printf. apply runs_call.
  eapply wp_mono; [by apply (session_close example_path d example_layout w0 _ _ _ _ Hs1)|].
  intros code w2 (-> & Hfds & Hok & Hfs & Hq). apply runs_require. left. split; [done|].
  apply runs_printf. unfold runs. cbn. split; [done|]. split_and!; [done|done|done|].
  intros Hq0. destruct (Hq Hq0) as (? & ? & ? & Hbits & Hkeep2).
  rewrite (proj1 (proj2 example_geometry)) in Hbits. split_and!; [done..| |];
    unfold written; rewrite Hkeep2, Hkeep1 by (right; apply (bool_decide_unpack (_ ∈ kept)); done); done.
Qed.
End phases.

(** ** The whole program *)

Lemma elem_of_left e :
  e ∈ large_extent :: kept <-> e = large_extent \/ e = extent 2 \/ e = extent 0.
Proof. unfold kept. rewrite !elem_of_cons, elem_of_nil. tauto. Qed.

(** The blocks found allocated are those of the three extents kept. *)
Lemma left_behind_live `{Crc32c} w :
  set_bits 6398 (disk_bit (created_desc (cfg_device_size config)) (content example_path w))
    (blocks_of (large_extent :: kept)) ->
  Forall (extent_live (created_desc (cfg_device_size config)) (content example_path w))
    (large_extent :: kept).
Proof.
  intros Hb. apply Forall_forall. intros e He. pose proof (proj1 (proj2 example_geometry)) as HN.
  assert (forall i, in_extent e i -> 0 <= i < 6398 /\
            disk_bit (created_desc (cfg_device_size config)) (content example_path w) i = true) as Hin.
  { intros i Hi. apply Hb, elem_of_blocks_of. by exists e. }
  assert (0 <= ext_start_block e /\ 0 < ext_block_count e < 100 /\ ext_start_block e < 100) as (? & ? & ?).
  { by apply elem_of_left in He as [->|[->| ->]]. }
  split_and!; [split; [split|]; rewrite ?HN; lia|lia|]. intros j Hj. rewrite HN.
  destruct (Hin j) as [? ?]; [unfold in_extent; lia|]. split; [lia|done].
Qed.

Section properties.
Context `{Crc32c} (w0 : world) (Hok : world_ok w0) (Hun : unlocked w0 example_path).
Context (Hbytes : forall f, w_files w0 !! example_path = Some f -> Forall is_byte f).
Context (extents0 : list kes_extent_descriptor) (Hextents : length extents0 = 4%nat).
Context (large0 : kes_extent_descriptor) (junk : Z -> list Z).
Context (Hjunk : forall i, 0 <= i < 8 -> length (junk i) = 1024%nat /\ Forall is_byte (junk i)).

(** The state in which it leaves the world. *)
Definition left_behind (w : world) : Prop :=
  let d := created_desc (cfg_device_size config) in
  fd_attrs w = fd_attrs w0 /\ world_ok w /\
  (forall p, p ≠ example_path -> w_files w !! p = w_files w0 !! p) /\
  (quiet w0 -> quiet w /\ is_Some (w_files w !! example_path) /\
     disk_sound d (content example_path w) /\
     set_bits 6398 (disk_bit d (content example_path w)) (blocks_of (large_extent :: kept)) /\
     written w 0 /\ written w 2).

Lemma main_wp :
  wp (main extents0 large0 junk) w0 (fun r w =>
    (r = (expected_output, 0) /\ left_behind w) \/
    (exists out, r = (out, 1) /\ ~ quiet w0 /\ stopped_early expected_output out)).
Proof using Hok Hun Hbytes Hextents Hjunk.
  unfold main. wp_bind. eapply wp_mono.
  - eapply (runs_eq (~ quiet w0)) with (out' := expected_output) (Q := fun _ => left_behind).
    + eapply runs_bind; [by apply run_prepare|]. intros [storage es] w1 [Hes Hs1]. cbn [fst snd] in Hes, Hs1. subst es.
      eapply runs_bind; [by apply run_exercise|]. intros s2 w2 (Hs2 & H0 & H2).
      eapply runs_bind; [by apply run_enlarge|]. intros s3 w3 (Hs3 & H0' & H2').
      eapply runs_mono; [by apply (run_finish w0 s3 w3)|]. intros u w4 Hw4. exact Hw4.
    + done.
  - intros [out [u|status]] w; cbn.
    + intros [-> Hl]. by left.
    + intros (-> & Hn & Hs). right. by exists out.
Qed.

(** C25: The example program returns whatever the faults: either it exits with
    0, having printed exactly the expected output (first-fit positions,
    identifiers, counters, the messages read back) and given back its file
    descriptor, or it exits with 1 because of a fault, having printed a
    beginning of that output followed by error lines. *)
Theorem example_runs :
  exists out status w, main extents0 large0 junk w0 = Done ((out, status), w) /\
    ((status = 0 /\ out = expected_output /\ fd_attrs w = fd_attrs w0 /\
      forall p, p ≠ example_path -> w_files w !! p = w_files w0 !! p) \/
     (status = 1 /\ ~ quiet w0 /\ stopped_early expected_output out)).
Proof using Hok Hun Hbytes Hextents Hjunk.
  destruct (wp_done _ _ _ main_wp) as ([out status] & w & R & Hc). exists out, status, w.
  split; [done|]. destruct Hc as [([= -> ->] & ? & _ & ? & _)|(out1 & [= -> ->] & ? & ?)];
    [by left|by right].
Qed.

(** C26: Without faults the example exits with 0 and leaves a sound storage in
    which exactly the blocks of extents 1, 3 and the large one are allocated;
    another process can open it and reads back the messages of extents 1 and
    3. *)
Theorem example_survives (Hq : quiet w0) :
  exists w, main extents0 large0 junk w0 = Done ((expected_output, 0), w) /\
    let d := created_desc (cfg_device_size config) in
    disk_sound d (content example_path w) /\
    (forall i, 0 <= i < 6398 -> disk_bit d (content example_path w) i = true <->
       0 <= i < 8 \/ 16 <= i < 24 \/ 24 <= i < 44) /\
    exists sto w1,
      kes_storage_open (Some example_path) KES_STORAGE_READONLY true w
        = Done ((KES_SUCCESS, Some sto), w1) /\
      forall i, i = 0 \/ i = 2 -> exists sto' w2,
        kes_extent_read (Some sto) (Some (extent i)) true (Z.of_nat (length (text i))) 0 w1
          = Done ((KES_SUCCESS, Some sto', text i), w2).
Proof using Hok Hun Hbytes Hextents Hjunk.
  destruct (wp_done _ _ _ main_wp) as ([out status] & w & R & Hc).
  destruct Hc as [([= -> ->] & Hfds & Hwok & _ & Hl)|(out1 & _ & Hn & _)]; [|done].
  exists w. split; [done|]. destruct (Hl Hq) as (Hqw & Hfile & Hsound & Hbits & H0 & H2).
  cbv zeta. split_and!; [done| |].
  - intros i Hi. pose proof (Hbits i) as Hb. rewrite elem_of_blocks_of in Hb.
    assert ((exists e, e ∈ large_extent :: kept /\ in_extent e i) <->
            0 <= i < 8 \/ 16 <= i < 24 \/ 24 <= i < 44) as <-; [|tauto].
    setoid_rewrite elem_of_left. unfold in_extent. split.
    + by intros (e & [->|[->| ->]] & Hi'); cbn in Hi'; lia.
    + intros [?|[?|?]]; [exists (extent 0)|exists (extent 2)|exists large_extent];
        (split; [auto|cbn; lia]).
  - destruct (reopen_reads example_path _ KES_STORAGE_READONLY (large_extent :: kept) w example_layout)
      as (sto & w1 & Ropen & Hread); [done| |done..|by apply left_behind_live| |].
    { unfold unlocked. by rewrite Hfds. }
    { unfold kept, large_extent, extent, extents_disjoint. repeat constructor; cbn; lia. }
    exists sto, w1. split; [done|]. intros i Hi.
    assert (0 <= i < 4) as Hr by lia. destruct (text_facts i Hr) as (? & _).
    destruct (Hread (extent i) (Z.of_nat (length (text i)))) as (sto' & w2 & Rr).
    + destruct Hi as [-> | ->]; right; by apply (bool_decide_unpack (_ ∈ kept)).
    + rewrite extent_room. lia.
    + assert (written w i) as Hwi by (destruct Hi as [-> | ->]; assumption). unfold written in Hwi.
      exists sto', w2. rewrite Rr, Nat2Z.id, Hwi. reflexivity.
Qed.
End properties.

(** ** Instances *)

#[local] Existing Instance demo_crc.

(** An empty file system, and variables full of zeros. *)
Definition bare_world (script : list fault) : world := mkWorld ∅ ∅ 0 script.
Definition zero_extents : list kes_extent_descriptor := replicate 4 (mkExtent 0 0 0 0).
Definition zero_buffer : list Z := replicate 1024 0.

Lemma bare_world_ok script : world_ok (bare_world script).
Proof. split; [done|]. intros fd a Ha. by apply fd_attrs_lookup in Ha as [pos ?]. Qed.

Lemma bare_world_unlocked script path : unlocked (bare_world script) path.
Proof. intros fd a Ha. by apply fd_attrs_lookup in Ha as [pos ?]. Qed.

Lemma zero_buffer_ok : length zero_buffer = 1024%nat /\ Forall is_byte zero_buffer.
Proof. split; [done|]. apply Forall_replicate, is_byte_0. Qed.

Lemma example_runs_witness :
  exists out status w,
    main zero_extents (mkExtent 0 0 0 0) (fun _ => zero_buffer) (bare_world [FNone; FErr])
      = Done ((out, status), w) /\
    ((status = 0 /\ out = expected_output /\ fd_attrs w = fd_attrs (bare_world [FNone; FErr]) /\
      forall p, p ≠ example_path -> w_files w !! p = w_files (bare_world [FNone; FErr]) !! p) \/
     (status = 1 /\ ~ quiet (bare_world [FNone; FErr]) /\ stopped_early expected_output out)).
Proof.
  apply (example_runs (bare_world [FNone; FErr])).
  - apply bare_world_ok.
  - apply bare_world_unlocked.
  - intros f Hf. discriminate Hf.
  - reflexivity.
  - intros i _. apply zero_buffer_ok.
Defined.

Lemma example_survives_witness :
  exists w, main zero_extents (mkExtent 0 0 0 0) (fun _ => zero_buffer) (bare_world [])
      = Done ((expected_output, 0), w) /\
    disk_sound (created_desc (cfg_device_size config)) (content example_path w).
Proof.
  destruct (example_survives (bare_world [])) with zero_extents (mkExtent 0 0 0 0)
    (fun _ : Z => zero_buffer) as (w & R & Hs & _).
  - apply bare_world_ok.
  - apply bare_world_unlocked.
  - intros f Hf. discriminate Hf.
  - reflexivity.
  - intros i _. apply zero_buffer_ok.
  - reflexivity.
  - exists w. split; [exact R|exact Hs].
Defined.
