(* ===== verification/Findings.v ===== *)
(** * Where the code does not do what it means to

    Theorems about behaviours of the storage layer and the bitmap that its
    documentation and comments do not announce: wrap-around in two bounds
    computations, the unchecked reload of [kes_storage_close], the
    per-handle extent counter, the ignored block size, and the window between
    the two metadata writes. *)
From S2P Require Import Prelude Types Posix PosixFacts Crc Bitmap BitmapFacts Codec Storage Layout.
From S2P Require Import StorageFacts ExtentIO Lifecycle FirstFit System SystemFacts Demo StorageProps.

(** ** Wrap-around *)

(** Within seven blocks of [2^64], the rounding [total_blocks + 7] of
    [kes_bitmap_create] wraps to a buffer of zero bytes: the creation still
    succeeds, announces all those blocks, and testing, setting or clearing
    any of them is an access out of bounds. *)
Theorem create_overflow_undefined (n : Z) (w : world)
    (Hn : 2 ^ 64 - 7 <= n < 2 ^ 64) (Hq : quiet w) :
  exists bm, kes_bitmap_create n true w = Done ((KES_SUCCESS, Some bm), w) /\
    bm_total_bits bm = n /\ bm_free_bits bm = n /\ bm_data bm = [] /\
    forall i, 0 <= i < n ->
      kes_bitmap_test (Some bm) i = None /\ kes_bitmap_set (Some bm) i = None /\
      kes_bitmap_clear (Some bm) i = None.
Proof.
  exists (mkBitmap [] n 0 n 0). split.
  - unfold kes_bitmap_create, calloc, syscall_tree. cbn [negb orb].
    destruct (Z.eqb_spec n 0); [lia|]. cbn [bind run draw may_fail]. unfold draw. cbn [may_fail].
    rewrite Hq. cbn [perform do_calloc bind].
    assert (u64 (u64 (n + BITS_PER_BYTE) - 1) / BITS_PER_BYTE = 0) as ->;
      [|by cbn; rewrite Hq].
    unfold BITS_PER_BYTE. replace (u64 (n + 8)) with (n + 8 - 2 ^ 64).
    + rewrite u64_small by lia. apply Z.div_small. lia.
    + unfold u64. apply (Z.mod_unique_pos _ _ 1); lia.
  - split_and!; [done|done|done|]. intros i Hi.
    assert (forall j, bm_byte (mkBitmap [] n 0 n 0) j = None) as Hb by done.
    unfold kes_bitmap_test, kes_bitmap_set, kes_bitmap_clear. cbn [bm_total_bits].
    destruct (Z.leb_spec n i); [lia|]. by rewrite Hb.
Qed.

Section with_crc.
Context `{Crc32c}.

(** The bounds check [offset + size > extent_size] of [kes_extent_write]
    wraps: an offset just below [2^64] passes it, and the call succeeds in
    overwriting the bytes in front of the extent (a neighbour's, or the
    descriptor's when [size] reaches that far). *)
Theorem write_offset_wraps d sto e data w path f
    (Hr : ready d sto w path f) (Hq : quiet w) (Hin : extent_inside d e)
    (Hlen : 0 < Z.of_nat (length data) <= extent_pos d e) :
  let size := Z.of_nat (length data) in
  exists sto' w',
    kes_extent_write (Some sto) (Some e) (Some data) size (2 ^ 64 - size) w
      = Done ((KES_SUCCESS, Some sto'), w') /\
    w_files w' = <[path := splice (Z.to_nat (extent_pos d e - size)) data f]> (w_files w).
Proof.
  intros size. destruct Hr as [Hd Hh Hro Hlk [Ha Hfile] Hf Hun].
  pose proof (extent_pos_bounds d Hd e Hin) as (Hp & Hb & Hle).
  pose proof (map_offset_range d Hd). pose proof (map_bytes_pos d Hd). pose proof (dk_length _ _ Hf).
  destruct (extent_start_byte_exact d Hd _ e (h_layout _ _ Hh) Hin) as [Es Ez].
  assert (wp (kes_extent_write (Some sto) (Some e) (Some data) size (2 ^ 64 - size)) w
    (fun r w' => exists sto', r = (KES_SUCCESS, Some sto') /\
       w_files w' = <[path := splice (Z.to_nat (extent_pos d e - size)) data f]> (w_files w))) as Hwp.
  { unfold kes_extent_write. rewrite Hro, Es, Ez. cbv zeta. unfold sizeof_desc in *.
    assert (u64 (2 ^ 64 - size + size) = 0) as -> by (by rewrite Z.sub_add).
    destruct (Z.ltb_spec (extent_bytes d e) 0); [lia|].
    assert (i64 (extent_pos d e + (2 ^ 64 - size)) = extent_pos d e - size) as ->.
    { transitivity (i64 (extent_pos d e - size)); [|apply i64_small; lia].
      unfold i64, u64. replace (extent_pos d e + (2 ^ 64 - size)) with
        (extent_pos d e - size + 1 * 2 ^ 64) by lia. by rewrite Z.mod_add. }
    rewrite (i64_small size), Hlk by lia.
    unfold pthread_mutex_lock, pthread_mutex_unlock. wp_bind. wp_ret.
    unfold size. rewrite Z.ltb_irrefl, Nat2Z.id, firstn_all.
    eapply (wp_seek_write (sto_fd sto) _ data w); [exact Ha|done|lia|lia| |].
    { intros w' _ Hn. done. }
    intros w' k f' Hw Hout. apply write_outcome_save in Hout.
    destruct (Z.eqb_spec k (Z.of_nat (length data))) as [Hk|Hk]; cbn [negb];
      (destruct Hout as [[? ->]|(? & Hn & _)]; [|done]); [|done].
    wp_bind. wp_ret. wp_ret. eexists. split; [done|]. by destruct Hw. }
  destruct (wp_done _ _ _ Hwp) as (r & w' & R & sto' & -> & Hw). eauto.
Qed.

(** [kes_storage_create] ignores the block size it validates: two
    configurations that differ only in it (and are both accepted) give the
    same storage, laid out in blocks of [KES_DEFAULT_BLOCK_SIZE]. *)
Theorem create_ignores_block_size (c : kes_storage_config) (bs : Z) (ok : bool) (w : world) :
  let c' := mkConfig (cfg_device_path c) (cfg_device_size c) bs (cfg_flags c) (cfg_strategy c) in
  validate_config (Some c) = validate_config (Some c') ->
  kes_storage_create (Some c) ok w = kes_storage_create (Some c') ok w /\
  desc_block_size (init_storage_descriptor zero_desc (cfg_device_size c)) = KES_DEFAULT_BLOCK_SIZE.
Proof. intros c' E. split; [|done]. unfold kes_storage_create. by rewrite E. Qed.
End with_crc.

(** ** Runs of the code

    Each run is a client program over the small storage of [Demo]. *)
#[local] Existing Instance demo_crc.

Definition demo_open : M (Z * option kes_storage) := kes_storage_open (Some demo_path) 0 true.
Definition result_of {A} (m : M A) (image : list Z) (script : list fault) : option A :=
  match run m (demo_world_on image script) with Done (a, _) => Some a | _ => None end.

(** The [n]-th call that may fail, counted from 0, does. *)
Definition fail_at (n : nat) : list fault := replicate n FNone ++ [FErr].

(** Handle [b] allocates two blocks; handle [a], opened before, is closed
    while its reload of the descriptor fails (the call numbered 31); [b]
    allocates again. *)
Definition stale_close_run
    : M (Z * option kes_extent_descriptor * Z * option kes_extent_descriptor) :=
  let* (_, a) := demo_open in
  let* (_, b) := demo_open in
  let* (c1, b, e1) := kes_extent_allocate b (Some demo_request) (Some no_extent) in
  let* _ := kes_storage_close a in
  let* (c2, b, e2) := kes_extent_allocate b (Some demo_request) (Some no_extent) in
  ret (c1, e1, c2, e2).


(** An extent allocated in an earlier session is freed block by block through
    a new handle; then statistics are asked for. *)
Definition stats_run : M (Z * option Z * Z * option kes_storage_stats) :=
  let* (_, h) := demo_open in
  let* (c1, h) := kes_extent_free h (Some (mkExtent 0 1 0 2)) in
  let n := (fun s => st_allocated_extents (sto_stats s)) <$> h in
  let* (c2, h, st) := kes_storage_get_stats h true in
  ret (c1, n, c2, st).


(** An allocation whose descriptor write fails after its bitmap write (at the
    call numbered 17); then another process opens the file. *)
Definition torn_write_run : M (Z * Z) :=
  let* (_, a) := demo_open in
  let* (c1, a, e) := kes_extent_allocate a (Some demo_request) (Some no_extent) in
  let* (c2, b) := demo_open in
  ret (c1, c2).


(** ** Instances *)

Lemma create_overflow_undefined_witness :
  exists bm, kes_bitmap_create (2 ^ 64 - 1) true (demo_world_on demo_image [])
      = Done ((KES_SUCCESS, Some bm), demo_world_on demo_image []) /\
    bm_total_bits bm = 2 ^ 64 - 1 /\ bm_free_bits bm = 2 ^ 64 - 1 /\ bm_data bm = [] /\
    forall i, 0 <= i < 2 ^ 64 - 1 ->
      kes_bitmap_test (Some bm) i = None /\ kes_bitmap_set (Some bm) i = None /\
      kes_bitmap_clear (Some bm) i = None.
Proof. apply create_overflow_undefined; [lia|done]. Defined.

(** 128 bytes written in front of the extent at block 3: the last block of
    the neighbour that holds blocks 0 to 2. *)
Lemma write_offset_wraps_witness :
  exists sto' w',
    kes_extent_write (Some demo_handle) (Some (mkExtent 3 1 0 3)) (Some (replicate 128 255))
      (Z.of_nat 128) (2 ^ 64 - Z.of_nat 128) (demo_world_on demo_used_image [])
      = Done ((KES_SUCCESS, Some sto'), w') /\
    w_files w' = <[demo_path := splice 384 (replicate 128 255) demo_used_image]>
                   (w_files (demo_world_on demo_used_image [])).
Proof.
  apply (write_offset_wraps demo_desc demo_handle (mkExtent 3 1 0 3) (replicate 128 255));
    [apply demo_ready, demo_used_sound|done|split; [split; cbn; lia|cbn; lia]|].
  change (extent_pos demo_desc (mkExtent 3 1 0 3)) with 512. cbn. lia.
Defined.

Definition wide_config (block_size : Z) : kes_storage_config :=
  mkConfig (Some demo_path) 655360 block_size KES_STORAGE_TRUNCATE KES_ALLOC_FIRST_FIT.

Lemma create_ignores_block_size_witness :
  kes_storage_create (Some (wide_config 4096)) true (demo_world_on demo_image []) =
  kes_storage_create (Some (wide_config 65536)) true (demo_world_on demo_image []) /\
  desc_block_size (init_storage_descriptor zero_desc (cfg_device_size (wide_config 4096)))
    = KES_DEFAULT_BLOCK_SIZE.
Proof. apply (create_ignores_block_size (wide_config 4096) 65536). vm_compute. reflexivity. Defined.
