(* ===== verification/CacheTypes.v ===== *)
(** * Data of the extent cache: [include/kes/kes_cache.h]

    Constants, identifiers, configuration, statistics and entries, with the
    pure helper functions of [src/kes_cache.c] on them.  A pointer to an entry
    or to a data buffer is a [loc]; a null pointer is [None]. *)
From S2P Require Import Prelude Types.

Abbreviation loc := positive.

(** ** Constants *)

Definition KES_CACHE_MIN_MEMORY : Z := 1024 * 1024.
Definition KES_CACHE_MAX_MEMORY : Z := 1024 * 1024 * 1024.
Definition KES_CACHE_MIN_ENTRIES : Z := 16.
Definition KES_CACHE_MAX_ENTRIES : Z := 65536.
Definition KES_CACHE_DEFAULT_BUCKETS : Z := 1024.
Definition KES_CACHE_HASH_SEED : Z := 0x12345678.
Definition KES_CACHE_ALIGNMENT : Z := 64.

(** [KES_ALIGN] on [size_t]; the alignment is a power of two. *)
Definition KES_ALIGN (size align : Z) : Z :=
  Z.land (u64 (u64 (size + align) - 1)) (u64 (Z.lnot (align - 1))).

(** Bits of [kes_extent_state_t]. *)
Definition KES_EXTENT_CLEAN : Z := 0x01.
Definition KES_EXTENT_DIRTY : Z := 0x02.
Definition KES_EXTENT_PINNED : Z := 0x04.
Definition KES_EXTENT_LOADING : Z := 0x08.
Definition KES_EXTENT_FLUSHING : Z := 0x10.
Definition KES_EXTENT_ERROR : Z := 0x20.

Inductive kes_cache_policy := KES_CACHE_LRU | KES_CACHE_LFU | KES_CACHE_CUSTOM.
#[export] Instance kes_cache_policy_eq_dec : EqDecision kes_cache_policy.
Proof. solve_decision. Defined.

(** ** Identifiers *)

Record kes_extent_id := mkId {
  id_start_block : Z;
  id_block_count : Z;
  id_block_size : Z;
  id_reserved : Z
}.

(** The C type of each field. *)
Record id_ok (id : kes_extent_id) : Prop := {
  id_start_ok : 0 <= id_start_block id < 2 ^ 64;
  id_count_ok : 0 <= id_block_count id < 2 ^ 32;
  id_size_ok : 0 <= id_block_size id < 2 ^ 32
}.

Definition kes_extent_hash (id : kes_extent_id) : Z :=
  let hash := KES_CACHE_HASH_SEED in
  let hash := Z.lxor hash (u32 (Z.land (id_start_block id) 0xFFFFFFFF)) in
  let hash := Z.lxor hash (u32 (Z.shiftr (id_start_block id) 32)) in
  let hash := Z.lxor hash (id_block_count id) in
  let hash := Z.lxor hash (id_block_size id) in
  let hash := u32 (Z.lxor (Z.shiftr hash 16) hash * 0x45d9f3b) in
  let hash := u32 (Z.lxor (Z.shiftr hash 16) hash * 0x45d9f3b) in
  Z.lxor (Z.shiftr hash 16) hash.

Definition kes_extent_equal (id1 id2 : kes_extent_id) : bool :=
  (id_start_block id1 =? id_start_block id2) &&
  (id_block_count id1 =? id_block_count id2) &&
  (id_block_size id1 =? id_block_size id2).

Definition extent_data_size (id : kes_extent_id) : Z :=
  u64 (id_block_count id * id_block_size id).

(** ** Configuration and statistics *)

Record kes_cache_config := mkCacheConfig {
  cc_max_memory : Z;
  cc_min_memory : Z;
  cc_max_entries : Z;
  cc_policy : kes_cache_policy;
  cc_background_threads : Z;
  cc_sync_interval_ms : Z;
  cc_enable_prefetch : bool;
  cc_enable_compression : bool;
  cc_device_handle : option loc
}.

Definition kes_cache_get_default_config (is_edge_device : bool) : kes_cache_config :=
  if is_edge_device then
    mkCacheConfig (8 * 1024 * 1024) (2 * 1024 * 1024) 256 KES_CACHE_LRU 1 5000 true false None
  else
    mkCacheConfig (512 * 1024 * 1024) (64 * 1024 * 1024) 4096 KES_CACHE_LRU 4 1000 true false None.

Record kes_cache_stats := mkCacheStats {
  ks_hits : Z;
  ks_misses : Z;
  ks_evictions : Z;
  ks_flushes : Z;
  ks_bytes_read : Z;
  ks_bytes_written : Z;
  ks_memory_used : Z;
  ks_entries_cached : Z;
  ks_entries_dirty : Z;
  ks_entries_pinned : Z
}.
Definition zero_cache_stats : kes_cache_stats := mkCacheStats 0 0 0 0 0 0 0 0 0 0.

(** The updates the code makes, with the width of each counter. *)
Definition stat_hit (t : kes_cache_stats) : kes_cache_stats :=
  mkCacheStats (u64 (ks_hits t + 1)) (ks_misses t) (ks_evictions t) (ks_flushes t)
    (ks_bytes_read t) (ks_bytes_written t) (ks_memory_used t) (ks_entries_cached t)
    (ks_entries_dirty t) (ks_entries_pinned t).
Definition stat_miss (t : kes_cache_stats) : kes_cache_stats :=
  mkCacheStats (ks_hits t) (u64 (ks_misses t + 1)) (ks_evictions t) (ks_flushes t)
    (ks_bytes_read t) (ks_bytes_written t) (ks_memory_used t) (ks_entries_cached t)
    (ks_entries_dirty t) (ks_entries_pinned t).
Definition stat_evicted (t : kes_cache_stats) : kes_cache_stats :=
  mkCacheStats (ks_hits t) (ks_misses t) (u64 (ks_evictions t + 1)) (ks_flushes t)
    (ks_bytes_read t) (ks_bytes_written t) (ks_memory_used t) (ks_entries_cached t)
    (ks_entries_dirty t) (ks_entries_pinned t).
(** A successful write-back of [n] bytes. *)
Definition stat_flushed (n : Z) (t : kes_cache_stats) : kes_cache_stats :=
  mkCacheStats (ks_hits t) (ks_misses t) (ks_evictions t) (u64 (ks_flushes t + 1))
    (ks_bytes_read t) (u64 (ks_bytes_written t + n)) (ks_memory_used t) (ks_entries_cached t)
    (u32 (ks_entries_dirty t - 1)) (ks_entries_pinned t).
Definition stat_read (n : Z) (t : kes_cache_stats) : kes_cache_stats :=
  mkCacheStats (ks_hits t) (ks_misses t) (ks_evictions t) (ks_flushes t)
    (u64 (ks_bytes_read t + n)) (ks_bytes_written t) (ks_memory_used t) (ks_entries_cached t)
    (ks_entries_dirty t) (ks_entries_pinned t).
Definition stat_memory (n : Z) (t : kes_cache_stats) : kes_cache_stats :=
  mkCacheStats (ks_hits t) (ks_misses t) (ks_evictions t) (ks_flushes t)
    (ks_bytes_read t) (ks_bytes_written t) (u64 (ks_memory_used t + n)) (ks_entries_cached t)
    (ks_entries_dirty t) (ks_entries_pinned t).
Definition stat_cached (n : Z) (t : kes_cache_stats) : kes_cache_stats :=
  mkCacheStats (ks_hits t) (ks_misses t) (ks_evictions t) (ks_flushes t)
    (ks_bytes_read t) (ks_bytes_written t) (ks_memory_used t) (u32 (ks_entries_cached t + n))
    (ks_entries_dirty t) (ks_entries_pinned t).
Definition stat_dirty (n : Z) (t : kes_cache_stats) : kes_cache_stats :=
  mkCacheStats (ks_hits t) (ks_misses t) (ks_evictions t) (ks_flushes t)
    (ks_bytes_read t) (ks_bytes_written t) (ks_memory_used t) (ks_entries_cached t)
    (u32 (ks_entries_dirty t + n)) (ks_entries_pinned t).
Definition stat_pinned (n : Z) (t : kes_cache_stats) : kes_cache_stats :=
  mkCacheStats (ks_hits t) (ks_misses t) (ks_evictions t) (ks_flushes t)
    (ks_bytes_read t) (ks_bytes_written t) (ks_memory_used t) (ks_entries_cached t)
    (ks_entries_dirty t) (u32 (ks_entries_pinned t + n)).
Definition stat_reset (t : kes_cache_stats) : kes_cache_stats :=
  mkCacheStats 0 0 0 0 0 0 (ks_memory_used t) (ks_entries_cached t)
    (ks_entries_dirty t) (ks_entries_pinned t).

(** ** Entries *)

(** The fields of [struct kes_extent_entry] protected by the entry's own
    lock.  The other fields are kept apart, by what protects them:
    [lookup_pins] (atomic), [hash_next]/[hash_prev] (the bucket's lock),
    [list_next]/[list_prev] (the cache lock); see [CacheState]. *)
Record kes_extent_entry := mkEntry {
  e_id : kes_extent_id;
  e_data : option loc;
  e_state : Z;
  e_ref_count : Z;
  e_pin_count : Z;
  e_access_time : Z;
  e_access_count : Z;
  e_data_size : Z;
  e_cond_waiters : Z
}.

Record links := mkLinks { lk_next : option loc; lk_prev : option loc }.

Definition entry_set_state (s : Z) (e : kes_extent_entry) : kes_extent_entry :=
  mkEntry (e_id e) (e_data e) s (e_ref_count e) (e_pin_count e) (e_access_time e)
    (e_access_count e) (e_data_size e) (e_cond_waiters e).
Definition entry_set_data (p : option loc) (e : kes_extent_entry) : kes_extent_entry :=
  mkEntry (e_id e) p (e_state e) (e_ref_count e) (e_pin_count e) (e_access_time e)
    (e_access_count e) (e_data_size e) (e_cond_waiters e).
Definition entry_set_ref (n : Z) (e : kes_extent_entry) : kes_extent_entry :=
  mkEntry (e_id e) (e_data e) (e_state e) n (e_pin_count e) (e_access_time e)
    (e_access_count e) (e_data_size e) (e_cond_waiters e).
Definition entry_set_pin (n : Z) (e : kes_extent_entry) : kes_extent_entry :=
  mkEntry (e_id e) (e_data e) (e_state e) (e_ref_count e) n (e_access_time e)
    (e_access_count e) (e_data_size e) (e_cond_waiters e).
Definition entry_set_access (time count : Z) (e : kes_extent_entry) : kes_extent_entry :=
  mkEntry (e_id e) (e_data e) (e_state e) (e_ref_count e) (e_pin_count e) time
    count (e_data_size e) (e_cond_waiters e).
Definition entry_set_waiters (n : Z) (e : kes_extent_entry) : kes_extent_entry :=
  mkEntry (e_id e) (e_data e) (e_state e) (e_ref_count e) (e_pin_count e) (e_access_time e)
    (e_access_count e) (e_data_size e) n.

(** [entry->state |= bit] and [entry->state &= ~bit]. *)
Definition entry_set_flag (bit : Z) (e : kes_extent_entry) : kes_extent_entry :=
  entry_set_state (Z.lor (e_state e) bit) e.
Definition entry_clear_flag (bit : Z) (e : kes_extent_entry) : kes_extent_entry :=
  entry_set_state (Z.land (e_state e) (Z.lnot bit)) e.

(** [calloc] leaves an entry of zeros. *)
Definition zero_entry : kes_extent_entry := mkEntry (mkId 0 0 0 0) None 0 0 0 0 0 0 0.
Definition no_links : links := mkLinks None None.
