(* ===== verification/CacheState.v ===== *)
(** * Memory, locks and programs of the extent cache

    [src/kes_cache.c] is a multi-threaded client of [malloc], POSIX threads
    and two I/O callbacks.  Its functions are programs: sequences of atomic
    steps on the state below, each a memory access, a lock operation, an
    allocation or a callback.  [run] executes one program alone; several
    programs can equally be interleaved step by step.

    Memory is split by what protects it in the source: the entries proper
    (entry lock), their LRU links (cache lock), their hash links (bucket
    lock), their [lookup_pins] (atomic), the data buffers.  An access to a
    freed object is undefined. *)
From S2P Require Import Prelude Types CacheTypes.

(** ** Locks *)

Inductive lock_name :=
  | LCache                  (* [cache->cache_lock] *)
  | LBucket (i : Z)         (* [cache->buckets[i].lock] *)
  | LEntry (l : loc).       (* [entry->lock] *)
#[export] Instance lock_name_eq_dec : EqDecision lock_name.
Proof. solve_decision. Defined.
#[export] Instance lock_name_countable : Countable lock_name.
Proof.
  apply (inj_countable' (fun x => match x with
      | LCache => inl (inl tt) | LBucket i => inl (inr i) | LEntry l => inr l end)
    (fun y => match y with
      | inl (inl _) => LCache | inl (inr i) => LBucket i | inr l => LEntry l end)).
  by intros [].
Defined.

(** Locks that are held: [0] exclusively, [S n] by [n + 1] readers. *)
Abbreviation held := (gmap lock_name nat).

(** ** The environment of the cache *)

Section device.
(** What the callbacks operate on. *)
Context {D : Type}.

(** [int read_extent(device, id, buffer, size)]: the code, the bytes it puts
    in the buffer, and the device afterwards; [write_extent] gets the buffer's
    bytes. *)
Definition read_fn := option loc -> kes_extent_id -> Z -> D -> Z * list Z * D.
Definition write_fn := option loc -> kes_extent_id -> list Z -> D -> Z * D.
Definition sync_fn := option loc -> D -> Z * D.

(** [struct kes_cache].  [c_bg_threads] is the array of thread handles;
    [c_heads] the head pointer of each bucket; the memory pool fields are
    never used by the code and are left out. *)
Record kes_cache := mkCache {
  c_config : kes_cache_config;
  c_stats : kes_cache_stats;
  c_heads : list (option loc);
  c_bucket_count : Z;
  c_bucket_mask : Z;
  c_mru_head : option loc;
  c_lru_tail : option loc;
  c_bg_threads : option (list Z);
  c_shutdown : bool;
  c_inflight_lookups : Z;
  c_destroying : bool;
  c_read_extent : option read_fn;
  c_write_extent : option write_fn;
  c_sync_device : option sync_fn
}.

Definition cache_set_stats (g : kes_cache_stats -> kes_cache_stats) (c : kes_cache) : kes_cache :=
  mkCache (c_config c) (g (c_stats c)) (c_heads c) (c_bucket_count c) (c_bucket_mask c)
    (c_mru_head c) (c_lru_tail c) (c_bg_threads c) (c_shutdown c) (c_inflight_lookups c)
    (c_destroying c) (c_read_extent c) (c_write_extent c) (c_sync_device c).
Definition cache_set_heads (hs : list (option loc)) (c : kes_cache) : kes_cache :=
  mkCache (c_config c) (c_stats c) hs (c_bucket_count c) (c_bucket_mask c)
    (c_mru_head c) (c_lru_tail c) (c_bg_threads c) (c_shutdown c) (c_inflight_lookups c)
    (c_destroying c) (c_read_extent c) (c_write_extent c) (c_sync_device c).
Definition cache_set_mru (p : option loc) (c : kes_cache) : kes_cache :=
  mkCache (c_config c) (c_stats c) (c_heads c) (c_bucket_count c) (c_bucket_mask c)
    p (c_lru_tail c) (c_bg_threads c) (c_shutdown c) (c_inflight_lookups c)
    (c_destroying c) (c_read_extent c) (c_write_extent c) (c_sync_device c).
Definition cache_set_tail (p : option loc) (c : kes_cache) : kes_cache :=
  mkCache (c_config c) (c_stats c) (c_heads c) (c_bucket_count c) (c_bucket_mask c)
    (c_mru_head c) p (c_bg_threads c) (c_shutdown c) (c_inflight_lookups c)
    (c_destroying c) (c_read_extent c) (c_write_extent c) (c_sync_device c).
Definition cache_set_threads (ts : option (list Z)) (shutdown : bool) (c : kes_cache) : kes_cache :=
  mkCache (c_config c) (c_stats c) (c_heads c) (c_bucket_count c) (c_bucket_mask c)
    (c_mru_head c) (c_lru_tail c) ts shutdown (c_inflight_lookups c)
    (c_destroying c) (c_read_extent c) (c_write_extent c) (c_sync_device c).
Definition cache_set_inflight (n : Z) (c : kes_cache) : kes_cache :=
  mkCache (c_config c) (c_stats c) (c_heads c) (c_bucket_count c) (c_bucket_mask c)
    (c_mru_head c) (c_lru_tail c) (c_bg_threads c) (c_shutdown c) n
    (c_destroying c) (c_read_extent c) (c_write_extent c) (c_sync_device c).
Definition cache_set_destroying (b : bool) (c : kes_cache) : kes_cache :=
  mkCache (c_config c) (c_stats c) (c_heads c) (c_bucket_count c) (c_bucket_mask c)
    (c_mru_head c) (c_lru_tail c) (c_bg_threads c) (c_shutdown c) (c_inflight_lookups c)
    b (c_read_extent c) (c_write_extent c) (c_sync_device c).
Definition cache_set_callbacks (r : option read_fn) (w : option write_fn) (y : option sync_fn)
    (c : kes_cache) : kes_cache :=
  mkCache (c_config c) (c_stats c) (c_heads c) (c_bucket_count c) (c_bucket_mask c)
    (c_mru_head c) (c_lru_tail c) (c_bg_threads c) (c_shutdown c) (c_inflight_lookups c)
    (c_destroying c) r w y.

(** [clock_gettime]'s seconds and nanoseconds; which of the coming
    allocations and thread creations fail; fresh addresses; and the contents
    of memory that was never written. *)
Record env := mkEnv {
  env_sec : Z;
  env_nsec : Z;
  env_script : list bool;
  env_next : loc;
  env_next_thread : Z;
  env_junk : loc -> Z -> list Z
}.
Definition env_set_script (f : list bool) (v : env) : env :=
  mkEnv (env_sec v) (env_nsec v) f (env_next v) (env_next_thread v) (env_junk v).

Record cstate := mkState {
  cs_cache : option kes_cache;             (* [None]: freed *)
  cs_entries : gmap loc kes_extent_entry;
  cs_list : gmap loc links;
  cs_hash : gmap loc links;
  cs_pins : gmap loc Z;
  cs_bufs : gmap loc (list Z);
  cs_held : held;
  cs_threads : list Z;                     (* running background threads *)
  cs_env : env;
  cs_dev : D
}.

Definition set_cache (c : option kes_cache) (s : cstate) : cstate :=
  mkState c (cs_entries s) (cs_list s) (cs_hash s) (cs_pins s) (cs_bufs s) (cs_held s)
    (cs_threads s) (cs_env s) (cs_dev s).
Definition set_entries (m : gmap loc kes_extent_entry) (s : cstate) : cstate :=
  mkState (cs_cache s) m (cs_list s) (cs_hash s) (cs_pins s) (cs_bufs s) (cs_held s)
    (cs_threads s) (cs_env s) (cs_dev s).
Definition set_list (m : gmap loc links) (s : cstate) : cstate :=
  mkState (cs_cache s) (cs_entries s) m (cs_hash s) (cs_pins s) (cs_bufs s) (cs_held s)
    (cs_threads s) (cs_env s) (cs_dev s).
Definition set_hash (m : gmap loc links) (s : cstate) : cstate :=
  mkState (cs_cache s) (cs_entries s) (cs_list s) m (cs_pins s) (cs_bufs s) (cs_held s)
    (cs_threads s) (cs_env s) (cs_dev s).
Definition set_pins (m : gmap loc Z) (s : cstate) : cstate :=
  mkState (cs_cache s) (cs_entries s) (cs_list s) (cs_hash s) m (cs_bufs s) (cs_held s)
    (cs_threads s) (cs_env s) (cs_dev s).
Definition set_bufs (m : gmap loc (list Z)) (s : cstate) : cstate :=
  mkState (cs_cache s) (cs_entries s) (cs_list s) (cs_hash s) (cs_pins s) m (cs_held s)
    (cs_threads s) (cs_env s) (cs_dev s).
Definition set_locks (h : held) (s : cstate) : cstate :=
  mkState (cs_cache s) (cs_entries s) (cs_list s) (cs_hash s) (cs_pins s) (cs_bufs s) h
    (cs_threads s) (cs_env s) (cs_dev s).
Definition set_threads (ts : list Z) (s : cstate) : cstate :=
  mkState (cs_cache s) (cs_entries s) (cs_list s) (cs_hash s) (cs_pins s) (cs_bufs s) (cs_held s)
    ts (cs_env s) (cs_dev s).
Definition set_env (v : env) (s : cstate) : cstate :=
  mkState (cs_cache s) (cs_entries s) (cs_list s) (cs_hash s) (cs_pins s) (cs_bufs s) (cs_held s)
    (cs_threads s) v (cs_dev s).
Definition set_dev (d : D) (s : cstate) : cstate :=
  mkState (cs_cache s) (cs_entries s) (cs_list s) (cs_hash s) (cs_pins s) (cs_bufs s) (cs_held s)
    (cs_threads s) (cs_env s) d.

(** ** Programs *)

(** The result of a step: [Undef] is undefined behaviour (use of freed
    memory, unlocking a lock nobody holds); [Stuck] means the step cannot be
    taken now (the lock is taken, the awaited condition is false). *)
Inductive outcome (A : Type) :=
  | Returns (a : A)
  | Undef
  | Stuck.
Arguments Returns {A} a.
Arguments Undef {A}.
Arguments Stuck {A}.

Inductive prog (A : Type) : Type :=
  | Ret (a : A)
  | Step {X : Type} (f : cstate -> outcome (X * cstate)) (k : X -> prog A).
Arguments Ret {A} a.
Arguments Step {A X} f k.

Fixpoint pbind {A B} (m : prog A) (k : A -> prog B) : prog B :=
  match m with
  | Ret a => k a
  | Step f g => Step f (fun x => pbind (g x) k)
  end.

(** Running a program alone, to its end. *)
Fixpoint run {A} (m : prog A) (s : cstate) : outcome (A * cstate) :=
  match m with
  | Ret a => Returns (a, s)
  | Step f k =>
      match f s with
      | Returns (x, s') => run (k x) s'
      | Undef => Undef
      | Stuck => Stuck
      end
  end.

Definition act {X} (f : cstate -> outcome (X * cstate)) : prog X := Step f Ret.
(** A step that reads part of the state, undefined when it is not there. *)
Definition reads {X} (f : cstate -> option X) : prog X :=
  act (fun s => match f s with Some x => Returns (x, s) | None => Undef end).
(** A step that changes the state, undefined when it cannot. *)
Definition writes (f : cstate -> option cstate) : prog () :=
  act (fun s => match f s with Some s' => Returns (tt, s') | None => Undef end).

(** ** Memory accesses *)

Definition load_cache : prog kes_cache := reads cs_cache.
Definition modify_cache (g : kes_cache -> kes_cache) : prog () :=
  writes (fun s => c ← cs_cache s; Some (set_cache (Some (g c)) s)).
Definition modify_stats (g : kes_cache_stats -> kes_cache_stats) : prog () :=
  modify_cache (cache_set_stats g).

Definition load_entry (l : loc) : prog kes_extent_entry := reads (fun s => cs_entries s !! l).
Definition modify_entry (l : loc) (g : kes_extent_entry -> kes_extent_entry) : prog () :=
  writes (fun s => e ← cs_entries s !! l; Some (set_entries (<[l := g e]> (cs_entries s)) s)).

Definition load_list (l : loc) : prog links := reads (fun s => cs_list s !! l).
Definition set_list_next (l : loc) (p : option loc) : prog () :=
  writes (fun s => k ← cs_list s !! l;
    Some (set_list (<[l := mkLinks p (lk_prev k)]> (cs_list s)) s)).
Definition set_list_prev (l : loc) (p : option loc) : prog () :=
  writes (fun s => k ← cs_list s !! l;
    Some (set_list (<[l := mkLinks (lk_next k) p]> (cs_list s)) s)).
Definition load_hash (l : loc) : prog links := reads (fun s => cs_hash s !! l).
Definition set_hash_next (l : loc) (p : option loc) : prog () :=
  writes (fun s => k ← cs_hash s !! l;
    Some (set_hash (<[l := mkLinks p (lk_prev k)]> (cs_hash s)) s)).
Definition set_hash_prev (l : loc) (p : option loc) : prog () :=
  writes (fun s => k ← cs_hash s !! l;
    Some (set_hash (<[l := mkLinks (lk_next k) p]> (cs_hash s)) s)).

(** [cache->buckets[i].head]. *)
Definition load_head (i : Z) : prog (option loc) :=
  reads (fun s => c ← cs_cache s; c_heads c !! Z.to_nat i).
Definition set_head (i : Z) (p : option loc) : prog () :=
  writes (fun s => c ← cs_cache s; _ ← c_heads c !! Z.to_nat i;
    Some (set_cache (Some (cache_set_heads (<[Z.to_nat i := p]> (c_heads c)) c)) s)).

(** [__atomic_fetch_add/sub(&entry->lookup_pins, 1)] and [__atomic_load_n]. *)
Definition pins_add (l : loc) (n : Z) : prog () :=
  writes (fun s => p ← cs_pins s !! l; Some (set_pins (<[l := u32 (p + n)]> (cs_pins s)) s)).
Definition pins_load (l : loc) : prog Z := reads (fun s => cs_pins s !! l).

(** ** Locks *)

(** Whether the object that holds the lock still exists. *)
Definition lock_exists (s : cstate) (x : lock_name) : Prop :=
  match x with
  | LEntry l => is_Some (cs_entries s !! l)
  | LCache | LBucket _ => is_Some (cs_cache s)
  end.
#[export] Instance lock_exists_dec s x : Decision (lock_exists s x).
Proof. destruct x; apply _. Defined.

(** [pthread_mutex_lock], [pthread_rwlock_wrlock]. *)
Definition lock (x : lock_name) : prog () := act (fun s =>
  if decide (lock_exists s x) then
    match cs_held s !! x with
    | None => Returns (tt, set_locks (<[x := 0%nat]> (cs_held s)) s)
    | Some _ => Stuck
    end
  else Undef).
(** [pthread_rwlock_rdlock]. *)
Definition rdlock (x : lock_name) : prog () := act (fun s =>
  if decide (lock_exists s x) then
    match cs_held s !! x with
    | None => Returns (tt, set_locks (<[x := 1%nat]> (cs_held s)) s)
    | Some (S n) => Returns (tt, set_locks (<[x := S (S n)]> (cs_held s)) s)
    | Some O => Stuck
    end
  else Undef).
(** [pthread_mutex_unlock], [pthread_rwlock_unlock]. *)
Definition unlock (x : lock_name) : prog () := act (fun s =>
  if decide (lock_exists s x) then
    match cs_held s !! x with
    | None => Undef
    | Some (S (S n)) => Returns (tt, set_locks (<[x := S n]> (cs_held s)) s)
    | Some _ => Returns (tt, set_locks (delete x (cs_held s)) s)
    end
  else Undef).

(** [while (entry->state & KES_EXTENT_LOADING) pthread_cond_wait(&entry->cond,
    &entry->lock);], after the first evaluation of its condition: the lock is
    released while waiting and held again at the end. *)
Definition cond_wait_loaded (l : loc) : prog () :=
  pbind (unlock (LEntry l)) (fun _ => act (fun s =>
    match cs_entries s !! l with
    | None => Undef
    | Some e =>
        match cs_held s !! LEntry l with
        | None => if has_flag (e_state e) KES_EXTENT_LOADING then Stuck
                  else Returns (tt, set_locks (<[LEntry l := 0%nat]> (cs_held s)) s)
        | Some _ => Stuck
        end
    end)).

(** ** Allocation *)

(** The next planned outcome: [true] is failure. *)
Definition next_failure (v : env) : bool * env :=
  match env_script v with
  | [] => (false, v)
  | b :: bs => (b, env_set_script bs v)
  end.
Definition bump (v : env) : env :=
  mkEnv (env_sec v) (env_nsec v) (env_script v) (Pos.succ (env_next v)) (env_next_thread v)
    (env_junk v).

(** [calloc(1, sizeof(kes_extent_entry_t))] and [free(entry)]. *)
Definition calloc_entry : prog (option loc) := act (fun s =>
  let '(failed, v) := next_failure (cs_env s) in
  if failed then Returns (None, set_env v s)
  else
    let l := env_next v in
    Returns (Some l, mkState (cs_cache s) (<[l := zero_entry]> (cs_entries s))
      (<[l := no_links]> (cs_list s)) (<[l := no_links]> (cs_hash s)) (<[l := 0]> (cs_pins s))
      (cs_bufs s) (cs_held s) (cs_threads s) (bump v) (cs_dev s))).
Definition free_entry (l : loc) : prog () := writes (fun s =>
  _ ← cs_entries s !! l;
  Some (mkState (cs_cache s) (delete l (cs_entries s)) (delete l (cs_list s))
    (delete l (cs_hash s)) (delete l (cs_pins s)) (cs_bufs s) (cs_held s) (cs_threads s)
    (cs_env s) (cs_dev s))).
(** [aligned_alloc(64, size)] and [free(data)]. *)
Definition alloc_buffer (size : Z) : prog (option loc) := act (fun s =>
  let '(failed, v) := next_failure (cs_env s) in
  if failed then Returns (None, set_env v s)
  else
    let p := env_next v in
    let content := take (Z.to_nat size) (env_junk v p size ++ replicate (Z.to_nat size) 0) in
    Returns (Some p, set_env (bump v) (set_bufs (<[p := content]> (cs_bufs s)) s))).
Definition free_buffer (p : loc) : prog () :=
  writes (fun s => _ ← cs_bufs s !! p; Some (set_bufs (delete p (cs_bufs s)) s)).

(** [pthread_mutex_destroy(&entry->lock)]: undefined while the lock is held. *)
Definition destroy_entry_lock (l : loc) : prog () := writes (fun s =>
  match cs_held s !! LEntry l with None => Some s | Some _ => None end).

(** ** Clock and callbacks *)

Definition get_timestamp : prog Z :=
  reads (fun s => Some (u64 (u64 (env_sec (cs_env s) * 1000000) + env_nsec (cs_env s) / 1000))).

(** [read_extent(device, id, data, size)]: what it transfers lands in the
    buffer. *)
Definition call_read (f : read_fn) (id : kes_extent_id) (data : option loc) (size : Z) : prog Z :=
  act (fun s =>
    match cs_cache s, data with
    | Some c, Some p =>
        match cs_bufs s !! p with
        | None => Undef
        | Some buf =>
            if Z.of_nat (length buf) <? size then Undef
            else
              let '(r, bytes, d) := f (cc_device_handle (c_config c)) id size (cs_dev s) in
              Returns (r, set_dev d (set_bufs
                (<[p := splice 0 (take (Z.to_nat size) bytes) buf]> (cs_bufs s)) s))
        end
    | _, _ => Undef
    end).
(** [write_extent(device, id, data, size)]. *)
Definition call_write (f : write_fn) (id : kes_extent_id) (data : option loc) (size : Z) : prog Z :=
  act (fun s =>
    match cs_cache s, data with
    | Some c, Some p =>
        match cs_bufs s !! p with
        | None => Undef
        | Some buf =>
            if Z.of_nat (length buf) <? size then Undef
            else
              let '(r, d) := f (cc_device_handle (c_config c)) id (take (Z.to_nat size) buf)
                               (cs_dev s) in
              Returns (r, set_dev d s)
        end
    | _, _ => Undef
    end).

End device.

Arguments Returns {A} a.
Arguments Undef {A}.
Arguments Stuck {A}.
Arguments read_fn D : clear implicits.
Arguments write_fn D : clear implicits.
Arguments sync_fn D : clear implicits.
Arguments kes_cache D : clear implicits.
Arguments cstate D : clear implicits.
Arguments prog D A : clear implicits.
Arguments Ret {D A} a.
Arguments Step {D A X} f k.

Declare Scope cache_scope.
Delimit Scope cache_scope with cache.
Notation "'let*' x ':=' m 'in' k" := (pbind m (fun x => k))
  (at level 10, x pattern, m at level 100, k at level 200,
   format "'[v' 'let*'  x  ':='  m  'in' '/' k ']'") : cache_scope.
Notation "m ';;;' k" := (pbind m (fun _ => k))
  (at level 100, right associativity, format "'[v' m ';;;' '/' k ']'") : cache_scope.
Global Open Scope cache_scope.
