(* ===== verification/Cache.v ===== *)
(** * The extent cache: [src/kes_cache.c]

    Every function of the file as a program over [CacheState].  The handle is
    the single cache of the state; [cache_ok], [buffer_ok], ... say whether a
    pointer argument is non-null, a null [id] is [None].  [TRACE_*] logging is
    left out.

    Loops over a chain or over the LRU list follow pointers; their fuel is the
    number of entries in memory when they start, which no list without
    repetition exceeds. *)
From S2P Require Import Prelude Types CacheTypes CacheState.

Section device.
Context {D : Type}.
Implicit Types (id : kes_extent_id).

Definition walk_fuel : prog D nat := reads (fun s => Some (size (cs_entries s))).
Definition out_of_fuel {A} : prog D A := act (fun _ => Stuck).

(** ** LRU list *)

Definition lru_add_head (entry : loc) : prog D () :=
  let* c := load_cache in
  set_list_next entry (c_mru_head c) ;;;
  set_list_prev entry None ;;;
  (match c_mru_head c with Some h => set_list_prev h (Some entry) | None => Ret tt end) ;;;
  modify_cache (cache_set_mru (Some entry)) ;;;
  (match c_lru_tail c with
   | None => modify_cache (cache_set_tail (Some entry))
   | Some _ => Ret tt
   end).

Definition lru_remove (entry : loc) : prog D () :=
  let* k := load_list entry in
  (match lk_prev k with
   | Some p => set_list_next p (lk_next k)
   | None => modify_cache (cache_set_mru (lk_next k))
   end) ;;;
  (match lk_next k with
   | Some n => set_list_prev n (lk_prev k)
   | None => modify_cache (cache_set_tail (lk_prev k))
   end) ;;;
  set_list_next entry None ;;;
  set_list_prev entry None.

Definition lru_touch (entry : loc) : prog D () :=
  let* c := load_cache in
  if decide (c_mru_head c = Some entry) then Ret tt
  else lru_remove entry ;;; lru_add_head entry.

(** ** Hash table *)

Definition bucket_idx (c : kes_cache D) (id : kes_extent_id) : Z :=
  Z.land (kes_extent_hash id) (c_bucket_mask c).

(** The loop over a bucket's chain. *)
Fixpoint find_in_chain (id : kes_extent_id) (fuel : nat) (entry : option loc)
    : prog D (option loc) :=
  match entry with
  | None => Ret None
  | Some l =>
      match fuel with
      | O => out_of_fuel
      | S fuel' =>
          let* e := load_entry l in
          if kes_extent_equal (e_id e) id then Ret (Some l)
          else let* k := load_hash l in find_in_chain id fuel' (lk_next k)
      end
  end.

Definition hash_find (id : kes_extent_id) : prog D (option loc) :=
  let* c := load_cache in
  let i := bucket_idx c id in
  rdlock (LBucket i) ;;;
  let* head := load_head i in
  let* fuel := walk_fuel in
  let* entry := find_in_chain id fuel head in
  (match entry with Some l => pins_add l 1 | None => Ret tt end) ;;;
  unlock (LBucket i) ;;;
  Ret entry.

Definition hash_find_or_insert (candidate : loc) : prog D (option loc) :=
  let* c := load_cache in
  let* e := load_entry candidate in
  let i := bucket_idx c (e_id e) in
  lock (LBucket i) ;;;
  let* head := load_head i in
  let* fuel := walk_fuel in
  let* entry := find_in_chain (e_id e) fuel head in
  (match entry with
   | None =>
       set_hash_next candidate head ;;;
       set_hash_prev candidate None ;;;
       (match head with Some h => set_hash_prev h (Some candidate) | None => Ret tt end) ;;;
       set_head i (Some candidate)
   | Some l => pins_add l 1
   end) ;;;
  unlock (LBucket i) ;;;
  Ret entry.

(** ** Memory *)

Definition extent_alloc_data (size : Z) : prog D (option loc) :=
  alloc_buffer (KES_ALIGN size KES_CACHE_ALIGNMENT).

Definition extent_free_data (ptr : option loc) (size : Z) : prog D () :=
  match ptr with
  | Some p =>
      free_buffer p ;;;
      modify_stats (stat_memory (- KES_ALIGN size KES_CACHE_ALIGNMENT))
  | None => Ret tt
  end.

(** What remains of [init_extent_entry] after [calloc]: the identifier, the
    time and the size (the entry is [zero_entry], its links null, its lock
    free). *)
Definition init_extent_entry (entry : loc) (id : kes_extent_id) : prog D () :=
  let* t := get_timestamp in
  modify_entry entry (fun _ => mkEntry id None 0 0 0 t 0 (extent_data_size id) 0) ;;;
  set_hash_next entry None ;;; set_hash_prev entry None ;;;
  set_list_next entry None ;;; set_list_prev entry None.

(** ** Eviction *)

(** The conditions read under the entry's lock. *)
Definition evictable (discard_dirty : bool) (e : kes_extent_entry) : bool :=
  (e_ref_count e =? 0) && (e_pin_count e =? 0) && (e_cond_waiters e =? 0) &&
  (discard_dirty ||
   (negb (has_flag (e_state e) KES_EXTENT_DIRTY) && negb (has_flag (e_state e) KES_EXTENT_ERROR))).

Definition try_evict_entry_locked (entry : loc) (discard_dirty : bool) : prog D bool :=
  let* e := load_entry entry in
  if negb (evictable discard_dirty e) then Ret false
  else
    let* c := load_cache in
    let i := bucket_idx c (e_id e) in
    lock (LBucket i) ;;;
    lock LCache ;;;
    let* pins := pins_load entry in
    if negb (pins =? 0) then unlock LCache ;;; unlock (LBucket i) ;;; Ret false
    else
      let* k := load_hash entry in
      (match lk_prev k with
       | Some p => set_hash_next p (lk_next k)
       | None => set_head i (lk_next k)
       end) ;;;
      (match lk_next k with Some n => set_hash_prev n (lk_prev k) | None => Ret tt end) ;;;
      set_hash_next entry None ;;;
      set_hash_prev entry None ;;;
      lru_remove entry ;;;
      extent_free_data (e_data e) (e_data_size e) ;;;
      modify_stats (stat_cached (-1)) ;;;
      unlock LCache ;;;
      unlock (LBucket i) ;;;
      unlock (LEntry entry) ;;;
      destroy_entry_lock entry ;;;
      free_entry entry ;;;
      Ret true.

(** State and statistics after a successful write-back. *)
Definition flush_done (entry : loc) (size : Z) : prog D () :=
  modify_entry entry (fun e =>
    entry_set_flag KES_EXTENT_CLEAN
      (entry_clear_flag KES_EXTENT_ERROR (entry_clear_flag KES_EXTENT_DIRTY e))) ;;;
  lock LCache ;;;
  modify_stats (stat_flushed size) ;;;
  unlock LCache.

(** The write-back of [sweep_flush_and_maybe_evict] and
    [make_room_for_new_entry]: only a dirty entry that is not being loaded,
    only if there is a callback. *)
Definition write_back (entry : loc) : prog D () :=
  let* e := load_entry entry in
  if has_flag (e_state e) KES_EXTENT_DIRTY && negb (has_flag (e_state e) KES_EXTENT_LOADING) then
    let* c := load_cache in
    match c_write_extent c with
    | Some f =>
        let* result := call_write f (e_id e) (e_data e) (e_data_size e) in
        if result =? KES_SUCCESS then flush_done entry (e_data_size e)
        else modify_entry entry (entry_set_flag KES_EXTENT_ERROR)
    | None => Ret tt
    end
  else Ret tt.

Definition sweep_flush_and_maybe_evict (entry : loc) : prog D () :=
  lock (LEntry entry) ;;;
  pins_add entry (-1) ;;;
  write_back entry ;;;
  let* evicted := try_evict_entry_locked entry false in
  if (evicted : bool) then Ret tt else unlock (LEntry entry).

(** [entry->lookup_pins++] if the pointer is not null. *)
Definition pin_if_some (entry : option loc) : prog D () :=
  match entry with Some l => pins_add l 1 | None => Ret tt end.

(** The loop shared by [cache_sweep] and [kes_cache_destroy]: [visit] every
    entry from [entry] on, the next one being pinned meanwhile. *)
Fixpoint walk_list (visit : loc -> prog D ()) (fuel : nat) (entry : option loc) : prog D () :=
  match entry with
  | None => Ret tt
  | Some l =>
      match fuel with
      | O => out_of_fuel
      | S fuel' =>
          lock LCache ;;;
          let* k := load_list l in
          pin_if_some (lk_next k) ;;;
          unlock LCache ;;;
          visit l ;;;
          walk_list visit fuel' (lk_next k)
      end
  end.

Definition cache_sweep : prog D () :=
  lock LCache ;;;
  let* c := load_cache in
  pin_if_some (c_mru_head c) ;;;
  unlock LCache ;;;
  let* fuel := walk_fuel in
  walk_list sweep_flush_and_maybe_evict fuel (c_mru_head c).

(** Room for one more entry of [aligned_needed] bytes under the configured
    limits. *)
Definition fits_now (c : kes_cache D) (aligned_needed : Z) : bool :=
  (u32 (ks_entries_cached (c_stats c) + 1) <=? cc_max_entries (c_config c)) &&
  (u64 (ks_memory_used (c_stats c) + aligned_needed) <=? cc_max_memory (c_config c)).

(** The loop of [make_room_for_new_entry], from the tail towards the head;
    [fits] is false while it runs. *)
Fixpoint evict_loop (aligned_needed : Z) (fuel : nat) (entry : option loc) (fits : bool)
    : prog D bool :=
  match entry with
  | None => Ret fits
  | Some l =>
      match fuel with
      | O => out_of_fuel
      | S fuel' =>
          lock (LEntry l) ;;;
          pins_add l (-1) ;;;
          write_back l ;;;
          lock LCache ;;;
          let* k := load_list l in
          let prev := lk_prev k in
          (if negb fits then pin_if_some prev else Ret tt) ;;;
          unlock LCache ;;;
          let* evicted := try_evict_entry_locked l false in
          let* fits :=
            if (evicted : bool) then
              lock LCache ;;;
              modify_stats stat_evicted ;;;
              let* c := load_cache in
              unlock LCache ;;;
              Ret (fits_now c aligned_needed)
            else unlock (LEntry l) ;;; Ret fits in
          match fits, prev with
          | true, Some p => pins_add p (-1) ;;; evict_loop aligned_needed fuel' None fits
          | _, _ => evict_loop aligned_needed fuel' prev fits
          end
      end
  end.

Definition make_room_for_new_entry (needed_size : Z) : prog D bool :=
  let aligned_needed := KES_ALIGN needed_size KES_CACHE_ALIGNMENT in
  lock LCache ;;;
  let* c := load_cache in
  let fits := fits_now c aligned_needed in
  let entry := if fits then None else c_lru_tail c in
  pin_if_some entry ;;;
  unlock LCache ;;;
  let* fuel := walk_fuel in
  evict_loop aligned_needed fuel entry fits.

(** ** Creation *)

(** One allocation outside the entries: does it succeed? *)
Definition calloc_ok : prog D bool := act (fun s =>
  let '(failed, v) := next_failure (cs_env s) in Returns (negb failed, set_env v s)).
Definition put_cache (c : option (kes_cache D)) : prog D () :=
  writes (fun s => Some (set_cache c s)).

Definition kes_cache_create (config : option kes_cache_config) : prog D bool :=
  match config with
  | None => Ret false
  | Some cfg =>
      if (cc_max_memory cfg <? KES_CACHE_MIN_MEMORY) ||
         (cc_max_entries cfg <? KES_CACHE_MIN_ENTRIES) then Ret false
      else if decide (cc_policy cfg = KES_CACHE_LRU) then
        let* ok := calloc_ok in
        if negb ok then Ret false
        else
          let* ok := calloc_ok in
          if negb ok then Ret false
          else
            put_cache (Some (mkCache cfg zero_cache_stats
              (replicate (Z.to_nat KES_CACHE_DEFAULT_BUCKETS) None)
              KES_CACHE_DEFAULT_BUCKETS (KES_CACHE_DEFAULT_BUCKETS - 1)
              None None None false 0 false None None None)) ;;;
            Ret true
      else Ret false
  end.

(** ** Background threads *)

(** [pthread_create]: zero and a handle, or an error number. *)
Definition pthread_create : prog D (Z * Z) := act (fun s =>
  let '(failed, v) := next_failure (cs_env s) in
  if failed then Returns ((11, 0), set_env v s)
  else
    let t := env_next_thread v in
    Returns ((0, t), set_threads (t :: cs_threads s)
      (set_env (mkEnv (env_sec v) (env_nsec v) (env_script v) (env_next v) (t + 1) (env_junk v)) s))).
(** [pthread_join]: the threads of the cache end once they see [shutdown];
    joining a thread twice is undefined. *)
Definition pthread_join (t : Z) : prog D () := act (fun s =>
  match cs_cache s with
  | None => Undef
  | Some c =>
      if decide (t ∈ cs_threads s) then
        if c_shutdown c then Returns (tt, set_threads (filter (fun u => u ≠ t) (cs_threads s)) s)
        else Stuck
      else Undef
  end).
Fixpoint join_all (ts : list Z) : prog D () :=
  match ts with [] => Ret tt | t :: ts' => pthread_join t ;;; join_all ts' end.

Definition kes_cache_stop (cache_ok : bool) : prog D Z :=
  if negb cache_ok then Ret KES_ERROR_INVALID
  else
    lock LCache ;;;
    modify_cache (fun c => cache_set_threads (c_bg_threads c) true c) ;;;
    unlock LCache ;;;
    let* c := load_cache in
    (match c_bg_threads c with
     | Some ts =>
         join_all (take (Z.to_nat (cc_background_threads (c_config c))) ts) ;;;
         modify_cache (fun c => cache_set_threads None (c_shutdown c) c)
     | None => Ret tt
     end) ;;;
    Ret KES_SUCCESS.

(** The creation loop: [n] threads still to start, [started] running. *)
Fixpoint start_loop (n : nat) (started : list Z) : prog D Z :=
  match n with
  | O => Ret KES_SUCCESS
  | S n' =>
      let* (result, t) := pthread_create in
      if negb (result =? 0) then
        lock LCache ;;;
        modify_cache (fun c => cache_set_threads (c_bg_threads c) true c) ;;;
        unlock LCache ;;;
        join_all started ;;;
        modify_cache (cache_set_threads None false) ;;;
        Ret KES_ERROR_INVALID
      else
        modify_cache (fun c => cache_set_threads (Some (started ++ [t])) (c_shutdown c) c) ;;;
        start_loop n' (started ++ [t])
  end.

Definition kes_cache_start (cache_ok : bool) : prog D Z :=
  if negb cache_ok then Ret KES_ERROR_INVALID
  else
    let* c := load_cache in
    if cc_background_threads (c_config c) <=? 0 then Ret KES_ERROR_INVALID
    else
      match c_bg_threads c with
      | Some _ => Ret KES_ERROR_EXISTS
      | None =>
          let* ok := calloc_ok in
          if negb ok then Ret KES_ERROR_NOMEM
          else
            modify_cache (cache_set_threads (Some []) false) ;;;
            start_loop (Z.to_nat (cc_background_threads (c_config c))) []
      end.

(** One round of [cache_bg_thread_func] after its timed wait: nothing once
    [shutdown] is seen, otherwise a sweep.  The lock is held on entry and on
    exit, as around [pthread_cond_timedwait]. *)
Definition cache_bg_round : prog D bool :=
  let* c := load_cache in
  if c_shutdown c then Ret false
  else
    unlock LCache ;;;
    cache_sweep ;;;
    lock LCache ;;;
    Ret true.

(** The deadline of a round: now plus the interval, with the nanoseconds
    carried once. *)
Definition bg_deadline (sec nsec interval_ms : Z) : Z * Z :=
  let s := sec + Z.quot interval_ms 1000 in
  let n := nsec + Z.rem interval_ms 1000 * 1000000 in
  if 1000000000 <=? n then (s + 1, n - 1000000000) else (s, n).

(** [cache_bg_thread_func], for at most [fuel] rounds; the timed wait releases
    the lock and takes it again. *)
Fixpoint bg_rounds (fuel : nat) : prog D () :=
  match fuel with
  | O => Ret tt
  | S fuel' =>
      let* c := load_cache in
      if c_shutdown c then Ret tt
      else
        unlock LCache ;;;
        lock LCache ;;;
        let* again := cache_bg_round in
        if (again : bool) then bg_rounds fuel' else Ret tt
  end.
Definition cache_bg_thread_func (fuel : nat) : prog D () :=
  lock LCache ;;; bg_rounds fuel ;;; unlock LCache.

(** ** Destruction *)

Definition destroy_visit (entry : loc) : prog D () :=
  lock (LEntry entry) ;;;
  pins_add entry (-1) ;;;
  let* evicted := try_evict_entry_locked entry true in
  if (evicted : bool) then Ret tt else unlock (LEntry entry).

Definition kes_cache_destroy (cache_ok : bool) : prog D Z :=
  if negb cache_ok then Ret KES_ERROR_INVALID
  else
    let* _ := kes_cache_stop true in
    lock LCache ;;;
    let* c := load_cache in
    if negb (c_inflight_lookups c =? 0) then unlock LCache ;;; Ret KES_ERROR_BUSY
    else
      modify_cache (cache_set_destroying true) ;;;
      pin_if_some (c_mru_head c) ;;;
      unlock LCache ;;;
      let* fuel := walk_fuel in
      walk_list destroy_visit fuel (c_mru_head c) ;;;
      lock LCache ;;;
      let* c := load_cache in
      if bool_decide (c_mru_head c = None) && (c_inflight_lookups c =? 0) then
        unlock LCache ;;;
        put_cache None ;;;
        Ret KES_SUCCESS
      else
        modify_cache (cache_set_destroying false) ;;;
        unlock LCache ;;;
        Ret KES_ERROR_BUSY.

(** ** Lookup *)

(** [cache->inflight_lookups--] under the cache lock. *)
Definition leave_lookup : prog D () :=
  lock LCache ;;;
  modify_cache (fun c => cache_set_inflight (u32 (c_inflight_lookups c - 1)) c) ;;;
  unlock LCache.

(** [read_extent] on the entry's buffer, or [KES_ERROR_INVALID] without a
    callback. *)
Definition read_entry (entry : loc) (id : kes_extent_id) : prog D Z :=
  let* c := load_cache in
  match c_read_extent c with
  | Some f => let* e := load_entry entry in call_read f id (e_data e) (e_data_size e)
  | None => Ret KES_ERROR_INVALID
  end.

(** The winner of the insertion: publish the entry on the LRU list, load it,
    report.  Result and what is stored in [*buffer]. *)
Definition publish_entry (entry : loc) : prog D () :=
  let* e := load_entry entry in
  lock LCache ;;;
  modify_stats stat_miss ;;;
  lru_add_head entry ;;;
  modify_stats (stat_cached 1) ;;;
  modify_stats (stat_memory (KES_ALIGN (e_data_size e) KES_CACHE_ALIGNMENT)) ;;;
  modify_cache (fun c => cache_set_inflight (u32 (c_inflight_lookups c - 1)) c) ;;;
  unlock LCache.

Definition finish_load (entry : loc) (result : Z) : prog D (Z * option loc) :=
  lock (LEntry entry) ;;;
  let* (result, buffer) :=
    if result =? KES_SUCCESS then
      modify_entry entry (entry_set_state KES_EXTENT_CLEAN) ;;;
      let* e := load_entry entry in
      Ret (result, e_data e)
    else
      modify_entry entry (fun e =>
        entry_set_ref (if 0 <? e_ref_count e then u32 (e_ref_count e - 1) else e_ref_count e)
          (entry_set_state KES_EXTENT_ERROR e)) ;;;
      Ret (if result =? KES_ERROR_INVALID then result else KES_ERROR_IO, None) in
  unlock (LEntry entry) ;;;
  (if result =? KES_SUCCESS then
     lock LCache ;;;
     let* e := load_entry entry in
     modify_stats (stat_read (e_data_size e)) ;;;
     unlock LCache
   else Ret tt) ;;;
  Ret (result, buffer).

(** The retry of a load that failed earlier, from releasing the entry's lock
    to taking it again. *)
Definition retry_load (entry : loc) (id : kes_extent_id) : prog D () :=
  modify_entry entry (entry_set_state KES_EXTENT_LOADING) ;;;
  unlock (LEntry entry) ;;;
  let* retry_result := read_entry entry id in
  lock (LEntry entry) ;;;
  modify_entry entry (entry_set_state
    (if retry_result =? KES_SUCCESS then KES_EXTENT_CLEAN else KES_EXTENT_ERROR)) ;;;
  unlock (LEntry entry) ;;;
  (if retry_result =? KES_SUCCESS then
     lock LCache ;;;
     let* e := load_entry entry in
     modify_stats (stat_read (e_data_size e)) ;;;
     unlock LCache
   else Ret tt) ;;;
  lock (LEntry entry).

(** The wait for a load in progress. *)
Definition wait_loaded (entry : loc) : prog D () :=
  let* e := load_entry entry in
  if has_flag (e_state e) KES_EXTENT_LOADING then
    modify_entry entry (fun e => entry_set_waiters (u32 (e_cond_waiters e + 1)) e) ;;;
    cond_wait_loaded entry ;;;
    modify_entry entry (fun e => entry_set_waiters (u32 (e_cond_waiters e - 1)) e)
  else Ret tt.

(** A hit, or a lost insertion race: attach to the entry found (which the
    lookup pinned). *)
Definition attach_entry (entry : loc) (id : kes_extent_id) : prog D (Z * option loc) :=
  lock (LEntry entry) ;;;
  pins_add entry (-1) ;;;
  wait_loaded entry ;;;
  let* e := load_entry entry in
  (if has_flag (e_state e) KES_EXTENT_ERROR && negb (has_flag (e_state e) KES_EXTENT_DIRTY)
   then retry_load entry id else Ret tt) ;;;
  let* e := load_entry entry in
  if has_flag (e_state e) KES_EXTENT_ERROR then
    unlock (LEntry entry) ;;;
    leave_lookup ;;;
    Ret (KES_ERROR_IO, None)
  else
    modify_entry entry (fun e => entry_set_ref (u32 (e_ref_count e + 1)) e) ;;;
    let* t := get_timestamp in
    modify_entry entry (fun e => entry_set_access t (u64 (e_access_count e + 1)) e) ;;;
    let* e := load_entry entry in
    unlock (LEntry entry) ;;;
    lock LCache ;;;
    lru_touch entry ;;;
    modify_stats stat_hit ;;;
    modify_cache (fun c => cache_set_inflight (u32 (c_inflight_lookups c - 1)) c) ;;;
    unlock LCache ;;;
    Ret (KES_SUCCESS, e_data e).

(** A candidate entry in state LOADING with one reference and a buffer, or
    [None] when memory is exhausted. *)
Definition make_candidate (id : kes_extent_id) : prog D (option loc) :=
  let* candidate := calloc_entry in
  match candidate with
  | None => leave_lookup ;;; Ret None
  | Some l =>
      init_extent_entry l id ;;;
      modify_entry l (fun e => entry_set_ref 1 (entry_set_state KES_EXTENT_LOADING e)) ;;;
      let* e := load_entry l in
      let* data := extent_alloc_data (e_data_size e) in
      modify_entry l (entry_set_data data) ;;;
      match data with
      | None =>
          destroy_entry_lock l ;;;
          free_entry l ;;;
          leave_lookup ;;;
          Ret None
      | Some _ => Ret (Some l)
      end
  end.

(** The miss path, up to the outcome of the insertion. *)
Definition get_miss (id : kes_extent_id) : prog D (Z * option loc) :=
  let* room := make_room_for_new_entry (extent_data_size id) in
  if negb room then leave_lookup ;;; Ret (KES_ERROR_BUSY, None)
  else
    let* candidate := make_candidate id in
    match candidate with
    | None => Ret (KES_ERROR_NOMEM, None)
    | Some l =>
        let* entry := hash_find_or_insert l in
        match entry with
        | None =>
            publish_entry l ;;;
            let* result := read_entry l id in
            finish_load l result
        | Some other =>
            let* e := load_entry l in
            (match e_data e with Some p => free_buffer p | None => Ret tt end) ;;;
            destroy_entry_lock l ;;;
            free_entry l ;;;
            attach_entry other id
        end
    end.

(** The code and, when it was written at all, what [*buffer] holds. *)
Definition kes_cache_get_extent (cache_ok : bool) (id : option kes_extent_id) (buffer_ok : bool)
    : prog D (Z * option (option loc)) :=
  match id with
  | None => Ret (KES_ERROR_INVALID, None)
  | Some id =>
      if negb cache_ok || negb buffer_ok then Ret (KES_ERROR_INVALID, None)
      else if negb (KES_IS_POWER_OF_2 (id_block_size id)) ||
              (id_block_size id <? KES_MIN_BLOCK_SIZE) ||
              (KES_MAX_BLOCK_SIZE <? id_block_size id) then Ret (KES_ERROR_INVALID, None)
      else if id_block_count id =? 0 then Ret (KES_ERROR_INVALID, None)
      else
        lock LCache ;;;
        let* c := load_cache in
        if c_destroying c then unlock LCache ;;; Ret (KES_ERROR_INVALID, None)
        else
          modify_cache (fun c => cache_set_inflight (u32 (c_inflight_lookups c + 1)) c) ;;;
          unlock LCache ;;;
          let* entry := hash_find id in
          let* (code, buffer) :=
            match entry with
            | None => get_miss id
            | Some l => attach_entry l id
            end in
          Ret (code, Some buffer)
  end.

(** ** Operations on a cached entry *)

(** Their common frame: find the entry, lock it, drop the lookup's pin.  [k]
    runs with the lock held and releases it. *)
Definition with_entry (cache_ok : bool) (id : option kes_extent_id) (k : loc -> prog D Z)
    : prog D Z :=
  match id with
  | None => Ret KES_ERROR_INVALID
  | Some id =>
      if negb cache_ok then Ret KES_ERROR_INVALID
      else
        let* entry := hash_find id in
        match entry with
        | None => Ret KES_ERROR_NOTFOUND
        | Some l => lock (LEntry l) ;;; pins_add l (-1) ;;; k l
        end
  end.

Definition kes_cache_put_extent (cache_ok : bool) (id : option kes_extent_id) : prog D Z :=
  with_entry cache_ok id (fun l =>
    modify_entry l (fun e =>
      if 0 <? e_ref_count e then entry_set_ref (u32 (e_ref_count e - 1)) e else e) ;;;
    unlock (LEntry l) ;;;
    Ret KES_SUCCESS).

Definition kes_cache_mark_dirty (cache_ok : bool) (id : option kes_extent_id) : prog D Z :=
  with_entry cache_ok id (fun l =>
    let* e := load_entry l in
    (if has_flag (e_state e) KES_EXTENT_DIRTY then Ret tt
     else
       modify_entry l (entry_set_flag KES_EXTENT_DIRTY) ;;;
       lock LCache ;;; modify_stats (stat_dirty 1) ;;; unlock LCache) ;;;
    unlock (LEntry l) ;;;
    Ret KES_SUCCESS).

Definition kes_cache_pin_extent (cache_ok : bool) (id : option kes_extent_id) : prog D Z :=
  with_entry cache_ok id (fun l =>
    let* e := load_entry l in
    (if e_pin_count e =? 0 then
       modify_entry l (entry_set_flag KES_EXTENT_PINNED) ;;;
       lock LCache ;;; modify_stats (stat_pinned 1) ;;; unlock LCache
     else Ret tt) ;;;
    modify_entry l (fun e => entry_set_pin (u32 (e_pin_count e + 1)) e) ;;;
    unlock (LEntry l) ;;;
    Ret KES_SUCCESS).

Definition kes_cache_unpin_extent (cache_ok : bool) (id : option kes_extent_id) : prog D Z :=
  with_entry cache_ok id (fun l =>
    let* e := load_entry l in
    (if 0 <? e_pin_count e then
       modify_entry l (fun e => entry_set_pin (u32 (e_pin_count e - 1)) e) ;;;
       let* e := load_entry l in
       if e_pin_count e =? 0 then
         modify_entry l (entry_clear_flag KES_EXTENT_PINNED) ;;;
         lock LCache ;;; modify_stats (stat_pinned (-1)) ;;; unlock LCache
       else Ret tt
     else Ret tt) ;;;
    unlock (LEntry l) ;;;
    Ret KES_SUCCESS).

Definition kes_cache_flush_extent (cache_ok : bool) (id : option kes_extent_id) : prog D Z :=
  with_entry cache_ok id (fun l =>
    wait_loaded l ;;;
    let* e := load_entry l in
    if has_flag (e_state e) KES_EXTENT_DIRTY then
      let* c := load_cache in
      match c_write_extent c with
      | None => unlock (LEntry l) ;;; Ret KES_ERROR_INVALID
      | Some f =>
          let* result := call_write f (default (e_id e) id) (e_data e) (e_data_size e) in
          if result =? KES_SUCCESS then
            flush_done l (e_data_size e) ;;;
            unlock (LEntry l) ;;;
            Ret KES_SUCCESS
          else
            modify_entry l (entry_set_flag KES_EXTENT_ERROR) ;;;
            unlock (LEntry l) ;;;
            Ret KES_ERROR_IO
      end
    else
      unlock (LEntry l) ;;;
      Ret KES_SUCCESS).

Definition kes_cache_invalidate (cache_ok : bool) (id : option kes_extent_id) : prog D Z :=
  with_entry cache_ok id (fun l =>
    let* e := load_entry l in
    if (0 <? e_ref_count e) || (0 <? e_pin_count e) then
      unlock (LEntry l) ;;; Ret KES_ERROR_BUSY
    else
      let was_dirty := has_flag (e_state e) KES_EXTENT_DIRTY in
      let* evicted := try_evict_entry_locked l true in
      if negb evicted then unlock (LEntry l) ;;; Ret KES_ERROR_BUSY
      else
        (if (was_dirty : bool)
         then lock LCache ;;; modify_stats (stat_dirty (-1)) ;;; unlock LCache
         else Ret tt) ;;;
        Ret KES_SUCCESS).

(** ** The whole cache *)

Definition kes_cache_sync (cache_ok : bool) : prog D Z :=
  if negb cache_ok then Ret KES_ERROR_INVALID
  else cache_sweep ;;; Ret KES_SUCCESS.

Definition kes_cache_get_stats (cache_ok stats_ok : bool) : prog D (Z * option kes_cache_stats) :=
  if negb cache_ok || negb stats_ok then Ret (KES_ERROR_INVALID, None)
  else
    lock LCache ;;;
    let* c := load_cache in
    unlock LCache ;;;
    Ret (KES_SUCCESS, Some (c_stats c)).

Definition kes_cache_reset_stats (cache_ok : bool) : prog D Z :=
  if negb cache_ok then Ret KES_ERROR_INVALID
  else
    lock LCache ;;;
    modify_stats stat_reset ;;;
    unlock LCache ;;;
    Ret KES_SUCCESS.

Definition kes_cache_set_io_callbacks (cache_ok : bool) (read_func : option (read_fn D))
    (write_func : option (write_fn D)) (sync_func : option (sync_fn D)) : prog D Z :=
  if negb cache_ok then Ret KES_ERROR_INVALID
  else
    modify_cache (cache_set_callbacks read_func write_func sync_func) ;;;
    Ret KES_SUCCESS.
End device.
