(* ===== verification/CacheLinks.v ===== *)
(** * Doubly linked lists in a map of links

    The LRU list and the hash chains are the same structure: [seg m p ls n]
    says that in [m] the nodes [ls] are linked both ways, in order, between
    [p] and [n].  The two updates the code makes, unlinking a node and pushing
    one in front, are functions on the map. *)
From S2P Require Import Prelude CacheTypes.

(** What follows, and what precedes. *)
Definition nxt (ls : list loc) (n : option loc) : option loc :=
  match ls with [] => n | y :: _ => Some y end.
Definition prv (p : option loc) (ls : list loc) : option loc :=
  match last ls with Some y => Some y | None => p end.

Fixpoint seg (m : gmap loc links) (p : option loc) (ls : list loc) (n : option loc) : Prop :=
  match ls with
  | [] => True
  | x :: ls' => m !! x = Some (mkLinks (nxt ls' n) p) /\ seg m (Some x) ls' n
  end.

Definition without (x : loc) (ls : list loc) : list loc := filter (fun y => y ≠ x) ls.

Definition with_next (p : option loc) (k : links) : links := mkLinks p (lk_prev k).
Definition with_prev (p : option loc) (k : links) : links := mkLinks (lk_next k) p.
Definition alter_some (f : links -> links) (x : option loc) (m : gmap loc links) : gmap loc links :=
  match x with Some y => alter f y m | None => m end.

(** Unlinking [x], whose links are [k]; pushing [x] in front of [h]. *)
Definition unlink (x : loc) (k : links) (m : gmap loc links) : gmap loc links :=
  <[x := no_links]> (alter_some (with_prev (lk_prev k)) (lk_next k)
    (alter_some (with_next (lk_next k)) (lk_prev k) m)).
Definition push (x : loc) (h : option loc) (m : gmap loc links) : gmap loc links :=
  alter_some (with_prev (Some x)) h (<[x := mkLinks h None]> m).

Lemma nxt_app l1 l2 n : nxt (l1 ++ l2) n = nxt l1 (nxt l2 n).
Proof. by destruct l1. Qed.

Lemma nxt_head ls : nxt ls None = head ls.
Proof. by destruct ls. Qed.

Lemma prv_last ls : prv None ls = last ls.
Proof. unfold prv. by destruct (last ls). Qed.

Lemma prv_cons p x ls : prv p (x :: ls) = prv (Some x) ls.
Proof. unfold prv. rewrite last_cons. by destruct (last ls). Qed.

Lemma seg_app m p l1 l2 n :
  seg m p (l1 ++ l2) n <-> seg m p l1 (nxt l2 n) /\ seg m (prv p l1) l2 n.
Proof.
  revert p. induction l1 as [|x l1 IH]; intros p; [simpl; tauto|].
  cbn [app seg]. rewrite nxt_app, IH, prv_cons. tauto.
Qed.

Lemma seg_frame m m' p ls n :
  (forall x, x ∈ ls -> m' !! x = m !! x) -> seg m p ls n -> seg m' p ls n.
Proof.
  revert p. induction ls as [|x ls IH]; intros p Hm; [done|]. intros [Hx Hs]. split.
  - rewrite Hm; [done|by left].
  - apply IH; [|done]. intros y Hy. apply Hm. by right.
Qed.

Lemma seg_elem m p ls n x : seg m p ls n -> x ∈ ls -> is_Some (m !! x).
Proof.
  revert p. induction ls as [|y ls IH]; intros p; [by intros _ ?%elem_of_nil|].
  intros [Hy Hs]. rewrite elem_of_cons. intros [->|Hin]; eauto.
Qed.

Lemma seg_links m p l1 x l2 n :
  seg m p (l1 ++ x :: l2) n -> m !! x = Some (mkLinks (nxt l2 n) (prv p l1)).
Proof. rewrite seg_app. by intros [_ [? _]]. Qed.

Lemma without_notin x ls : x ∉ ls -> without x ls = ls.
Proof.
  unfold without. induction ls as [|y ls IH]; [done|].
  rewrite not_elem_of_cons. intros [Hy Hx]. rewrite filter_cons_True by congruence.
  by rewrite IH.
Qed.

Lemma without_split x l1 l2 :
  NoDup (l1 ++ x :: l2) -> without x (l1 ++ x :: l2) = l1 ++ l2.
Proof.
  rewrite NoDup_app, NoDup_cons. intros (_ & Hd & Hx & _). unfold without.
  rewrite filter_app, filter_cons_False by (intros Hn; by apply Hn).
  f_equal; apply without_notin; [|done]. intros Hy. by apply (Hd x Hy); left.
Qed.

Lemma elem_of_without x y ls : y ∈ without x ls <-> y ≠ x /\ y ∈ ls.
Proof. unfold without. by rewrite list_elem_of_filter. Qed.

Lemma NoDup_without x ls : NoDup ls -> NoDup (without x ls).
Proof. apply NoDup_filter. Qed.

Lemma lookup_alter_some f x m y :
  alter_some f x m !! y = (if decide (x = Some y) then f <$> m !! y else m !! y).
Proof.
  destruct x as [x|]; cbn; [|by destruct (decide _)].
  rewrite lookup_alter. by destruct (decide (x = y)), (decide (Some x = Some y)); congruence.
Qed.

Lemma nxt_last_ne x ls n : x ∉ ls -> nxt ls n = Some x -> n = Some x.
Proof. destruct ls as [|y ls]; [done|]. intros Hx [= ->]. by destruct Hx; left. Qed.

Lemma prv_elem p ls x : prv p ls = Some x -> p = Some x \/ x ∈ ls.
Proof.
  unfold prv. destruct (last ls) eqn:El; [|by left]. intros [= ->]. right.
  apply last_Some in El as [l' ->]. rewrite elem_of_app. right. by left.
Qed.

Lemma nxt_elem ls n x : nxt ls n = Some x -> n = Some x \/ x ∈ ls.
Proof. destruct ls; [by left|]. intros [= ->]. right. by left. Qed.

(** A run's last node, relinked. *)
Lemma seg_set_next m p ls n n' :
  NoDup ls -> (forall y, p = Some y -> y ∉ ls) ->
  seg m p ls n -> seg (alter_some (with_next n') (last ls) m) p ls n'.
Proof.
  revert p. induction ls as [|x ls IH]; intros p Hnd Hp; [done|].
  apply NoDup_cons in Hnd as [Hx Hnd]. intros [Hm Hs]. rewrite last_cons.
  destruct ls as [|y ls].
  - split; [|done]. cbn. by rewrite lookup_alter_eq, Hm.
  - destruct (last (y :: ls)) as [z|] eqn:El; [|by apply last_None in El].
    assert (z ∈ y :: ls) as Hz.
    { apply last_Some in El as [l' ->]. rewrite elem_of_app. right. by left. }
    specialize (IH (Some x) Hnd ltac:(by intros ? [= <-]) Hs).
    split; [|exact IH]. cbn [alter_some]. rewrite lookup_alter_ne by (intros <-; contradiction). done.
Qed.

(** A run's first node, relinked. *)
Lemma seg_set_prev m p p' ls n :
  NoDup ls -> seg m p ls n -> seg (alter_some (with_prev p') (head ls) m) p' ls n.
Proof.
  destruct ls as [|x ls]; [done|]. intros [Hx _]%NoDup_cons [Hm Hs]. cbn. split.
  - by rewrite lookup_alter_eq, Hm.
  - eapply seg_frame; [|exact Hs]. intros y Hy. apply lookup_alter_ne. by intros ->.
Qed.

Lemma alter_some_frame f x m ls p n :
  (forall y, x = Some y -> y ∉ ls) -> seg m p ls n -> seg (alter_some f x m) p ls n.
Proof.
  intros Hx. apply seg_frame. intros y Hy. rewrite lookup_alter_some.
  destruct (decide (x = Some y)) as [->|]; [|done]. by destruct (Hx y).
Qed.

Lemma seg_unlink m l1 x l2 :
  NoDup (l1 ++ x :: l2) -> seg m None (l1 ++ x :: l2) None ->
  seg (unlink x (mkLinks (nxt l2 None) (prv None l1)) m) None (l1 ++ l2) None.
Proof.
  intros Hnd Hs. pose proof Hnd as Hnd0.
  apply NoDup_app in Hnd as (Hn1 & Hd & [Hx Hn2]%NoDup_cons).
  apply seg_app in Hs as [H1 [_ H2]].
  unfold unlink. cbn [lk_next lk_prev]. rewrite nxt_head, prv_last.
  apply (seg_frame (alter_some (with_prev (last l1)) (head l2)
            (alter_some (with_next (head l2)) (last l1) m))).
  { intros y Hy. apply lookup_insert_ne. intros <-. apply elem_of_app in Hy as [Hy|Hy]; [|done].
    by apply (Hd x Hy); left. }
  rewrite seg_app, nxt_head, prv_last. split.
  - apply alter_some_frame.
    + intros y Hy Hin. apply (Hd y Hin). right. by apply head_Some_elem_of.
    + eapply seg_set_next; [done|done|exact H1].
  - eapply seg_set_prev; [done|]. apply alter_some_frame; [|exact H2].
    intros y Hy Hin. apply last_Some in Hy as [l' ->].
    apply (Hd y); [rewrite elem_of_app; right; by left|by right].
Qed.

(** Lists elsewhere in the map do not notice. *)
Lemma seg_unlink_other m x k ls p n :
  x ∉ ls -> (forall y, lk_next k = Some y -> y ∉ ls) -> (forall y, lk_prev k = Some y -> y ∉ ls) ->
  seg m p ls n -> seg (unlink x k m) p ls n.
Proof.
  intros Hx Hn Hp Hs. unfold unlink. eapply seg_frame.
  { intros y Hy. apply lookup_insert_ne. by intros ->. }
  by do 2 (apply alter_some_frame; [done|]).
Qed.

Lemma seg_push m x ls :
  NoDup (x :: ls) -> seg m None ls None -> seg (push x (head ls) m) None (x :: ls) None.
Proof.
  intros [Hx Hnd]%NoDup_cons Hs. unfold push. split.
  - rewrite lookup_alter_some, lookup_insert_eq, nxt_head.
    destruct (decide _) as [E|]; [|done]. by destruct Hx; apply head_Some_elem_of.
  - eapply seg_set_prev; [done|]. eapply seg_frame; [|exact Hs].
    intros y Hy. apply lookup_insert_ne. by intros ->.
Qed.

Lemma seg_push_other m x h ls p n :
  x ∉ ls -> (forall y, h = Some y -> y ∉ ls) -> seg m p ls n -> seg (push x h m) p ls n.
Proof.
  intros Hx Hh Hs. unfold push. apply alter_some_frame; [done|].
  eapply seg_frame; [|exact Hs]. intros y Hy. apply lookup_insert_ne. by intros ->.
Qed.

(** The set of nodes in memory stays the same. *)
Lemma is_Some_alter_some f x m y : is_Some (alter_some f x m !! y) <-> is_Some (m !! y).
Proof.
  rewrite lookup_alter_some. destruct (decide _); [|done]. by rewrite fmap_is_Some.
Qed.

Lemma is_Some_unlink x k m y :
  is_Some (m !! x) -> is_Some (unlink x k m !! y) <-> is_Some (m !! y).
Proof.
  intros Hx. unfold unlink. destruct (decide (x = y)) as [->|Hne].
  - rewrite lookup_insert_eq. split; intros _; [done|by eexists].
  - by rewrite lookup_insert_ne, !is_Some_alter_some.
Qed.

Lemma is_Some_push x h m y :
  is_Some (m !! x) -> is_Some (push x h m !! y) <-> is_Some (m !! y).
Proof.
  intros Hx. unfold push. rewrite is_Some_alter_some. destruct (decide (x = y)) as [->|Hne].
  - rewrite lookup_insert_eq. split; intros _; [done|by eexists].
  - by rewrite lookup_insert_ne.
Qed.
