(* ===== verification/CacheSpec.v ===== *)
(** * A reference cache

    What the operations of [src/kes_cache.c] compute when they run one after
    the other, without pointers, locks or pins: the entries in memory, the
    order from most to least recently used as a list, and functions on them.
    [CacheFacts] shows that the programs of [Cache] implement it. *)
From S2P Require Import Prelude Types CacheTypes CacheState Cache CacheLinks.

Section device.
Context {D : Type}.

(** The pointer fields of [l_cache] (bucket heads, list ends) mean nothing
    here. *)
Record lcache := mkL {
  l_order : list loc;
  l_cache : kes_cache D;
  l_entries : gmap loc kes_extent_entry;
  l_bufs : gmap loc (list Z);
  l_threads : list Z;
  l_env : env;
  l_dev : D
}.

Definition l_set_order (o : list loc) (l : lcache) : lcache :=
  mkL o (l_cache l) (l_entries l) (l_bufs l) (l_threads l) (l_env l) (l_dev l).
Definition l_set_cache (c : kes_cache D) (l : lcache) : lcache :=
  mkL (l_order l) c (l_entries l) (l_bufs l) (l_threads l) (l_env l) (l_dev l).
Definition l_set_entries (m : gmap loc kes_extent_entry) (l : lcache) : lcache :=
  mkL (l_order l) (l_cache l) m (l_bufs l) (l_threads l) (l_env l) (l_dev l).
Definition l_set_bufs (m : gmap loc (list Z)) (l : lcache) : lcache :=
  mkL (l_order l) (l_cache l) (l_entries l) m (l_threads l) (l_env l) (l_dev l).
Definition l_set_threads (ts : list Z) (l : lcache) : lcache :=
  mkL (l_order l) (l_cache l) (l_entries l) (l_bufs l) ts (l_env l) (l_dev l).
Definition l_set_env (v : env) (l : lcache) : lcache :=
  mkL (l_order l) (l_cache l) (l_entries l) (l_bufs l) (l_threads l) v (l_dev l).
Definition l_set_dev (d : D) (l : lcache) : lcache :=
  mkL (l_order l) (l_cache l) (l_entries l) (l_bufs l) (l_threads l) (l_env l) d.

Definition l_stats (g : kes_cache_stats -> kes_cache_stats) (l : lcache) : lcache :=
  l_set_cache (cache_set_stats g (l_cache l)) l.
Definition l_inflight (n : Z) (l : lcache) : lcache :=
  l_set_cache (cache_set_inflight (u32 (c_inflight_lookups (l_cache l) + n)) (l_cache l)) l.
Definition l_put (x : loc) (e : kes_extent_entry) (l : lcache) : lcache :=
  l_set_entries (<[x := e]> (l_entries l)) l.
Definition l_upd (x : loc) (g : kes_extent_entry -> kes_extent_entry) (l : lcache) : lcache :=
  match l_entries l !! x with Some e => l_put x (g e) l | None => l end.

Definition l_buffer (l : lcache) (e : kes_extent_entry) : option (list Z) :=
  p ← e_data e; l_bufs l !! p.

(** Does the entry at [x] carry this identifier? *)
Definition l_is (l : lcache) (id : kes_extent_id) (x : loc) : bool :=
  match l_entries l !! x with Some e => kes_extent_equal (e_id e) id | None => false end.
Definition l_find (id : kes_extent_id) (l : lcache) : option loc := find (l_is l id) (l_order l).

Definition touch (x : loc) (o : list loc) : list loc :=
  if decide (head o = Some x) then o else x :: without x o.

(** ** Write-back and eviction *)

Definition flushed (e : kes_extent_entry) : kes_extent_entry :=
  entry_set_flag KES_EXTENT_CLEAN
    (entry_clear_flag KES_EXTENT_ERROR (entry_clear_flag KES_EXTENT_DIRTY e)).

(** One call of [write_extent] for the entry [e] at [x]. *)
Definition l_write (f : write_fn D) (id : kes_extent_id) (x : loc) (e : kes_extent_entry)
    (buf : list Z) (l : lcache) : Z * lcache :=
  let '(r, d) := f (cc_device_handle (c_config (l_cache l))) id
                   (take (Z.to_nat (e_data_size e)) buf) (l_dev l) in
  let l := l_set_dev d l in
  if r =? KES_SUCCESS then (r, l_stats (stat_flushed (e_data_size e)) (l_put x (flushed e) l))
  else (r, l_put x (entry_set_flag KES_EXTENT_ERROR e) l).

Definition l_write_back (x : loc) (l : lcache) : lcache :=
  match l_entries l !! x with
  | None => l
  | Some e =>
      if has_flag (e_state e) KES_EXTENT_DIRTY && negb (has_flag (e_state e) KES_EXTENT_LOADING)
      then
        match c_write_extent (l_cache l), l_buffer l e with
        | Some f, Some buf => (l_write f (e_id e) x e buf l).2
        | _, _ => l
        end
      else l
  end.

Definition delete_some (p : option loc) (m : gmap loc (list Z)) : gmap loc (list Z) :=
  match p with Some q => delete q m | None => m end.

Definition l_remove (x : loc) (e : kes_extent_entry) (l : lcache) : lcache :=
  mkL (without x (l_order l))
    (cache_set_stats (fun t => stat_cached (-1)
        (stat_memory (- KES_ALIGN (e_data_size e) KES_CACHE_ALIGNMENT) t)) (l_cache l))
    (delete x (l_entries l)) (delete_some (e_data e) (l_bufs l))
    (l_threads l) (l_env l) (l_dev l).

Definition l_try_evict (discard_dirty : bool) (x : loc) (l : lcache) : bool * lcache :=
  match l_entries l !! x with
  | Some e => if evictable discard_dirty e then (true, l_remove x e l) else (false, l)
  | None => (false, l)
  end.

Definition l_visit (x : loc) (l : lcache) : lcache := (l_try_evict false x (l_write_back x l)).2.
Definition l_sweep (l : lcache) : lcache := foldl (fun l x => l_visit x l) l (l_order l).

(** From the least recently used on, until there is room. *)
Fixpoint l_evict_loop (aligned_needed : Z) (ls : list loc) (l : lcache) : bool * lcache :=
  match ls with
  | [] => (false, l)
  | x :: ls' =>
      let '(evicted, l) := l_try_evict false x (l_write_back x l) in
      if (evicted : bool) then
        let l := l_stats stat_evicted l in
        if fits_now (l_cache l) aligned_needed then (true, l)
        else l_evict_loop aligned_needed ls' l
      else l_evict_loop aligned_needed ls' l
  end.

Definition l_make_room (needed_size : Z) (l : lcache) : bool * lcache :=
  let aligned_needed := KES_ALIGN needed_size KES_CACHE_ALIGNMENT in
  if fits_now (l_cache l) aligned_needed then (true, l)
  else l_evict_loop aligned_needed (reverse (l_order l)) l.

(** ** Lookup *)

Definition l_read (x : loc) (id : kes_extent_id) (e : kes_extent_entry) (l : lcache) : Z * lcache :=
  match c_read_extent (l_cache l), e_data e with
  | Some f, Some p =>
      let '(r, bytes, d) := f (cc_device_handle (c_config (l_cache l))) id (e_data_size e)
                              (l_dev l) in
      (r, l_set_dev d (l_set_bufs
            (<[p := splice 0 (take (Z.to_nat (e_data_size e)) bytes) (default [] (l_bufs l !! p))]>
               (l_bufs l)) l))
  | _, _ => (KES_ERROR_INVALID, l)
  end.

(** A load that failed earlier is tried once more. *)
Definition l_retry (x : loc) (id : kes_extent_id) (e : kes_extent_entry) (l : lcache) : lcache :=
  let '(r, l) := l_read x id e l in
  if r =? KES_SUCCESS
  then l_stats (stat_read (e_data_size e)) (l_put x (entry_set_state KES_EXTENT_CLEAN e) l)
  else l_put x (entry_set_state KES_EXTENT_ERROR e) l.

Definition needs_retry (e : kes_extent_entry) : bool :=
  has_flag (e_state e) KES_EXTENT_ERROR && negb (has_flag (e_state e) KES_EXTENT_DIRTY).

Definition l_now (l : lcache) : Z :=
  u64 (u64 (env_sec (l_env l) * 1000000) + env_nsec (l_env l) / 1000).

Definition l_attach (x : loc) (id : kes_extent_id) (l : lcache) : (Z * option loc) * lcache :=
  match l_entries l !! x with
  | None => ((KES_ERROR_NOTFOUND, None), l)
  | Some e0 =>
      let l := if needs_retry e0 then l_retry x id e0 l else l in
      match l_entries l !! x with
      | None => ((KES_ERROR_NOTFOUND, None), l)
      | Some e =>
          if has_flag (e_state e) KES_EXTENT_ERROR
          then ((KES_ERROR_IO, None), l_inflight (-1) l)
          else
            ((KES_SUCCESS, e_data e),
             l_inflight (-1) (l_stats stat_hit (l_set_order (touch x (l_order l))
               (l_put x (entry_set_access (l_now l) (u64 (e_access_count e + 1))
                           (entry_set_ref (u32 (e_ref_count e + 1)) e)) l))))
      end
  end.

(** The entry a miss creates, before its load. *)
Definition fresh_entry (id : kes_extent_id) (now : Z) (data : option loc) : kes_extent_entry :=
  mkEntry id data KES_EXTENT_LOADING 1 0 now 0 (extent_data_size id) 0.

(** Publishing and loading the entry [e] at [x], already in memory. *)
Definition l_load (x : loc) (id : kes_extent_id) (e : kes_extent_entry) (l : lcache)
    : (Z * option loc) * lcache :=
  let l := l_inflight (-1)
    (l_stats (stat_memory (KES_ALIGN (e_data_size e) KES_CACHE_ALIGNMENT))
      (l_stats (stat_cached 1) (l_set_order (x :: l_order l) (l_stats stat_miss l)))) in
  let '(r, l) := l_read x id e l in
  if r =? KES_SUCCESS then
    ((r, e_data e),
     l_stats (stat_read (e_data_size e)) (l_put x (entry_set_state KES_EXTENT_CLEAN e) l))
  else
    ((if r =? KES_ERROR_INVALID then r else KES_ERROR_IO, None),
     l_put x (entry_set_ref (if 0 <? e_ref_count e then u32 (e_ref_count e - 1) else e_ref_count e)
                (entry_set_state KES_EXTENT_ERROR e)) l).

Definition l_miss (id : kes_extent_id) (l : lcache) : (Z * option loc) * lcache :=
  let '(room, l) := l_make_room (extent_data_size id) l in
  if negb room then ((KES_ERROR_BUSY, None), l_inflight (-1) l)
  else
    let '(failed, v) := next_failure (l_env l) in
    if (failed : bool) then ((KES_ERROR_NOMEM, None), l_inflight (-1) (l_set_env v l))
    else
      let x := env_next v in
      let '(failed, v') := next_failure (bump v) in
      if (failed : bool) then ((KES_ERROR_NOMEM, None), l_inflight (-1) (l_set_env v' l))
      else
        let p := env_next v' in
        let size := KES_ALIGN (extent_data_size id) KES_CACHE_ALIGNMENT in
        let content := take (Z.to_nat size)
                         (env_junk v' p size ++ replicate (Z.to_nat size) 0) in
        let e := fresh_entry id (l_now (l_set_env (bump v) l)) (Some p) in
        l_load x id e
          (l_set_env (bump v') (l_set_bufs (<[p := content]> (l_bufs l)) (l_put x e l))).

Definition id_accepted (id : kes_extent_id) : bool :=
  KES_IS_POWER_OF_2 (id_block_size id) && (KES_MIN_BLOCK_SIZE <=? id_block_size id) &&
  (id_block_size id <=? KES_MAX_BLOCK_SIZE) && negb (id_block_count id =? 0).

Definition l_get (id : kes_extent_id) (l : lcache) : (Z * option loc) * lcache :=
  let l := l_inflight 1 l in
  match l_find id l with
  | Some x => l_attach x id l
  | None => l_miss id l
  end.

(** ** Operations on a cached entry *)

Definition l_with (id : kes_extent_id) (l : lcache)
    (k : loc -> kes_extent_entry -> lcache -> Z * lcache) : Z * lcache :=
  match l_find id l with
  | None => (KES_ERROR_NOTFOUND, l)
  | Some x => match l_entries l !! x with Some e => k x e l | None => (KES_ERROR_NOTFOUND, l) end
  end.

Definition l_put_extent (id : kes_extent_id) (l : lcache) : Z * lcache :=
  l_with id l (fun x e l =>
    (KES_SUCCESS,
     l_put x (if 0 <? e_ref_count e then entry_set_ref (u32 (e_ref_count e - 1)) e else e) l)).

Definition l_mark_dirty (id : kes_extent_id) (l : lcache) : Z * lcache :=
  l_with id l (fun x e l =>
    (KES_SUCCESS,
     if has_flag (e_state e) KES_EXTENT_DIRTY then l
     else l_stats (stat_dirty 1) (l_put x (entry_set_flag KES_EXTENT_DIRTY e) l))).

Definition l_pin (id : kes_extent_id) (l : lcache) : Z * lcache :=
  l_with id l (fun x e l =>
    (KES_SUCCESS,
     if e_pin_count e =? 0
     then l_stats (stat_pinned 1)
            (l_put x (entry_set_pin (u32 (e_pin_count e + 1))
                        (entry_set_flag KES_EXTENT_PINNED e)) l)
     else l_put x (entry_set_pin (u32 (e_pin_count e + 1)) e) l)).

Definition l_unpin (id : kes_extent_id) (l : lcache) : Z * lcache :=
  l_with id l (fun x e l =>
    (KES_SUCCESS,
     if 0 <? e_pin_count e then
       let e' := entry_set_pin (u32 (e_pin_count e - 1)) e in
       if e_pin_count e' =? 0
       then l_stats (stat_pinned (-1)) (l_put x (entry_clear_flag KES_EXTENT_PINNED e') l)
       else l_put x e' l
     else l)).

Definition l_flush (id : kes_extent_id) (l : lcache) : Z * lcache :=
  l_with id l (fun x e l =>
    if has_flag (e_state e) KES_EXTENT_DIRTY then
      match c_write_extent (l_cache l), l_buffer l e with
      | Some f, Some buf =>
          let '(r, l) := l_write f id x e buf l in
          (if r =? KES_SUCCESS then KES_SUCCESS else KES_ERROR_IO, l)
      | _, _ => (KES_ERROR_INVALID, l)
      end
    else (KES_SUCCESS, l)).

Definition l_invalidate (id : kes_extent_id) (l : lcache) : Z * lcache :=
  l_with id l (fun x e l =>
    if (0 <? e_ref_count e) || (0 <? e_pin_count e) then (KES_ERROR_BUSY, l)
    else
      let '(evicted, l) := l_try_evict true x l in
      if negb evicted then (KES_ERROR_BUSY, l)
      else (KES_SUCCESS,
            if has_flag (e_state e) KES_EXTENT_DIRTY then l_stats (stat_dirty (-1)) l else l)).

(** The eviction pass of [kes_cache_destroy]. *)
Definition l_drain (l : lcache) : lcache :=
  foldl (fun l x => (l_try_evict true x l).2) l (l_order l).

End device.

Arguments lcache D : clear implicits.
