(* ===== verification/CacheView.v ===== *)
(** * Pointer structures seen as lists, and rules for programs

    A [view] describes a state without pointers: which locks are held, the
    pins, each bucket's chain as a list, and the reference cache.  [rep] ties
    it to a state of [CacheState]; [steps m v r v'] says that the program [m]
    run alone from any state seen as [v] returns [r] in a state seen as [v'].
    One rule per memory access, lock operation, allocation and callback. *)
From stdpp Require Import functions.
From S2P Require Import Prelude Types CacheTypes CacheState Cache CacheLinks CacheSpec.

Section device.
Context {D : Type}.

Record view := mkView {
  v_held : held;
  v_pins : loc -> Z;
  v_chains : list (list loc);
  v_l : lcache D
}.

(** The cache structure with its pointers. *)
Definition full (ch : list (list loc)) (l : lcache D) : kes_cache D :=
  cache_set_heads (head <$> ch)
    (cache_set_mru (head (l_order l)) (cache_set_tail (last (l_order l)) (l_cache l))).

Record rep (v : view) (s : cstate D) : Prop := {
  rp_cache : cs_cache s = Some (full (v_chains v) (v_l v));
  rp_order : seg (cs_list s) None (l_order (v_l v)) None;
  rp_chains : forall i ls, v_chains v !! i = Some ls -> seg (cs_hash s) None ls None;
  rp_list_dom : forall x, is_Some (cs_list s !! x) <-> is_Some (l_entries (v_l v) !! x);
  rp_hash_dom : forall x, is_Some (cs_hash s !! x) <-> is_Some (l_entries (v_l v) !! x);
  rp_pins : forall x, cs_pins s !! x = (fun _ => v_pins v x) <$> l_entries (v_l v) !! x;
  rp_entries : cs_entries s = l_entries (v_l v);
  rp_bufs : cs_bufs s = l_bufs (v_l v);
  rp_held : cs_held s = v_held v;
  rp_threads : cs_threads s = l_threads (v_l v);
  rp_env : cs_env s = l_env (v_l v);
  rp_dev : cs_dev s = l_dev (v_l v)
}.

Definition steps {A} (m : prog D A) (v : view) (r : A) (v' : view) : Prop :=
  forall s, rep v s -> exists s', run m s = Returns (r, s') /\ rep v' s'.

Lemma run_bind {A B} (m : prog D A) (k : A -> prog D B) s :
  run (pbind m k) s =
  match run m s with
  | Returns (a, s') => run (k a) s'
  | Undef => Undef
  | Stuck => Stuck
  end.
Proof.
  revert s. induction m as [a|X f g IH]; intros s; [done|]. cbn.
  destruct (f s) as [[x s']| |]; [apply IH|done|done].
Qed.

Lemma steps_ret {A} (a : A) v : steps (Ret a) v a v.
Proof. intros s Hs. by exists s. Qed.

Lemma steps_bind {A B} (m : prog D A) (k : A -> prog D B) v r v1 b v2 :
  steps m v r v1 -> steps (k r) v1 b v2 -> steps (pbind m k) v b v2.
Proof.
  intros H1 H2 s Hs. rewrite run_bind. destruct (H1 s Hs) as (s1 & -> & Hs1).
  by apply H2.
Qed.

Lemma steps_bind_assoc {A B C} (m : prog D A) (f : A -> prog D B) (k : B -> prog D C) v r v1 c v2 :
  steps (pbind m f) v r v1 -> steps (k r) v1 c v2 ->
  steps (pbind m (fun x => pbind (f x) k)) v c v2.
Proof.
  intros H1 H2 s Hs. destruct (H1 s Hs) as (s1 & Hr & Hs1). rewrite run_bind. rewrite run_bind in Hr.
  destruct (run m s) as [[x s']| |]; [|done|done]. rewrite run_bind, Hr. by apply H2.
Qed.

Lemma steps_eq {A} (m : prog D A) v r v' r2 v2 :
  steps m v r v' -> r = r2 -> v' = v2 -> steps m v r2 v2.
Proof. by intros ? <- <-. Qed.

(** ** Reading and changing the cache structure *)

Lemma steps_load_cache h P ch l :
  steps load_cache (mkView h P ch l) (full ch l) (mkView h P ch l).
Proof. intros s Hs. exists s. split; [|done]. cbn. by rewrite (rp_cache _ _ Hs). Qed.

(** Changes of the fields that are not pointers. *)
Lemma steps_modify_cache g h P ch l :
  (forall hs m t, g (cache_set_heads hs (cache_set_mru m (cache_set_tail t (l_cache l)))) =
     cache_set_heads hs (cache_set_mru m (cache_set_tail t (g (l_cache l))))) ->
  steps (modify_cache g) (mkView h P ch l) tt (mkView h P ch (l_set_cache (g (l_cache l)) l)).
Proof.
  intros Hg s [Hc ? ? ? ? ? ? ? ? ? ? ?]. cbn in *. rewrite Hc. cbn. eexists. split; [done|].
  split; cbn; try done. unfold full. by rewrite Hg.
Qed.

Lemma steps_modify_stats g h P ch l :
  steps (modify_stats g) (mkView h P ch l) tt (mkView h P ch (l_stats g l)).
Proof. by apply steps_modify_cache. Qed.

(** ** Entries and pins *)

Lemma steps_load_entry x e h P ch l :
  l_entries l !! x = Some e -> steps (load_entry x) (mkView h P ch l) e (mkView h P ch l).
Proof. intros He s Hs. exists s. split; [|done]. cbn. rewrite (rp_entries _ _ Hs). cbn. by rewrite He. Qed.

Lemma is_Some_insert {A} (m : gmap loc A) x a y :
  is_Some (m !! x) -> is_Some (<[x := a]> m !! y) <-> is_Some (m !! y).
Proof.
  intros Hx. rewrite lookup_insert_is_Some'. split; [by intros [<-|]|by right].
Qed.

Lemma steps_modify_entry x e g h P ch l :
  l_entries l !! x = Some e ->
  steps (modify_entry x g) (mkView h P ch l) tt (mkView h P ch (l_put x (g e) l)).
Proof.
  intros He s [? ? ? Hl Hh Hp Hen ? ? ? ? ?]. cbn in *. rewrite Hen, He. cbn.
  eexists. split; [done|].
  assert (forall y, is_Some (<[x := g e]> (l_entries l) !! y) <-> is_Some (l_entries l !! y)) as Hd
    by (intros y; by apply is_Some_insert; eexists).
  split; cbn; try done.
  - intros y. by rewrite Hl, Hd.
  - intros y. by rewrite Hh, Hd.
  - intros y. rewrite Hp. destruct (decide (x = y)) as [->|Hne].
    + by rewrite lookup_insert_eq, He.
    + by rewrite lookup_insert_ne.
Qed.

Lemma steps_pins_add x n h P ch l :
  is_Some (l_entries l !! x) ->
  steps (pins_add x n) (mkView h P ch l) tt (mkView h (<[x := u32 (P x + n)]> P) ch l).
Proof.
  intros [e He] s [? ? ? ? ? Hp ? ? ? ? ? ?]. cbn in *. rewrite (Hp x), He. cbn.
  eexists. split; [done|]. split; cbn; try done.
  intros y. destruct (decide (x = y)) as [<-|Hne].
  - by rewrite lookup_insert_eq, He, fn_lookup_insert.
  - by rewrite lookup_insert_ne, fn_lookup_insert_ne, Hp.
Qed.

Lemma steps_pins_load x h P ch l :
  is_Some (l_entries l !! x) -> steps (pins_load x) (mkView h P ch l) (P x) (mkView h P ch l).
Proof. intros [e He] s Hs. exists s. split; [|done]. cbn. rewrite (rp_pins _ _ Hs). cbn. by rewrite He. Qed.

(** ** Locks *)

Definition lock_there (l : lcache D) (x : lock_name) : Prop :=
  match x with LEntry y => is_Some (l_entries l !! y) | _ => True end.

Lemma lock_there_exists h P ch l s x :
  rep (mkView h P ch l) s -> lock_there l x -> lock_exists s x.
Proof.
  intros Hs. destruct x; cbn.
  - by rewrite (rp_cache _ _ Hs).
  - by rewrite (rp_cache _ _ Hs).
  - by rewrite (rp_entries _ _ Hs).
Qed.

Lemma rep_set_locks h h' P ch l s :
  rep (mkView h P ch l) s -> rep (mkView h' P ch l) (set_locks h' s).
Proof. by intros []. Qed.

Lemma steps_lock x h P ch l :
  lock_there l x -> h !! x = None ->
  steps (lock x) (mkView h P ch l) tt (mkView (<[x := 0%nat]> h) P ch l).
Proof.
  intros Hx Hh s Hs. cbn. rewrite decide_True by (by eapply lock_there_exists).
  rewrite (rp_held _ _ Hs). cbn. rewrite Hh. eexists. split; [done|]. by eapply rep_set_locks.
Qed.

Lemma steps_rdlock x h P ch l :
  lock_there l x -> h !! x = None ->
  steps (rdlock x) (mkView h P ch l) tt (mkView (<[x := 1%nat]> h) P ch l).
Proof.
  intros Hx Hh s Hs. cbn. rewrite decide_True by (by eapply lock_there_exists).
  rewrite (rp_held _ _ Hs). cbn. rewrite Hh. eexists. split; [done|]. by eapply rep_set_locks.
Qed.

Lemma steps_unlock x n h P ch l :
  lock_there l x -> h !! x = Some n -> (n <= 1)%nat ->
  steps (unlock x) (mkView h P ch l) tt (mkView (delete x h) P ch l).
Proof.
  intros Hx Hh Hn s Hs. cbn. rewrite decide_True by (by eapply lock_there_exists).
  rewrite (rp_held _ _ Hs). cbn. rewrite Hh.
  destruct n as [|[|n]]; [..|lia]; (eexists; split; [done|]; by eapply rep_set_locks).
Qed.

Lemma steps_destroy_entry_lock x h P ch l :
  h !! LEntry x = None -> steps (destroy_entry_lock x) (mkView h P ch l) tt (mkView h P ch l).
Proof.
  intros Hh s Hs. exists s. split; [|done]. cbn. rewrite (rp_held _ _ Hs). cbn. by rewrite Hh.
Qed.

(** ** The environment *)

Lemma steps_get_timestamp h P ch l :
  steps get_timestamp (mkView h P ch l) (l_now l) (mkView h P ch l).
Proof. intros s Hs. exists s. split; [|done]. cbn. by rewrite (rp_env _ _ Hs). Qed.

Lemma steps_walk_fuel h P ch l :
  steps walk_fuel (mkView h P ch l) (size (l_entries l)) (mkView h P ch l).
Proof. intros s Hs. exists s. split; [|done]. cbn. by rewrite (rp_entries _ _ Hs). Qed.

Lemma steps_calloc_ok h P ch l failed v :
  next_failure (l_env l) = (failed, v) ->
  steps calloc_ok (mkView h P ch l) (negb failed) (mkView h P ch (l_set_env v l)).
Proof.
  intros Hf s [? ? ? ? ? ? ? ? ? ? He ?]. cbn in *. rewrite He, Hf. eexists. by split.
Qed.

(** [read_extent] and [write_extent] on an allocated buffer that is long
    enough. *)
Lemma steps_call_read f id p n buf r bytes d h P ch l :
  l_bufs l !! p = Some buf -> n <= Z.of_nat (length buf) ->
  f (cc_device_handle (c_config (l_cache l))) id n (l_dev l) = (r, bytes, d) ->
  steps (call_read f id (Some p) n) (mkView h P ch l) r
    (mkView h P ch (l_set_dev d (l_set_bufs
       (<[p := splice 0 (take (Z.to_nat n) bytes) buf]> (l_bufs l)) l))).
Proof.
  intros Hb Hn Hf s [Hc ? ? ? ? ? ? Hbs ? ? ? Hd]. cbn in *. rewrite Hc, Hbs, Hb. cbn.
  destruct (Z.ltb_spec (Z.of_nat (length buf)) n); [lia|].
  rewrite Hd, Hf. eexists. split; [done|]. split; cbn; done.
Qed.

Lemma steps_call_write f id p n buf r d h P ch l :
  l_bufs l !! p = Some buf -> n <= Z.of_nat (length buf) ->
  f (cc_device_handle (c_config (l_cache l))) id (take (Z.to_nat n) buf) (l_dev l) = (r, d) ->
  steps (call_write f id (Some p) n) (mkView h P ch l) r (mkView h P ch (l_set_dev d l)).
Proof.
  intros Hb Hn Hf s [Hc ? ? ? ? ? ? Hbs ? ? ? Hd]. cbn in *. rewrite Hc, Hbs, Hb. cbn.
  destruct (Z.ltb_spec (Z.of_nat (length buf)) n); [lia|].
  rewrite Hd, Hf. eexists. split; [done|]. split; cbn; done.
Qed.

(** ** Allocation *)

Lemma steps_alloc_buffer size failed v h P ch l :
  next_failure (l_env l) = (failed, v) ->
  steps (alloc_buffer size) (mkView h P ch l)
    (if failed then None else Some (env_next v))
    (mkView h P ch (if failed then l_set_env v l
       else l_set_env (bump v) (l_set_bufs (<[env_next v :=
              take (Z.to_nat size) (env_junk v (env_next v) size ++ replicate (Z.to_nat size) 0)]>
              (l_bufs l)) l))).
Proof.
  intros Hf s [? ? ? ? ? ? ? Hb ? ? He ?]. cbn in *. rewrite He, Hf.
  destruct failed; (eexists; split; [done|]); split; cbn; try done. by rewrite Hb.
Qed.

Lemma steps_free_buffer p h P ch l :
  is_Some (l_bufs l !! p) ->
  steps (free_buffer p) (mkView h P ch l) tt (mkView h P ch (l_set_bufs (delete p (l_bufs l)) l)).
Proof.
  intros [b Hp] s [? ? ? ? ? ? ? Hb ? ? ? ?]. cbn in *. rewrite Hb, Hp.
  eexists; split; [done|]. by split.
Qed.

Lemma steps_calloc_entry_fail v h P ch l :
  next_failure (l_env l) = (true, v) ->
  steps calloc_entry (mkView h P ch l) None (mkView h P ch (l_set_env v l)).
Proof.
  intros Hf s [? ? ? ? ? ? ? ? ? ? He ?]. cbn in *. rewrite He, Hf. eexists; split; [done|]. by split.
Qed.

(** A new entry is not on any list yet. *)
Lemma steps_calloc_entry v h P ch l :
  next_failure (l_env l) = (false, v) -> l_entries l !! env_next v = None ->
  P (env_next v) = 0 ->
  env_next v ∉ l_order l -> (forall i ls, ch !! i = Some ls -> env_next v ∉ ls) ->
  steps calloc_entry (mkView h P ch l) (Some (env_next v))
    (mkView h P ch (l_set_env (bump v) (l_put (env_next v) zero_entry l))).
Proof.
  intros Hf Hn HP Ho Hch s [? Hseg Hsegs Hl Hh Hp Hen ? ? ? He ?]. cbn in *. rewrite He, Hf.
  eexists; split; [done|].
  assert (forall (m : gmap loc links) ls, env_next v ∉ ls -> seg m None ls None ->
    seg (<[env_next v := no_links]> m) None ls None) as Hins.
  { intros m ls Hx. apply seg_frame. intros y Hy. apply lookup_insert_ne. by intros <-. }
  split; cbn; try done; [by apply Hins|by intros i ls Hi; apply Hins; eauto|..|by rewrite Hen].
  - intros y. rewrite !lookup_insert_is_Some, Hl. done.
  - intros y. rewrite !lookup_insert_is_Some, Hh. done.
  - intros y. destruct (decide (env_next v = y)) as [<-|Hne].
    + by rewrite !lookup_insert_eq, HP.
    + by rewrite !lookup_insert_ne, Hp.
Qed.

(** Freeing an entry no list mentions. *)
Lemma steps_free_entry x h P ch l :
  is_Some (l_entries l !! x) -> x ∉ l_order l -> (forall i ls, ch !! i = Some ls -> x ∉ ls) ->
  steps (free_entry x) (mkView h P ch l) tt
    (mkView h P ch (l_set_entries (delete x (l_entries l)) l)).
Proof.
  intros [e He] Ho Hch s [? Hseg Hsegs Hl Hh Hp Hen ? ? ? ? ?]. cbn in *. rewrite Hen, He. cbn.
  eexists; split; [done|].
  assert (forall (m : gmap loc links) ls, x ∉ ls -> seg m None ls None ->
    seg (delete x m) None ls None) as Hdel.
  { intros m ls Hx. apply seg_frame. intros y Hy. apply lookup_delete_ne. by intros ->. }
  split; cbn; try done; [by apply Hdel|by intros i ls Hi; apply Hdel; eauto|..].
  - intros y. by rewrite !lookup_delete_is_Some, Hl.
  - intros y. by rewrite !lookup_delete_is_Some, Hh.
  - intros y. destruct (decide (x = y)) as [<-|Hne].
    + by rewrite !lookup_delete_eq.
    + by rewrite !lookup_delete_ne, Hp.
Qed.
End device.

Arguments view D : clear implicits.
