(* ===== verification/CacheLists.v ===== *)
(** * The LRU list and the hash chains in memory

    Rules for [lru_add_head], [lru_remove], [lru_touch], the traversal of a
    chain, and the two blocks of statements that link an entry into a chain
    and unlink it: on views they are operations on lists. *)
From stdpp Require Import functions.
From S2P Require Import Prelude Types CacheTypes CacheState Cache CacheLinks CacheSpec CacheView.

Section device.
Context {D : Type}.

(** ** Runs of the link updates *)

Lemma insert_alter (f : links -> links) (m : gmap loc links) x k :
  m !! x = Some k -> <[x := f k]> m = alter f x m.
Proof.
  intros Hx. apply map_eq. intros y. destruct (decide (x = y)) as [<-|Hne].
  - by rewrite lookup_insert_eq, lookup_alter_eq, Hx.
  - by rewrite lookup_insert_ne, lookup_alter_ne.
Qed.

Lemma run_set_list_next x p (s : cstate D) :
  is_Some (cs_list s !! x) ->
  run (set_list_next x p) s = Returns (tt, set_list (alter (with_next p) x (cs_list s)) s).
Proof. intros [k Hk]. cbn. rewrite Hk. cbn. by rewrite <-(insert_alter _ _ _ k). Qed.
Lemma run_set_list_prev x p (s : cstate D) :
  is_Some (cs_list s !! x) ->
  run (set_list_prev x p) s = Returns (tt, set_list (alter (with_prev p) x (cs_list s)) s).
Proof. intros [k Hk]. cbn. rewrite Hk. cbn. by rewrite <-(insert_alter _ _ _ k). Qed.
Lemma run_set_hash_next x p (s : cstate D) :
  is_Some (cs_hash s !! x) ->
  run (set_hash_next x p) s = Returns (tt, set_hash (alter (with_next p) x (cs_hash s)) s).
Proof. intros [k Hk]. cbn. rewrite Hk. cbn. by rewrite <-(insert_alter _ _ _ k). Qed.
Lemma run_set_hash_prev x p (s : cstate D) :
  is_Some (cs_hash s !! x) ->
  run (set_hash_prev x p) s = Returns (tt, set_hash (alter (with_prev p) x (cs_hash s)) s).
Proof. intros [k Hk]. cbn. rewrite Hk. cbn. by rewrite <-(insert_alter _ _ _ k). Qed.

Lemma set_cache_same (s : cstate D) c : cs_cache s = Some c -> set_cache (Some c) s = s.
Proof. destruct s. cbn. by intros ->. Qed.

(** Clearing both links, whatever they were. *)
Lemma alter_clear x (m : gmap loc links) :
  is_Some (m !! x) -> alter (with_prev None) x (alter (with_next None) x m) = <[x := no_links]> m.
Proof.
  intros [k Hk]. apply map_eq. intros y. destruct (decide (x = y)) as [<-|Hne].
  - by rewrite lookup_insert_eq, !lookup_alter_eq, Hk.
  - by rewrite lookup_insert_ne, !lookup_alter_ne.
Qed.

(** ** The LRU list *)

Lemma load_list_mid x l1 l2 h P ch (l : lcache D) :
  l_order l = l1 ++ x :: l2 ->
  steps (load_list x) (mkView h P ch l) (mkLinks (nxt l2 None) (prv None l1)) (mkView h P ch l).
Proof.
  intros Ho s Hs. exists s. split; [|done]. pose proof (rp_order _ _ Hs) as Hseg. cbn in Hseg.
  rewrite Ho in Hseg. cbn. by rewrite (seg_links _ _ _ _ _ _ Hseg).
Qed.

Lemma order_split (l : lcache D) x : x ∈ l_order l -> exists l1 l2, l_order l = l1 ++ x :: l2.
Proof. intros Hx. by apply list_elem_of_split. Qed.

Lemma run_lru_remove x k (s : cstate D) c :
  cs_cache s = Some c -> cs_list s !! x = Some k ->
  (forall y, lk_prev k = Some y -> is_Some (cs_list s !! y)) ->
  (forall y, lk_next k = Some y -> is_Some (cs_list s !! y)) ->
  run (lru_remove x) s = Returns (tt,
    set_list (unlink x k (cs_list s))
      (set_cache (Some (match lk_next k with Some _ => fun c => c | None => cache_set_tail (lk_prev k) end
         (match lk_prev k with Some _ => c | None => cache_set_mru (lk_next k) c end))) s)).
Proof.
  intros Hc Hk Hp Hn. unfold lru_remove. rewrite run_bind.
  assert (run (load_list x) s = Returns (k, s)) as -> by (cbn; by rewrite Hk).
  assert (forall o, run (match o with
      | Some p => set_list_next p (lk_next k)
      | None => modify_cache (cache_set_mru (lk_next k)) end) s =
    (if decide (o = lk_prev k) then Returns (tt, set_list (alter_some (with_next (lk_next k)) o (cs_list s))
      (set_cache (Some (match o with Some _ => c | None => cache_set_mru (lk_next k) c end)) s))
     else run (match o with
      | Some p => set_list_next p (lk_next k)
      | None => modify_cache (cache_set_mru (lk_next k)) end) s)) as E1.
  { intros o. destruct (decide (o = lk_prev k)) as [->|]; [|done].
    destruct (lk_prev k) as [p|].
    - rewrite run_set_list_next by auto. by rewrite set_cache_same.
    - cbn. rewrite Hc. cbn. by destruct s. }
  rewrite run_bind, (E1 (lk_prev k)), decide_True by done. clear E1.
  set (m1 := alter_some (with_next (lk_next k)) (lk_prev k) (cs_list s)).
  set (c1 := match lk_prev k with Some _ => c | None => cache_set_mru (lk_next k) c end).
  assert (forall y, is_Some (m1 !! y) <-> is_Some (cs_list s !! y)) as Hd1
    by (intros y; apply is_Some_alter_some).
  rewrite run_bind.
  assert (run (match lk_next k with
      | Some n => set_list_prev n (lk_prev k)
      | None => modify_cache (cache_set_tail (lk_prev k)) end) (set_list m1 (set_cache (Some c1) s)) =
    Returns (tt, set_list (alter_some (with_prev (lk_prev k)) (lk_next k) m1)
      (set_cache (Some (match lk_next k with Some _ => fun c => c | None => cache_set_tail (lk_prev k) end c1)) s)))
    as ->.
  { destruct (lk_next k) as [n|]; [|done]. rewrite run_set_list_prev; [done|].
    cbn [cs_list set_list]. rewrite Hd1. auto. }
  rewrite run_bind, run_set_list_next; cbn [cs_list set_list];
    [|rewrite is_Some_alter_some, Hd1; by eexists].
  rewrite run_set_list_prev; cbn [cs_list set_list];
    [|rewrite lookup_alter_eq, fmap_is_Some, is_Some_alter_some, Hd1; by eexists].
  rewrite alter_clear by (rewrite is_Some_alter_some, Hd1; by eexists). done.
Qed.

Lemma steps_lru_remove x h P ch (l : lcache D) :
  x ∈ l_order l -> NoDup (l_order l) ->
  steps (lru_remove x) (mkView h P ch l) tt (mkView h P ch (l_set_order (without x (l_order l)) l)).
Proof.
  intros Hx Hnd s Hs. destruct (order_split l x Hx) as (l1 & l2 & Ho).
  destruct Hs as [Hc Hseg Hsegs Hl Hh Hp Hen ? ? ? ? ?]. cbn [v_l v_chains v_held v_pins] in *.
  rewrite Ho in *. pose proof (seg_links _ _ _ _ _ _ Hseg) as Hk.
  assert (forall y, y ∈ l1 ++ x :: l2 -> is_Some (cs_list s !! y)) as Hin
    by (intros y Hy; by eapply seg_elem).
  erewrite run_lru_remove; [|exact Hc|exact Hk|..]; cbn [lk_next lk_prev].
  2:{ intros y Hy. apply Hin. apply prv_elem in Hy as [|Hy]; [done|]. rewrite elem_of_app. by left. }
  2:{ intros y Hy. apply Hin. apply nxt_elem in Hy as [|Hy]; [done|]. rewrite elem_of_app.
      right. by right. }
  eexists. split; [done|]. rewrite without_split by done. split; cbn; try done.
  - f_equal. unfold full. cbn. rewrite Ho, prv_last, nxt_head. rewrite head_app, last_app, last_cons.
    assert (forall (y : loc) ls, last (y :: ls) ≠ None) as Hlast by (by intros y ls ?%last_None).
    destruct l1 as [|a l1], l2 as [|b l2]; cbn; try done.
    + by destruct (last (b :: l2)) eqn:E; [|by apply Hlast in E].
    + rewrite app_nil_r. by destruct (last (a :: l1)) eqn:E; [|by apply Hlast in E].
    + change (a :: l1 ++ b :: l2) with ((a :: l1) ++ b :: l2). rewrite last_app.
      destruct (last (a :: l1)) eqn:E; [|by apply Hlast in E].
      by destruct (last (b :: l2)) eqn:E'; [|by apply Hlast in E'].
  - by apply seg_unlink.
  - intros y. rewrite is_Some_unlink by (by eexists). apply Hl.
Qed.

Lemma alter_fresh x n (m : gmap loc links) :
  is_Some (m !! x) -> alter (with_prev None) x (alter (with_next n) x m) = <[x := mkLinks n None]> m.
Proof.
  intros [k Hk]. apply map_eq. intros y. destruct (decide (x = y)) as [<-|Hne].
  - by rewrite lookup_insert_eq, !lookup_alter_eq, Hk.
  - by rewrite lookup_insert_ne, !lookup_alter_ne.
Qed.

Lemma steps_lru_add_head x h P ch (l : lcache D) :
  is_Some (l_entries l !! x) -> NoDup (x :: l_order l) ->
  steps (lru_add_head x) (mkView h P ch l) tt (mkView h P ch (l_set_order (x :: l_order l) l)).
Proof.
  intros Hx Hnd s Hs. pose proof Hs as [Hc Hseg Hsegs Hl Hh Hp Hen ? ? ? ? ?].
  cbn [v_l v_chains v_held v_pins] in *.
  assert (is_Some (cs_list s !! x)) as Hxs by by apply Hl.
  unfold lru_add_head. rewrite run_bind.
  assert (run load_cache s = Returns (full ch l, s)) as -> by (cbn; by rewrite Hc).
  rewrite run_bind, run_set_list_next by done.
  rewrite run_bind, run_set_list_prev by (cbn; by rewrite lookup_alter_eq, fmap_is_Some).
  cbn [cs_list set_list]. rewrite alter_fresh by done.
  set (m1 := <[x := mkLinks (c_mru_head (full ch l)) None]> (cs_list s)).
  change (set_list m1 (set_list _ s)) with (set_list m1 s). rewrite run_bind.
  assert (run (match c_mru_head (full ch l) with
      | Some y => set_list_prev y (Some x) | None => Ret tt end) (set_list m1 s) =
    Returns (tt, set_list (push x (head (l_order l)) (cs_list s)) s)) as ->.
  { unfold push. change (c_mru_head (full ch l)) with (head (l_order l)) in m1 |- *.
    destruct (head (l_order l)) as [y|] eqn:Eh; [|done].
    rewrite run_set_list_prev; [done|]. cbn [cs_list set_list]. unfold m1.
    rewrite lookup_insert_is_Some'. right. eapply seg_elem; [exact Hseg|].
    by apply head_Some_elem_of. }
  assert (rep (mkView h P ch (l_set_order (x :: l_order l) l))
    (set_list (push x (head (l_order l)) (cs_list s))
       (set_cache (Some (full ch (l_set_order (x :: l_order l) l))) s))) as Hfin.
  { split; cbn; try done; [by apply seg_push|]. intros y. rewrite is_Some_push by done. apply Hl. }
  eexists. split; [|exact Hfin]. cbn. rewrite Hc. cbn. unfold full.
  cbn [l_order l_set_order l_cache head]. rewrite last_cons. by destruct (last (l_order l)).
Qed.

Lemma steps_lru_touch x h P ch (l : lcache D) :
  x ∈ l_order l -> is_Some (l_entries l !! x) -> NoDup (l_order l) ->
  steps (lru_touch x) (mkView h P ch l) tt
    (mkView h P ch (l_set_order (touch x (l_order l)) l)).
Proof.
  intros Hx He Hnd. unfold lru_touch, touch.
  eapply steps_bind; [apply steps_load_cache|]. cbn beta.
  change (c_mru_head (full ch l)) with (head (l_order l)). destruct (decide _) as [E|E].
  - intros s Hs. exists s. split; [done|]. by destruct l.
  - eapply steps_bind; [by apply steps_lru_remove|].
    eapply steps_eq; [apply steps_lru_add_head; [done|]|done|done].
    cbn. constructor; [by intros [? _]%elem_of_without|by apply NoDup_without].
Qed.

(** ** Hash chains *)

Lemma steps_load_head i ls h P ch (l : lcache D) :
  ch !! Z.to_nat i = Some ls ->
  steps (load_head i) (mkView h P ch l) (head ls) (mkView h P ch l).
Proof.
  intros Hi s Hs. exists s. split; [|done]. cbn. rewrite (rp_cache _ _ Hs). cbn.
  by rewrite list_lookup_fmap, Hi.
Qed.

Lemma walk_bound (m : gmap loc kes_extent_entry) ls :
  NoDup ls -> (forall x, x ∈ ls -> is_Some (m !! x)) -> (length ls <= size m)%nat.
Proof.
  intros Hnd Hin. rewrite <-size_dom, <-(size_list_to_set (C := gset loc) ls Hnd).
  apply subseteq_size. intros x Hx%elem_of_list_to_set. by apply elem_of_dom, Hin.
Qed.

Lemma run_find_in_chain id ls (l : lcache D) (s : cstate D) :
  cs_entries s = l_entries l -> (forall x, x ∈ ls -> is_Some (l_entries l !! x)) ->
  forall fuel p, (length ls <= fuel)%nat -> seg (cs_hash s) p ls None ->
  run (find_in_chain id fuel (head ls)) s = Returns (find (l_is l id) ls, s).
Proof.
  intros Hen. induction ls as [|x ls IH]; intros Hin fuel p Hf Hs; [by destruct fuel|].
  destruct fuel as [|fuel]; [cbn in Hf; lia|]. destruct Hs as [Hx Hs].
  destruct (Hin x) as [e He]; [by left|]. cbn [head find_in_chain find]. unfold l_is at 1.
  rewrite run_bind. assert (run (load_entry x) s = Returns (e, s)) as -> by (cbn; by rewrite Hen, He).
  rewrite He. destruct (kes_extent_equal (e_id e) id); [done|]. rewrite run_bind.
  assert (run (load_hash x) s = Returns (mkLinks (nxt ls None) p, s)) as -> by (cbn; by rewrite Hx).
  cbn [lk_next]. rewrite nxt_head. apply (IH (fun y Hy => Hin y (list_elem_of_further y x ls Hy))) with (Some x).
  - cbn in Hf. lia.
  - done.
Qed.

Lemma steps_find_in_chain id i ls h P ch (l : lcache D) :
  ch !! i = Some ls -> NoDup ls -> (forall x, x ∈ ls -> is_Some (l_entries l !! x)) ->
  steps (find_in_chain id (size (l_entries l)) (head ls)) (mkView h P ch l)
    (find (l_is l id) ls) (mkView h P ch l).
Proof.
  intros Hi Hnd Hin s Hs. exists s. split; [|done].
  eapply run_find_in_chain; [apply (rp_entries _ _ Hs)|done|by apply walk_bound|].
  by eapply (rp_chains _ _ Hs).
Qed.

(** Chains without a node in common. *)
Definition chains_apart (ch : list (list loc)) : Prop :=
  forall i j ls ls' x, ch !! i = Some ls -> ch !! j = Some ls' -> x ∈ ls -> x ∈ ls' -> i = j.

Lemma steps_chain_insert {A} x i ls h P ch (l : lcache D) (rest : prog D A) r v :
  ch !! Z.to_nat i = Some ls -> is_Some (l_entries l !! x) -> NoDup (x :: ls) -> chains_apart ch ->
  (forall j ls', ch !! j = Some ls' -> x ∉ ls') ->
  steps rest (mkView h P (<[Z.to_nat i := x :: ls]> ch) l) r v ->
  steps ((set_hash_next x (head ls) ;;;
          set_hash_prev x None ;;;
          (match head ls with Some y => set_hash_prev y (Some x) | None => Ret tt end) ;;;
          set_head i (Some x)) ;;; rest) (mkView h P ch l) r v.
Proof.
  intros Hi He Hnd Hap Hnew Hrest. eapply steps_bind; [|exact Hrest]. clear Hrest.
  intros s [Hc Hseg Hsegs Hl Hh Hp Hen ? ? ? ? ?]. cbn [v_l v_chains v_held v_pins] in *.
  assert (is_Some (cs_hash s !! x)) as Hxs by by apply Hh.
  rewrite run_bind, run_set_hash_next by done.
  rewrite run_bind, run_set_hash_prev by (cbn; by rewrite lookup_alter_eq, fmap_is_Some).
  cbn [cs_hash set_hash]. rewrite alter_fresh by done.
  change (set_hash ?m (set_hash _ s)) with (set_hash m s). rewrite run_bind.
  assert (run (match head ls with
      | Some y => set_hash_prev y (Some x) | None => Ret tt end)
      (set_hash (<[x := mkLinks (head ls) None]> (cs_hash s)) s) =
    Returns (tt, set_hash (push x (head ls) (cs_hash s)) s)) as ->.
  { unfold push. destruct (head ls) as [y|] eqn:Eh; [|done].
    rewrite run_set_hash_prev; [done|]. cbn [cs_hash set_hash].
    rewrite lookup_insert_is_Some'. right. eapply seg_elem; [exact (Hsegs _ ls Hi)|].
    by apply head_Some_elem_of. }
  cbn. rewrite Hc. cbn. rewrite list_lookup_fmap, Hi. cbn. eexists. split; [done|].
  split; cbn; try done.
  - unfold full. by rewrite list_fmap_insert.
  - intros j ls'. destruct (decide (j = Z.to_nat i)) as [->|Hne].
    + rewrite list_lookup_insert_eq by (by eapply lookup_lt_Some). intros [= <-].
      apply seg_push; [done|]. by eapply Hsegs.
    + rewrite list_lookup_insert_ne by done. intros Hj. apply seg_push_other; [by eapply Hnew| |eauto].
      intros y Hy Hin. apply Hne. eapply Hap; [exact Hj|exact Hi|exact Hin|].
      by apply head_Some_elem_of.
  - intros y. rewrite is_Some_push by done. apply Hh.
Qed.

Lemma steps_load_hash x i l1 l2 h P ch (l : lcache D) :
  ch !! i = Some (l1 ++ x :: l2) ->
  steps (load_hash x) (mkView h P ch l) (mkLinks (nxt l2 None) (prv None l1)) (mkView h P ch l).
Proof.
  intros Hi s Hs. exists s. split; [|done]. pose proof (rp_chains _ _ Hs _ _ Hi) as Hseg.
  cbn. by rewrite (seg_links _ _ _ _ _ _ Hseg).
Qed.

Lemma run_set_head i p (s : cstate D) c :
  cs_cache s = Some c -> is_Some (c_heads c !! Z.to_nat i) ->
  run (set_head i p) s =
    Returns (tt, set_cache (Some (cache_set_heads (<[Z.to_nat i := p]> (c_heads c)) c)) s).
Proof. intros Hc [q Hq]. cbn. rewrite Hc. cbn. by rewrite Hq. Qed.

(** The heads after the first node of chain [i] was unlinked, or another. *)
Lemma heads_unlink i x l1 l2 (ch : list (list loc)) :
  ch !! i = Some (l1 ++ x :: l2) ->
  head <$> <[i := l1 ++ l2]> ch =
  match prv None l1 with Some _ => head <$> ch | None => <[i := nxt l2 None]> (head <$> ch) end.
Proof.
  intros Hi. rewrite list_fmap_insert, prv_last, nxt_head. destruct l1 as [|a l1]; [done|].
  destruct (last (a :: l1)) eqn:E; [|by apply last_None in E]. cbn [app head].
  apply list_insert_id. by rewrite list_lookup_fmap, Hi.
Qed.

Lemma steps_chain_remove {A} x i l1 l2 h P ch (l : lcache D) (rest : prog D A) r v :
  let k := mkLinks (nxt l2 None) (prv None l1) in
  ch !! Z.to_nat i = Some (l1 ++ x :: l2) -> NoDup (l1 ++ x :: l2) -> chains_apart ch ->
  steps rest (mkView h P (<[Z.to_nat i := l1 ++ l2]> ch) l) r v ->
  steps ((match lk_prev k with
          | Some p => set_hash_next p (lk_next k)
          | None => set_head i (lk_next k)
          end) ;;;
         (match lk_next k with Some n => set_hash_prev n (lk_prev k) | None => Ret tt end) ;;;
         set_hash_next x None ;;;
         set_hash_prev x None ;;; rest) (mkView h P ch l) r v.
Proof.
  intros k Hi Hnd Hap Hrest s Hs. pose proof Hs as [Hc Hseg Hsegs Hl Hh Hp Hen ? ? ? ? ?].
  cbn [v_l v_chains v_held v_pins] in *. pose proof (Hsegs _ _ Hi) as Hsi.
  pose proof (seg_links _ _ _ _ _ _ Hsi) as Hk.
  assert (forall y, y ∈ l1 ++ x :: l2 -> is_Some (cs_hash s !! y)) as Hin
    by (intros y Hy; by eapply seg_elem).
  assert (forall y, lk_prev k = Some y -> y ∈ l1 ++ x :: l2) as Hkp.
  { intros y Hy. apply prv_elem in Hy as [|Hy]; [done|]. rewrite elem_of_app. by left. }
  assert (forall y, lk_next k = Some y -> y ∈ l1 ++ x :: l2) as Hkn.
  { intros y Hy. apply nxt_elem in Hy as [|Hy]; [done|]. rewrite elem_of_app. right. by right. }
  fold k in Hk. set (c' := full (<[Z.to_nat i := l1 ++ l2]> ch) l).
  assert (run (match lk_prev k with
      | Some p => set_hash_next p (lk_next k) | None => set_head i (lk_next k) end) s =
    Returns (tt, set_hash (alter_some (with_next (lk_next k)) (lk_prev k) (cs_hash s))
                   (set_cache (Some c') s))) as E1.
  { unfold c', full. rewrite (heads_unlink _ _ _ _ _ Hi). cbn [lk_prev k].
    destruct (prv None l1) as [p|] eqn:Ep.
    - rewrite run_set_hash_next by auto. by rewrite set_cache_same.
    - erewrite run_set_head; [|exact Hc|]; [by destruct s|]. cbn. by rewrite list_lookup_fmap, Hi. }
  rewrite run_bind, E1. clear E1. set (m1 := alter_some _ _ _). rewrite run_bind.
  assert (forall y, is_Some (m1 !! y) <-> is_Some (cs_hash s !! y)) as Hd1
    by (intros y; apply is_Some_alter_some).
  assert (run (match lk_next k with Some n => set_hash_prev n (lk_prev k) | None => Ret tt end)
      (set_hash m1 (set_cache (Some c') s)) =
    Returns (tt, set_hash (alter_some (with_prev (lk_prev k)) (lk_next k) m1)
      (set_cache (Some c') s))) as ->.
  { destruct (lk_next k) as [n|] eqn:En; [|done]. rewrite run_set_hash_prev; [done|].
    cbn [cs_hash set_hash]. rewrite Hd1. auto. }
  rewrite run_bind, run_set_hash_next; cbn [cs_hash set_hash];
    [|rewrite is_Some_alter_some, Hd1; by eexists].
  rewrite run_bind, run_set_hash_prev; cbn [cs_hash set_hash];
    [|rewrite lookup_alter_eq, fmap_is_Some, is_Some_alter_some, Hd1; by eexists].
  rewrite alter_clear by (rewrite is_Some_alter_some, Hd1; by eexists).
  apply Hrest. split; cbn; try done.
  - intros j ls'. destruct (decide (j = Z.to_nat i)) as [->|Hne].
    + rewrite list_lookup_insert_eq by (by eapply lookup_lt_Some). intros [= <-].
      exact (seg_unlink _ _ _ _ Hnd Hsi).
    + rewrite list_lookup_insert_ne by done. intros Hj.
      assert (forall y, y ∈ l1 ++ x :: l2 -> y ∉ ls') as Hout
        by (intros y Hy Hy'; apply Hne; by eapply Hap).
      change (seg (unlink x k (cs_hash s)) None ls' None).
      apply seg_unlink_other; [apply Hout; rewrite elem_of_app; right; by left|by eauto..].
  - intros y. change (is_Some (unlink x k (cs_hash s) !! y) <-> is_Some (l_entries l !! y)).
    rewrite is_Some_unlink by (by eexists). apply Hh.
Qed.
End device.
