(* ===== verification/CacheWf.v ===== *)
(** * Well-formed reference caches

    What holds between calls: every entry in memory is on the LRU list exactly
    once, identifiers are distinct, each entry owns a buffer large enough for
    its data and no buffer is owned twice or by nobody, no load is pending.
    Every building block of the operations preserves it. *)
From S2P Require Import Prelude Types CacheTypes CacheState Cache CacheLinks CacheSpec.

(** ** State flags *)

Lemma has_flag_bit s k : 0 <= k -> has_flag s (2 ^ k) = Z.testbit s k.
Proof.
  intros Hk. unfold has_flag. destruct (Z.testbit s k) eqn:E.
  - destruct (Z.eqb_spec (Z.land s (2 ^ k)) 0) as [H|]; [|done].
    apply (f_equal (fun z => Z.testbit z k)) in H.
    rewrite Z.land_spec, Z.pow2_bits_true, E, Z.bits_0 in H by done. discriminate H.
  - apply negb_false_iff, Z.eqb_eq. apply Z.bits_inj'. intros j Hj.
    rewrite Z.land_spec, Z.pow2_bits_eqb, Z.bits_0 by done.
    destruct (Z.eqb_spec k j) as [<-|]; [by rewrite E|by rewrite andb_false_r].
Qed.

Definition is_dirty (e : kes_extent_entry) : bool := has_flag (e_state e) KES_EXTENT_DIRTY.
Definition is_error (e : kes_extent_entry) : bool := has_flag (e_state e) KES_EXTENT_ERROR.
Definition is_loading (e : kes_extent_entry) : bool := has_flag (e_state e) KES_EXTENT_LOADING.

(** The bit of the state that [is_dirty], [is_error], [is_loading] look at. *)
Lemma dirty_bit e : is_dirty e = Z.testbit (e_state e) 1.
Proof. by apply (has_flag_bit _ 1). Qed.
Lemma error_bit e : is_error e = Z.testbit (e_state e) 5.
Proof. by apply (has_flag_bit _ 5). Qed.
Lemma loading_bit e : is_loading e = Z.testbit (e_state e) 3.
Proof. by apply (has_flag_bit _ 3). Qed.

(** Evaluates the flags of entries whose state was updated. *)
Ltac flags :=
  rewrite ?dirty_bit, ?error_bit, ?loading_bit;
  cbn [e_state entry_set_state entry_set_flag entry_clear_flag entry_set_ref entry_set_pin
       entry_set_data entry_set_access entry_set_waiters flushed];
  rewrite ?Z.lor_spec, ?Z.land_spec, ?Z.lnot_spec, ?Z.land_spec, ?Z.lnot_spec by lia;
  cbn -[Z.lor Z.land Z.lnot];
  rewrite ?andb_true_r, ?andb_false_r, ?orb_false_r, ?orb_true_r.

Lemma flushed_dirty e : is_dirty (flushed e) = false.
Proof. unfold flushed. by flags. Qed.
Lemma flushed_error e : is_error (flushed e) = false.
Proof. unfold flushed. by flags. Qed.
Lemma flushed_loading e : is_loading (flushed e) = is_loading e.
Proof. unfold flushed. by flags. Qed.

(** ** Sizes *)

Lemma align_spec n : 0 <= n < 2 ^ 62 ->
  KES_ALIGN n KES_CACHE_ALIGNMENT = (n + 63) / 64 * 64 /\ n <= KES_ALIGN n KES_CACHE_ALIGNMENT < 2 ^ 63.
Proof.
  intros Hn. assert (KES_ALIGN n KES_CACHE_ALIGNMENT = (n + 63) / 64 * 64) as ->.
  { unfold KES_ALIGN, KES_CACHE_ALIGNMENT.
    rewrite (u64_small (n + 64)), u64_small by lia. replace (n + 64 - 1) with (n + 63) by lia.
    change 64 with (2 ^ 6) at 2 3. rewrite <-Z.shiftr_div_pow2, <-Z.shiftl_mul_pow2 by lia.
    rewrite <-Z.ldiff_ones_r by lia. rewrite Z.ldiff_land. apply Z.bits_inj'. intros j Hj.
    rewrite !Z.land_spec. unfold u64. destruct (Z.lt_ge_cases j 64) as [Hlt|Hge].
    - by rewrite Z.mod_pow2_bits_low.
    - rewrite Z.mod_pow2_bits_high by lia. rewrite (Z.bits_above_log2 (n + 63)); [done|lia|].
      apply Z.log2_lt_pow2; [lia|]. apply Z.lt_le_trans with (2 ^ 63); [lia|].
      apply Z.pow_le_mono_r; lia. }
  split; [done|]. pose proof (Z.div_mod (n + 63) 64). pose proof (Z.mod_pos_bound (n + 63) 64). lia.
Qed.

Lemma extent_data_size_range id : id_ok id -> 0 <= extent_data_size id < 2 ^ 64.
Proof. intros _. apply u64_range. Qed.

Lemma extent_equal_iff id1 id2 :
  kes_extent_equal id1 id2 = true <->
  id_start_block id1 = id_start_block id2 /\ id_block_count id1 = id_block_count id2 /\
  id_block_size id1 = id_block_size id2.
Proof. unfold kes_extent_equal. rewrite !andb_true_iff, !Z.eqb_eq. tauto. Qed.

Lemma extent_equal_refl id : kes_extent_equal id id = true.
Proof. by apply extent_equal_iff. Qed.

Lemma extent_equal_hash id1 id2 :
  kes_extent_equal id1 id2 = true -> kes_extent_hash id1 = kes_extent_hash id2.
Proof. rewrite extent_equal_iff. unfold kes_extent_hash. by intros (-> & -> & ->). Qed.
Lemma equal_sym id id' : kes_extent_equal id id' = kes_extent_equal id' id.
Proof.
  unfold kes_extent_equal. by rewrite (Z.eqb_sym (id_start_block id)),
    (Z.eqb_sym (id_block_count id)), (Z.eqb_sym (id_block_size id)).
Qed.
Lemma equal_trans id1 id2 id3 :
  kes_extent_equal id1 id2 = true -> kes_extent_equal id1 id3 = kes_extent_equal id2 id3.
Proof. rewrite extent_equal_iff. unfold kes_extent_equal. by intros (-> & -> & ->). Qed.
Lemma equal_size id id' : kes_extent_equal id id' = true -> extent_data_size id = extent_data_size id'.
Proof. rewrite extent_equal_iff. unfold extent_data_size. by intros (_ & -> & ->). Qed.

Section device.
Context {D : Type}.

(** ** The invariant *)

(** An entry at rest: what all of them have in common. *)
Record entry_ok (bufs : gmap loc (list Z)) (e : kes_extent_entry) : Prop := {
  en_data : exists p buf, e_data e = Some p /\ bufs !! p = Some buf /\
                          Z.of_nat (length buf) = KES_ALIGN (e_data_size e) KES_CACHE_ALIGNMENT;
  en_size : e_data_size e = extent_data_size (e_id e) /\ 0 <= e_data_size e < 2 ^ 62;
  en_waiters : e_cond_waiters e = 0;
  en_loading : is_loading e = false
}.

Record lwf (l : lcache D) : Prop := {
  wf_nodup : NoDup (l_order l);
  wf_dom : forall x, x ∈ l_order l <-> is_Some (l_entries l !! x);
  wf_ids : forall x y e e', l_entries l !! x = Some e -> l_entries l !! y = Some e' ->
             kes_extent_equal (e_id e) (e_id e') = true -> x = y;
  wf_entry : forall x e, l_entries l !! x = Some e -> entry_ok (l_bufs l) e;
  wf_own : forall x y e e', l_entries l !! x = Some e -> l_entries l !! y = Some e' ->
             e_data e = e_data e' -> x = y;
  wf_leak : forall p, is_Some (l_bufs l !! p) ->
              exists x e, l_entries l !! x = Some e /\ e_data e = Some p;
  wf_fresh : forall x, is_Some (l_entries l !! x) \/ is_Some (l_bufs l !! x) ->
               (x < env_next (l_env l))%positive;
  wf_mask : c_bucket_mask (l_cache l) = 1023 /\ c_bucket_count (l_cache l) = 1024
}.

(** What an update of an entry must leave alone. *)
Record same_shape (e e' : kes_extent_entry) : Prop := {
  sh_id : e_id e' = e_id e;
  sh_data : e_data e' = e_data e;
  sh_size : e_data_size e' = e_data_size e;
  sh_waiters : e_cond_waiters e' = e_cond_waiters e
}.

Lemma entry_buffer bufs e :
  entry_ok bufs e -> exists p buf, e_data e = Some p /\ bufs !! p = Some buf /\
    e_data_size e <= Z.of_nat (length buf).
Proof.
  intros [(p & buf & Hp & Hb & Hl) [_ Hsz] _ _]. exists p, buf. split_and!; [done|done|].
  pose proof (align_spec _ Hsz). lia.
Qed.

Lemma lwf_put l x e e' :
  lwf l -> l_entries l !! x = Some e -> same_shape e e' -> is_loading e' = false ->
  lwf (l_put x e' l).
Proof.
  intros [H1 H2 H3 H4 H5 H6 H7 H8] He [S1 S2 S3 S4] Hl.
  assert (forall y f, <[x := e']> (l_entries l) !! y = Some f -> exists f0,
    l_entries l !! y = Some f0 /\ e_id f = e_id f0 /\ e_data f = e_data f0) as Hback.
  { intros y f [[<- <-]|[Hne Hy]]%lookup_insert_Some; eauto. }
  assert (forall y, is_Some (<[x := e']> (l_entries l) !! y) <-> is_Some (l_entries l !! y)) as Hd.
  { intros y. rewrite lookup_insert_is_Some'. split; [|by right]. intros [<-|]; [by eexists|done]. }
  split; cbn; try done.
  - intros y. by rewrite Hd.
  - intros y z f f' (f0 & Hy & -> & _)%Hback (f0' & Hz & -> & _)%Hback. by eapply H3.
  - intros y f [[<- <-]|[Hne Hy]]%lookup_insert_Some; [|by eapply H4].
    destruct (H4 _ _ He) as [Ed Es Ew _]. split; [by rewrite S2, S3|by rewrite S1, S3|by rewrite S4|done].
  - intros y z f f' (f0 & Hy & _ & ->)%Hback (f0' & Hz & _ & ->)%Hback. by eapply H5.
  - intros p Hp. destruct (H6 p Hp) as (y & f & Hy & Hf). destruct (decide (x = y)) as [<-|Hne].
    + exists x, e'. rewrite lookup_insert_eq. split; [done|]. rewrite S2. congruence.
    + exists y, f. by rewrite lookup_insert_ne.
  - intros y. rewrite Hd. apply H7.
Qed.

Lemma lwf_cache l c :
  lwf l -> c_bucket_mask c = c_bucket_mask (l_cache l) ->
  c_bucket_count c = c_bucket_count (l_cache l) -> lwf (l_set_cache c l).
Proof. intros [? ? ? ? ? ? ? H8] Hm Hc. split; try done. cbn. by rewrite Hm, Hc. Qed.

Lemma lwf_stats g l : lwf l -> lwf (l_stats g l).
Proof. intros H. by apply lwf_cache. Qed.

Lemma lwf_inflight n l : lwf l -> lwf (l_inflight n l).
Proof. intros H. by apply lwf_cache. Qed.

Lemma lwf_dev d l : lwf l -> lwf (l_set_dev d l).
Proof. by intros []. Qed.

Lemma lwf_env v l :
  lwf l -> (env_next (l_env l) <= env_next v)%positive -> lwf (l_set_env v l).
Proof.
  intros [? ? ? ? ? ? H7 ?] Hv. split; try done. cbn. intros x Hx.
  eapply Pos.lt_le_trans; [by apply H7|done].
Qed.

Lemma lwf_order o l :
  lwf l -> NoDup o -> (forall x, x ∈ o <-> x ∈ l_order l) -> lwf (l_set_order o l).
Proof. intros [? H2 ? ? ? ? ? ?] Ho Hx. split; try done. cbn. intros x. by rewrite Hx, H2. Qed.

(** New contents, same length, for a buffer. *)
Lemma lwf_buf p buf buf' l :
  lwf l -> l_bufs l !! p = Some buf -> length buf' = length buf ->
  lwf (l_set_bufs (<[p := buf']> (l_bufs l)) l).
Proof.
  intros [H1 H2 H3 H4 H5 H6 H7 H8] Hp Hl.
  assert (forall q, is_Some (<[p := buf']> (l_bufs l) !! q) <-> is_Some (l_bufs l !! q)) as Hd.
  { intros y. rewrite lookup_insert_is_Some'. split; [|by right]. intros [<-|]; [by eexists|done]. }
  split; cbn; try done.
  - intros x e He. destruct (H4 x e He) as [(q & b & Hq & Hb & Hlen) ? ? ?]. split; [|done..].
    destruct (decide (p = q)) as [<-|Hne].
    + exists p, buf'. rewrite lookup_insert_eq. split_and!; [done|done|]. rewrite Hl. congruence.
    + exists q, b. by rewrite lookup_insert_ne.
  - intros q. rewrite Hd. apply H6.
  - intros x. rewrite Hd. apply H7.
Qed.

Lemma elem_touch x y o : x ∈ o -> y ∈ touch x o <-> y ∈ o.
Proof.
  intros Hx. unfold touch. destruct (decide _); [done|].
  rewrite elem_of_cons, elem_of_without. destruct (decide (y = x)) as [->|]; tauto.
Qed.

Lemma NoDup_touch x o : NoDup o -> NoDup (touch x o).
Proof.
  intros Ho. unfold touch. destruct (decide _); [done|]. constructor.
  - by intros [? _]%elem_of_without.
  - by apply NoDup_without.
Qed.

Lemma lwf_touch x l : lwf l -> x ∈ l_order l -> lwf (l_set_order (touch x (l_order l)) l).
Proof.
  intros Hl Hx. apply lwf_order; [done|apply NoDup_touch, Hl|]. intros y. by apply elem_touch.
Qed.

Lemma lwf_remove x e l : lwf l -> l_entries l !! x = Some e -> lwf (l_remove x e l).
Proof.
  intros [H1 H2 H3 H4 H5 H6 H7 H8] He.
  destruct (en_data _ _ (H4 x e He)) as (p & buf & Hp & Hb & Hlen).
  assert (forall y f, l_entries l !! y = Some f -> y ≠ x -> e_data f ≠ Some p) as Hother.
  { intros y f Hy Hne Hf. apply Hne. apply (H5 y x f e Hy He). congruence. }
  split; unfold l_remove; cbn; rewrite ?Hp; cbn.
  - by apply NoDup_without.
  - intros y. rewrite elem_of_without, lookup_delete_is_Some, H2.
    split; intros [? ?]; split; congruence || done.
  - intros y z f f' [_ Hy]%lookup_delete_Some [_ Hz]%lookup_delete_Some. by eapply H3.
  - intros y f [Hne Hy]%lookup_delete_Some. destruct (H4 y f Hy) as [(q & b & Hq & Hbq & Hl) ? ? ?].
    split; [|done..]. exists q, b. rewrite lookup_delete_ne; [done|]. intros <-.
    by apply (Hother y f).
  - intros y z f f' [_ Hy]%lookup_delete_Some [_ Hz]%lookup_delete_Some. by eapply H5.
  - intros q [b [Hne Hq]%lookup_delete_Some]. destruct (H6 q) as (y & f & Hy & Hf); [by eexists|].
    exists y, f. split; [|done]. rewrite lookup_delete_ne; [done|]. intros <-. congruence.
  - intros y [[f [_ Hy]%lookup_delete_Some]|[b [_ Hy]%lookup_delete_Some]]; apply H7;
      [left|right]; by eexists.
  - done.
Qed.

(** ** Write-back and eviction *)

Lemma lwf_write f id x e buf l :
  lwf l -> l_entries l !! x = Some e -> lwf (l_write f id x e buf l).2.
Proof.
  intros Hl He. unfold l_write. destruct (f _ _ _ _) as [r d]. pose proof (wf_entry _ Hl _ _ He) as [_ _ _ Hld].
  destruct (r =? KES_SUCCESS); cbn [snd].
  - apply lwf_stats. eapply lwf_put; [by apply lwf_dev|exact He|done|]. by rewrite flushed_loading.
  - eapply lwf_put; [by apply lwf_dev|exact He|done|]. rewrite <-Hld. by flags.
Qed.

Lemma lwf_write_back x l : lwf l -> lwf (l_write_back x l).
Proof.
  intros Hl. unfold l_write_back. destruct (l_entries l !! x) as [e|] eqn:He; [|done].
  destruct (_ && _); [|done]. destruct (c_write_extent _); [|done].
  destruct (l_buffer l e); [|done]. by apply lwf_write.
Qed.

Lemma lwf_try_evict b x l : lwf l -> lwf (l_try_evict b x l).2.
Proof.
  intros Hl. unfold l_try_evict. destruct (l_entries l !! x) as [e|] eqn:He; [|done].
  destruct (evictable b e); [|done]. by apply lwf_remove.
Qed.

(** Write-back keeps the order, the identifiers and everything but states. *)
Lemma write_back_entries x (l : lcache D) :
  l_order (l_write_back x l) = l_order l /\ l_bufs (l_write_back x l) = l_bufs l /\
  l_env (l_write_back x l) = l_env l /\ l_threads (l_write_back x l) = l_threads l /\
  c_config (l_cache (l_write_back x l)) = c_config (l_cache l) /\
  forall y e, l_entries (l_write_back x l) !! y = Some e ->
    exists e0, l_entries l !! y = Some e0 /\ same_shape e0 e /\
      (y ≠ x -> e = e0) /\ e_ref_count e = e_ref_count e0 /\ e_pin_count e = e_pin_count e0 /\
      e_access_time e = e_access_time e0 /\ e_access_count e = e_access_count e0.
Proof.
  unfold l_write_back. destruct (l_entries l !! x) as [e|] eqn:He.
  2:{ split_and!; try done. intros y e Hy. exists e. split_and!; done. }
  assert (forall l' : lcache D, l_order l' = l_order l /\ l_bufs l' = l_bufs l /\ l_env l' = l_env l /\
    l_threads l' = l_threads l /\ c_config (l_cache l') = c_config (l_cache l) /\
    (exists st, l_entries l' = <[x := entry_set_state st e]> (l_entries l)) ->
    l_order l' = l_order l /\ l_bufs l' = l_bufs l /\
    l_env l' = l_env l /\ l_threads l' = l_threads l /\
    c_config (l_cache l') = c_config (l_cache l) /\
    forall y e, l_entries l' !! y = Some e ->
    exists e0, l_entries l !! y = Some e0 /\ same_shape e0 e /\
      (y ≠ x -> e = e0) /\ e_ref_count e = e_ref_count e0 /\ e_pin_count e = e_pin_count e0 /\
      e_access_time e = e_access_time e0 /\ e_access_count e = e_access_count e0) as Hput.
  { intros l' (-> & -> & -> & -> & -> & st & ->). split_and!; try done.
    intros y e' [[<- <-]|[Hne Hy]]%lookup_insert_Some.
    - exists e. by split_and!.
    - exists e'. by split_and!. }
  destruct (_ && _); [destruct (c_write_extent _) as [f|]; [destruct (l_buffer l e) as [buf|]|]|].
  2-4: split_and!; try done; intros y e' Hy; exists e'; by split_and!.
  unfold l_write. destruct (f _ _ _ _) as [r d]. apply Hput.
  destruct (r =? KES_SUCCESS); cbn; split_and!; try done; by eexists.
Qed.
End device.
