(* ===== verification/CacheFacts.v ===== *)
(** * The programs of the cache implement the reference: building blocks

    Lookup in the hash table, write-back, eviction, and the two walks over the
    LRU list, run alone, do on views what the functions of [CacheSpec] do.
    [chains_ok] relates the chains of the hash table to the list. *)
From stdpp Require Import functions.
From S2P Require Import Prelude Types CacheTypes CacheState Cache CacheLinks CacheSpec CacheView.
From S2P Require Import CacheLists CacheWf.

(** ** Pins and held locks *)

Definition no_pins : loc -> Z := fun _ => 0.
Definition pin_on (o : option loc) : loc -> Z := fun y => if decide (o = Some y) then 1 else 0.
Definition entry_lock (x : loc) : held := <[LEntry x := 0%nat]> ∅.

Lemma pin_on_eq x : pin_on (Some x) x = 1.
Proof. unfold pin_on. by rewrite decide_True. Qed.

(** Decides that a lock is not in a stack of held locks. *)
Ltac held :=
  unfold entry_lock; repeat (rewrite lookup_insert_ne by done); try apply lookup_empty; try done.

Section device.
Context {D : Type}.

Lemma steps_pins_ext {A} (m : prog D A) h P P' ch (l : lcache D) r v :
  (forall x, P x = P' x) -> steps m (mkView h P ch l) r v -> steps m (mkView h P' ch l) r v.
Proof.
  intros HP Hm s Hs. apply Hm. destruct Hs as [? ? ? ? ? Hp ? ? ? ? ? ?].
  split; cbn in *; try done. intros x. by rewrite HP.
Qed.

Lemma steps_pins_ext_r {A} (m : prog D A) v r h P P' ch (l : lcache D) :
  (forall x, P x = P' x) -> steps m v r (mkView h P ch l) -> steps m v r (mkView h P' ch l).
Proof.
  intros HP Hm s Hs. destruct (Hm s Hs) as (s' & Hr & [? ? ? ? ? Hp ? ? ? ? ? ?]).
  exists s'. split; [done|]. split; cbn in *; try done. intros x. by rewrite <-HP.
Qed.

(** Locks are released in the reverse order. *)
Lemma steps_unlock_top x n h P ch (l : lcache D) :
  lock_there l x -> h !! x = None -> (n <= 1)%nat ->
  steps (unlock x) (mkView (<[x := n]> h) P ch l) tt (mkView h P ch l).
Proof.
  intros Hx Hh Hn. eapply steps_eq; [eapply steps_unlock; [done|apply lookup_insert_eq|done]|done|].
  by rewrite delete_insert_id.
Qed.

(** ** Chains and the hash table *)

Definition bucket (id : kes_extent_id) : Z := Z.land (kes_extent_hash id) 1023.

Lemma bucket_range id : 0 <= bucket id < 1024.
Proof.
  unfold bucket. change 1023 with (Z.ones 10). rewrite Z.land_ones by lia.
  by apply Z.mod_pos_bound.
Qed.

Record chains_ok (ch : list (list loc)) (l : lcache D) : Prop := {
  ck_length : length ch = 1024%nat;
  ck_apart : chains_apart ch;
  ck_nodup : forall i ls, ch !! i = Some ls -> NoDup ls;
  ck_in : forall i ls x, ch !! i = Some ls -> x ∈ ls -> x ∈ l_order l /\
            exists e, l_entries l !! x = Some e /\ i = Z.to_nat (bucket (e_id e));
  ck_all : forall x e, x ∈ l_order l -> l_entries l !! x = Some e ->
             exists ls, ch !! Z.to_nat (bucket (e_id e)) = Some ls /\ x ∈ ls
}.

Lemma chains_bucket ch l id :
  chains_ok ch l -> exists ls, ch !! Z.to_nat (bucket id) = Some ls.
Proof.
  intros H. apply lookup_lt_is_Some_2. rewrite (ck_length _ _ H). pose proof (bucket_range id). lia.
Qed.

(** Chains depend on the order and the identifiers only. *)
Lemma chains_ok_ext ch l l' :
  chains_ok ch l -> (forall x, x ∈ l_order l' <-> x ∈ l_order l) ->
  (forall x e', l_entries l' !! x = Some e' -> exists e, l_entries l !! x = Some e /\ e_id e' = e_id e) ->
  (forall x, is_Some (l_entries l !! x) -> is_Some (l_entries l' !! x)) ->
  chains_ok ch l'.
Proof.
  intros [H1 H2 H3 H4 H5] Ho He Hd. split; [done..| |].
  - intros i ls x Hi Hx. destruct (H4 i ls x Hi Hx) as (Hin & e & Hxe & ->). split; [by apply Ho|].
    destruct (Hd x) as [e' He']; [by eexists|]. exists e'. split; [done|].
    destruct (He x e' He') as (e0 & ? & ->). congruence.
  - intros x e' Hx He'. destruct (He x e' He') as (e & Hxe & ->). eapply H5; [by apply Ho|done].
Qed.

Lemma chains_ok_put ch l x e e' :
  chains_ok ch l -> l_entries l !! x = Some e -> e_id e' = e_id e -> chains_ok ch (l_put x e' l).
Proof.
  intros Hc He Hid. eapply chains_ok_ext; [exact Hc|done|..]; cbn.
  - intros y f [[<- <-]|[_ Hy]]%lookup_insert_Some; eauto.
  - intros y Hy. rewrite lookup_insert_is_Some'. by right.
Qed.

Lemma chains_ok_same ch l l' :
  chains_ok ch l -> l_order l' = l_order l -> l_entries l' = l_entries l -> chains_ok ch l'.
Proof.
  intros Hc Ho He. eapply chains_ok_ext; [exact Hc|by rewrite Ho|rewrite He; eauto|by rewrite He].
Qed.

(** The search in a chain finds what the search in the whole list finds. *)
Lemma find_in_order f (o ls : list loc) :
  (forall x, x ∈ ls -> x ∈ o) -> (forall x, x ∈ o -> f x = true -> x ∈ ls) ->
  (forall x y, x ∈ o -> y ∈ o -> f x = true -> f y = true -> x = y) ->
  find f ls = find f o.
Proof.
  intros Hin Hback Hu. destruct (find f o) as [x|] eqn:E.
  - apply find_some in E as [Hx Hf]. apply list_elem_of_In in Hx.
    destruct (find f ls) as [y|] eqn:E'.
    + apply find_some in E' as [Hy Hf']. apply list_elem_of_In in Hy. f_equal. eauto.
    + eapply find_none in E'; [|apply list_elem_of_In, Hback; eauto]. congruence.
  - destruct (find f ls) as [y|] eqn:E'; [|done].
    apply find_some in E' as [Hy Hf']. apply list_elem_of_In in Hy.
    eapply find_none in E; [|apply list_elem_of_In, Hin, Hy]. congruence.
Qed.

Lemma chain_find ch (l : lcache D) id ls :
  lwf l -> chains_ok ch l -> ch !! Z.to_nat (bucket id) = Some ls ->
  find (l_is l id) ls = l_find id l.
Proof.
  intros Hl Hc Hls. apply find_in_order.
  - intros x Hx. eapply ck_in in Hx as [? _]; eauto.
  - intros x Hx Hf. unfold l_is in Hf. destruct (l_entries l !! x) as [e|] eqn:He; [|done].
    destruct (ck_all _ _ Hc x e Hx He) as (ls' & Hls' & Hin).
    unfold bucket in *. rewrite (extent_equal_hash _ _ Hf) in Hls'. congruence.
  - intros x y _ _ Hx Hy. unfold l_is in *.
    destruct (l_entries l !! x) as [e|] eqn:He; [|done].
    destruct (l_entries l !! y) as [e'|] eqn:He'; [|done].
    apply extent_equal_iff in Hx as (? & ? & ?), Hy as (? & ? & ?).
    eapply (wf_ids _ Hl); eauto. apply extent_equal_iff. by split_and!; congruence.
Qed.

Lemma l_find_Some id (l : lcache D) x :
  l_find id l = Some x ->
  x ∈ l_order l /\ exists e, l_entries l !! x = Some e /\ kes_extent_equal (e_id e) id = true.
Proof.
  intros [Hx Hf]%find_some. apply list_elem_of_In in Hx. split; [done|].
  unfold l_is in Hf. destruct (l_entries l !! x) as [e|]; [|done]. eauto.
Qed.

Lemma bucket_idx_full ch (l : lcache D) id : lwf l -> bucket_idx (full ch l) id = bucket id.
Proof. intros Hl. unfold bucket_idx, bucket. cbn. by rewrite (proj1 (wf_mask _ Hl)). Qed.

Lemma steps_pin_if_some o P h ch (l : lcache D) :
  (forall x, o = Some x -> is_Some (l_entries l !! x) /\ P x = 0) ->
  steps (pin_if_some o) (mkView h P ch l) tt
    (mkView h (fun y => if decide (o = Some y) then 1 else P y) ch l).
Proof.
  intros Ho. destruct o as [x|]; [|by apply steps_ret]. destruct (Ho x eq_refl) as [He HP].
  eapply steps_pins_ext_r; [|by apply steps_pins_add].
  intros y. rewrite HP. destruct (decide (x = y)) as [<-|Hne].
  - by rewrite fn_lookup_insert, decide_True.
  - rewrite fn_lookup_insert_ne by done. rewrite decide_False; [done|congruence].
Qed.

Lemma steps_hash_find id ch (l : lcache D) :
  lwf l -> chains_ok ch l ->
  steps (hash_find id) (mkView ∅ no_pins ch l) (l_find id l)
    (mkView ∅ (pin_on (l_find id l)) ch l).
Proof.
  intros Hl Hc. destruct (chains_bucket ch l id Hc) as [ls Hls]. unfold hash_find.
  eapply steps_bind; [apply steps_load_cache|]. cbv beta zeta. rewrite (bucket_idx_full ch l id Hl).
  eapply steps_bind; [apply steps_rdlock; [done|held]|].
  eapply steps_bind; [by apply steps_load_head|].
  eapply steps_bind; [apply steps_walk_fuel|].
  eapply steps_bind.
  { eapply steps_find_in_chain; [exact Hls|by eapply ck_nodup|].
    intros x Hx. eapply ck_in in Hx as (_ & e & ? & _); [by eexists|done|done]. }
  rewrite (chain_find ch l id ls Hl Hc Hls).
  eapply steps_bind.
  { apply (steps_pin_if_some (l_find id l)). intros x (_ & e & He & _)%l_find_Some.
    split; [by eexists|done]. }
  eapply steps_bind; [apply steps_unlock_top; [done|held|done]|].
  eapply steps_pins_ext_r; [|apply steps_ret]. done.
Qed.
End device.
