(* ===== verification/CacheWalks.v ===== *)
(** * Write-back, eviction and the walks over the LRU list

    [write_back], [try_evict_entry_locked], the visits of [cache_sweep] and
    [kes_cache_destroy], and [make_room_for_new_entry], against the reference. *)
From stdpp Require Import functions.
From S2P Require Import Prelude Types CacheTypes CacheState Cache CacheLinks CacheSpec CacheView.
From S2P Require Import CacheLists CacheWf CacheFacts.

Section device.
Context {D : Type}.

(** [lock(&cache->cache_lock); change of the statistics; unlock]. *)
Lemma steps_locked_stats {A} g h P ch (l : lcache D) (rest : prog D A) r v :
  h !! LCache = None -> steps rest (mkView h P ch (l_stats g l)) r v ->
  steps (lock LCache ;;; modify_stats g ;;; unlock LCache ;;; rest) (mkView h P ch l) r v.
Proof.
  intros Hh Hr. eapply steps_bind; [by apply steps_lock|].
  eapply steps_bind; [apply steps_modify_stats|].
  eapply steps_bind; [by apply steps_unlock_top; [|done|lia]|done].
Qed.

Lemma steps_flush_done x e n P ch (l : lcache D) :
  l_entries l !! x = Some e ->
  steps (flush_done x n) (mkView (entry_lock x) P ch l) tt
    (mkView (entry_lock x) P ch (l_stats (stat_flushed n) (l_put x (flushed e) l))).
Proof.
  intros He. unfold flush_done. eapply steps_bind; [by apply (steps_modify_entry x e)|].
  eapply steps_bind; [apply steps_lock; [done|held]|].
  eapply steps_bind; [apply steps_modify_stats|]. apply steps_unlock_top; [done|held|lia].
Qed.

Lemma steps_write_back x P ch (l : lcache D) :
  lwf l -> x ∈ l_order l ->
  steps (write_back x) (mkView (entry_lock x) P ch l) tt
    (mkView (entry_lock x) P ch (l_write_back x l)).
Proof.
  intros Hl Hx. apply (wf_dom _ Hl) in Hx as [e He]. unfold write_back, l_write_back. rewrite He.
  eapply steps_bind; [by apply steps_load_entry|]. cbv beta.
  destruct (_ && _); [|apply steps_ret].
  eapply steps_bind; [apply steps_load_cache|]. change (c_write_extent (full ch l)) with (c_write_extent (l_cache l)).
  destruct (entry_buffer _ _ (wf_entry _ Hl x e He)) as (p & buf & Hp & Hb & Hn).
  assert (l_buffer l e = Some buf) as -> by (unfold l_buffer; by rewrite Hp).
  destruct (c_write_extent (l_cache l)) as [f|]; [|apply steps_ret].
  unfold l_write. destruct (f _ _ _ _) as [r d] eqn:Hf. rewrite Hp.
  eapply steps_bind; [by apply (steps_call_write f (e_id e) p _ buf r d)|].
  destruct (r =? KES_SUCCESS); cbn [snd].
  - by apply steps_flush_done.
  - by apply (steps_modify_entry x e).
Qed.

Lemma write_back_order x (l : lcache D) : l_order (l_write_back x l) = l_order l.
Proof. apply write_back_entries. Qed.

Lemma chains_ok_write_back x ch (l : lcache D) :
  lwf l -> chains_ok ch l -> chains_ok ch (l_write_back x l).
Proof.
  intros Hl Hc. pose proof (lwf_write_back x l Hl) as Hl'.
  destruct (write_back_entries x l) as (Ho & _ & _ & _ & _ & He).
  eapply chains_ok_ext; [exact Hc|by rewrite Ho|..].
  - intros y e' Hy. destruct (He y e' Hy) as (e0 & H0 & [Hid _ _ _] & _). eauto.
  - intros y Hy. by rewrite <-(wf_dom _ Hl'), Ho, (wf_dom _ Hl).
Qed.

(** ** Eviction *)

Lemma chains_without x e i l1 l2 ch (l : lcache D) :
  lwf l -> chains_ok ch l -> l_entries l !! x = Some e -> i = Z.to_nat (bucket (e_id e)) ->
  ch !! i = Some (l1 ++ x :: l2) ->
  chains_ok (<[i := l1 ++ l2]> ch) (l_remove x e l) /\
  forall j ls, <[i := l1 ++ l2]> ch !! j = Some ls -> x ∉ ls.
Proof.
  intros Hl [H1 H2 H3 H4 H5] He -> Hi. set (i := Z.to_nat _) in *.
  pose proof (H3 _ _ Hi) as Hnd. pose proof (without_split _ _ _ Hnd) as Hw.
  assert (forall j ls y, <[i := l1 ++ l2]> ch !! j = Some ls -> y ∈ ls ->
    y ≠ x /\ exists ls0, ch !! j = Some ls0 /\ y ∈ ls0) as Hback.
  { intros j ls y. destruct (decide (j = i)) as [->|Hne].
    - rewrite list_lookup_insert_eq by (by eapply lookup_lt_Some). intros [= <-].
      rewrite <-Hw, elem_of_without. intros [? ?]. split; [done|]. eauto.
    - rewrite list_lookup_insert_ne by done. intros Hj Hy. split; [|by eauto]. intros ->.
      apply Hne. eapply H2; [exact Hj|exact Hi|exact Hy|]. rewrite elem_of_app. right. by left. }
  split; [|by intros j ls Hj Hx; destruct (Hback j ls x Hj Hx)].
  split.
  - by rewrite length_insert.
  - intros j k ls ls' y Hj Hk Hy Hy'. destruct (Hback j ls y Hj Hy) as (_ & ? & ? & ?).
    destruct (Hback k ls' y Hk Hy') as (_ & ? & ? & ?). by eapply H2.
  - intros j ls. destruct (decide (j = i)) as [->|Hne].
    + rewrite list_lookup_insert_eq by (by eapply lookup_lt_Some). intros [= <-].
      rewrite <-Hw. by apply NoDup_without.
    + rewrite list_lookup_insert_ne by done. apply H3.
  - intros j ls y Hj Hy. destruct (Hback j ls y Hj Hy) as (Hne & ls0 & Hj0 & Hy0).
    destruct (H4 j ls0 y Hj0 Hy0) as (Hin & f & Hf & ->). cbn. rewrite elem_of_without. split; [done|].
    exists f. by rewrite lookup_delete_ne.
  - cbn. intros y f [Hne Hin]%elem_of_without [_ Hf]%lookup_delete_Some.
    destruct (H5 y f Hin Hf) as (ls & Hls & Hy). destruct (decide (Z.to_nat (bucket (e_id f)) = i)) as [Ei|Hni].
    + rewrite Ei in Hls |- *. rewrite list_lookup_insert_eq by (by eapply lookup_lt_Some).
      eexists. split; [done|]. assert (ls = l1 ++ x :: l2) as -> by congruence.
      rewrite <-Hw, elem_of_without. done.
    + rewrite list_lookup_insert_ne by done. eauto.
Qed.

(** The entry's lock is held; it is consumed by a successful eviction. *)
Lemma steps_try_evict b x e P ch (l : lcache D) :
  lwf l -> chains_ok ch l -> l_entries l !! x = Some e -> P x = 0 -> evictable b e = true ->
  exists ch', chains_ok ch' (l_remove x e l) /\
    steps (try_evict_entry_locked x b) (mkView (entry_lock x) P ch l) true
      (mkView ∅ P ch' (l_remove x e l)).
Proof.
  intros Hl Hc He HP Hev. set (i := Z.to_nat (bucket (e_id e))).
  assert (x ∈ l_order l) as Hx by (apply (wf_dom _ Hl); by eexists).
  destruct (ck_all _ _ Hc x e Hx He) as (ls & Hls & Hin).
  apply list_elem_of_split in Hin as (l1 & l2 & ->).
  pose proof (ck_nodup _ _ Hc _ _ Hls) as Hnd.
  destruct (chains_without x e i l1 l2 ch l Hl Hc He eq_refl Hls) as [Hc' Hout].
  exists (<[i := l1 ++ l2]> ch). split; [done|].
  destruct (en_data _ _ (wf_entry _ Hl x e He)) as (p & buf & Hp & Hb & _).
  unfold try_evict_entry_locked.
  eapply steps_bind; [by apply steps_load_entry|]. rewrite Hev. cbn [negb].
  eapply steps_bind; [apply steps_load_cache|]. rewrite (bucket_idx_full ch l _ Hl).
  eapply steps_bind; [apply steps_lock; [done|held]|].
  eapply steps_bind; [apply steps_lock; [done|held]|].
  eapply steps_bind; [apply steps_pins_load; by eexists|]. rewrite HP. cbn [negb Z.eqb].
  eapply steps_bind; [by apply (steps_load_hash x i l1 l2)|].
  eapply (steps_chain_remove x (bucket (e_id e)) l1 l2); [done|done|by apply Hc|].
  eapply steps_bind; [by apply steps_lru_remove; [|apply Hl]|].
  eapply steps_bind.
  { rewrite Hp. unfold extent_free_data. eapply steps_bind; [apply steps_free_buffer; by eexists|].
    apply steps_modify_stats. }
  eapply steps_bind; [apply steps_modify_stats|].
  eapply steps_bind; [apply steps_unlock_top; [done|held|lia]|].
  eapply steps_bind; [apply steps_unlock_top; [done|held|lia]|].
  eapply steps_bind; [apply steps_unlock_top; [by eexists|held|lia]|].
  eapply steps_bind; [apply steps_destroy_entry_lock; held|].
  eapply steps_bind; [apply steps_free_entry|].
  - by eexists.
  - cbn. by intros [? _]%elem_of_without.
  - exact Hout.
  - eapply steps_eq; [apply steps_ret|done|]. unfold l_remove. rewrite Hp. done.
Qed.

Lemma steps_try_evict_no b x e P ch (l : lcache D) :
  l_entries l !! x = Some e -> evictable b e = false ->
  steps (try_evict_entry_locked x b) (mkView (entry_lock x) P ch l) false
    (mkView (entry_lock x) P ch l).
Proof.
  intros He Hev. unfold try_evict_entry_locked.
  eapply steps_bind; [by apply steps_load_entry|]. rewrite Hev. apply steps_ret.
Qed.

(** ** Visits *)

(** Dropping the traversal's pin once the entry is locked. *)
Lemma steps_enter {A} x P ch (l : lcache D) (rest : prog D A) r v :
  is_Some (l_entries l !! x) -> P x = 1 ->
  steps rest (mkView (entry_lock x) (<[x := 0]> P) ch l) r v ->
  steps (lock (LEntry x) ;;; pins_add x (-1) ;;; rest) (mkView ∅ P ch l) r v.
Proof.
  intros Hx HP Hr. eapply steps_bind; [by apply steps_lock|].
  eapply steps_bind; [by apply steps_pins_add|]. by rewrite HP.
Qed.

Definition visits (visit : loc -> prog D ()) (av : loc -> lcache D -> lcache D) : Prop :=
  forall x P ch l, lwf l -> chains_ok ch l -> x ∈ l_order l -> P x = 1 ->
  exists ch', chains_ok ch' (av x l) /\ lwf (av x l) /\
    (l_order (av x l) = l_order l \/ l_order (av x l) = without x (l_order l)) /\
    steps (visit x) (mkView ∅ P ch l) tt (mkView ∅ (<[x := 0]> P) ch' (av x l)).

(** Eviction if possible, then release of the lock. *)
Lemma steps_evict_or_unlock b x P ch (l : lcache D) :
  lwf l -> chains_ok ch l -> x ∈ l_order l -> P x = 0 ->
  let l' := (l_try_evict b x l).2 in
  exists ch', chains_ok ch' l' /\ lwf l' /\
    (l_order l' = l_order l \/ l_order l' = without x (l_order l)) /\
    steps (let* evicted := try_evict_entry_locked x b in
           if (evicted : bool) then Ret tt else unlock (LEntry x))
      (mkView (entry_lock x) P ch l) tt (mkView ∅ P ch' l').
Proof.
  intros Hl Hc Hx HP. pose proof (lwf_try_evict b x l Hl) as Hl'.
  apply (wf_dom _ Hl) in Hx as [e He]. unfold l_try_evict in *. rewrite He in *.
  destruct (evictable b e) eqn:Hev; cbn [snd] in *.
  - destruct (steps_try_evict b x e P ch l Hl Hc He HP Hev) as (ch' & Hc' & Hs).
    exists ch'. split_and!; [done|done|by right|]. eapply steps_bind; [exact Hs|]. apply steps_ret.
  - exists ch. split_and!; [done|done|by left|].
    eapply steps_bind; [by apply (steps_try_evict_no b x e)|].
    apply steps_unlock_top; [by eexists|held|lia].
Qed.

Lemma sweep_visits : visits sweep_flush_and_maybe_evict l_visit.
Proof.
  intros x P ch l Hl Hc Hx HP. unfold sweep_flush_and_maybe_evict, l_visit.
  pose proof (write_back_order x l) as Ho.
  destruct (steps_evict_or_unlock false x (<[x := 0]> P) ch (l_write_back x l))
    as (ch' & Hc' & Hl' & Ho' & Hs).
  { by apply lwf_write_back. }
  { by apply chains_ok_write_back. }
  { by rewrite Ho. }
  { apply fn_lookup_insert. }
  exists ch'. rewrite Ho in Ho'. split_and!; [done|done|done|].
  apply steps_enter; [by apply (wf_dom _ Hl)|done|].
  eapply steps_bind; [by apply steps_write_back|]. exact Hs.
Qed.

Lemma destroy_visits : visits destroy_visit (fun x l => (l_try_evict true x l).2).
Proof.
  intros x P ch l Hl Hc Hx HP. unfold destroy_visit.
  destruct (steps_evict_or_unlock true x (<[x := 0]> P) ch l) as (ch' & Hc' & Hl' & Ho' & Hs);
    [done|done|done|apply fn_lookup_insert|].
  exists ch'. split_and!; [done|done|done|].
  apply steps_enter; [by apply (wf_dom _ Hl)|done|exact Hs].
Qed.

(** ** Walks *)

(** A walk's pin passes from the entry visited to the next one. *)
Lemma pins_handed_on (o : option loc) x y :
  o ≠ Some x ->
  (if decide (o = Some y) then 1 else (<[x := 0]> (pin_on (Some x))) y) = pin_on o y.
Proof.
  intros Ho. unfold pin_on at 2. destruct (decide (o = Some y)) as [->|Hy]; [done|].
  destruct (decide (x = y)) as [<-|Hne]; [by rewrite fn_lookup_insert|].
  rewrite fn_lookup_insert_ne by done. unfold pin_on. rewrite decide_False; [done|congruence].
Qed.

(** What is left to visit is a suffix of the list, its head pinned. *)
Lemma steps_walk_list visit av rem :
  visits visit av -> forall fuel pre ch (l : lcache D),
  lwf l -> chains_ok ch l -> l_order l = pre ++ rem -> (length rem <= fuel)%nat ->
  let l' := foldl (fun l x => av x l) l rem in
  exists ch', chains_ok ch' l' /\ lwf l' /\
    steps (walk_list visit fuel (head rem)) (mkView ∅ (pin_on (head rem)) ch l) tt
      (mkView ∅ no_pins ch' l').
Proof.
  intros Hv. induction rem as [|x rem IH]; intros fuel pre ch l Hl Hc Ho Hf.
  { exists ch. split_and!; [done|done|]. destruct fuel; (eapply steps_pins_ext; [|apply steps_ret]); done. }
  destruct fuel as [|fuel]; [cbn in Hf; lia|]. cbn [head walk_list foldl].
  pose proof (wf_nodup _ Hl) as Hnd. rewrite Ho in Hnd.
  assert (x ∉ rem) as Hxr.
  { apply NoDup_app in Hnd as (_ & _ & [? _]%NoDup_cons). done. }
  assert (x ∈ l_order l) as Hx by (rewrite Ho, elem_of_app; right; by left).
  set (P' := fun y => if decide (head rem = Some y) then 1 else pin_on (Some x) y).
  assert (head rem ≠ Some x) as Hhx by (intros E; apply Hxr; by apply head_Some_elem_of).
  destruct (Hv x P' ch l Hl Hc Hx) as (ch1 & Hc1 & Hl1 & Ho1 & Hs1).
  { unfold P'. by rewrite decide_False, pin_on_eq. }
  assert (exists pre', l_order (av x l) = pre' ++ rem) as [pre' Hpre'].
  { destruct Ho1 as [->| ->]; [exists (pre ++ [x]); by rewrite <-app_assoc|].
    exists pre. rewrite Ho. by apply without_split. }
  destruct (IH fuel pre' ch1 (av x l) Hl1 Hc1 Hpre' ltac:(cbn in Hf; lia)) as (ch' & Hc' & Hl' & Hs').
  exists ch'. split_and!; [done|done|].
  eapply steps_bind; [apply steps_lock; [done|held]|].
  eapply steps_bind; [by apply (load_list_mid x pre rem)|]. cbn [lk_next]. rewrite nxt_head.
  eapply steps_bind; [apply (steps_pin_if_some (head rem))|].
  { intros y Hy. split.
    - apply (wf_dom _ Hl). rewrite Ho, elem_of_app. right. right. by apply head_Some_elem_of.
    - unfold pin_on. rewrite decide_False; [done|congruence]. }
  eapply steps_bind; [apply steps_unlock_top; [done|held|lia]|].
  eapply steps_bind; [exact Hs1|].
  eapply steps_pins_ext; [|exact Hs']. intros y. unfold P'.
  destruct (decide (x = y)) as [<-|Hne].
  - rewrite fn_lookup_insert. unfold pin_on. by rewrite decide_False.
  - rewrite fn_lookup_insert_ne by done. unfold pin_on. destruct (decide (head rem = Some y)); [done|].
    rewrite decide_False; [done|congruence].
Qed.

(** The prologue common to [cache_sweep] and [kes_cache_destroy]. *)
Lemma steps_walk visit av ch (l : lcache D) :
  visits visit av -> lwf l -> chains_ok ch l ->
  let l' := foldl (fun l x => av x l) l (l_order l) in
  exists ch', chains_ok ch' l' /\ lwf l' /\
    steps (let* fuel := walk_fuel in walk_list visit fuel (head (l_order l)))
      (mkView ∅ (pin_on (head (l_order l))) ch l) tt (mkView ∅ no_pins ch' l').
Proof.
  intros Hv Hl Hc. destruct (steps_walk_list visit av (l_order l) Hv (size (l_entries l)) [] ch l)
    as (ch' & Hc' & Hl' & Hs); [done|done|done| |].
  { apply walk_bound; [apply Hl|]. intros x. apply (wf_dom _ Hl). }
  exists ch'. split_and!; [done|done|]. eapply steps_bind; [apply steps_walk_fuel|]. exact Hs.
Qed.

Lemma steps_pin_head h ch (l : lcache D) :
  lwf l ->
  steps (pin_if_some (head (l_order l))) (mkView h no_pins ch l) tt
    (mkView h (pin_on (head (l_order l))) ch l).
Proof.
  intros Hl. apply (steps_pin_if_some (head (l_order l))). intros x Hx. split; [|done].
  apply (wf_dom _ Hl). by apply head_Some_elem_of.
Qed.

Lemma steps_cache_sweep ch (l : lcache D) :
  lwf l -> chains_ok ch l ->
  exists ch', chains_ok ch' (l_sweep l) /\ lwf (l_sweep l) /\
    steps cache_sweep (mkView ∅ no_pins ch l) tt (mkView ∅ no_pins ch' (l_sweep l)).
Proof.
  intros Hl Hc. destruct (steps_walk _ _ ch l sweep_visits Hl Hc) as (ch' & Hc' & Hl' & Hs).
  exists ch'. split_and!; [done|done|]. unfold cache_sweep.
  eapply steps_bind; [apply steps_lock; [done|held]|].
  eapply steps_bind; [apply steps_load_cache|].
  eapply steps_bind; [by apply steps_pin_head|].
  eapply steps_bind; [apply steps_unlock_top; [done|held|lia]|]. exact Hs.
Qed.

(** ** Making room *)

Lemma fits_full ch (l : lcache D) n : fits_now (full ch l) n = fits_now (l_cache l) n.
Proof. done. Qed.

(** The part of an iteration under the entry's lock, the previous entry being
    pinned. *)
Lemma steps_evict_count need x e P ch (l : lcache D) :
  lwf l -> chains_ok ch l -> l_entries l !! x = Some e -> P x = 0 ->
  let '(evicted, l1) := l_try_evict false x l in
  let l2 := if evicted then l_stats stat_evicted l1 else l1 in
  exists ch', chains_ok ch' l2 /\ lwf l2 /\
    steps (let* evicted := try_evict_entry_locked x false in
           if (evicted : bool) then
             lock LCache ;;; modify_stats stat_evicted ;;;
             let* c := load_cache in unlock LCache ;;; Ret (fits_now c need)
           else unlock (LEntry x) ;;; Ret false)
      (mkView (entry_lock x) P ch l) (evicted && fits_now (l_cache l2) need) (mkView ∅ P ch' l2).
Proof.
  intros Hl Hc He HP. pose proof (lwf_try_evict false x l Hl) as Hl'.
  unfold l_try_evict in *. rewrite He in *.
  destruct (evictable false e) eqn:Hev; cbn [snd andb] in *.
  - destruct (steps_try_evict false x e P ch l Hl Hc He HP Hev) as (ch' & Hc' & Hs).
    exists ch'. split_and!; [by eapply chains_ok_same|by apply lwf_stats|].
    eapply steps_bind; [exact Hs|].
    eapply steps_bind; [apply steps_lock; [done|held]|].
    eapply steps_bind; [apply steps_modify_stats|].
    eapply steps_bind; [apply steps_load_cache|].
    eapply steps_bind; [apply steps_unlock_top; [done|held|lia]|]. apply steps_ret.
  - exists ch. split_and!; [done|done|].
    eapply steps_bind; [by apply (steps_try_evict_no false x e)|].
    eapply steps_bind; [apply steps_unlock_top; [by eexists|held|lia]|]. apply steps_ret.
Qed.

Lemma try_evict_order b x (l : lcache D) :
  l_order (l_try_evict b x l).2 = l_order l \/
  l_order (l_try_evict b x l).2 = without x (l_order l).
Proof.
  unfold l_try_evict. destruct (l_entries l !! x) as [e|]; [|by left].
  destruct (evictable b e); [by right|by left].
Qed.

(** One iteration of [evict_loop], up to the choice of what comes next. *)
Lemma evict_loop_unfold need fuel x (fits : bool) :
  evict_loop (D := D) need (S fuel) (Some x) fits =
  (lock (LEntry x) ;;; pins_add x (-1) ;;; write_back x ;;; lock LCache ;;;
   let* k := load_list x in
   (if negb fits then pin_if_some (lk_prev k) else Ret tt) ;;;
   unlock LCache ;;;
   let* evicted := try_evict_entry_locked x false in
   let* fits :=
     if (evicted : bool) then
       lock LCache ;;; modify_stats stat_evicted ;;;
       let* c := load_cache in unlock LCache ;;; Ret (fits_now c need)
     else unlock (LEntry x) ;;; Ret fits in
   match fits, lk_prev k with
   | true, Some p => pins_add p (-1) ;;; evict_loop need fuel None fits
   | _, _ => evict_loop need fuel (lk_prev k) fits
   end).
Proof. done. Qed.

Lemma steps_evict_loop need ls : forall fuel post ch (l : lcache D),
  lwf l -> chains_ok ch l -> l_order l = reverse ls ++ post -> (length ls <= fuel)%nat ->
  let r := l_evict_loop need ls l in
  exists ch', chains_ok ch' r.2 /\ lwf r.2 /\
    steps (evict_loop need fuel (head ls) false) (mkView ∅ (pin_on (head ls)) ch l) r.1
      (mkView ∅ no_pins ch' r.2).
Proof.
  induction ls as [|x ls IH]; intros fuel post ch l Hl Hc Ho Hf.
  { exists ch. split_and!; [done|done|]. destruct fuel; (eapply steps_pins_ext; [|apply steps_ret]); done. }
  destruct fuel as [|fuel]; [cbn in Hf; lia|]. cbn [head l_evict_loop].
  rewrite reverse_cons, <-app_assoc in Ho. cbn [app] in Ho.
  pose proof (wf_nodup _ Hl) as Hnd. rewrite Ho in Hnd.
  assert (x ∉ reverse ls) as Hxr.
  { apply NoDup_app in Hnd as (_ & Hd & _). intros Hx. apply (Hd x Hx). by left. }
  assert (head ls ≠ Some x) as Hhx.
  { intros E. apply Hxr, elem_of_reverse. by apply head_Some_elem_of. }
  assert (x ∈ l_order l) as Hx by (rewrite Ho, elem_of_app; right; by left).
  pose proof (write_back_order x l) as Hwo.
  assert (lwf (l_write_back x l)) as Hlw by by apply lwf_write_back.
  set (P' := fun y => if decide (head ls = Some y) then 1 else (<[x := 0]> (pin_on (Some x))) y).
  assert (x ∈ l_order (l_write_back x l)) as Hxw by by rewrite Hwo.
  apply (wf_dom _ Hlw) in Hxw as [e He].
  pose proof (steps_evict_count need x e P' ch (l_write_back x l) Hlw
    (chains_ok_write_back x ch l Hl Hc) He) as Hev.
  pose proof (try_evict_order false x (l_write_back x l)) as Ho1. rewrite Hwo in Ho1.
  destruct (l_try_evict false x (l_write_back x l)) as [evicted l1] eqn:El. cbn [snd] in Ho1.
  set (l2 := if evicted then l_stats stat_evicted l1 else l1) in Hev.
  destruct Hev as (ch1 & Hc1 & Hl1 & Hs1).
  { unfold P'. rewrite decide_False by done. apply fn_lookup_insert. }
  assert (exists post', l_order l2 = reverse ls ++ post') as [post' Ho2].
  { assert (l_order l2 = l_order l1) as -> by (by destruct evicted).
    destruct Ho1 as [->| ->]; [by exists (x :: post)|]. exists post. rewrite Ho. by apply without_split. }
  assert (forall r l' ch', chains_ok ch' l' /\ lwf l' /\
    steps (match evicted && fits_now (l_cache l2) need, head ls with
           | true, Some p => pins_add p (-1) ;;; evict_loop need fuel None
                               (evicted && fits_now (l_cache l2) need)
           | _, _ => evict_loop need fuel (head ls) (evicted && fits_now (l_cache l2) need)
           end) (mkView ∅ (pin_on (head ls)) ch1 l2) r (mkView ∅ no_pins ch' l') ->
    chains_ok ch' l' /\ lwf l' /\ steps (evict_loop need (S fuel) (Some x) false)
      (mkView ∅ (pin_on (Some x)) ch l) r (mkView ∅ no_pins ch' l')) as Hgo.
  { intros r l' ch' (Hc' & Hl' & Hs'). split_and!; [done|done|].
    rewrite evict_loop_unfold. apply steps_enter; [by apply (wf_dom _ Hl)|apply pin_on_eq|].
    eapply steps_bind; [by apply steps_write_back|].
    eapply steps_bind; [apply steps_lock; [done|held]|].
    eapply steps_bind; [by apply (load_list_mid x (reverse ls) post); rewrite Hwo|].
    cbn [lk_prev negb]. rewrite prv_last, last_reverse.
    eapply steps_bind; [apply (steps_pin_if_some (head ls))|].
    { intros y Hy. split.
      - apply (wf_dom _ Hlw). rewrite Hwo, Ho, elem_of_app, elem_of_reverse. left.
        by apply head_Some_elem_of.
      - rewrite fn_lookup_insert_ne by congruence. unfold pin_on. rewrite decide_False; congruence. }
    eapply steps_bind; [apply steps_unlock_top; [done|held|lia]|].
    eapply steps_bind_assoc; [exact Hs1|]. eapply steps_pins_ext; [|exact Hs'].
    intros y. symmetry. by apply pins_handed_on. }
  destruct (IH fuel post' ch1 l2 Hl1 Hc1 Ho2 ltac:(cbn in Hf; lia)) as (ch' & Hc' & Hl' & Hs').
  destruct evicted; cbn [andb] in *.
  - unfold l2 in *. destruct (fits_now (l_cache (l_stats stat_evicted l1)) need).
    + exists ch1. apply Hgo. split_and!; [done|done|].
      destruct (head ls) as [p|] eqn:Hp.
      * eapply steps_bind; [apply steps_pins_add|].
        { apply (wf_dom _ Hl1). rewrite Ho2, elem_of_app, elem_of_reverse. left.
          by apply head_Some_elem_of. }
        rewrite pin_on_eq. destruct fuel; (eapply steps_pins_ext; [|apply steps_ret]);
          intros y; (destruct (decide (p = y)) as [<-|Hne];
            [by rewrite fn_lookup_insert|rewrite fn_lookup_insert_ne by done;
             unfold pin_on; rewrite decide_False; [done|congruence]]).
      * destruct fuel; (eapply steps_pins_ext; [|apply steps_ret]); done.
    + exists ch'. apply Hgo. split_and!; [done|done|]. exact Hs'.
  - exists ch'. apply Hgo. split_and!; [done|done|]. exact Hs'.
Qed.

Lemma steps_make_room n ch (l : lcache D) :
  lwf l -> chains_ok ch l ->
  let r := l_make_room n l in
  exists ch', chains_ok ch' r.2 /\ lwf r.2 /\
    steps (make_room_for_new_entry n) (mkView ∅ no_pins ch l) r.1 (mkView ∅ no_pins ch' r.2).
Proof.
  intros Hl Hc. unfold l_make_room, make_room_for_new_entry.
  set (need := KES_ALIGN n KES_CACHE_ALIGNMENT).
  destruct (steps_evict_loop need (reverse (l_order l)) (size (l_entries l)) [] ch l)
    as (ch' & Hc' & Hl' & Hs'); [done|done|by rewrite reverse_involutive, app_nil_r| |].
  { rewrite length_reverse. apply walk_bound; [apply Hl|]. intros x. apply (wf_dom _ Hl). }
  destruct (fits_now (l_cache l) need) eqn:Ef; cbn [fst snd].
  - exists ch. split_and!; [done|done|].
    eapply steps_bind; [apply steps_lock; [done|held]|].
    eapply steps_bind; [apply steps_load_cache|]. cbv zeta. rewrite fits_full, Ef.
    eapply steps_bind; [apply steps_ret|].
    eapply steps_bind; [apply steps_unlock_top; [done|held|lia]|].
    eapply steps_bind; [apply steps_walk_fuel|].
    by destruct (size (l_entries l)); apply steps_ret.
  - exists ch'. split_and!; [done|done|].
    eapply steps_bind; [apply steps_lock; [done|held]|].
    eapply steps_bind; [apply steps_load_cache|]. cbv zeta. rewrite fits_full, Ef.
    change (c_lru_tail (full ch l)) with (last (l_order l)). rewrite <-head_reverse in *.
    eapply steps_bind; [apply (steps_pin_if_some (head (reverse (l_order l))))|].
    { intros x Hx. split; [|done]. apply (wf_dom _ Hl), elem_of_reverse. by apply head_Some_elem_of. }
    eapply steps_bind; [apply steps_unlock_top; [done|held|lia]|].
    eapply steps_bind; [apply steps_walk_fuel|]. exact Hs'.
Qed.
End device.
