(* ===== verification/CacheOps.v ===== *)
(** * The public operations implement the reference

    [implements m l r]: run alone from any state whose view is the reference
    cache [l] at rest (no lock held, no pin), the program [m] returns what [r]
    says, in a state whose view is the reference cache of [r], at rest again. *)
From stdpp Require Import functions.
From S2P Require Import Prelude Types CacheTypes CacheState Cache CacheLinks CacheSpec CacheView.
From S2P Require Import CacheLists CacheWf CacheFacts CacheWalks.

Section device.
Context {D : Type}.

Definition implements {A} (m : prog D A) (l : lcache D) (r : A * lcache D) : Prop :=
  forall ch, chains_ok ch l -> exists ch', chains_ok ch' r.2 /\
    steps m (mkView ∅ no_pins ch l) r.1 (mkView ∅ no_pins ch' r.2).

(** ** Small facts on the reference *)

Lemma l_put_put x e e' (l : lcache D) : l_put x e' (l_put x e l) = l_put x e' l.
Proof. unfold l_put, l_set_entries. cbn. by rewrite insert_insert_eq. Qed.

Lemma l_put_lookup x e (l : lcache D) : l_entries (l_put x e l) !! x = Some e.
Proof. apply lookup_insert_eq. Qed.

Lemma is_Some_put x e (l : lcache D) : is_Some (l_entries (l_put x e l) !! x).
Proof. rewrite l_put_lookup. by eexists. Qed.

Lemma l_put_same x e (l : lcache D) : l_entries l !! x = Some e -> l_put x e l = l.
Proof. intros He. unfold l_put, l_set_entries. rewrite insert_id by done. by destruct l. Qed.

Lemma l_read_put x id e e1 (l : lcache D) :
  l_read x id e (l_put x e1 l) = ((l_read x id e l).1, l_put x e1 (l_read x id e l).2).
Proof.
  unfold l_read. cbn. destruct (c_read_extent _) as [f|]; [|done].
  destruct (e_data e) as [p|]; [|done]. by destruct (f _ _ _ _) as [[r bytes] d].
Qed.

Lemma l_read_same x id e (l : lcache D) :
  let l' := (l_read x id e l).2 in
  l_order l' = l_order l /\ l_cache l' = l_cache l /\ l_entries l' = l_entries l /\
  l_threads l' = l_threads l /\ l_env l' = l_env l.
Proof.
  unfold l_read. destruct (c_read_extent _) as [f|]; [|done].
  destruct (e_data e) as [p|]; [|done]. by destruct (f _ _ _ _) as [[r bytes] d].
Qed.

Lemma splice_length (bs buf : list Z) n :
  (length bs <= length buf)%nat -> length (splice 0 (take n bs) buf) = length buf.
Proof. intros H. rewrite length_splice, length_take. lia. Qed.

Lemma lwf_read x id e (l : lcache D) :
  lwf l -> entry_ok (l_bufs l) e -> lwf (l_read x id e l).2.
Proof.
  intros Hl He. unfold l_read. destruct (c_read_extent _) as [f|]; [|done].
  destruct (entry_buffer _ _ He) as (p & buf & -> & Hb & Hn). rewrite Hb.
  destruct (f _ _ _ _) as [[r bytes] d]. cbn [snd].
  change (default [] (Some buf)) with buf. apply lwf_dev.
  eapply lwf_buf; [done|exact Hb|]. rewrite length_splice, length_take.
  pose proof (en_size _ _ He). lia.
Qed.

Lemma chains_ok_stats ch g (l : lcache D) : chains_ok ch l -> chains_ok ch (l_stats g l).
Proof. intros Hc. by eapply chains_ok_same. Qed.

(** ** Operations on one entry *)

Lemma steps_wait_loaded x e h P ch (l : lcache D) :
  l_entries l !! x = Some e -> is_loading e = false ->
  steps (wait_loaded x) (mkView h P ch l) tt (mkView h P ch l).
Proof.
  intros He Hld. unfold wait_loaded. eapply steps_bind; [by apply steps_load_entry|].
  unfold is_loading in Hld. rewrite Hld. apply steps_ret.
Qed.

(** The frame [with_entry]: the continuation starts with the entry locked and
    must release it. *)
Lemma implements_with id k ak (l : lcache D) :
  lwf l ->
  (forall x e ch, l_entries l !! x = Some e -> chains_ok ch l -> exists ch',
     chains_ok ch' (ak x e l).2 /\
     steps (k x) (mkView (entry_lock x) no_pins ch l) (ak x e l).1
       (mkView ∅ no_pins ch' (ak x e l).2)) ->
  implements (with_entry true (Some id) k) l (l_with id l ak).
Proof.
  intros Hl Hk ch Hc. unfold with_entry, l_with. cbn [negb].
  pose proof (steps_hash_find id ch l Hl Hc) as Hf. destruct (l_find id l) as [x|] eqn:Ef.
  - apply l_find_Some in Ef as (Hx & e & He & _). rewrite He.
    destruct (Hk x e ch He Hc) as (ch' & Hc' & Hs). exists ch'. split; [done|].
    eapply steps_bind; [exact Hf|]. apply steps_enter; [by eexists|apply pin_on_eq|].
    eapply steps_pins_ext; [|exact Hs]. intros y. unfold no_pins.
    destruct (decide (x = y)) as [<-|Hne]; [by rewrite fn_lookup_insert|].
    rewrite fn_lookup_insert_ne by done. unfold pin_on. rewrite decide_False; [done|congruence].
  - exists ch. split; [done|]. eapply steps_bind; [exact Hf|]. apply steps_ret.
Qed.

(** A continuation that ends by releasing the entry and returning [r]. *)
Lemma steps_release {A} x (r : A) P ch (l : lcache D) :
  is_Some (l_entries l !! x) ->
  steps (unlock (LEntry x) ;;; Ret r) (mkView (entry_lock x) P ch l) r (mkView ∅ P ch l).
Proof.
  intros Hx. eapply steps_bind; [apply steps_unlock_top; [done|held|lia]|]. apply steps_ret.
Qed.

Lemma put_implements id (l : lcache D) :
  lwf l -> implements (kes_cache_put_extent true (Some id)) l (l_put_extent id l).
Proof.
  intros Hl. apply implements_with; [done|]. intros x e ch He Hc. exists ch. split.
  - eapply chains_ok_put; [done|exact He|]. by destruct (0 <? e_ref_count e).
  - eapply steps_bind; [by apply (steps_modify_entry x e)|].
    apply steps_release, is_Some_put.
Qed.

Lemma mark_dirty_implements id (l : lcache D) :
  lwf l -> implements (kes_cache_mark_dirty true (Some id)) l (l_mark_dirty id l).
Proof.
  intros Hl. apply implements_with; [done|]. intros x e ch He Hc. exists ch. cbn [fst snd].
  destruct (has_flag (e_state e) KES_EXTENT_DIRTY) eqn:Hd.
  - split; [done|]. eapply steps_bind; [by apply steps_load_entry|]. rewrite Hd.
    eapply steps_bind; [apply steps_ret|]. apply steps_release. by eexists.
  - split; [apply chains_ok_stats; by eapply chains_ok_put|].
    eapply steps_bind; [by apply steps_load_entry|]. rewrite Hd.
    eapply steps_bind.
    + eapply steps_bind; [by apply (steps_modify_entry x e)|].
      eapply steps_bind; [apply steps_lock; [done|held]|].
      eapply steps_bind; [apply steps_modify_stats|]. apply steps_unlock_top; [done|held|lia].
    + apply steps_release, is_Some_put.
Qed.

Lemma pin_implements id (l : lcache D) :
  lwf l -> implements (kes_cache_pin_extent true (Some id)) l (l_pin id l).
Proof.
  intros Hl. apply implements_with; [done|]. intros x e ch He Hc. exists ch. cbn [fst snd].
  destruct (e_pin_count e =? 0) eqn:Hp.
  - split; [apply chains_ok_stats; by eapply chains_ok_put|].
    eapply steps_bind; [by apply steps_load_entry|]. rewrite Hp. eapply steps_bind.
    + eapply steps_bind; [by apply (steps_modify_entry x e)|].
      eapply steps_bind; [apply steps_lock; [done|held]|].
      eapply steps_bind; [apply steps_modify_stats|]. apply steps_unlock_top; [done|held|lia].
    + eapply steps_bind; [eapply steps_modify_entry; cbn; by rewrite lookup_insert_eq|].
      eapply steps_eq; [apply steps_release, is_Some_put|done|].
      f_equal. unfold l_put, l_stats, l_set_entries, l_set_cache. cbn. by rewrite insert_insert_eq.
  - split; [by eapply chains_ok_put|].
    eapply steps_bind; [by apply steps_load_entry|]. rewrite Hp. eapply steps_bind; [apply steps_ret|].
    eapply steps_bind; [by apply (steps_modify_entry x e)|]. apply steps_release, is_Some_put.
Qed.

Lemma unpin_implements id (l : lcache D) :
  lwf l -> implements (kes_cache_unpin_extent true (Some id)) l (l_unpin id l).
Proof.
  intros Hl. apply implements_with; [done|]. intros x e ch He Hc. exists ch. cbn [fst snd].
  destruct (0 <? e_pin_count e) eqn:Hp.
  - set (e' := entry_set_pin (u32 (e_pin_count e - 1)) e). destruct (e_pin_count e' =? 0) eqn:Hz.
    + split; [apply chains_ok_stats; by eapply chains_ok_put|].
      eapply steps_bind; [by apply steps_load_entry|]. rewrite Hp. eapply steps_bind.
      * eapply steps_bind; [by apply (steps_modify_entry x e)|].
        eapply steps_bind; [apply steps_load_entry, l_put_lookup|]. fold e'. rewrite Hz.
        eapply steps_bind; [apply steps_modify_entry, l_put_lookup|].
        eapply steps_bind; [apply steps_lock; [done|held]|].
        eapply steps_bind; [apply steps_modify_stats|]. apply steps_unlock_top; [done|held|lia].
      * eapply steps_eq; [apply steps_release, is_Some_put|done|].
        by rewrite l_put_put.
    + split; [by eapply chains_ok_put|].
      eapply steps_bind; [by apply steps_load_entry|]. rewrite Hp. eapply steps_bind.
      * eapply steps_bind; [by apply (steps_modify_entry x e)|].
        eapply steps_bind; [apply steps_load_entry, l_put_lookup|]. fold e'. rewrite Hz. apply steps_ret.
      * apply steps_release, is_Some_put.
  - split; [done|].
    eapply steps_bind; [by apply steps_load_entry|]. rewrite Hp. eapply steps_bind; [apply steps_ret|].
    apply steps_release. by eexists.
Qed.

Lemma flush_implements id (l : lcache D) :
  lwf l -> implements (kes_cache_flush_extent true (Some id)) l (l_flush id l).
Proof.
  intros Hl. apply implements_with; [done|]. intros x e ch He Hc.
  pose proof (wf_entry _ Hl x e He) as Hen.
  destruct (has_flag (e_state e) KES_EXTENT_DIRTY) eqn:Hd.
  2:{ exists ch. split; [done|]. eapply steps_bind; [by eapply steps_wait_loaded, Hen|].
      eapply steps_bind; [by apply steps_load_entry|]. rewrite Hd. apply steps_release. by eexists. }
  destruct (entry_buffer _ _ Hen) as (p & buf & Hp & Hb & Hn).
  assert (l_buffer l e = Some buf) as -> by (unfold l_buffer; by rewrite Hp).
  destruct (c_write_extent (l_cache l)) as [f|] eqn:Hf.
  2:{ exists ch. split; [done|]. eapply steps_bind; [by eapply steps_wait_loaded, Hen|].
      eapply steps_bind; [by apply steps_load_entry|]. rewrite Hd.
      eapply steps_bind; [apply steps_load_cache|].
      change (c_write_extent (full ch l)) with (c_write_extent (l_cache l)). rewrite Hf.
      apply steps_release. by eexists. }
  unfold l_write. destruct (f _ _ _ _) as [r d] eqn:Hr. exists ch.
  assert (chains_ok ch (l_set_dev d l)) as Hcd by by eapply chains_ok_same.
  destruct (r =? KES_SUCCESS) eqn:Ez; cbn [fst snd]; rewrite Ez; (split;
    [try apply chains_ok_stats; by eapply chains_ok_put|]);
    (eapply steps_bind; [by eapply steps_wait_loaded, Hen|]);
    (eapply steps_bind; [by apply steps_load_entry|]); rewrite Hd;
    (eapply steps_bind; [apply steps_load_cache|]);
    change (c_write_extent (full ch l)) with (c_write_extent (l_cache l)); rewrite Hf, Hp;
    (eapply steps_bind; [by apply (steps_call_write f id p _ buf r d)|]); rewrite Ez.
  - eapply steps_bind; [by apply (steps_flush_done x e)|]. apply steps_release, is_Some_put.
  - eapply steps_bind; [by apply (steps_modify_entry x e)|]. apply steps_release, is_Some_put.
Qed.

Lemma invalidate_implements id (l : lcache D) :
  lwf l -> implements (kes_cache_invalidate true (Some id)) l (l_invalidate id l).
Proof.
  intros Hl. apply implements_with; [done|]. intros x e ch He Hc.
  destruct ((0 <? e_ref_count e) || (0 <? e_pin_count e)) eqn:Hb.
  { exists ch. split; [done|]. eapply steps_bind; [by apply steps_load_entry|]. rewrite Hb.
    apply steps_release. by eexists. }
  unfold l_try_evict. rewrite He. destruct (evictable true e) eqn:Hev; cbn [negb].
  - destruct (steps_try_evict true x e no_pins ch l Hl Hc He eq_refl Hev) as (ch' & Hc' & Hs).
    exists ch'. cbn [fst snd]. destruct (has_flag (e_state e) KES_EXTENT_DIRTY) eqn:Hd.
    + split; [by eapply chains_ok_same|]. eapply steps_bind; [by apply steps_load_entry|].
      rewrite Hb, Hd. eapply steps_bind; [exact Hs|]. cbn [negb].
      eapply steps_bind; [|apply steps_ret].
      eapply steps_bind; [apply steps_lock; [done|held]|].
      eapply steps_bind; [apply steps_modify_stats|]. apply steps_unlock_top; [done|held|lia].
    + split; [done|]. eapply steps_bind; [by apply steps_load_entry|].
      rewrite Hb, Hd. eapply steps_bind; [exact Hs|]. cbn [negb].
      eapply steps_bind; apply steps_ret.
  - exists ch. split; [done|]. eapply steps_bind; [by apply steps_load_entry|]. rewrite Hb.
    eapply steps_bind; [by apply (steps_try_evict_no true x e)|]. apply steps_release. by eexists.
Qed.

(** ** The whole cache *)

Lemma sync_implements (l : lcache D) :
  lwf l -> implements (kes_cache_sync true) l (KES_SUCCESS, l_sweep l).
Proof.
  intros Hl ch Hc. destruct (steps_cache_sweep ch l Hl Hc) as (ch' & Hc' & _ & Hs).
  exists ch'. split; [done|]. eapply steps_bind; [exact Hs|]. apply steps_ret.
Qed.

Lemma get_stats_implements (l : lcache D) :
  implements (kes_cache_get_stats true true) l ((KES_SUCCESS, Some (c_stats (l_cache l))), l).
Proof.
  intros ch Hc. exists ch. split; [done|]. unfold kes_cache_get_stats. cbn [negb orb].
  eapply steps_bind; [apply steps_lock; [done|held]|].
  eapply steps_bind; [apply steps_load_cache|].
  eapply steps_bind; [apply steps_unlock_top; [done|held|lia]|]. apply steps_ret.
Qed.

Lemma reset_stats_implements (l : lcache D) :
  implements (kes_cache_reset_stats true) l (KES_SUCCESS, l_stats stat_reset l).
Proof.
  intros ch Hc. exists ch. split; [by eapply chains_ok_same|].
  unfold kes_cache_reset_stats. cbn [negb].
  eapply steps_bind; [apply steps_lock; [done|held]|].
  eapply steps_bind; [apply steps_modify_stats|].
  eapply steps_bind; [apply steps_unlock_top; [done|held|lia]|]. apply steps_ret.
Qed.

Lemma set_callbacks_implements r w y (l : lcache D) :
  implements (kes_cache_set_io_callbacks true r w y) l
    (KES_SUCCESS, l_set_cache (cache_set_callbacks r w y (l_cache l)) l).
Proof.
  intros ch Hc. exists ch. split; [by eapply chains_ok_same|].
  eapply steps_bind; [by apply steps_modify_cache|]. apply steps_ret.
Qed.
End device.
