(* ===== verification/CacheGet.v ===== *)
(** * [kes_cache_get_extent] implements the reference lookup

    Hits (with the retry of a failed load) and misses (room, candidate,
    insertion, publication, load), run alone. *)
From stdpp Require Import functions.
From S2P Require Import Prelude Types CacheTypes CacheState Cache CacheLinks CacheSpec CacheView.
From S2P Require Import CacheLists CacheWf CacheFacts CacheWalks CacheOps.

Section device.
Context {D : Type}.

(** ** Loading *)

Lemma steps_read_entry x id e h P ch (l : lcache D) :
  l_entries l !! x = Some e -> entry_ok (l_bufs l) e \/
    (exists p buf, e_data e = Some p /\ l_bufs l !! p = Some buf /\ e_data_size e <= Z.of_nat (length buf)) ->
  steps (read_entry x id) (mkView h P ch l) (l_read x id e l).1 (mkView h P ch (l_read x id e l).2).
Proof.
  intros He Hok. assert (exists p buf, e_data e = Some p /\ l_bufs l !! p = Some buf /\
    e_data_size e <= Z.of_nat (length buf)) as (p & buf & Hp & Hb & Hn).
  { destruct Hok as [?|?]; [by apply entry_buffer|done]. }
  unfold read_entry, l_read. eapply steps_bind; [apply steps_load_cache|].
  change (c_read_extent (full ch l)) with (c_read_extent (l_cache l)).
  destruct (c_read_extent (l_cache l)) as [f|]; [|apply steps_ret].
  eapply steps_bind; [by apply steps_load_entry|]. rewrite Hp, Hb.
  destruct (f _ _ _ _) as [[r bytes] d] eqn:Hf. cbn [fst snd]. by apply steps_call_read.
Qed.

(** [cache->stats.bytes_read += entry->data_size] under the cache lock. *)
Lemma steps_count_read {A} x e h P ch (l : lcache D) (rest : prog D A) r v (ok : bool) :
  h !! LCache = None -> l_entries l !! x = Some e ->
  steps rest (mkView h P ch (if ok then l_stats (stat_read (e_data_size e)) l else l)) r v ->
  steps ((if ok then
            lock LCache ;;;
            let* e := load_entry x in
            modify_stats (stat_read (e_data_size e)) ;;;
            unlock LCache
          else Ret tt) ;;; rest) (mkView h P ch l) r v.
Proof.
  intros Hh He Hr. eapply steps_bind; [|exact Hr]. destruct ok; [|apply steps_ret].
  eapply steps_bind; [by apply steps_lock|].
  eapply steps_bind; [by apply steps_load_entry|].
  eapply steps_bind; [apply steps_modify_stats|]. apply steps_unlock_top; [done|done|lia].
Qed.

Lemma steps_retry x id e P ch (l : lcache D) :
  l_entries l !! x = Some e -> entry_ok (l_bufs l) e ->
  steps (retry_load x id) (mkView (entry_lock x) P ch l) tt
    (mkView (entry_lock x) P ch (l_retry x id e l)).
Proof.
  intros He Hok. unfold retry_load, l_retry.
  pose proof (l_read_put x id e (entry_set_state KES_EXTENT_LOADING e) l) as Hrp.
  pose proof (l_read_same x id e l) as (_ & _ & Hen & _).
  destruct (l_read x id e l) as [r l1]. cbn [fst snd] in *.
  eapply steps_bind; [by apply (steps_modify_entry x e)|].
  eapply steps_bind; [apply steps_unlock_top; [apply is_Some_put|held|lia]|].
  eapply steps_bind.
  { eapply steps_eq; [eapply (steps_read_entry x id (entry_set_state KES_EXTENT_LOADING e))|..].
    - apply l_put_lookup.
    - right. destruct (entry_buffer _ _ Hok) as (p & buf & ? & ? & ?). by exists p, buf.
    - change (l_read x id (entry_set_state KES_EXTENT_LOADING e)) with (l_read (D := D) x id e).
      by rewrite Hrp.
    - change (l_read x id (entry_set_state KES_EXTENT_LOADING e)) with (l_read (D := D) x id e).
      by rewrite Hrp. }
  cbn [fst snd].
  eapply steps_bind; [apply steps_lock; [apply is_Some_put|held]|].
  eapply steps_bind; [apply steps_modify_entry, l_put_lookup|]. rewrite l_put_put.
  eapply steps_bind; [apply steps_unlock_top; [apply is_Some_put|held|lia]|].
  eapply (steps_count_read x); [held|apply l_put_lookup|].
  destruct (r =? KES_SUCCESS); apply steps_lock; cbn; try held; by rewrite lookup_insert_eq; eexists.
Qed.

Lemma retry_entry x id e (l : lcache D) :
  exists st, l_entries (l_retry x id e l) = <[x := entry_set_state st e]> (l_entries l) /\
    has_flag st KES_EXTENT_LOADING = false /\ l_order (l_retry x id e l) = l_order l /\
    l_env (l_retry x id e l) = l_env l.
Proof.
  unfold l_retry. pose proof (l_read_same x id e l) as (Ho & _ & He & _ & Hv).
  destruct (l_read x id e l) as [r l1]. cbn [fst snd] in *.
  destruct (r =? KES_SUCCESS); (eexists; split; [cbn; by rewrite He|done]).
Qed.

Lemma lwf_retry x id e (l : lcache D) :
  lwf l -> l_entries l !! x = Some e -> lwf (l_retry x id e l).
Proof.
  intros Hl He. pose proof (lwf_read x id e l Hl (wf_entry _ Hl x e He)) as Hr.
  pose proof (l_read_same x id e l) as (_ & _ & Hen & _). unfold l_retry.
  destruct (l_read x id e l) as [r l1]. cbn [fst snd] in *. rewrite <-Hen in He.
  destruct (r =? KES_SUCCESS); [apply lwf_stats|]; by eapply lwf_put.
Qed.

(** ** Hits *)

Lemma steps_leave_lookup P ch (l : lcache D) :
  steps leave_lookup (mkView ∅ P ch l) tt (mkView ∅ P ch (l_inflight (-1) l)).
Proof.
  unfold leave_lookup. eapply steps_bind; [apply steps_lock; [done|held]|].
  eapply steps_bind; [by apply steps_modify_cache|]. apply steps_unlock_top; [done|held|lia].
Qed.

Lemma steps_attach_hit x e P ch (l : lcache D) :
  lwf l -> x ∈ l_order l -> l_entries l !! x = Some e ->
  has_flag (e_state e) KES_EXTENT_ERROR = false ->
  steps (modify_entry x (fun e => entry_set_ref (u32 (e_ref_count e + 1)) e) ;;;
         let* t := get_timestamp in
         modify_entry x (fun e => entry_set_access t (u64 (e_access_count e + 1)) e) ;;;
         let* e := load_entry x in
         unlock (LEntry x) ;;;
         lock LCache ;;;
         lru_touch x ;;;
         modify_stats stat_hit ;;;
         modify_cache (fun c => cache_set_inflight (u32 (c_inflight_lookups c - 1)) c) ;;;
         unlock LCache ;;;
         Ret (KES_SUCCESS, e_data e))
    (mkView (entry_lock x) P ch l) (KES_SUCCESS, e_data e)
    (mkView ∅ P ch (l_inflight (-1) (l_stats stat_hit (l_set_order (touch x (l_order l))
       (l_put x (entry_set_access (l_now l) (u64 (e_access_count e + 1))
                   (entry_set_ref (u32 (e_ref_count e + 1)) e)) l))))).
Proof.
  intros Hl Hx He Herr.
  eapply steps_bind; [by apply (steps_modify_entry x e)|].
  eapply steps_bind; [apply steps_get_timestamp|].
  eapply steps_bind; [apply steps_modify_entry, l_put_lookup|]. rewrite l_put_put.
  eapply steps_bind; [apply steps_load_entry, l_put_lookup|].
  eapply steps_bind; [apply steps_unlock_top; [apply is_Some_put|held|lia]|].
  eapply steps_bind; [apply steps_lock; [done|held]|].
  eapply steps_bind; [apply steps_lru_touch; [done|apply is_Some_put|apply Hl]|].
  eapply steps_bind; [apply steps_modify_stats|].
  eapply steps_bind; [by apply steps_modify_cache|].
  eapply steps_bind; [apply steps_unlock_top; [done|held|lia]|]. apply steps_ret.
Qed.

Lemma lwf_attach x id (l : lcache D) : lwf l -> x ∈ l_order l -> lwf (l_attach x id l).2.
Proof.
  intros Hl Hx. destruct (proj1 (wf_dom _ Hl x) Hx) as [e0 He0]. unfold l_attach. rewrite He0.
  set (l1 := if needs_retry e0 then l_retry x id e0 l else l).
  assert (lwf l1 /\ x ∈ l_order l1) as [Hl1 Hx1].
  { unfold l1. destruct (needs_retry e0); [|done].
    destruct (retry_entry x id e0 l) as (st & _ & _ & -> & _). split; [by apply lwf_retry|done]. }
  destruct (proj1 (wf_dom _ Hl1 x) Hx1) as [e He]. rewrite He.
  destruct (has_flag (e_state e) KES_EXTENT_ERROR); cbn [snd]; [by apply lwf_inflight|].
  apply lwf_inflight, lwf_stats.
  apply (lwf_touch x (l_put x _ l1)); [|done].
  eapply lwf_put; [done|exact He|done|]. apply (wf_entry _ Hl1 x e He).
Qed.

(** [x] was found, and pinned, by a lookup. *)
Lemma attach_implements x id ch (l : lcache D) :
  lwf l -> chains_ok ch l -> x ∈ l_order l ->
  let r := l_attach x id l in
  chains_ok ch r.2 /\
  steps (attach_entry x id) (mkView ∅ (pin_on (Some x)) ch l) r.1 (mkView ∅ no_pins ch r.2).
Proof.
  intros Hl Hc Hx r. destruct (proj1 (wf_dom _ Hl x) Hx) as [e0 He0].
  pose proof (wf_entry _ Hl x e0 He0) as Hok.
  set (l1 := if needs_retry e0 then l_retry x id e0 l else l).
  assert (lwf l1 /\ chains_ok ch l1 /\ x ∈ l_order l1) as (Hl1 & Hc1 & Hx1).
  { unfold l1. destruct (needs_retry e0); [|done].
    destruct (retry_entry x id e0 l) as (st & Hen & _ & Ho & _).
    split_and!; [by apply lwf_retry| |by rewrite Ho].
    eapply chains_ok_same; [eapply (chains_ok_put ch l x e0 (entry_set_state st e0)); done|done|done]. }
  destruct (proj1 (wf_dom _ Hl1 x) Hx1) as [e He].
  assert (forall (m : prog D (Z * option loc)) r v, steps m (mkView (entry_lock x) no_pins ch l1) r v ->
    steps (lock (LEntry x) ;;; pins_add x (-1) ;;; wait_loaded x ;;;
           let* e := load_entry x in
           (if has_flag (e_state e) KES_EXTENT_ERROR && negb (has_flag (e_state e) KES_EXTENT_DIRTY)
            then retry_load x id else Ret tt) ;;; m)
      (mkView ∅ (pin_on (Some x)) ch l) r v) as Hpre.
  { intros m r0 v Hm. apply steps_enter; [by eexists|apply pin_on_eq|].
    apply (steps_pins_ext _ _ no_pins).
    { intros y. unfold no_pins. destruct (decide (x = y)) as [<-|Hne]; [by rewrite fn_lookup_insert|].
      rewrite fn_lookup_insert_ne by done. unfold pin_on. rewrite decide_False; [done|congruence]. }
    eapply steps_bind; [by eapply steps_wait_loaded, Hok|].
    eapply steps_bind; [by apply steps_load_entry|]. fold (needs_retry e0).
    eapply steps_bind; [|exact Hm]. unfold l1.
    destruct (needs_retry e0); [by apply steps_retry|apply steps_ret]. }
  unfold r, l_attach. rewrite He0. fold l1. rewrite He. unfold attach_entry.
  destruct (has_flag (e_state e) KES_EXTENT_ERROR) eqn:Herr; cbn [fst snd].
  - split; [by eapply chains_ok_same|]. apply Hpre.
    eapply steps_bind; [by apply steps_load_entry|]. rewrite Herr.
    eapply steps_bind; [apply steps_unlock_top; [by eexists|held|lia]|].
    eapply steps_bind; [apply steps_leave_lookup|]. apply steps_ret.
  - split.
    + eapply chains_ok_ext; [exact Hc1|..]; cbn.
      * intros y. by apply elem_touch.
      * intros y f [[<- <-]|[_ Hy]]%lookup_insert_Some; eauto.
      * intros y Hy. rewrite lookup_insert_is_Some'. by right.
    + apply Hpre. eapply steps_bind; [by apply steps_load_entry|]. rewrite Herr.
      by apply steps_attach_hit.
Qed.

(** ** What making room keeps *)

(** No new entry, no new address, the same configuration. *)
Record kept (l l' : lcache D) : Prop := {
  kp_env : l_env l' = l_env l;
  kp_config : c_config (l_cache l') = c_config (l_cache l);
  kp_ids : forall y e', l_entries l' !! y = Some e' ->
             exists e, l_entries l !! y = Some e /\ e_id e' = e_id e
}.

Lemma kept_refl l : kept l l.
Proof. split; eauto. Qed.

Lemma kept_trans l1 l2 l3 : kept l1 l2 -> kept l2 l3 -> kept l1 l3.
Proof.
  intros [V1 C1 I1] [V2 C2 I2]. split; [congruence|congruence|].
  intros y e3 (e2 & (e1 & ? & ?)%I1 & ?)%I2. exists e1. split; [done|congruence].
Qed.

Lemma kept_write_back x (l : lcache D) : kept l (l_write_back x l).
Proof.
  destruct (write_back_entries x l) as (_ & _ & Hv & _ & Hc & He). split; [done|done|].
  intros y e' Hy. destruct (He y e' Hy) as (e0 & ? & [? _ _ _] & _). eauto.
Qed.

Lemma kept_try_evict b x (l : lcache D) : kept l (l_try_evict b x l).2.
Proof.
  unfold l_try_evict. destruct (l_entries l !! x) as [e|]; [|apply kept_refl].
  destruct (evictable b e); [|apply kept_refl]. split; [done|done|]. cbn.
  intros y e' [_ Hy]%lookup_delete_Some. eauto.
Qed.

Lemma kept_evict_loop need ls (l : lcache D) : kept l (l_evict_loop need ls l).2.
Proof.
  revert l. induction ls as [|x ls IH]; intros l; [apply kept_refl|]. cbn [l_evict_loop].
  pose proof (kept_trans _ _ _ (kept_write_back x l) (kept_try_evict false x (l_write_back x l))) as Hk.
  destruct (l_try_evict false x (l_write_back x l)) as [evicted l1]. cbn [snd] in Hk.
  destruct evicted; [|eapply kept_trans; [exact Hk|apply IH]].
  assert (kept l (l_stats stat_evicted l1)) as Hk'.
  { eapply kept_trans; [exact Hk|]. split; eauto. }
  destruct (fits_now _ _); [exact Hk'|]. eapply kept_trans; [exact Hk'|apply IH].
Qed.

Lemma kept_make_room n (l : lcache D) : kept l (l_make_room n l).2.
Proof.
  unfold l_make_room. destruct (fits_now _ _); [apply kept_refl|apply kept_evict_loop].
Qed.

Lemma l_find_none id (l : lcache D) :
  lwf l -> l_find id l = None ->
  forall y e, l_entries l !! y = Some e -> kes_extent_equal (e_id e) id = false.
Proof.
  intros Hl Hf y e Hy. unfold l_find in Hf. eapply find_none in Hf.
  - unfold l_is in Hf. rewrite Hy in Hf. exact Hf.
  - apply list_elem_of_In, (wf_dom _ Hl). by eexists.
Qed.

(** ** The candidate *)

(** A link update of an entry that is on no list. *)
Lemma steps_off_list (f : option loc -> prog D ()) g x p h P ch (l : lcache D) :
  (f = set_list_next x \/ f = set_list_prev x) \/ (f = set_hash_next x \/ f = set_hash_prev x) ->
  g = f p -> is_Some (l_entries l !! x) -> x ∉ l_order l ->
  (forall i ls, ch !! i = Some ls -> x ∉ ls) ->
  steps g (mkView h P ch l) tt (mkView h P ch l).
Proof.
  intros Hf -> He Ho Hch s Hs.
  pose proof Hs as [Hc Hseg Hsegs Hl Hh Hp Hen ? ? ? ? ?]. cbn [v_l v_chains v_held v_pins] in *.
  assert (forall (u : links -> links) (m : gmap loc links) y,
    is_Some ((alter u x m) !! y) <-> is_Some (m !! y)) as Hd.
  { intros u m y. apply (is_Some_alter_some u (Some x)). }
  destruct Hf as [Hf|Hf].
  - assert (is_Some (cs_list s !! x)) as Hx by by apply Hl.
    destruct Hf as [-> | ->]; [rewrite run_set_list_next by done|rewrite run_set_list_prev by done];
      (eexists; split; [done|]; split; cbn; try done;
       [eapply seg_frame; [|exact Hseg]; intros y Hy; apply lookup_alter_ne; by intros ->|
        intros y; rewrite Hd; apply Hl]).
  - assert (is_Some (cs_hash s !! x)) as Hx by by apply Hh.
    destruct Hf as [-> | ->]; [rewrite run_set_hash_next by done|rewrite run_set_hash_prev by done];
      (eexists; split; [done|]; split; cbn; try done;
       [intros i ls Hi; eapply seg_frame; [|by eapply Hsegs]; intros y Hy; apply lookup_alter_ne;
          intros ->; by eapply Hch|
        intros y; rewrite Hd; apply Hh]).
Qed.

Lemma next_failure_next v b v' : next_failure v = (b, v') -> env_next v' = env_next v.
Proof. unfold next_failure. destruct (env_script v); by intros [= <- <-]. Qed.

Lemma fresh_address v (l : lcache D) ch :
  lwf l -> chains_ok ch l -> env_next v = env_next (l_env l) ->
  l_entries l !! env_next v = None /\ l_bufs l !! env_next v = None /\
  (env_next v ∉ l_order l) /\ (forall i ls, ch !! i = Some ls -> env_next v ∉ ls).
Proof.
  intros Hl Hc ->. assert (forall m, ~ (is_Some (l_entries l !! m) \/ is_Some (l_bufs l !! m)) \/
    (m < env_next (l_env l))%positive) as Hlt.
  { intros m. destruct (decide (is_Some (l_entries l !! m) \/ is_Some (l_bufs l !! m))); [|by left].
    right. by apply (wf_fresh _ Hl). }
  destruct (Hlt (env_next (l_env l))) as [Hn|]; [|lia].
  assert (env_next (l_env l) ∉ l_order l) as Ho by (rewrite (wf_dom _ Hl); tauto).
  split_and!; [by apply eq_None_not_Some; tauto|by apply eq_None_not_Some; tauto|done|].
  intros i ls Hi Hin. apply Ho. eapply ck_in; eauto.
Qed.

(** The state right after the candidate was built. *)
Definition with_candidate (id : kes_extent_id) (v v' : env) (l : lcache D) : lcache D :=
  let size := KES_ALIGN (extent_data_size id) KES_CACHE_ALIGNMENT in
  let p := env_next v' in
  l_set_env (bump v') (l_set_bufs
    (<[p := take (Z.to_nat size) (env_junk v' p size ++ replicate (Z.to_nat size) 0)]> (l_bufs l))
    (l_put (env_next v) (fresh_entry id (l_now (l_set_env (bump v) l)) (Some p)) l)).

Lemma steps_init_entry x id e h P ch (l : lcache D) (rest : prog D (option loc)) r v :
  l_entries l !! x = Some e -> x ∉ l_order l -> (forall i ls, ch !! i = Some ls -> x ∉ ls) ->
  steps rest (mkView h P ch (l_put x (mkEntry id None 0 0 0 (l_now l) 0 (extent_data_size id) 0) l)) r v ->
  steps (init_extent_entry x id ;;; rest) (mkView h P ch l) r v.
Proof.
  intros He Ho Hch Hr. eapply steps_bind; [|exact Hr]. unfold init_extent_entry.
  eapply steps_bind; [apply steps_get_timestamp|].
  eapply steps_bind; [by apply (steps_modify_entry x e)|].
  eapply steps_bind.
  { eapply (steps_off_list (set_hash_next x)); [tauto|done|apply is_Some_put|done|done]. }
  eapply steps_bind.
  { eapply (steps_off_list (set_hash_prev x)); [tauto|done|apply is_Some_put|done|done]. }
  eapply steps_bind.
  { eapply (steps_off_list (set_list_next x)); [tauto|done|apply is_Some_put|done|done]. }
  eapply (steps_off_list (set_list_prev x)); [tauto|done|apply is_Some_put|done|done].
Qed.

Lemma steps_make_candidate_none id v ch (l : lcache D) :
  next_failure (l_env l) = (true, v) ->
  steps (make_candidate id) (mkView ∅ no_pins ch l) None
    (mkView ∅ no_pins ch (l_inflight (-1) (l_set_env v l))).
Proof.
  intros Hf. eapply steps_bind; [by apply steps_calloc_entry_fail|].
  eapply steps_bind; [apply steps_leave_lookup|]. apply steps_ret.
Qed.

Lemma steps_make_candidate id v ch (l : lcache D) :
  lwf l -> chains_ok ch l -> next_failure (l_env l) = (false, v) ->
  let '(failed, v') := next_failure (bump v) in
  steps (make_candidate id) (mkView ∅ no_pins ch l)
    (if failed then None else Some (env_next v))
    (mkView ∅ no_pins ch (if failed then l_inflight (-1) (l_set_env v' l)
                          else with_candidate id v v' l)).
Proof.
  intros Hl Hc Hf. destruct (next_failure (bump v)) as [failed v'] eqn:Hf'.
  pose proof (next_failure_next _ _ _ Hf) as Hnv.
  destruct (fresh_address v l ch Hl Hc Hnv) as (Hx & _ & Ho & Hch). set (x := env_next v) in *.
  set (l1 := l_set_env (bump v) (l_put x zero_entry l)).
  eapply steps_bind; [by apply steps_calloc_entry|]. fold x l1. cbv beta iota.
  eapply (steps_init_entry x id zero_entry); [apply lookup_insert_eq|done|done|].
  set (e1 := mkEntry _ _ _ _ _ _ _ _ _).
  eapply steps_bind; [apply steps_modify_entry, l_put_lookup|]. rewrite l_put_put.
  eapply steps_bind; [apply steps_load_entry, l_put_lookup|].
  eapply steps_bind; [by apply (steps_alloc_buffer _ failed v')|].
  destruct failed; cbv iota.
  - eapply steps_bind; [apply steps_modify_entry; cbn; by rewrite lookup_insert_eq|].
    eapply steps_bind; [apply steps_destroy_entry_lock; held|].
    eapply steps_bind; [apply steps_free_entry; [apply is_Some_put|done|done]|].
    eapply steps_bind; [apply steps_leave_lookup|]. eapply steps_eq; [apply steps_ret|done|].
    f_equal. unfold l_inflight, l_set_env, l_set_cache, l_set_entries, l_put, l1. cbn. f_equal.
    by rewrite !delete_insert_eq, delete_id.
  - eapply steps_bind; [apply steps_modify_entry; cbn; by rewrite lookup_insert_eq|].
    eapply steps_eq; [apply steps_ret|done|].
    f_equal. unfold with_candidate, l_put, l_set_bufs, l_set_env, l_set_entries, l1. cbn. f_equal.
    by rewrite !insert_insert_eq.
Qed.

(** ** Insertion and load *)

(** A cache with one more entry, at the head of the list. *)
Lemma lwf_add x e p buf (l l' : lcache D) :
  lwf l -> l_entries l !! x = None -> l_bufs l !! p = None ->
  (forall y f, l_entries l !! y = Some f -> kes_extent_equal (e_id f) (e_id e) = false) ->
  e_data e = Some p -> entry_ok (<[p := buf]> (l_bufs l)) e ->
  l_order l' = x :: l_order l -> l_entries l' = <[x := e]> (l_entries l) ->
  l_bufs l' = <[p := buf]> (l_bufs l) ->
  c_bucket_mask (l_cache l') = c_bucket_mask (l_cache l) ->
  c_bucket_count (l_cache l') = c_bucket_count (l_cache l) ->
  (env_next (l_env l) <= env_next (l_env l'))%positive ->
  (x < env_next (l_env l'))%positive -> (p < env_next (l_env l'))%positive -> lwf l'.
Proof.
  intros [H1 H2 H3 H4 H5 H6 H7 H8] Hx Hp Hne Hd Hok Eo Ee Eb Em Ec Hn Hnx Hnp.
  assert (forall y f, l_entries l !! y = Some f -> e_data f ≠ Some p) as Hother.
  { intros y f Hy Hf. destruct (en_data _ _ (H4 y f Hy)) as (q & b & Hq & Hb & _). congruence. }
  split; rewrite ?Eo, ?Ee, ?Eb, ?Em, ?Ec; [..|done].
  - constructor; [|done]. rewrite H2, Hx. by intros [? ?].
  - intros y. rewrite elem_of_cons, lookup_insert_is_Some', H2.
    split; (intros [->|?]; [by left|by right]).
  - intros y z f f' [[<- <-]|[_ Hy]]%lookup_insert_Some [[<- <-]|[_ Hz]]%lookup_insert_Some Hq; [done|..].
    + apply extent_equal_iff in Hq as (? & ? & ?). specialize (Hne z f' Hz).
      apply not_true_iff_false in Hne. destruct Hne. by apply extent_equal_iff.
    + specialize (Hne y f Hy). congruence.
    + by eapply H3.
  - intros y f [[<- <-]|[_ Hy]]%lookup_insert_Some; [done|].
    destruct (H4 y f Hy) as [(q & b & Hq & Hb & Hl) ? ? ?]. split; [|done..].
    exists q, b. rewrite lookup_insert_ne; [done|]. intros <-. by apply (Hother y f).
  - intros y z f f' [[<- <-]|[_ Hy]]%lookup_insert_Some [[<- <-]|[_ Hz]]%lookup_insert_Some Hq; [done|..].
    + destruct (Hother z f' Hz). congruence.
    + destruct (Hother y f Hy). congruence.
    + by eapply H5.
  - intros q [b [[<- <-]|[Hqn Hq]]%lookup_insert_Some].
    + exists x, e. by rewrite lookup_insert_eq.
    + destruct (H6 q) as (y & f & Hy & Hf); [by eexists|]. exists y, f.
      rewrite lookup_insert_ne; [done|]. congruence.
  - intros y. rewrite !lookup_insert_is_Some'. intros [[<-|Hy]|[<-|Hy]]; try done;
      (eapply Pos.lt_le_trans; [apply H7; tauto|done]).
Qed.

Lemma chains_add x e ls ch (l l' : lcache D) :
  let i := Z.to_nat (bucket (e_id e)) in
  chains_ok ch l -> l_entries l !! x = None -> x ∉ l_order l -> ch !! i = Some ls ->
  l_order l' = x :: l_order l -> l_entries l' = <[x := e]> (l_entries l) ->
  chains_ok (<[i := x :: ls]> ch) l'.
Proof.
  intros i [H1 H2 H3 H4 H5] Hx Hxo Hi Eo Ee.
  assert (forall j ls', <[i := x :: ls]> ch !! j = Some ls' -> 
    (j = i /\ ls' = x :: ls) \/ (j ≠ i /\ ch !! j = Some ls')) as Hback.
  { intros j ls'. destruct (decide (j = i)) as [->|Hne].
    - rewrite list_lookup_insert_eq by (by eapply lookup_lt_Some). intros [= <-]. by left.
    - rewrite list_lookup_insert_ne by done. by right. }
  assert (forall j ls', ch !! j = Some ls' -> x ∉ ls') as Hout.
  { intros j ls' Hj Hin. apply Hxo. by eapply H4. }
  split.
  - by rewrite length_insert.
  - intros j k lj lk y [[-> ->]|[Hj Hlj]]%Hback [[-> ->]|[Hk Hlk]]%Hback; [done|..];
      rewrite ?elem_of_cons; intros Hy Hy'.
    + destruct Hy as [->|Hy]; [by destruct (Hout _ _ Hlk)|by eapply H2].
    + destruct Hy' as [->|Hy']; [by destruct (Hout _ _ Hlj)|by eapply H2].
    + by eapply H2.
  - intros j lj [[-> ->]|[_ Hlj]]%Hback; [|by eapply H3]. constructor; [by eapply Hout|by eapply H3].
  - rewrite Eo, Ee. intros j lj y [[-> ->]|[_ Hlj]]%Hback; rewrite ?elem_of_cons.
    + intros [->|Hy]; [split; [by left|]; exists e; by rewrite lookup_insert_eq|].
      destruct (H4 _ _ y Hi Hy) as (? & f & Hf & ?). split; [by right|]. exists f.
      rewrite lookup_insert_ne; [done|]. congruence.
    + intros Hy. destruct (H4 _ _ y Hlj Hy) as (? & f & Hf & ?). split; [by right|]. exists f.
      rewrite lookup_insert_ne; [done|]. congruence.
  - rewrite Eo, Ee. intros y f Hy [[<- <-]|[Hne Hf]]%lookup_insert_Some.
    + exists (x :: ls). fold i. rewrite list_lookup_insert_eq by (by eapply lookup_lt_Some).
      split; [done|by left].
    + apply elem_of_cons in Hy as [->|Hy]; [done|]. destruct (H5 y f Hy Hf) as (lf & Hlf & Hin).
      destruct (decide (Z.to_nat (bucket (e_id f)) = i)) as [Ei|Hni].
      * rewrite Ei in Hlf |- *. exists (x :: ls).
        rewrite list_lookup_insert_eq by (by eapply lookup_lt_Some). split; [done|right].
        congruence.
      * exists lf. by rewrite list_lookup_insert_ne.
Qed.

Lemma steps_hash_insert x e ls P ch (l : lcache D) :
  let i := Z.to_nat (bucket (e_id e)) in
  c_bucket_mask (l_cache l) = 1023 -> l_entries l !! x = Some e ->
  ch !! i = Some ls -> NoDup (x :: ls) -> chains_apart ch ->
  (forall j ls', ch !! j = Some ls' -> x ∉ ls') ->
  (forall y, y ∈ ls -> exists f, l_entries l !! y = Some f /\ kes_extent_equal (e_id f) (e_id e) = false) ->
  steps (hash_find_or_insert x) (mkView ∅ P ch l) None (mkView ∅ P (<[i := x :: ls]> ch) l).
Proof.
  intros i Hm He Hi Hnd Ha Hout Hls. unfold hash_find_or_insert.
  eapply steps_bind; [apply steps_load_cache|].
  eapply steps_bind; [by apply steps_load_entry|]. cbv zeta.
  assert (bucket_idx (full ch l) (e_id e) = bucket (e_id e)) as ->
    by (unfold bucket_idx, bucket; cbn; by rewrite Hm).
  eapply steps_bind; [apply steps_lock; [done|held]|].
  eapply steps_bind; [by apply steps_load_head|].
  eapply steps_bind; [apply steps_walk_fuel|].
  eapply steps_bind.
  { eapply steps_find_in_chain; [exact Hi|by inversion Hnd|].
    intros y (f & ? & _)%Hls. by eexists. }
  destruct (find (l_is l (e_id e)) ls) as [y|] eqn:Ef.
  { apply find_some in Ef as [Hy Hf]. apply list_elem_of_In, Hls in Hy as (f & Hy & Hne).
    unfold l_is in Hf. rewrite Hy in Hf. congruence. }
  eapply (steps_chain_insert x (bucket (e_id e)) ls); [done|by eexists|done|done|done|].
  eapply steps_bind; [apply steps_unlock_top; [done|held|lia]|]. apply steps_ret.
Qed.

(** Under the cache lock: count the miss, put the entry at the head of the
    list, count it, leave the lookup. *)
Definition l_publish (x : loc) (e : kes_extent_entry) (l : lcache D) : lcache D :=
  l_inflight (-1) (l_stats (stat_memory (KES_ALIGN (e_data_size e) KES_CACHE_ALIGNMENT))
    (l_stats (stat_cached 1) (l_set_order (x :: l_order l) (l_stats stat_miss l)))).

Lemma steps_publish x e P ch (l : lcache D) :
  l_entries l !! x = Some e -> NoDup (x :: l_order l) ->
  steps (publish_entry x) (mkView ∅ P ch l) tt (mkView ∅ P ch (l_publish x e l)).
Proof.
  intros He Hnd. unfold publish_entry. eapply steps_bind; [by apply steps_load_entry|].
  eapply steps_bind; [apply steps_lock; [done|held]|].
  eapply steps_bind; [apply steps_modify_stats|].
  eapply steps_bind; [apply steps_lru_add_head; [by eexists|done]|].
  eapply steps_bind; [apply steps_modify_stats|].
  eapply steps_bind; [apply steps_modify_stats|].
  eapply steps_bind; [by apply steps_modify_cache|]. apply steps_unlock_top; [done|held|lia].
Qed.

(** What [l_load] does with the result of the read. *)
Definition l_loaded (x : loc) (e : kes_extent_entry) (r : Z) (l : lcache D)
    : (Z * option loc) * lcache D :=
  if r =? KES_SUCCESS then
    ((r, e_data e),
     l_stats (stat_read (e_data_size e)) (l_put x (entry_set_state KES_EXTENT_CLEAN e) l))
  else
    ((if r =? KES_ERROR_INVALID then r else KES_ERROR_IO, None),
     l_put x (entry_set_ref (if 0 <? e_ref_count e then u32 (e_ref_count e - 1) else e_ref_count e)
                (entry_set_state KES_EXTENT_ERROR e)) l).

Lemma l_load_eq x id e (l : lcache D) :
  l_load x id e l =
  l_loaded x e (l_read x id e (l_publish x e l)).1 (l_read x id e (l_publish x e l)).2.
Proof. unfold l_load, l_loaded, l_publish. by destruct (l_read _ _ _ _). Qed.

Lemma steps_finish_load x e r P ch (l : lcache D) :
  l_entries l !! x = Some e ->
  steps (finish_load x r) (mkView ∅ P ch l) (l_loaded x e r l).1
    (mkView ∅ P ch (l_loaded x e r l).2).
Proof.
  intros He. unfold finish_load, l_loaded.
  eapply steps_bind; [apply steps_lock; [by eexists|held]|].
  destruct (r =? KES_SUCCESS) eqn:Er; cbn [fst snd].
  - eapply steps_bind.
    { eapply steps_bind; [by apply (steps_modify_entry x e)|].
      eapply steps_bind; [apply steps_load_entry, l_put_lookup|]. apply steps_ret. }
    cbv beta iota. eapply steps_bind; [apply steps_unlock_top; [apply is_Some_put|held|lia]|].
    rewrite Er.
    eapply (steps_count_read x _ _ _ _ _ _ _ _ true); [held|apply l_put_lookup|]. apply steps_ret.
  - eapply steps_bind.
    { eapply steps_bind; [by apply (steps_modify_entry x e)|]. apply steps_ret. }
    cbv beta iota. eapply steps_bind; [apply steps_unlock_top; [apply is_Some_put|held|lia]|].
    assert (((if r =? KES_ERROR_INVALID then r else KES_ERROR_IO) =? KES_SUCCESS) = false) as ->
      by (by destruct (r =? KES_ERROR_INVALID)).
    eapply steps_bind; apply steps_ret.
Qed.

(** ** Misses *)

Lemma l_read_buffer x id e p buf (l : lcache D) :
  e_data e = Some p -> l_bufs l !! p = Some buf -> 0 <= e_data_size e <= Z.of_nat (length buf) ->
  exists buf', l_bufs (l_read x id e l).2 !! p = Some buf' /\ length buf' = length buf /\
    l_bufs (l_read x id e l).2 = <[p := buf']> (l_bufs l).
Proof.
  intros Hp Hb Hn. unfold l_read. rewrite Hp, Hb.
  destruct (c_read_extent (l_cache l)) as [f|].
  - destruct (f _ _ _ _) as [[r bytes] d]. cbn [snd l_set_dev l_set_bufs l_bufs]. eexists.
    rewrite lookup_insert_eq. split; [done|]. split; [|done]. change (default [] (Some buf)) with buf.
    rewrite length_splice, length_take. cbn. lia.
  - exists buf. cbn. by rewrite insert_id.
Qed.

(** What the three steps after the allocations do to a well-formed cache. *)
Lemma load_ok id v v' ch (l : lcache D) ls :
  let i := Z.to_nat (bucket id) in
  let x := env_next v in
  let e := fresh_entry id (l_now (l_set_env (bump v) l)) (Some (env_next v')) in
  lwf l -> chains_ok ch l -> 0 <= extent_data_size id < 2 ^ 62 ->
  (forall y f, l_entries l !! y = Some f -> kes_extent_equal (e_id f) id = false) ->
  env_next v = env_next (l_env l) -> env_next v' = Pos.succ (env_next v) ->
  ch !! i = Some ls ->
  let r := l_load x id e (with_candidate id v v' l) in
  lwf r.2 /\ chains_ok (<[i := x :: ls]> ch) r.2.
Proof.
  intros i x e Hl Hc Hsz Hne Hv Hv' Hi.
  destruct (fresh_address v l ch Hl Hc Hv) as (Hx & _ & Ho & _). fold x in Hx, Ho.
  assert (l_bufs l !! env_next v' = None) as Hp.
  { apply eq_None_not_Some. intros Hs. pose proof (wf_fresh _ Hl (env_next v') (or_intror Hs)). lia. }
  rewrite l_load_eq. set (lp := l_publish x e (with_candidate id v v' l)).
  pose proof (l_read_same x id e lp) as (Eo & Ec & Een & _ & Ev).
  destruct (align_spec _ Hsz) as [_ Hal].
  destruct (l_read_buffer x id e (env_next v')
    (take (Z.to_nat (KES_ALIGN (extent_data_size id) KES_CACHE_ALIGNMENT))
       (env_junk v' (env_next v') (KES_ALIGN (extent_data_size id) KES_CACHE_ALIGNMENT) ++
        replicate (Z.to_nat (KES_ALIGN (extent_data_size id) KES_CACHE_ALIGNMENT)) 0)) lp)
    as (buf & Hb & Hlen & Eb).
  { done. }
  { cbn. by rewrite lookup_insert_eq. }
  { rewrite length_take, length_app, length_replicate. cbn. lia. }
  rewrite length_take, length_app, length_replicate in Hlen.
  assert (exists st n, l_entries (l_loaded x e (l_read x id e lp).1 (l_read x id e lp).2).2 =
      <[x := entry_set_ref n (entry_set_state st e)]> (l_entries l) /\
    has_flag st KES_EXTENT_LOADING = false) as (st & n & Een' & Hst).
  { unfold l_loaded. destruct (_ =? KES_SUCCESS); cbn; rewrite Een; cbn; rewrite insert_insert_eq.
    - exists KES_EXTENT_CLEAN, 1. done.
    - exists KES_EXTENT_ERROR, 0. done. }
  assert (forall w, w = (l_loaded x e (l_read x id e lp).1 (l_read x id e lp).2).2 ->
    l_order w = x :: l_order l /\
    c_bucket_mask (l_cache w) = c_bucket_mask (l_cache l) /\
    c_bucket_count (l_cache w) = c_bucket_count (l_cache l) /\
    l_bufs w = <[env_next v' := buf]> (l_bufs l) /\ l_env w = bump v') as Hw.
  { intros w ->. unfold l_loaded. destruct (_ =? KES_SUCCESS); cbn;
      rewrite Eo, Ec, Ev, Eb; cbn; rewrite insert_insert_eq; done. }
  destruct (Hw _ eq_refl) as (Ew & Ewm & Ewc & Ewb & Ewv). split.
  - eapply (lwf_add x _ (env_next v') buf); [exact Hl|done|done| | | |done|exact Een'|done..| | |];
      rewrite ?Ewv; cbn; [exact Hne|done| |lia|lia|lia].
    split; cbn; [|done|done|exact Hst]. exists (env_next v'), buf. rewrite lookup_insert_eq.
    split_and!; [done|done|]. lia.
  - eapply (chains_add x (entry_set_ref n (entry_set_state st e))); done.
Qed.

Lemma miss_implements id ch (l : lcache D) :
  lwf l -> chains_ok ch l -> 0 <= extent_data_size id < 2 ^ 62 -> l_find id l = None ->
  exists ch', chains_ok ch' (l_miss id l).2 /\ lwf (l_miss id l).2 /\
    steps (get_miss id) (mkView ∅ no_pins ch l) (l_miss id l).1
      (mkView ∅ no_pins ch' (l_miss id l).2).
Proof.
  intros Hl Hc Hsz Hf. unfold l_miss, get_miss.
  destruct (steps_make_room (extent_data_size id) ch l Hl Hc) as (ch1 & Hc1 & Hl1 & Hs1).
  pose proof (kept_make_room (extent_data_size id) l) as [Kv _ Ki].
  destruct (l_make_room (extent_data_size id) l) as [room l1]. cbn [fst snd] in *.
  assert (forall y f, l_entries l1 !! y = Some f -> kes_extent_equal (e_id f) id = false) as Hne.
  { intros y f (f0 & Hy & ->)%Ki. exact (l_find_none id l Hl Hf y f0 Hy). }
  destruct room; cbn [negb].
  2:{ exists ch1. split_and!; [by eapply chains_ok_same|by apply lwf_inflight|].
      eapply steps_bind; [exact Hs1|]. cbn [negb].
      eapply steps_bind; [apply steps_leave_lookup|]. apply steps_ret. }
  destruct (next_failure (l_env l1)) as [failed v] eqn:Hf1.
  pose proof (next_failure_next _ _ _ Hf1) as Hv. destruct failed.
  { exists ch1. split_and!; [by eapply chains_ok_same|apply lwf_inflight, lwf_env; [done|lia]|].
    eapply steps_bind; [exact Hs1|]. cbn [negb].
    eapply steps_bind; [by apply steps_make_candidate_none|]. apply steps_ret. }
  pose proof (steps_make_candidate id v ch1 l1 Hl1 Hc1 Hf1) as Hmc.
  destruct (next_failure (bump v)) as [failed v'] eqn:Hf2.
  pose proof (next_failure_next _ _ _ Hf2) as Hv'. cbn [bump env_next] in Hv'. destruct failed.
  { exists ch1. split_and!; [by eapply chains_ok_same|apply lwf_inflight, lwf_env; [done|lia]|].
    eapply steps_bind; [exact Hs1|]. cbn [negb].
    eapply steps_bind; [exact Hmc|]. apply steps_ret. }
  destruct (chains_bucket ch1 l1 id Hc1) as [ls Hls].
  destruct (load_ok id v v' ch1 l1 ls Hl1 Hc1 Hsz Hne Hv Hv' Hls) as [Hl2 Hc2].
  destruct (fresh_address v l1 ch1 Hl1 Hc1 Hv) as (Hx & _ & Ho & Hch). set (x := env_next v) in *.
  set (e := fresh_entry id (l_now (l_set_env (bump v) l1)) (Some (env_next v'))) in *.
  eexists. split; [exact Hc2|]. split; [exact Hl2|].
  eapply steps_bind; [exact Hs1|]. cbn [negb].
  eapply steps_bind; [exact Hmc|].
  assert (l_entries (with_candidate id v v' l1) !! x = Some e) as He by apply lookup_insert_eq.
  eapply steps_bind.
  { eapply (steps_hash_insert x e ls); [apply Hl1|exact He|exact Hls| |by apply Hc1|exact Hch|].
    - constructor; [exact (Hch _ _ Hls)|exact (ck_nodup _ _ Hc1 _ _ Hls)].
    - intros y Hy. destruct (ck_in _ _ Hc1 _ _ y Hls Hy) as (_ & f & Hyf & _). exists f. split.
      + cbn. rewrite lookup_insert_ne; [done|]. fold x. intros ->. congruence.
      + by eapply Hne. }
  eapply steps_bind; [apply (steps_publish x e); [exact He|]|].
  { constructor; [exact Ho|apply Hl1]. }
  change (e_id e) with id. eapply steps_bind.
  { eapply (steps_read_entry x id e); [exact He|right].
    exists (env_next v'). eexists. split; [done|]. split; [apply lookup_insert_eq|].
    destruct (align_spec _ Hsz) as [_ Hal]. rewrite length_take, length_app, length_replicate.
    cbn. lia. }
  rewrite l_load_eq. apply steps_finish_load.
  pose proof (l_read_same x id e (l_publish x e (with_candidate id v v' l1))) as (_ & _ & Een & _).
  rewrite <-He. by apply (f_equal (fun m => m !! x)) in Een.
Qed.

(** ** The operation *)

Lemma steps_assoc {A B C} (m : prog D A) (f : A -> prog D B) (k : B -> prog D C) v r v' :
  steps (pbind (pbind m f) k) v r v' -> steps (pbind m (fun x => pbind (f x) k)) v r v'.
Proof.
  intros H s Hs. destruct (H s Hs) as (s' & Hr & Hs'). exists s'. split; [|done].
  rewrite <-Hr, !run_bind. destruct (run m s) as [[x s1]| |]; [|done|done]. by rewrite run_bind.
Qed.

(** Every well-formed cache has chains. *)
Lemma chains_exist (l : lcache D) : lwf l -> exists ch, chains_ok ch l.
Proof.
  intros Hl. set (at_bucket := fun (i : nat) x =>
    match l_entries l !! x with Some e => bool_decide (i = Z.to_nat (bucket (e_id e))) | None => false end).
  exists ((fun i => List.filter (at_bucket i) (l_order l)) <$> seq 0 1024).
  assert (forall i ls, ((fun i => List.filter (at_bucket i) (l_order l)) <$> seq 0 1024) !! i = Some ls ->
    ls = List.filter (at_bucket i) (l_order l)) as Hi.
  { intros i ls. rewrite list_lookup_fmap. intros (j & Hj & ->)%fmap_Some.
    apply lookup_seq in Hj as [-> _]. done. }
  assert (forall i x, x ∈ List.filter (at_bucket i) (l_order l) -> x ∈ l_order l /\
    exists e, l_entries l !! x = Some e /\ i = Z.to_nat (bucket (e_id e))) as Hin.
  { intros i x [Hx Hb]%list_elem_of_In%filter_In. apply list_elem_of_In in Hx. split; [done|].
    unfold at_bucket in Hb. destruct (l_entries l !! x) as [e|]; [|done]. exists e.
    split; [done|]. by apply bool_decide_eq_true in Hb. }
  split.
  - by rewrite length_fmap, length_seq.
  - intros i j ls ls' x ->%Hi ->%Hi (_ & e & He & ->)%Hin (_ & e' & He' & ->)%Hin. congruence.
  - intros i ls ->%Hi. apply NoDup_ListNoDup, List.NoDup_filter, NoDup_ListNoDup, Hl.
  - intros i ls x ->%Hi. apply Hin.
  - intros x e Hx He. eexists. split.
    + rewrite list_lookup_fmap, lookup_seq_lt; [done|]. pose proof (bucket_range (e_id e)). lia.
    + apply list_elem_of_In, filter_In. split; [by apply list_elem_of_In|].
      unfold at_bucket. rewrite He. by apply bool_decide_eq_true.
Qed.

Lemma accepted_size id :
  id_ok id -> id_accepted id = true -> 0 <= extent_data_size id < 2 ^ 62.
Proof.
  intros [_ Hc Hs] Ha. unfold id_accepted in Ha. apply andb_prop in Ha as [Ha _].
  apply andb_prop in Ha as [_ Hm%Z.leb_le]. unfold extent_data_size, KES_MAX_BLOCK_SIZE in *.
  rewrite u64_small; nia.
Qed.

Lemma get_implements id (l : lcache D) :
  lwf l -> id_ok id -> id_accepted id = true -> c_destroying (l_cache l) = false ->
  lwf (l_get id l).2 /\
    implements (kes_cache_get_extent true (Some id) true) l
    (((l_get id l).1.1, Some (l_get id l).1.2), (l_get id l).2).
Proof.
  intros Hl Hid Ha Hd. pose proof (accepted_size id Hid Ha) as Hsz.
  assert (forall ch, chains_ok ch l -> exists ch', chains_ok ch' (l_get id l).2 /\
    lwf (l_get id l).2 /\
    steps (let* (code, buffer) := let* entry := hash_find id in
             match entry with None => get_miss id | Some l => attach_entry l id end in
           Ret (code, Some buffer)) (mkView ∅ no_pins ch (l_inflight 1 l))
      ((l_get id l).1.1, Some (l_get id l).1.2) (mkView ∅ no_pins ch' (l_get id l).2)) as Hgo.
  { intros ch Hc. unfold l_get. set (l1 := l_inflight 1 l).
    assert (lwf l1) as Hl1 by by apply lwf_inflight.
    assert (chains_ok ch l1) as Hc1 by by eapply chains_ok_same.
    pose proof (steps_hash_find id ch l1 Hl1 Hc1) as Hf.
    destruct (l_find id l1) as [x|] eqn:Ef.
    - apply l_find_Some in Ef as (Hx & _).
      destruct (attach_implements x id ch l1 Hl1 Hc1 Hx) as [Hc' Hs]. exists ch.
      split_and!; [done|by apply lwf_attach|]. eapply steps_bind.
      { eapply steps_bind; [exact Hf|]. exact Hs. }
      destruct (l_attach x id l1).1. apply steps_ret.
    - destruct (miss_implements id ch l1 Hl1 Hc1 Hsz Ef) as (ch' & Hc' & Hl' & Hs). exists ch'.
      split_and!; [done|done|]. eapply steps_bind.
      { eapply steps_bind; [exact Hf|]. eapply steps_pins_ext; [|exact Hs]. done. }
      destruct (l_miss id l1).1. apply steps_ret. }
  split.
  { destruct (chains_exist l Hl) as [ch Hc]. by destruct (Hgo ch Hc) as (_ & _ & Hl' & _). }
  intros ch Hc. destruct (Hgo ch Hc) as (ch' & Hc' & _ & Hs). exists ch'. split; [done|].
  unfold kes_cache_get_extent. cbn [negb orb].
  unfold id_accepted in Ha. apply andb_prop in Ha as [Ha Hcnt%negb_true_iff].
  apply andb_prop in Ha as [Ha Hmax%Z.leb_le]. apply andb_prop in Ha as [Hpow Hmin%Z.leb_le].
  rewrite Hpow, Hcnt. destruct (Z.ltb_spec (id_block_size id) KES_MIN_BLOCK_SIZE); [lia|].
  destruct (Z.ltb_spec KES_MAX_BLOCK_SIZE (id_block_size id)); [lia|]. cbn [negb orb].
  eapply steps_bind; [apply steps_lock; [done|held]|].
  eapply steps_bind; [apply steps_load_cache|].
  change (c_destroying (full ch l)) with (c_destroying (l_cache l)). rewrite Hd.
  eapply steps_bind; [by apply steps_modify_cache|].
  eapply steps_bind; [apply steps_unlock_top; [done|held|lia]|].
  apply steps_assoc. exact Hs.
Qed.
End device.
