(* ===== verification/CacheSystem.v ===== *)
(** * The cache as a sequence of calls

    [cache_op] is the public interface of [include/kes/kes_cache.h] for a
    client that makes one call at a time, with what happens between calls: the
    client stores into a buffer it was given, and the clock and the allocator
    move on.  [exec] runs an operation as the program of [Cache], [l_exec] on
    the reference cache.  [exec_all_refines]: from creation on, every sequence
    of operations runs without undefined behaviour and without blocking, and
    returns what the reference returns. *)
From stdpp Require Import functions.
From S2P Require Import Prelude Types CacheTypes CacheState Cache CacheLinks CacheSpec CacheView.
From S2P Require Import CacheLists CacheWf CacheFacts CacheWalks CacheOps CacheGet.

Section device.
Context {D : Type}.

(** ** Operations *)

Inductive cache_op :=
  | OpGet (id : option kes_extent_id)
  | OpPut (id : option kes_extent_id)
  | OpMarkDirty (id : option kes_extent_id)
  | OpPin (id : option kes_extent_id)
  | OpUnpin (id : option kes_extent_id)
  | OpFlush (id : option kes_extent_id)
  | OpInvalidate (id : option kes_extent_id)
  | OpSync
  | OpGetStats
  | OpResetStats
  | OpSetCallbacks (r : option (read_fn D)) (w : option (write_fn D)) (y : option (sync_fn D))
  | OpStore (p : loc) (bytes : list Z)
  | OpElapse (sec nsec : Z) (script : list bool).

Inductive cache_result :=
  | RCode (r : Z)
  | RBuffer (r : Z) (buffer : option (option loc))
  | RStats (r : Z) (t : option kes_cache_stats)
  | RNone.

(** The client's own [memcpy] into a buffer. *)
Definition client_store (p : loc) (bytes : list Z) : prog D () :=
  writes (fun s =>
    buf ← cs_bufs s !! p;
    if (length bytes <=? length buf)%nat
    then Some (set_bufs (<[p := splice 0 bytes buf]> (cs_bufs s)) s) else None).

(** Time passes; which of the next allocations fail is decided anew. *)
Definition elapsed (sec nsec : Z) (script : list bool) (v : env) : env :=
  mkEnv sec nsec script (env_next v) (env_next_thread v) (env_junk v).
Definition elapse (sec nsec : Z) (script : list bool) : prog D () :=
  writes (fun s => Some (set_env (elapsed sec nsec script (cs_env s)) s)).

Definition coded (m : prog D Z) : prog D cache_result := let* r := m in Ret (RCode r).

Definition exec (op : cache_op) : prog D cache_result :=
  match op with
  | OpGet id => let* (r, b) := kes_cache_get_extent true id true in Ret (RBuffer r b)
  | OpPut id => coded (kes_cache_put_extent true id)
  | OpMarkDirty id => coded (kes_cache_mark_dirty true id)
  | OpPin id => coded (kes_cache_pin_extent true id)
  | OpUnpin id => coded (kes_cache_unpin_extent true id)
  | OpFlush id => coded (kes_cache_flush_extent true id)
  | OpInvalidate id => coded (kes_cache_invalidate true id)
  | OpSync => coded (kes_cache_sync true)
  | OpGetStats => let* (r, t) := kes_cache_get_stats true true in Ret (RStats r t)
  | OpResetStats => coded (kes_cache_reset_stats true)
  | OpSetCallbacks r w y => coded (kes_cache_set_io_callbacks true r w y)
  | OpStore p bytes => client_store p bytes ;;; Ret RNone
  | OpElapse sec nsec script => elapse sec nsec script ;;; Ret RNone
  end.

(** On the reference.  A null identifier is refused. *)
Definition l_coded (f : kes_extent_id -> lcache D -> Z * lcache D) (id : option kes_extent_id)
    (l : lcache D) : cache_result * lcache D :=
  match id with
  | None => (RCode KES_ERROR_INVALID, l)
  | Some id => let '(r, l') := f id l in (RCode r, l')
  end.

Definition l_store (p : loc) (bytes : list Z) (l : lcache D) : lcache D :=
  l_set_bufs (<[p := splice 0 bytes (default [] (l_bufs l !! p))]> (l_bufs l)) l.

Definition l_exec (op : cache_op) (l : lcache D) : cache_result * lcache D :=
  match op with
  | OpGet None => (RBuffer KES_ERROR_INVALID None, l)
  | OpGet (Some id) =>
      if id_accepted id then
        let '((r, b), l') := l_get id l in (RBuffer r (Some b), l')
      else (RBuffer KES_ERROR_INVALID None, l)
  | OpPut id => l_coded l_put_extent id l
  | OpMarkDirty id => l_coded l_mark_dirty id l
  | OpPin id => l_coded l_pin id l
  | OpUnpin id => l_coded l_unpin id l
  | OpFlush id => l_coded l_flush id l
  | OpInvalidate id => l_coded l_invalidate id l
  | OpSync => (RCode KES_SUCCESS, l_sweep l)
  | OpGetStats => (RStats KES_SUCCESS (Some (c_stats (l_cache l))), l)
  | OpResetStats => (RCode KES_SUCCESS, l_stats stat_reset l)
  | OpSetCallbacks r w y =>
      (RCode KES_SUCCESS, l_set_cache (cache_set_callbacks r w y (l_cache l)) l)
  | OpStore p bytes => (RNone, l_store p bytes l)
  | OpElapse sec nsec script => (RNone, l_set_env (elapsed sec nsec script (l_env l)) l)
  end.

Fixpoint exec_all (ops : list cache_op) : prog D (list cache_result) :=
  match ops with
  | [] => Ret []
  | op :: ops' => let* r := exec op in let* rs := exec_all ops' in Ret (r :: rs)
  end.
Fixpoint l_exec_all (ops : list cache_op) (l : lcache D) : list cache_result * lcache D :=
  match ops with
  | [] => ([], l)
  | op :: ops' =>
      let '(r, l1) := l_exec op l in
      let '(rs, l2) := l_exec_all ops' l1 in (r :: rs, l2)
  end.

(** What the client must respect: fields within their C types, stores only
    into the buffer of an extent it holds, within its size. *)
Definition client_ok (op : cache_op) (l : lcache D) : Prop :=
  match op with
  | OpGet (Some id) => id_ok id
  | OpStore p bytes => exists x e, l_entries l !! x = Some e /\ e_data e = Some p /\
      0 < e_ref_count e /\ Z.of_nat (length bytes) <= e_data_size e
  | _ => True
  end.
Fixpoint clients_ok (ops : list cache_op) (l : lcache D) : Prop :=
  match ops with
  | [] => True
  | op :: ops' => client_ok op l /\ clients_ok ops' (l_exec op l).2
  end.

(** ** Between calls *)

Record ready (l : lcache D) : Prop := {
  rd_wf : lwf l;
  rd_live : c_destroying (l_cache l) = false;
  rd_idle : c_inflight_lookups (l_cache l) = 0;
  rd_threads : c_bg_threads (l_cache l) = None
}.

(** A state between two calls, seen as the reference cache [l]. *)
Definition at_rest (l : lcache D) (s : cstate D) : Prop :=
  exists ch, chains_ok ch l /\ rep (mkView ∅ no_pins ch l) s.

Lemma implements_run {A} (m : prog D A) l r s :
  implements m l r -> at_rest l s -> exists s', run m s = Returns (r.1, s') /\ at_rest r.2 s'.
Proof.
  intros Hm (ch & Hc & Hs). destruct (Hm ch Hc) as (ch' & Hc' & Hr).
  destruct (Hr s Hs) as (s' & ? & ?). exists s'. split; [done|]. by exists ch'.
Qed.

(** The fields of the cache structure no entry depends on. *)
Definition same_control (l l' : lcache D) : Prop :=
  c_destroying (l_cache l') = c_destroying (l_cache l) /\
  c_inflight_lookups (l_cache l') = c_inflight_lookups (l_cache l) /\
  c_bg_threads (l_cache l') = c_bg_threads (l_cache l) /\
  c_config (l_cache l') = c_config (l_cache l) /\
  c_shutdown (l_cache l') = c_shutdown (l_cache l).

Lemma same_control_refl l : same_control l l.
Proof. done. Qed.
Lemma same_control_trans l1 l2 l3 : same_control l1 l2 -> same_control l2 l3 -> same_control l1 l3.
Proof. intros (? & ? & ? & ? & ?) (? & ? & ? & ? & ?). split_and!; congruence. Qed.

Lemma control_write_back x (l : lcache D) : same_control l (l_write_back x l).
Proof.
  unfold l_write_back. destruct (l_entries l !! x) as [e|]; [|done]. destruct (_ && _); [|done].
  destruct (c_write_extent _) as [f|]; [|done]. destruct (l_buffer l e); [|done].
  unfold l_write. destruct (f _ _ _ _) as [r d]. by destruct (r =? KES_SUCCESS).
Qed.

Lemma control_try_evict b x (l : lcache D) : same_control l (l_try_evict b x l).2.
Proof.
  unfold l_try_evict. destruct (l_entries l !! x) as [e|]; [|done]. by destruct (evictable b e).
Qed.

Lemma control_foldl (g : loc -> lcache D -> lcache D) ls : 
  (forall x l, same_control l (g x l)) -> forall l, same_control l (foldl (fun l x => g x l) l ls).
Proof.
  intros Hg. induction ls as [|x ls IH]; intros l; [done|]. cbn.
  eapply same_control_trans; [apply Hg|apply IH].
Qed.

Lemma control_sweep (l : lcache D) : same_control l (l_sweep l).
Proof.
  apply (control_foldl l_visit). intros x l'.
  eapply same_control_trans; [apply control_write_back|apply control_try_evict].
Qed.

Lemma control_evict_loop need ls : forall l : lcache D, same_control l (l_evict_loop need ls l).2.
Proof.
  induction ls as [|x ls IH]; intros l; [done|]. cbn.
  pose proof (control_try_evict false x (l_write_back x l)) as Hk.
  destruct (l_try_evict false x (l_write_back x l)) as [evicted l1]. cbn [snd] in Hk.
  pose proof (same_control_trans _ _ _ (control_write_back x l) Hk) as Hk1.
  destruct evicted; [|eapply same_control_trans; [exact Hk1|apply IH]].
  destruct (fits_now _ _); [exact Hk1|]. eapply same_control_trans; [exact Hk1|].
  eapply same_control_trans; [|apply IH]. done.
Qed.

Lemma control_make_room n (l : lcache D) : same_control l (l_make_room n l).2.
Proof. unfold l_make_room. destruct (fits_now _ _); [done|apply control_evict_loop]. Qed.

Lemma control_read x id e (l : lcache D) : same_control l (l_read x id e l).2.
Proof. destruct (l_read_same x id e l) as (_ & Hc & _). unfold same_control. by rewrite Hc. Qed.

Lemma control_retry x id e (l : lcache D) : same_control l (l_retry x id e l).
Proof.
  unfold l_retry. pose proof (control_read x id e l) as Hr. destruct (l_read x id e l) as [r l1].
  cbn [snd] in Hr. by destruct (r =? KES_SUCCESS).
Qed.

(** The lookup counter: one up at the start, one down at the end. *)
Lemma control_get id (l : lcache D) :
  lwf l -> c_inflight_lookups (l_cache l) = 0 -> same_control l (l_get id l).2.
Proof.
  intros Hl Hi. unfold l_get. set (l1 := l_inflight 1 l).
  assert (forall l2, same_control l1 l2 -> same_control l (l_inflight (-1) l2)) as Hdone.
  { intros l2 (H1 & H2 & H3 & H4 & H5). unfold same_control. cbn. rewrite H1, H2, H3, H4, H5. cbn.
    by rewrite Hi. }
  destruct (l_find id l1) as [x|] eqn:Ef.
  - apply l_find_Some in Ef as (_ & e0 & He0 & _). unfold l_attach. rewrite He0.
    set (l2 := if needs_retry e0 then l_retry x id e0 l1 else l1).
    assert (same_control l1 l2) as H2 by (unfold l2; destruct (needs_retry e0); [apply control_retry|done]).
    assert (exists e, l_entries l2 !! x = Some e) as [e He].
    { unfold l2. destruct (needs_retry e0); [|by eexists].
      destruct (retry_entry x id e0 l1) as (st & -> & _). rewrite lookup_insert_eq. by eexists. }
    rewrite He. destruct (has_flag _ _); cbn [snd]; by apply Hdone.
  - unfold l_miss. pose proof (control_make_room (extent_data_size id) l1) as Hr.
    destruct (l_make_room _ l1) as [room l2]. cbn [snd] in Hr.
    destruct room; cbn [negb]; [|by apply Hdone].
    destruct (next_failure (l_env l2)) as [[] v]; [by apply Hdone|].
    destruct (next_failure (bump v)) as [[] v']; [by apply Hdone|].
    unfold l_load. destruct (l_read _ _ _ _) as [r l3] eqn:Er.
    assert (same_control l l3) as H3.
    { eapply same_control_trans; [apply (Hdone l2 Hr)|].
      match type of Er with ?t = _ => assert (l3 = t.2) as -> by by rewrite Er end.
      eapply same_control_trans; [|apply control_read]. done. }
    by destruct (r =? KES_SUCCESS).
Qed.

(** ** Every operation keeps the cache ready *)

Lemma ready_control l l' : ready l -> lwf l' -> same_control l l' -> ready l'.
Proof. intros [_ ? ? ?] Hl' (? & ? & ? & ? & ?). split; congruence || done. Qed.

Lemma ready_with id k (l : lcache D) :
  ready l ->
  (forall x e, l_entries l !! x = Some e -> lwf (k x e l).2 /\ same_control l (k x e l).2) ->
  ready (l_with id l k).2.
Proof.
  intros Hr Hk. unfold l_with. destruct (l_find id l) as [x|]; [|done].
  destruct (l_entries l !! x) as [e|] eqn:He; [|done]. destruct (Hk x e He).
  by eapply ready_control.
Qed.

Lemma ready_coded f id (l : lcache D) :
  ready l -> (forall id, ready (f id l).2) -> ready (l_coded f id l).2.
Proof.
  intros Hr Hf. destruct id as [id|]; [|done]. unfold l_coded. specialize (Hf id).
  by destruct (f id l).
Qed.

Lemma lwf_flag x e e' (l : lcache D) :
  lwf l -> l_entries l !! x = Some e -> same_shape e e' ->
  is_loading e' = is_loading e -> lwf (l_put x e' l).
Proof.
  intros Hl He Hs Hld. eapply lwf_put; [done|exact He|done|]. rewrite Hld. apply (wf_entry _ Hl x e He).
Qed.

Lemma ready_put id (l : lcache D) : ready l -> ready (l_put_extent id l).2.
Proof.
  intros Hr. apply ready_with; [done|]. intros x e He. split; [|done].
  eapply lwf_flag; [apply Hr|exact He|..]; by destruct (0 <? e_ref_count e).
Qed.

Lemma ready_mark_dirty id (l : lcache D) : ready l -> ready (l_mark_dirty id l).2.
Proof.
  intros Hr. apply ready_with; [done|]. intros x e He. cbn [snd].
  destruct (has_flag _ _); (split; [|done]); [apply Hr|]. apply lwf_stats.
  eapply lwf_flag; [apply Hr|exact He|done|]. by flags.
Qed.

Lemma ready_pin id (l : lcache D) : ready l -> ready (l_pin id l).2.
Proof.
  intros Hr. apply ready_with; [done|]. intros x e He. cbn [snd].
  destruct (_ =? 0); (split; [|done]); [apply lwf_stats|];
    (eapply lwf_flag; [apply Hr|exact He|done|]); by flags.
Qed.

Lemma ready_unpin id (l : lcache D) : ready l -> ready (l_unpin id l).2.
Proof.
  intros Hr. apply ready_with; [done|]. intros x e He. cbn [snd].
  destruct (0 <? _); [|split; [apply Hr|done]].
  destruct (_ =? 0); (split; [|done]); [apply lwf_stats|];
    (eapply lwf_flag; [apply Hr|exact He|done|]); by flags.
Qed.

Lemma control_write f id x e buf (l : lcache D) : same_control l (l_write f id x e buf l).2.
Proof. unfold l_write. destruct (f _ _ _ _) as [r d]. by destruct (r =? KES_SUCCESS). Qed.

Lemma ready_flush id (l : lcache D) : ready l -> ready (l_flush id l).2.
Proof.
  intros Hr. apply ready_with; [done|]. intros x e He.
  assert (lwf l /\ same_control l l) as Hs by (split; [apply Hr|done]).
  destruct (has_flag _ _); [|done]. destruct (c_write_extent _) as [f|]; [|done].
  destruct (l_buffer l e) as [buf|]; [|done].
  pose proof (lwf_write f id x e buf l (rd_wf _ Hr) He) as Hw.
  pose proof (control_write f id x e buf l) as Hc. by destruct (l_write f id x e buf l).
Qed.

Lemma ready_invalidate id (l : lcache D) : ready l -> ready (l_invalidate id l).2.
Proof.
  intros Hr. apply ready_with; [done|]. intros x e He. pose proof (rd_wf _ Hr) as Hl.
  assert (lwf l /\ same_control l l) as Hs by done.
  destruct (_ || _); [done|]. pose proof (lwf_try_evict true x l Hl) as Hw.
  pose proof (control_try_evict true x l) as Hc. destruct (l_try_evict true x l) as [evicted l1].
  cbn [snd] in *. destruct evicted; cbn [negb]; [|done].
  destruct (has_flag _ _); cbn [snd]; (split; [|done]); [by apply lwf_stats|done].
Qed.

Lemma lwf_sweep (l : lcache D) : lwf l -> lwf (l_sweep l).
Proof.
  intros Hl. destruct (chains_exist l Hl) as [ch Hc].
  by destruct (steps_cache_sweep ch l Hl Hc) as (_ & _ & Hl' & _).
Qed.

Lemma lwf_store p bytes x e (l : lcache D) :
  lwf l -> l_entries l !! x = Some e -> e_data e = Some p ->
  Z.of_nat (length bytes) <= e_data_size e -> lwf (l_store p bytes l).
Proof.
  intros Hl He Hp Hn. destruct (entry_buffer _ _ (wf_entry _ Hl x e He)) as (q & buf & Hq & Hb & Hs).
  assert (q = p) as -> by congruence. unfold l_store. rewrite Hb. change (default [] (Some buf)) with buf.
  eapply lwf_buf; [done|exact Hb|]. rewrite length_splice. lia.
Qed.

Lemma ready_exec op (l : lcache D) : ready l -> client_ok op l -> ready (l_exec op l).2.
Proof.
  intros Hr Hok. pose proof Hr as [Hl Hd Hi Ht].
  destruct op as [[id|]|id|id|id|id|id|id| | | |r w y|p bytes|sec nsec script]; cbn [l_exec]; try done.
  - destruct (id_accepted id) eqn:Ha; [|done].
    pose proof (proj1 (get_implements id l Hl Hok Ha Hd)) as Hl'.
    pose proof (control_get id l Hl Hi) as Hc. destruct (l_get id l) as [[r b] l'].
    by eapply ready_control.
  - apply ready_coded; [done|]. intros. by apply ready_put.
  - apply ready_coded; [done|]. intros. by apply ready_mark_dirty.
  - apply ready_coded; [done|]. intros. by apply ready_pin.
  - apply ready_coded; [done|]. intros. by apply ready_unpin.
  - apply ready_coded; [done|]. intros. by apply ready_flush.
  - apply ready_coded; [done|]. intros. by apply ready_invalidate.
  - eapply ready_control; [done|by apply lwf_sweep|apply control_sweep].
  - eapply ready_control; [done|by apply lwf_stats|done].
  - eapply ready_control; [done|by apply lwf_cache|done].
  - destruct Hok as (x & e & He & Hp & _ & Hn). eapply ready_control; [done| |done].
    by eapply lwf_store.
  - eapply ready_control; [done|by apply lwf_env|done].
Qed.

(** ** Refinement *)

Lemma implements_coded (m : prog D Z) (l : lcache D) r :
  implements m l r -> implements (coded m) l (RCode r.1, r.2).
Proof.
  intros Hm ch Hc. destruct (Hm ch Hc) as (ch' & Hc' & Hs). exists ch'. split; [done|].
  eapply steps_bind; [exact Hs|]. apply steps_ret.
Qed.

Lemma implements_opt (m : option kes_extent_id -> prog D Z) f id (l : lcache D) :
  (forall s, run (m None) s = Returns (KES_ERROR_INVALID, s)) ->
  (forall id, implements (m (Some id)) l (f id l)) ->
  implements (coded (m id)) l (l_coded f id l).
Proof.
  intros Hn Hf. destruct id as [id|].
  - pose proof (implements_coded _ _ _ (Hf id)) as H. unfold l_coded. by destruct (f id l).
  - intros ch Hc. exists ch. split; [done|]. intros s Hs. exists s. split; [|done].
    unfold coded. by rewrite run_bind, Hn.
Qed.

Lemma implements_same {A} (m : prog D A) (l : lcache D) r :
  (forall s, run m s = Returns (r, s)) -> implements m l (r, l).
Proof. intros Hm ch Hc. exists ch. split; [done|]. intros s Hs. exists s. by rewrite Hm. Qed.

Lemma exec_implements op (l : lcache D) :
  ready l -> client_ok op l -> implements (exec op) l (l_exec op l).
Proof.
  intros [Hl Hd Hi Ht] Hok.
  destruct op as [[id|]|id|id|id|id|id|id| | | |r w y|p bytes|sec nsec script]; cbn [l_exec exec].
  - destruct (id_accepted id) eqn:Ha.
    + destruct (get_implements id l Hl Hok Ha Hd) as [_ Hm]. destruct (l_get id l) as [[r b] l'].
      intros ch Hc. destruct (Hm ch Hc) as (ch' & Hc' & Hs). exists ch'. split; [done|].
      eapply steps_bind; [exact Hs|]. apply steps_ret.
    + apply implements_same. intros s. unfold kes_cache_get_extent, id_accepted in *. cbn [negb orb].
      rewrite !andb_false_iff, negb_false_iff, !Z.leb_gt in Ha.
      destruct (KES_IS_POWER_OF_2 _); [|done]. cbn [negb orb].
      destruct (Z.ltb_spec (id_block_size id) KES_MIN_BLOCK_SIZE); [done|].
      destruct (Z.ltb_spec KES_MAX_BLOCK_SIZE (id_block_size id)); [done|]. cbn [orb].
      destruct Ha as [[[?|?]|?]|Ha]; [done|lia|lia|]. by rewrite Ha.
  - by apply implements_same.
  - apply implements_opt; [done|]. intros. by apply put_implements.
  - apply implements_opt; [done|]. intros. by apply mark_dirty_implements.
  - apply implements_opt; [done|]. intros. by apply pin_implements.
  - apply implements_opt; [done|]. intros. by apply unpin_implements.
  - apply implements_opt; [done|]. intros. by apply flush_implements.
  - apply implements_opt; [done|]. intros. by apply invalidate_implements.
  - exact (implements_coded _ _ _ (sync_implements l Hl)).
  - intros ch Hc. destruct (get_stats_implements l ch Hc) as (ch' & Hc' & Hs). exists ch'.
    split; [done|]. eapply steps_bind; [exact Hs|]. apply steps_ret.
  - apply (implements_coded _ _ _ (reset_stats_implements l)).
  - apply (implements_coded _ _ _ (set_callbacks_implements r w y l)).
  - destruct Hok as (x & e & He & Hp & _ & Hn).
    destruct (entry_buffer _ _ (wf_entry _ Hl x e He)) as (q & buf & Hq & Hb & Hs).
    assert (q = p) as -> by congruence. intros ch Hc. exists ch. split; [by eapply chains_ok_same|].
    intros s Hrep. destruct Hrep as [? ? ? ? ? ? ? Hbs ? ? ? ?]. cbn in *. unfold l_store. rewrite Hb.
    rewrite Hbs, Hb. cbn -[splice]. destruct (Nat.leb_spec (length bytes) (length buf)); [|lia].
    eexists. split; [done|]. by split.
  - intros ch Hc. exists ch. split; [by eapply chains_ok_same|].
    intros s [? ? ? ? ? ? ? ? ? ? Hv ?]. cbn in *. rewrite Hv. eexists. split; [done|]. by split.
Qed.

Lemma exec_all_refines ops : forall (l : lcache D) s,
  ready l -> clients_ok ops l -> at_rest l s ->
  ready (l_exec_all ops l).2 /\
  exists s', run (exec_all ops) s = Returns ((l_exec_all ops l).1, s') /\
    at_rest (l_exec_all ops l).2 s'.
Proof.
  induction ops as [|op ops IH]; intros l s Hr Hok Hs; [split; [done|]; by exists s|].
  destruct Hok as [Hop Hok]. cbn [exec_all l_exec_all].
  destruct (implements_run _ _ _ s (exec_implements op l Hr Hop) Hs) as (s1 & Hr1 & Hs1).
  pose proof (ready_exec op l Hr Hop) as Hready. destruct (l_exec op l) as [r l1]. cbn [fst snd] in *.
  destruct (IH l1 s1 Hready Hok Hs1) as (Hready' & s2 & Hr2 & Hs2).
  destruct (l_exec_all ops l1) as [rs l2]. split; [done|]. exists s2. split; [|done].
  rewrite run_bind, Hr1, run_bind, Hr2. done.
Qed.
End device.

Arguments cache_op D : clear implicits.
