(* ===== verification/CacheLifecycle.v ===== *)
(** * Creating and destroying the cache

    [kes_cache_create] establishes the reference cache without entries;
    [kes_cache_destroy] frees everything unless an extent is still referenced
    or pinned. *)
From stdpp Require Import functions.
From S2P Require Import Prelude Types CacheTypes CacheState Cache CacheLinks CacheSpec CacheView.
From S2P Require Import CacheLists CacheWf CacheFacts CacheWalks CacheOps CacheGet CacheSystem.

Section device.
Context {D : Type}.

(** No cache and nothing allocated by it. *)
Record no_cache (s : cstate D) : Prop := {
  nc_cache : cs_cache s = None;
  nc_entries : cs_entries s = ∅;
  nc_list : cs_list s = ∅;
  nc_hash : cs_hash s = ∅;
  nc_pins : cs_pins s = ∅;
  nc_bufs : cs_bufs s = ∅;
  nc_held : cs_held s = ∅
}.

(** ** Creation *)

Definition config_accepted (cfg : kes_cache_config) : bool :=
  (KES_CACHE_MIN_MEMORY <=? cc_max_memory cfg) && (KES_CACHE_MIN_ENTRIES <=? cc_max_entries cfg) &&
  bool_decide (cc_policy cfg = KES_CACHE_LRU).

Definition new_cache (cfg : kes_cache_config) : kes_cache D :=
  mkCache cfg zero_cache_stats (replicate (Z.to_nat KES_CACHE_DEFAULT_BUCKETS) None)
    KES_CACHE_DEFAULT_BUCKETS (KES_CACHE_DEFAULT_BUCKETS - 1)
    None None None false 0 false None None None.
Definition l_new (cfg : kes_cache_config) (threads : list Z) (v : env) (d : D) : lcache D :=
  mkL [] (new_cache cfg) ∅ ∅ threads v d.

Lemma ready_new cfg ts v d : ready (l_new cfg ts v d).
Proof.
  split; [|done..]. split; cbn; try done.
  - constructor.
  - intros x. rewrite lookup_empty. split; [by intros ?%not_elem_of_nil|by intros [? ?]].
  - intros p [? Hp]. by rewrite lookup_empty in Hp.
  - intros x. rewrite !lookup_empty. by intros [[? ?]|[? ?]].
Qed.

Definition no_chains : list (list loc) := replicate 1024 [].
#[local] Arguments no_chains : simpl never.

Lemma no_chains_lookup i ls : no_chains !! i = Some ls -> ls = [].
Proof. by intros [-> _]%lookup_replicate. Qed.
Lemma no_chains_heads : head <$> no_chains = replicate (Z.to_nat KES_CACHE_DEFAULT_BUCKETS) None.
Proof. reflexivity. Qed.

Lemma chains_new cfg ts v d : chains_ok no_chains (l_new cfg ts v d).
Proof.
  split.
  - reflexivity.
  - intros i j ls ls' x ->%no_chains_lookup _ Hx. by apply not_elem_of_nil in Hx.
  - intros i ls ->%no_chains_lookup. constructor.
  - intros i ls x ->%no_chains_lookup Hx. by apply not_elem_of_nil in Hx.
  - intros x e Hx. by apply not_elem_of_nil in Hx.
Qed.

Lemma rep_new cfg v (s : cstate D) :
  no_cache s ->
  at_rest (l_new cfg (cs_threads s) v (cs_dev s)) (set_cache (Some (new_cache cfg)) (set_env v s)).
Proof.
  intros [Hc He Hl Hh Hp Hb Hd]. exists no_chains. split; [apply chains_new|].
  split; cbn [set_cache set_env cs_cache cs_entries cs_list cs_hash cs_pins cs_bufs cs_held cs_threads
    cs_env cs_dev v_l v_chains v_held v_pins]; rewrite ?He, ?Hl, ?Hh, ?Hp, ?Hb, ?Hd; try done.
  - intros i ls ->%no_chains_lookup. done.
  - intros x. cbn. by rewrite !lookup_empty, !is_Some_alt.
  - intros x. cbn. by rewrite !lookup_empty, !is_Some_alt.
Qed.

Lemma create_run cfg (s : cstate D) :
  no_cache s ->
  let '(failed, v) := next_failure (cs_env s) in
  let '(failed', v') := next_failure v in
  exists s', run (kes_cache_create (Some cfg)) s =
    Returns (config_accepted cfg && negb failed && negb failed', s') /\
    (if config_accepted cfg && negb failed && negb failed'
     then at_rest (l_new cfg (cs_threads s) v' (cs_dev s)) s' else no_cache s').
Proof.
  intros Hs. destruct (next_failure (cs_env s)) as [failed v] eqn:Hf.
  destruct (next_failure v) as [failed' v'] eqn:Hf'.
  assert (forall w, no_cache (set_env w s)) as Hn by (intros w; by destruct Hs).
  unfold kes_cache_create, config_accepted. rewrite !Z.leb_antisym.
  destruct (cc_max_memory cfg <? KES_CACHE_MIN_MEMORY); [by exists s|].
  destruct (cc_max_entries cfg <? KES_CACHE_MIN_ENTRIES); [by exists s|]. cbn [negb orb andb].
  case_decide; [|rewrite bool_decide_false by done; by exists s]. rewrite bool_decide_true by done.
  cbn [andb]. rewrite run_bind. cbn [run calloc_ok act]. rewrite Hf.
  destruct failed; cbn [negb andb]; [by eexists|].
  rewrite run_bind. cbn [run calloc_ok act]. cbn [cs_env set_env]. rewrite Hf'.
  destruct failed'; cbn [negb]; [eexists; split; [done|exact (Hn v')]|].
  eexists. split; [done|]. exact (rep_new cfg v' s Hs).
Qed.

(** ** Destruction *)

(** An extent somebody still uses. *)
Definition in_use (e : kes_extent_entry) : bool := (0 <? e_ref_count e) || (0 <? e_pin_count e).

(** The counters are unsigned. *)
Definition counts_ok (l : lcache D) : Prop :=
  forall x e, l_entries l !! x = Some e -> 0 <= e_ref_count e /\ 0 <= e_pin_count e.

Lemma evictable_in_use x e (l : lcache D) :
  lwf l -> counts_ok l -> l_entries l !! x = Some e -> evictable true e = negb (in_use e).
Proof.
  intros Hl Hc He. pose proof (wf_entry _ Hl x e He) as [_ _ Hw _]. pose proof (Hc x e He).
  unfold evictable, in_use. rewrite Hw. cbn.
  destruct (Z.eqb_spec (e_ref_count e) 0), (Z.eqb_spec (e_pin_count e) 0),
    (Z.ltb_spec 0 (e_ref_count e)), (Z.ltb_spec 0 (e_pin_count e)); cbn; done || lia.
Qed.

(** The pass over [ls] removes what may go and touches nothing else. *)
Lemma drain_entries b ls : forall (l : lcache D), NoDup ls ->
  forall y, l_entries (foldl (fun l x => (l_try_evict b x l).2) l ls) !! y =
    (if decide (y ∈ ls) then
       e ← l_entries l !! y; if evictable b e then None else Some e
     else l_entries l !! y).
Proof.
  induction ls as [|x ls IH]; intros l Hnd y; [done|].
  apply NoDup_cons in Hnd as [Hx Hnd]. cbn [foldl]. rewrite IH by done.
  assert (forall z, z ≠ x -> l_entries (l_try_evict b x l).2 !! z = l_entries l !! z) as Hne.
  { intros z Hz. unfold l_try_evict. destruct (l_entries l !! x) as [e|]; [|done].
    destruct (evictable b e); [|done]. cbn. by rewrite lookup_delete_ne. }
  destruct (decide (y = x)) as [->|Hyx].
  - rewrite decide_False by done. rewrite decide_True by (by left). unfold l_try_evict.
    destruct (l_entries l !! x) as [e|] eqn:He; [|cbn; by rewrite He].
    cbn [mbind option_bind]. destruct (evictable b e); [|done]. cbn. by rewrite lookup_delete_eq.
  - rewrite Hne by done. destruct (decide (y ∈ ls)) as [Hin|Hin].
    + rewrite decide_True by (by right). done.
    + rewrite decide_False; [done|]. by intros [?|?]%elem_of_cons.
Qed.

Lemma drain_other b ls : forall (l : lcache D),
  let l' := foldl (fun l x => (l_try_evict b x l).2) l ls in
  l_dev l' = l_dev l /\ l_env l' = l_env l /\ l_threads l' = l_threads l /\ same_control l l'.
Proof.
  induction ls as [|x ls IH]; intros l; [done|]. cbn [foldl].
  destruct (IH (l_try_evict b x l).2) as (-> & -> & -> & Hc).
  pose proof (control_try_evict b x l) as Hc'.
  split_and!; [..|by eapply same_control_trans]; unfold l_try_evict;
    (destruct (l_entries l !! x) as [e|]; [by destruct (evictable b e)|done]).
Qed.

Lemma lwf_drain b ls : forall (l : lcache D), lwf l ->
  lwf (foldl (fun l x => (l_try_evict b x l).2) l ls).
Proof. induction ls as [|x ls IH]; intros l Hl; [done|]. by apply IH, lwf_try_evict. Qed.

Lemma drain_filter (l : lcache D) :
  lwf l -> counts_ok l ->
  l_entries (l_drain l) = filter (fun p => in_use p.2 = true) (l_entries l).
Proof.
  intros Hl Hc. apply map_eq. intros y. unfold l_drain. rewrite drain_entries by apply Hl.
  rewrite map_lookup_filter. destruct (l_entries l !! y) as [e|] eqn:He; cbn.
  - rewrite decide_True by (apply (wf_dom _ Hl); by eexists).
    rewrite (evictable_in_use y e l) by done. case_guard as Hu; [by rewrite Hu|].
    by destruct (in_use e).
  - by destruct (decide (y ∈ l_order l)).
Qed.

Definition l_stopped (l : lcache D) : lcache D :=
  l_set_cache (cache_set_threads (c_bg_threads (l_cache l)) true (l_cache l)) l.
Definition l_destroying (b : bool) (l : lcache D) : lcache D :=
  l_set_cache (cache_set_destroying b (l_cache l)) l.

(** What [kes_cache_destroy] does to a cache without background threads: the
    cache left, if it is refused. *)
Definition l_destroy (l : lcache D) : Z * option (lcache D) :=
  let l1 := l_drain (l_destroying true (l_stopped l)) in
  if decide (l_order l1 = []) then (KES_SUCCESS, None)
  else (KES_ERROR_BUSY, Some (l_destroying false l1)).

Lemma steps_stop P ch (l : lcache D) :
  c_bg_threads (l_cache l) = None ->
  steps (kes_cache_stop true) (mkView ∅ P ch l) KES_SUCCESS (mkView ∅ P ch (l_stopped l)).
Proof.
  intros Ht. unfold kes_cache_stop. cbn [negb].
  eapply steps_bind; [apply steps_lock; [done|held]|].
  eapply steps_bind; [by apply steps_modify_cache|].
  eapply steps_bind; [apply steps_unlock_top; [done|held|lia]|].
  eapply steps_bind; [apply steps_load_cache|].
  destruct (c_bg_threads (full ch _)) as [ts|] eqn:E; [|eapply steps_bind; apply steps_ret].
  exfalso. change (c_bg_threads (l_cache l) = Some ts) in E. congruence.
Qed.

(** Like [steps], for a program that ends in a state without a cache. *)
Definition ends {A} (m : prog D A) (v : view D) (r : A) (Q : cstate D -> Prop) : Prop :=
  forall s, rep v s -> exists s', run m s = Returns (r, s') /\ Q s'.

Lemma ends_bind {A B} (m : prog D A) (k : A -> prog D B) v r v1 b Q :
  steps m v r v1 -> ends (k r) v1 b Q -> ends (pbind m k) v b Q.
Proof.
  intros H1 H2 s Hs. rewrite run_bind. destruct (H1 s Hs) as (s1 & -> & Hs1). by apply H2.
Qed.

Lemma ends_bind_assoc {A B C} (m : prog D A) (f : A -> prog D B) (k : B -> prog D C) v r v1 c Q :
  steps (pbind m f) v r v1 -> ends (k r) v1 c Q -> ends (pbind m (fun x => pbind (f x) k)) v c Q.
Proof.
  intros H1 H2 s Hs. destruct (H1 s Hs) as (s1 & Hr & Hs1). rewrite run_bind. rewrite run_bind in Hr.
  destruct (run m s) as [[x s']| |]; [|done|done]. rewrite run_bind, Hr. by apply H2.
Qed.

Lemma ends_steps {A} (m : prog D A) v r v' (Q : cstate D -> Prop) :
  steps m v r v' -> (forall s, rep v' s -> Q s) -> ends m v r Q.
Proof. intros H HQ s Hs. destruct (H s Hs) as (s' & ? & ?). exists s'. split; [done|]. by apply HQ. Qed.

(** An empty, well-formed cache owns no memory. *)
Lemma empty_owns_nothing ch (l : lcache D) s :
  lwf l -> l_order l = [] -> rep (mkView ∅ no_pins ch l) s -> no_cache (set_cache None s).
Proof.
  intros Hl Ho [_ _ _ Hli Hh Hp He Hb Hhe _ _ _]. cbn in *.
  assert (l_entries l = ∅) as El.
  { apply map_empty. intros x. apply eq_None_not_Some. rewrite <-(wf_dom _ Hl), Ho.
    apply not_elem_of_nil. }
  assert (forall (A : Type) (m : gmap loc A), (forall x, is_Some (m !! x) <-> is_Some (l_entries l !! x)) -> m = ∅)
    as Hem.
  { intros A m Hm. apply map_empty. intros x. apply eq_None_not_Some. rewrite Hm, El, lookup_empty.
    by intros [? ?]. }
  split; cbn; [done|by rewrite He|by apply Hem|by apply Hem| | |done].
  - apply map_empty. intros x. by rewrite Hp, El, lookup_empty.
  - rewrite Hb. apply map_empty. intros q. apply eq_None_not_Some. intros Hq.
    destruct (wf_leak _ Hl q Hq) as (x & e & Hx & _). by rewrite El, lookup_empty in Hx.
Qed.

Lemma destroy_ends ch (l : lcache D) :
  ready l -> chains_ok ch l ->
  ends (kes_cache_destroy true) (mkView ∅ no_pins ch l) (l_destroy l).1
    (fun s' => match (l_destroy l).2 with
               | None => no_cache s' /\ cs_dev s' = l_dev l
               | Some l' => ready l' /\ at_rest l' s'
               end).
Proof.
  intros [Hl Hd Hi Ht] Hc. set (l0 := l_destroying true (l_stopped l)).
  assert (lwf l0) as Hl0 by (apply (lwf_cache (l_stopped l)); [by apply lwf_cache|done..]).
  assert (chains_ok ch l0) as Hc0 by by eapply chains_ok_same.
  destruct (steps_walk _ _ ch l0 destroy_visits Hl0 Hc0) as (ch' & Hc' & Hl' & Hw).
  change (foldl _ l0 (l_order l0)) with (l_drain l0) in *.
  destruct (drain_other true (l_order l0) l0) as (Hdev & _ & _ & Hctl). 
  change (foldl _ l0 (l_order l0)) with (l_drain l0) in Hdev, Hctl.
  destruct Hctl as (_ & Hin & Hth & _).
  change (c_inflight_lookups (l_cache l0)) with (c_inflight_lookups (l_cache l)) in Hin.
  change (c_bg_threads (l_cache l0)) with (c_bg_threads (l_cache l)) in Hth.
  change (l_dev l0) with (l_dev l) in Hdev.
  unfold kes_cache_destroy. cbn [negb].
  eapply ends_bind; [by apply steps_stop|].
  eapply ends_bind; [apply steps_lock; [done|held]|].
  eapply ends_bind; [apply steps_load_cache|].
  change (c_inflight_lookups (full ch _)) with (c_inflight_lookups (l_cache l)). rewrite Hi. cbn [negb Z.eqb].
  eapply ends_bind; [by apply steps_modify_cache|].
  eapply ends_bind; [by apply (steps_pin_head _ ch l0)|].
  eapply ends_bind; [apply steps_unlock_top; [done|held|lia]|].
  eapply ends_bind_assoc; [exact Hw|].
  eapply ends_bind; [apply steps_lock; [done|held]|].
  eapply ends_bind; [apply steps_load_cache|].
  change (c_mru_head (full ch' _)) with (head (l_order (l_drain l0))).
  change (c_inflight_lookups (full ch' _)) with (c_inflight_lookups (l_cache (l_drain l0))).
  rewrite Hin, Hi. unfold l_destroy. fold l0. destruct (l_order (l_drain l0)) as [|y o] eqn:Eo.
  - rewrite decide_True by done. cbn [head bool_decide decide_rel andb Z.eqb fst snd].
    eapply ends_bind; [apply steps_unlock_top; [done|held|lia]|].
    intros s Hs. eexists. split; [done|]. split; [by eapply empty_owns_nothing|].
    rewrite <-Hdev. exact (rp_dev _ _ Hs).
  - rewrite decide_False by done. cbn [head andb fst snd].
    rewrite bool_decide_false by done. cbn [andb].
    eapply ends_bind; [by apply steps_modify_cache|].
    eapply ends_bind; [apply steps_unlock_top; [done|held|lia]|].
    eapply ends_steps; [apply steps_ret|]. intros s Hs. split.
    + split; [by apply lwf_cache|done|exact (eq_trans Hin Hi)|exact (eq_trans Hth Ht)].
    + exists ch'. split; [by eapply chains_ok_same|exact Hs].
Qed.
End device.
