(* ===== verification/CacheSteps.v ===== *)
(** * What an operation is made of

    Each operation of the reference cache is a path of elementary changes:
    bookkeeping, a reference or pin taken or dropped, a dirty mark, one
    device write, an eviction, a load.  An invariant of the cache is proved
    change by change. *)
From S2P Require Import Prelude Types CacheTypes CacheState Cache CacheLinks CacheSpec.
From S2P Require Import CacheView CacheLists CacheWf CacheFacts CacheWalks CacheOps CacheGet CacheSystem.

Inductive label :=
  | Quiet                       (* counters, order, clock *)
  | Acquire                     (* a reference or a pin taken *)
  | DropRef (id : kes_extent_id)
  | DropPin (id : kes_extent_id)
  | Mark                        (* an extent becomes dirty *)
  | Write                       (* a call of [write_extent] *)
  | Evict                       (* a clean extent leaves *)
  | Discard                     (* an extent leaves with what it holds *)
  | Load (id : kes_extent_id)   (* a new extent, or a failed one, is read *)
  | Store (p : loc)             (* the client changes a buffer *)
  | Callbacks.

Section device.
Context {D : Type}.
Implicit Types (l : lcache D).

(** The statistics that describe the present contents. *)
Definition gauges (t : kes_cache_stats) : Z * Z * Z * Z :=
  (ks_memory_used t, ks_entries_cached t, ks_entries_dirty t, ks_entries_pinned t).

Definition same_setup l l' : Prop :=
  c_config (l_cache l') = c_config (l_cache l) /\
  c_read_extent (l_cache l') = c_read_extent (l_cache l) /\
  c_write_extent (l_cache l') = c_write_extent (l_cache l).

Record quiet l l' : Prop := {
  qu_order : forall x, x ∈ l_order l' <-> x ∈ l_order l;
  qu_entries : l_entries l' = l_entries l;
  qu_bufs : l_bufs l' = l_bufs l;
  qu_dev : l_dev l' = l_dev l;
  qu_setup : same_setup l l';
  qu_gauges : gauges (c_stats (l_cache l')) = gauges (c_stats (l_cache l))
}.

Lemma quiet_refl l : quiet l l.
Proof. by split. Qed.

(** The entry at [x] gets new counters; its contents stay as they are. *)
Record updated (x : loc) (e e' : kes_extent_entry) l l' : Prop := {
  up_old : l_entries l !! x = Some e;
  up_new : l_entries l' = <[x := e']> (l_entries l);
  up_shape : same_shape e e';
  up_flags : is_dirty e' = is_dirty e /\ is_error e' = is_error e /\ is_loading e' = is_loading e;
  up_order : forall y, y ∈ l_order l' <-> y ∈ l_order l;
  up_bufs : l_bufs l' = l_bufs l;
  up_dev : l_dev l' = l_dev l;
  up_setup : same_setup l l';
  up_gauges : gauges (c_stats (l_cache l')) =
    let t := c_stats (l_cache l) in
    (ks_memory_used t, ks_entries_cached t, ks_entries_dirty t,
     u32 (ks_entries_pinned t + (Z.b2z (0 <? e_pin_count e') - Z.b2z (0 <? e_pin_count e))))
}.

Inductive step : label -> lcache D -> lcache D -> Prop :=
  | S_quiet l l' : quiet l l' -> step Quiet l l'
  | S_reference x e e' l l' :
      updated x e e' l l' -> is_error e = false ->
      e_ref_count e' = u32 (e_ref_count e + 1) -> e_pin_count e' = e_pin_count e ->
      step Acquire l l'
  | S_pin x e e' l l' :
      updated x e e' l l' ->
      e_ref_count e' = e_ref_count e -> e_pin_count e' = u32 (e_pin_count e + 1) ->
      step Acquire l l'
  | S_drop_ref x e e' id l l' :
      updated x e e' l l' -> kes_extent_equal (e_id e) id = true -> 0 < e_ref_count e ->
      e_ref_count e' = u32 (e_ref_count e - 1) -> e_pin_count e' = e_pin_count e ->
      step (DropRef id) l l'
  | S_drop_pin x e e' id l l' :
      updated x e e' l l' -> kes_extent_equal (e_id e) id = true -> 0 < e_pin_count e ->
      e_ref_count e' = e_ref_count e -> e_pin_count e' = u32 (e_pin_count e - 1) ->
      step (DropPin id) l l'
  | S_mark x e l :
      l_entries l !! x = Some e -> is_dirty e = false ->
      step Mark l (l_stats (stat_dirty 1) (l_put x (entry_set_flag KES_EXTENT_DIRTY e) l))
  | S_write f id x e p buf l :
      l_entries l !! x = Some e -> c_write_extent (l_cache l) = Some f ->
      kes_extent_equal (e_id e) id = true ->
      e_data e = Some p -> l_bufs l !! p = Some buf -> is_dirty e = true ->
      step Write l (l_write f id x e buf l).2
  | S_evict x e l :
      l_entries l !! x = Some e -> evictable false e = true -> step Evict l (l_remove x e l)
  | S_discard x e l :
      l_entries l !! x = Some e -> evictable true e = true ->
      step Discard l (if is_dirty e then l_stats (stat_dirty (-1)) (l_remove x e l)
                      else l_remove x e l)
  | S_load id v v' l :
      l_entries l !! env_next v = None -> l_bufs l !! env_next v' = None ->
      0 <= extent_data_size id < 2 ^ 62 ->
      (forall y f, l_entries l !! y = Some f -> kes_extent_equal (e_id f) id = false) ->
      fits_now (l_cache l) (KES_ALIGN (extent_data_size id) KES_CACHE_ALIGNMENT) = true ->
      step (Load id) l (l_load (env_next v) id
        (fresh_entry id (l_now (l_set_env (bump v) l)) (Some (env_next v')))
        (with_candidate id v v' l)).2
  | S_retry x id e l :
      l_entries l !! x = Some e -> kes_extent_equal (e_id e) id = true ->
      is_error e = true -> is_dirty e = false ->
      step (Load id) l (l_retry x id e l)
  | S_store p bytes x e l :
      l_entries l !! x = Some e -> e_data e = Some p -> 0 < e_ref_count e ->
      Z.of_nat (length bytes) <= e_data_size e ->
      step (Store p) l (l_store p bytes l)
  | S_callbacks r w y l :
      step Callbacks l (l_set_cache (cache_set_callbacks r w y (l_cache l)) l).

(** Paths through well-formed caches. *)
Inductive path : list label -> lcache D -> lcache D -> Prop :=
  | path_nil l : path [] l l
  | path_cons a ls l1 l2 l3 :
      lwf l1 -> step a l1 l2 -> path ls l2 l3 -> path (a :: ls) l1 l3.

Lemma path_app ls ls' l1 l2 l3 : path ls l1 l2 -> path ls' l2 l3 -> path (ls ++ ls') l1 l3.
Proof. induction 1; [done|]. intros H'. cbn. econstructor; eauto. Qed.

Lemma path_one a l l' : lwf l -> step a l l' -> path [a] l l'.
Proof. intros Hl Hs. econstructor; [done|done|constructor]. Qed.

(** ** The labels of the internal passes *)

Definition housekeeping (a : label) : Prop := a = Quiet \/ a = Write \/ a = Evict.

Definition hpath l l' : Prop := exists ls, path ls l l' /\ Forall housekeeping ls.

Lemma hpath_refl l : hpath l l.
Proof. exists []. split; [constructor|constructor]. Qed.
Lemma hpath_trans l1 l2 l3 : hpath l1 l2 -> hpath l2 l3 -> hpath l1 l3.
Proof.
  intros (ls & H1 & F1) (ls' & H2 & F2). exists (ls ++ ls'). split; [by eapply path_app|].
  by apply Forall_app.
Qed.
Lemma hpath_step a l l' : lwf l -> housekeeping a -> step a l l' -> hpath l l'.
Proof. intros Hl Ha Hs. exists [a]. split; [by apply path_one|by constructor]. Qed.
Lemma hpath_quiet l l' : lwf l -> quiet l l' -> hpath l l'.
Proof. intros Hl Hq. eapply hpath_step; [done|by left|by apply S_quiet]. Qed.

Lemma hpath_write_back x l : lwf l -> hpath l (l_write_back x l).
Proof.
  intros Hl. unfold l_write_back. destruct (l_entries l !! x) as [e|] eqn:He; [|apply hpath_refl].
  destruct (has_flag (e_state e) KES_EXTENT_DIRTY) eqn:Hd; [|apply hpath_refl].
  destruct (has_flag (e_state e) KES_EXTENT_LOADING); [apply hpath_refl|]. cbn [andb negb].
  destruct (c_write_extent (l_cache l)) as [f|] eqn:Hf; [|apply hpath_refl].
  destruct (entry_buffer _ _ (wf_entry _ Hl x e He)) as (p & buf & Hp & Hb & _).
  assert (l_buffer l e = Some buf) as -> by (unfold l_buffer; by rewrite Hp).
  eapply hpath_step; [done|right; by left|].
  eapply S_write; [exact He|exact Hf|apply extent_equal_refl|exact Hp|exact Hb|exact Hd].
Qed.

Lemma hpath_try_evict x l : lwf l -> hpath l (l_try_evict false x l).2.
Proof.
  intros Hl. unfold l_try_evict. destruct (l_entries l !! x) as [e|] eqn:He; [|apply hpath_refl].
  destruct (evictable false e) eqn:Hev; [|apply hpath_refl].
  eapply hpath_step; [done|right; by right|by apply S_evict].
Qed.

Lemma hpath_visit x l : lwf l -> hpath l (l_visit x l).
Proof.
  intros Hl. eapply hpath_trans; [by apply hpath_write_back|].
  by apply hpath_try_evict, lwf_write_back.
Qed.

Lemma lwf_visit x l : lwf l -> lwf (l_visit x l).
Proof. intros Hl. by apply lwf_try_evict, lwf_write_back. Qed.

Lemma hpath_sweep l : lwf l -> hpath l (l_sweep l).
Proof.
  unfold l_sweep. generalize (l_order l) as ls. intros ls. revert l.
  induction ls as [|x ls IH]; intros l Hl; [apply hpath_refl|]. cbn.
  eapply hpath_trans; [by apply hpath_visit|]. by apply IH, lwf_visit.
Qed.

Lemma quiet_stats g l :
  (forall t, gauges (g t) = gauges t) -> quiet l (l_stats g l).
Proof. intros Hg. split; try done. cbn. by rewrite Hg. Qed.

Lemma quiet_inflight n l : quiet l (l_inflight n l).
Proof. by split. Qed.

Lemma quiet_trans l1 l2 l3 : quiet l1 l2 -> quiet l2 l3 -> quiet l1 l3.
Proof.
  intros [O1 E1 B1 D1 (S1 & S2 & S3) G1] [O2 E2 B2 D2 (S1' & S2' & S3') G2].
  split; try congruence.
  - intros x. by rewrite O2, O1.
  - split_and!; congruence.
Qed.

Lemma hpath_evict_loop need ls : forall l, lwf l ->
  hpath l (l_evict_loop need ls l).2 /\ lwf (l_evict_loop need ls l).2 /\
  ((l_evict_loop need ls l).1 = true -> fits_now (l_cache (l_evict_loop need ls l).2) need = true).
Proof.
  induction ls as [|x ls IH]; intros l Hl; [by split_and!; [apply hpath_refl| |]|]. cbn [l_evict_loop].
  pose proof (hpath_visit x l Hl) as Hp. pose proof (lwf_visit x l Hl) as Hl1.
  unfold l_visit in *. destruct (l_try_evict false x (l_write_back x l)) as [evicted l1]. cbn [snd] in *.
  destruct evicted.
  - assert (hpath l (l_stats stat_evicted l1)) as Hp'.
    { eapply hpath_trans; [exact Hp|]. by apply hpath_quiet, quiet_stats. }
    pose proof (lwf_stats stat_evicted l1 Hl1) as Hl2.
    destruct (fits_now (l_cache (l_stats stat_evicted l1)) need) eqn:Ef; [by split_and!|].
    destruct (IH (l_stats stat_evicted l1) Hl2) as (Hp2 & Hw & Hfit).
    split_and!; [by eapply hpath_trans|done|done].
  - destruct (IH l1 Hl1) as (Hp2 & Hw & Hfit). split_and!; [by eapply hpath_trans|done|done].
Qed.

Lemma hpath_make_room n l : lwf l ->
  hpath l (l_make_room n l).2 /\ lwf (l_make_room n l).2 /\
  ((l_make_room n l).1 = true ->
   fits_now (l_cache (l_make_room n l).2) (KES_ALIGN n KES_CACHE_ALIGNMENT) = true).
Proof.
  intros Hl. unfold l_make_room. destruct (fits_now _ _) eqn:Ef.
  - by split_and!; [apply hpath_refl| |].
  - by apply hpath_evict_loop.
Qed.

(** ** The labels of an operation *)

Definition allowed (op : cache_op D) (a : label) : Prop :=
  match a with
  | Quiet | Write | Evict => True
  | Acquire => exists id, op = OpGet (Some id) \/ op = OpPin (Some id)
  | Load id => op = OpGet (Some id)
  | DropRef id => op = OpPut (Some id)
  | DropPin id => op = OpUnpin (Some id)
  | Mark => exists id, op = OpMarkDirty (Some id)
  | Discard => exists id, op = OpInvalidate (Some id)
  | Store p => exists bytes, op = OpStore p bytes
  | Callbacks => exists r w y, op = OpSetCallbacks r w y
  end.

(** Changes of the counters of an entry. *)
Definition weight (a : label) : nat :=
  match a with Acquire | DropRef _ | DropPin _ => 1%nat | _ => 0%nat end.
Definition weights (ls : list label) : nat := sum_list (weight <$> ls).

Lemma weights_app ls ls' : weights (ls ++ ls') = (weights ls + weights ls')%nat.
Proof. unfold weights. by rewrite fmap_app, sum_list_with_app. Qed.

Lemma housekeeping_free ls : Forall housekeeping ls -> weights ls = 0%nat.
Proof. induction 1 as [|a ls [->|[->| ->]] _ IH]; [done|done..]. Qed.

Lemma housekeeping_allowed op ls : Forall housekeeping ls -> Forall (allowed op) ls.
Proof. intros H. eapply Forall_impl; [exact H|]. by intros a [->|[->| ->]]. Qed.

Definition opath (op : cache_op D) l l' : Prop :=
  exists ls, path ls l l' /\ Forall (allowed op) ls /\ (weights ls <= 1)%nat.

Lemma opath_h op l l' : hpath l l' -> opath op l l'.
Proof.
  intros (ls & Hp & Hh). exists ls. split_and!; [done|by apply housekeeping_allowed|].
  rewrite housekeeping_free by done. lia.
Qed.

(** A counted change between housekeeping. *)
Lemma opath_around op l1 l2 l3 l4 a :
  hpath l1 l2 -> lwf l2 -> step a l2 l3 -> allowed op a -> hpath l3 l4 -> opath op l1 l4.
Proof.
  intros (ls & H1 & F1) Hl Hs Ha (ls' & H2 & F2). exists (ls ++ a :: ls').
  split_and!.
  - eapply path_app; [exact H1|]. econstructor; eauto.
  - apply Forall_app. split; [by apply housekeeping_allowed|].
    constructor; [done|by apply housekeeping_allowed].
  - rewrite weights_app. change (a :: ls') with ([a] ++ ls'). rewrite weights_app.
    rewrite (housekeeping_free ls), (housekeeping_free ls') by done.
    unfold weights. cbn. destruct a; cbn; lia.
Qed.

Lemma opath_step op a l l' : lwf l -> step a l l' -> allowed op a -> opath op l l'.
Proof. intros Hl Hs Ha. eapply opath_around; [apply hpath_refl|done|done|done|apply hpath_refl]. Qed.

(** Replacing the counters of an entry is an update. *)
Lemma updated_put x e e' g l :
  l_entries l !! x = Some e -> same_shape e e' ->
  is_dirty e' = is_dirty e -> is_error e' = is_error e -> is_loading e' = is_loading e ->
  gauges (g (c_stats (l_cache l))) =
    (let t := c_stats (l_cache l) in
     (ks_memory_used t, ks_entries_cached t, ks_entries_dirty t,
      u32 (ks_entries_pinned t + (Z.b2z (0 <? e_pin_count e') - Z.b2z (0 <? e_pin_count e))))) ->
  updated x e e' l (l_stats g (l_put x e' l)).
Proof. intros He Hs Hd Her Hld Hg. split; try done. Qed.

Lemma with_path op id k l :
  (forall x e, l_entries l !! x = Some e -> kes_extent_equal (e_id e) id = true ->
     opath op l (k x e l).2) ->
  opath op l (l_with id l k).2.
Proof.
  intros Hk. unfold l_with. destruct (l_find id l) as [x|] eqn:Ef; [|apply opath_h, hpath_refl].
  apply l_find_Some in Ef as (_ & e & He & Heq). rewrite He. by apply Hk.
Qed.

Lemma l_stats_id l : l_stats (fun t => t) l = l.
Proof. destruct l as [? [] ? ? ? ? ?]. done. Qed.

(** Present gauges are within their types, so adding nothing changes
    nothing. *)
Definition gauges_ok l : Prop :=
  0 <= ks_entries_pinned (c_stats (l_cache l)) < 2 ^ 32.

Lemma pinned_same l : gauges_ok l ->
  u32 (ks_entries_pinned (c_stats (l_cache l)) + 0) = ks_entries_pinned (c_stats (l_cache l)).
Proof. intros H. rewrite Z.add_0_r. by apply u32_small. Qed.

Lemma put_path id l : lwf l -> gauges_ok l -> opath (OpPut (Some id)) l (l_put_extent id l).2.
Proof.
  intros Hl Hg. apply with_path. intros x e He Heq. cbn [snd].
  destruct (Z.ltb_spec 0 (e_ref_count e)).
  - eapply (opath_step _ (DropRef id)); [done| |done]. eapply (S_drop_ref x e (entry_set_ref (u32 (e_ref_count e - 1)) e)); [|exact Heq|done|done|done].
    rewrite <-(l_stats_id (l_put _ _ _)). apply updated_put; [done..|]. cbn.
    by rewrite Z.sub_diag, pinned_same.
  - rewrite l_put_same by done. apply opath_h, hpath_refl.
Qed.

Lemma mark_dirty_path id l : lwf l -> opath (OpMarkDirty (Some id)) l (l_mark_dirty id l).2.
Proof.
  intros Hl. apply with_path. intros x e He Heq. cbn [snd].
  destruct (has_flag (e_state e) KES_EXTENT_DIRTY) eqn:Hd; [apply opath_h, hpath_refl|].
  eapply (opath_step _ Mark); [done|by apply S_mark|by eexists].
Qed.

Lemma pin_path id l :
  lwf l -> gauges_ok l ->
  (forall x e, l_entries l !! x = Some e -> 0 <= e_pin_count e < 2 ^ 32 - 1) ->
  opath (OpPin (Some id)) l (l_pin id l).2.
Proof.
  intros Hl Hg Hb. apply with_path. intros x e He Heq. cbn [snd].
  pose proof (Hb x e He). destruct (Z.eqb_spec (e_pin_count e) 0) as [E|E].
  - eapply (opath_step _ Acquire); [done| |by eexists; right]. eapply (S_pin x e (entry_set_pin (u32 (e_pin_count e + 1))
      (entry_set_flag KES_EXTENT_PINNED e))); [|done|done].
    apply updated_put; [done|done|by flags..|]. cbn. by rewrite E.
  - eapply (opath_step _ Acquire); [done| |by eexists; right]. eapply (S_pin x e (entry_set_pin (u32 (e_pin_count e + 1)) e)); [|done|done].
    rewrite <-(l_stats_id (l_put _ _ _)). apply updated_put; [done..|]. cbn.
    rewrite (u32_small (e_pin_count e + 1)) by lia.
    destruct (Z.ltb_spec 0 (e_pin_count e + 1)), (Z.ltb_spec 0 (e_pin_count e));
      try lia. cbn [Z.b2z]. by rewrite Z.sub_diag, pinned_same.
Qed.

Lemma unpin_path id l :
  lwf l -> gauges_ok l ->
  (forall x e, l_entries l !! x = Some e -> 0 <= e_pin_count e < 2 ^ 32) ->
  opath (OpUnpin (Some id)) l (l_unpin id l).2.
Proof.
  intros Hl Hg Hb. apply with_path. intros x e He Heq. cbn [snd].
  pose proof (Hb x e He). destruct (Z.ltb_spec 0 (e_pin_count e)) as [Hp|Hp];
    [|apply opath_h, hpath_refl].
  cbn. destruct (Z.eqb_spec (u32 (e_pin_count e - 1)) 0) as [E|E]; rewrite u32_small in E by lia.
  - eapply (opath_step _ (DropPin id)); [done| |done]. eapply (S_drop_pin x e (entry_clear_flag KES_EXTENT_PINNED
      (entry_set_pin (u32 (e_pin_count e - 1)) e))); [|exact Heq|done|done|done].
    apply updated_put; [done|done|by flags..|]. cbn.
    rewrite (u32_small (e_pin_count e - 1)) by lia. rewrite E.
    by destruct (Z.ltb_spec 0 (e_pin_count e)); [|lia].
  - eapply (opath_step _ (DropPin id)); [done| |done]. eapply (S_drop_pin x e (entry_set_pin (u32 (e_pin_count e - 1)) e)); [|exact Heq|done|done|done].
    rewrite <-(l_stats_id (l_put _ _ _)). apply updated_put; [done..|]. cbn.
    rewrite (u32_small (e_pin_count e - 1)) by lia.
    destruct (Z.ltb_spec 0 (e_pin_count e - 1)), (Z.ltb_spec 0 (e_pin_count e));
      try lia. cbn [Z.b2z]. by rewrite Z.sub_diag, pinned_same.
Qed.

Lemma flush_path op id l : lwf l -> opath op l (l_flush id l).2.
Proof.
  intros Hl. apply with_path. intros x e He Heq.
  destruct (has_flag (e_state e) KES_EXTENT_DIRTY) eqn:Hd; [|apply opath_h, hpath_refl].
  destruct (c_write_extent (l_cache l)) as [f|] eqn:Hf; [|apply opath_h, hpath_refl].
  destruct (entry_buffer _ _ (wf_entry _ Hl x e He)) as (p & buf & Hp & Hb & _).
  assert (l_buffer l e = Some buf) as -> by (unfold l_buffer; by rewrite Hp).
  pose proof (S_write f id x e p buf l He Hf Heq Hp Hb Hd) as Hs.
  destruct (l_write f id x e buf l) as [r l']. cbn [snd] in *. by eapply opath_step.
Qed.

Lemma invalidate_path id l : lwf l -> opath (OpInvalidate (Some id)) l (l_invalidate id l).2.
Proof.
  intros Hl. apply with_path. intros x e He Heq.
  destruct (_ || _); [apply opath_h, hpath_refl|]. unfold l_try_evict. rewrite He.
  destruct (evictable true e) eqn:Hev; [|apply opath_h, hpath_refl]. cbn [negb snd].
  eapply (opath_step _ Discard); [done|by apply (S_discard x e)|by eexists].
Qed.

(** The change before is not counted. *)
Lemma opath_before op a l1 l2 l3 :
  lwf l1 -> step a l1 l2 -> allowed op a -> weight a = 0%nat -> opath op l2 l3 -> opath op l1 l3.
Proof.
  intros Hl Hs Ha Hw (ls & Hp & Hls & Hn). exists (a :: ls). split_and!.
  - by econstructor.
  - by constructor.
  - change (a :: ls) with ([a] ++ ls). rewrite weights_app. unfold weights at 1. cbn. rewrite Hw. lia.
Qed.

Lemma quiet_env v l : quiet l (l_set_env v l).
Proof. by split. Qed.

Lemma attach_path x id l :
  lwf l -> gauges_ok l -> x ∈ l_order l ->
  (forall e, l_entries l !! x = Some e -> kes_extent_equal (e_id e) id = true) ->
  opath (OpGet (Some id)) l (l_attach x id l).2.
Proof.
  intros Hl Hg Hx Hid. destruct (proj1 (wf_dom _ Hl x) Hx) as [e0 He0]. unfold l_attach. rewrite He0.
  assert (forall l1, lwf l1 -> gauges_ok l1 -> x ∈ l_order l1 -> opath (OpGet (Some id)) l1
    (match l_entries l1 !! x with
     | None => ((KES_ERROR_NOTFOUND, None), l1)
     | Some e => if has_flag (e_state e) KES_EXTENT_ERROR
         then ((KES_ERROR_IO, None), l_inflight (-1) l1)
         else ((KES_SUCCESS, e_data e),
             l_inflight (-1) (l_stats stat_hit (l_set_order (touch x (l_order l1))
               (l_put x (entry_set_access (l_now l1) (u64 (e_access_count e + 1))
                           (entry_set_ref (u32 (e_ref_count e + 1)) e)) l1))))
     end).2) as Hgo.
  { intros l1 Hl1 Hg1 Hx1. destruct (proj1 (wf_dom _ Hl1 x) Hx1) as [e He]. rewrite He.
    destruct (has_flag (e_state e) KES_EXTENT_ERROR) eqn:Herr.
    { apply opath_h. apply hpath_quiet; [done|apply quiet_inflight]. }
    eapply (opath_step _ Acquire); [done| |by eexists; left].
    eapply (S_reference x e (entry_set_access (l_now l1) (u64 (e_access_count e + 1))
      (entry_set_ref (u32 (e_ref_count e + 1)) e))); [|exact Herr|done|done].
    split; try done; cbn.
    - intros y. by apply elem_touch.
    - rewrite Z.sub_diag. unfold gauges. cbn. by rewrite pinned_same. }
  destruct (needs_retry e0) eqn:Hn; [|by apply Hgo].
  pose proof Hn as [Herr Hd%negb_true_iff]%andb_prop.
  eapply (opath_before _ (Load id)); [done|apply (S_retry x id e0); by auto|done|done|].
  destruct (retry_entry x id e0 l) as (st & _ & _ & Ho & _).
  apply Hgo; [by apply lwf_retry| |by rewrite Ho].
  unfold gauges_ok, l_retry in *. pose proof (l_read_same x id e0 l) as (_ & Hc & _).
  destruct (l_read x id e0 l) as [r l1]. cbn [snd] in Hc. rewrite <-Hc in Hg.
  by destruct (r =? KES_SUCCESS).
Qed.

Lemma miss_path id l :
  lwf l -> 0 <= extent_data_size id < 2 ^ 62 -> l_find id l = None ->
  opath (OpGet (Some id)) l (l_miss id l).2.
Proof.
  intros Hl Hsz Hf. unfold l_miss.
  destruct (hpath_make_room (extent_data_size id) l Hl) as (Hp & Hl1 & Hfit).
  pose proof (kept_make_room (extent_data_size id) l) as [_ _ Ki].
  destruct (l_make_room (extent_data_size id) l) as [room l1]. cbn [fst snd] in *.
  assert (forall l2, quiet l1 l2 -> opath (OpGet (Some id)) l l2) as Hq.
  { intros l2 Hq. apply opath_h. eapply hpath_trans; [exact Hp|]. by apply hpath_quiet. }
  destruct room; cbn [negb]; [|apply Hq, quiet_inflight].
  destruct (next_failure (l_env l1)) as [failed v] eqn:Hf1.
  pose proof (next_failure_next _ _ _ Hf1) as Hv. destruct failed; [by apply Hq|].
  destruct (next_failure (bump v)) as [failed v'] eqn:Hf2.
  pose proof (next_failure_next _ _ _ Hf2) as Hv'. cbn [bump env_next] in Hv'.
  destruct failed; [by apply Hq|].
  destruct (chains_exist l1 Hl1) as [ch Hc].
  destruct (fresh_address v l1 ch Hl1 Hc Hv) as (Hx & _).
  eapply (opath_around _ l l1 _ _ (Load id)); [exact Hp|exact Hl1| |done|apply hpath_refl].
  apply (S_load id v v' l1); [exact Hx| |exact Hsz| |by apply Hfit].
  - apply eq_None_not_Some. intros Hs. pose proof (wf_fresh _ Hl1 (env_next v') (or_intror Hs)). lia.
  - intros y f (f0 & Hy & ->)%Ki. exact (l_find_none id l Hl Hf y f0 Hy).
Qed.

Lemma get_path id l :
  lwf l -> gauges_ok l -> id_ok id -> id_accepted id = true ->
  opath (OpGet (Some id)) l (l_get id l).2.
Proof.
  intros Hl Hg Hid Ha. unfold l_get. set (l1 := l_inflight 1 l).
  eapply (opath_before _ Quiet); [done|apply S_quiet, (quiet_inflight 1)|done|done|]. fold l1.
  destruct (l_find id l1) as [x|] eqn:Ef.
  - apply l_find_Some in Ef as (Hx & e0 & He0 & Heq).
    apply attach_path; [by apply lwf_inflight|done|done|]. intros e He. congruence.
  - apply miss_path; [by apply lwf_inflight|by apply accepted_size|done].
Qed.

(** The counters an operation relies on. *)
Definition counters_ok l : Prop :=
  gauges_ok l /\
  forall x e, l_entries l !! x = Some e -> 0 <= e_pin_count e < 2 ^ 32 - 1.

Lemma exec_path op l :
  ready l -> counters_ok l -> client_ok op l -> opath op l (l_exec op l).2.
Proof.
  intros [Hl _ _ _] [Hg Hp] Hok.
  destruct op as [[id|]|[id|]|[id|]|[id|]|[id|]|[id|]|[id|]| | | |r w y|p bytes|sec nsec script]; cbn [l_exec];
    try apply opath_h, hpath_refl.
  - destruct (id_accepted id) eqn:Ha; [|apply opath_h, hpath_refl].
    pose proof (get_path id l Hl Hg Hok Ha) as Hgp. by destruct (l_get id l) as [[r b] l'].
  - pose proof (put_path id l Hl Hg) as H. unfold l_coded. by destruct (l_put_extent id l).
  - pose proof (mark_dirty_path id l Hl) as H. unfold l_coded. by destruct (l_mark_dirty id l).
  - pose proof (pin_path id l Hl Hg Hp) as H. unfold l_coded. by destruct (l_pin id l).
  - assert (opath (OpUnpin (Some id)) l (l_unpin id l).2) as H.
    { apply unpin_path; [done|done|]. intros x e He. specialize (Hp x e He). lia. }
    unfold l_coded. by destruct (l_unpin id l).
  - pose proof (flush_path (OpFlush (Some id)) id l Hl) as H. unfold l_coded. by destruct (l_flush id l).
  - pose proof (invalidate_path id l Hl) as H. unfold l_coded. by destruct (l_invalidate id l).
  - apply opath_h. by apply hpath_sweep.
  - apply opath_h, hpath_quiet; [done|]. by apply quiet_stats.
  - eapply (opath_step _ Callbacks); [done|apply S_callbacks|by eexists _, _, _].
  - destruct Hok as (x & e & He & Hd & Hr & Hn).
    eapply (opath_step _ (Store p)); [done|by eapply S_store|by eexists].
  - apply opath_h, hpath_quiet; [done|]. apply quiet_env.
Qed.
End device.
