(* ===== verification/CacheInv.v ===== *)
(** * The statistics and limits of the cache

    The gauges of [kes_cache_stats_t] equal what they count, the configured
    limits hold, and reference and pin counters grow by at most one per
    operation.  All three are preserved by every elementary change. *)
From S2P Require Import Prelude Types CacheTypes CacheState Cache CacheLinks CacheSpec CacheView.
From S2P Require Import CacheLists CacheWf CacheFacts CacheWalks CacheOps CacheGet CacheSystem.
From S2P Require Import CacheSteps.

(** ** Sums over the entries *)

Definition total (f : kes_extent_entry -> Z) (m : gmap loc kes_extent_entry) : Z :=
  map_fold (fun _ e acc => f e + acc) 0 m.

Lemma total_empty f : total f ∅ = 0.
Proof. apply map_fold_empty. Qed.

Lemma total_insert f m x e : m !! x = None -> total f (<[x := e]> m) = f e + total f m.
Proof. intros Hx. unfold total. rewrite map_fold_insert_L; [done|intros; lia|done]. Qed.

Lemma total_delete f m x e : m !! x = Some e -> total f (delete x m) = total f m - f e.
Proof.
  intros Hx. rewrite <-(insert_delete_id m x e Hx) at 2.
  rewrite total_insert by apply lookup_delete_eq. lia.
Qed.

Lemma total_update f m x e e' :
  m !! x = Some e -> total f (<[x := e']> m) = total f m + (f e' - f e).
Proof.
  intros Hx. rewrite <-insert_delete_eq, total_insert by apply lookup_delete_eq.
  rewrite (total_delete f m x e Hx). lia.
Qed.

Lemma total_le f g m : (forall x e, m !! x = Some e -> f e <= g e) -> total f m <= total g m.
Proof.
  induction m as [|x e m Hx IH] using map_ind; intros H; [by rewrite !total_empty|].
  rewrite !total_insert by done. assert (f e <= g e) by (apply (H x); apply lookup_insert_eq).
  assert (total f m <= total g m); [|lia]. apply IH. intros y e' Hy. apply (H y).
  rewrite lookup_insert_ne; [done|]. congruence.
Qed.

Lemma total_nonneg f m : (forall x e, m !! x = Some e -> 0 <= f e) -> 0 <= total f m.
Proof.
  intros H. transitivity (total (fun _ => 0) m); [|by apply total_le].
  clear H. induction m as [|x e m Hx IH] using map_ind; [by rewrite total_empty|].
  rewrite total_insert by done. lia.
Qed.

Lemma total_one m : total (fun _ => 1) m = Z.of_nat (size m).
Proof.
  induction m as [|x e m Hx IH] using map_ind; [by rewrite total_empty, map_size_empty|].
  rewrite total_insert, map_size_insert_None by done. lia.
Qed.

Lemma quad_eq {A B C E : Type} (a a' : A) (b b' : B) (c c' : C) (e e' : E) :
  a = a' -> b = b' -> c = c' -> e = e' -> (a, b, c, e) = (a', b', c', e').
Proof. congruence. Qed.

(** ** What the gauges count *)

Definition one (e : kes_extent_entry) : Z := 1.
Definition footprint (e : kes_extent_entry) : Z := KES_ALIGN (e_data_size e) KES_CACHE_ALIGNMENT.
Definition dirty1 (e : kes_extent_entry) : Z := Z.b2z (is_dirty e).
Definition pinned1 (e : kes_extent_entry) : Z := Z.b2z (0 <? e_pin_count e).

Lemma total_flag (f : kes_extent_entry -> bool) m :
  0 <= total (fun e => Z.b2z (f e)) m <= total one m.
Proof.
  split; [apply total_nonneg|apply total_le]; intros y e _; unfold one; by destruct (f e).
Qed.
Lemma total_dirty m : 0 <= total dirty1 m <= total one m.
Proof. apply (total_flag is_dirty). Qed.
Lemma total_pinned m : 0 <= total pinned1 m <= total one m.
Proof. apply (total_flag (fun e => 0 <? e_pin_count e)). Qed.

Definition limits_ok (cfg : kes_cache_config) : Prop :=
  0 <= cc_max_entries cfg < 2 ^ 32 - 1 /\ 0 <= cc_max_memory cfg < 2 ^ 63.

Section device.
Context {D : Type}.
Implicit Types (l : lcache D).

Record counted (n : Z) l : Prop := {
  ct_limits : limits_ok (c_config (l_cache l));
  ct_gauges : gauges (c_stats (l_cache l)) =
    (total footprint (l_entries l), total one (l_entries l),
     total dirty1 (l_entries l), total pinned1 (l_entries l));
  ct_room : total one (l_entries l) <= cc_max_entries (c_config (l_cache l)) /\
            total footprint (l_entries l) <= cc_max_memory (c_config (l_cache l));
  ct_counts : forall x e, l_entries l !! x = Some e ->
                0 <= e_ref_count e <= n /\ 0 <= e_pin_count e <= n
}.

Lemma counted_ranges n l :
  counted n l -> lwf l ->
  let m := l_entries l in
  0 <= total footprint m < 2 ^ 63 /\ 0 <= total one m < 2 ^ 32 - 1 /\
  0 <= total dirty1 m <= total one m /\ 0 <= total pinned1 m <= total one m.
Proof.
  intros [[L1 L2] Hg [R1 R2] _] Hl m.
  assert (0 <= total footprint m).
  { apply total_nonneg. intros x e He. pose proof (wf_entry _ Hl x e He) as [_ [_ Hs] _ _].
    unfold footprint. pose proof (align_spec _ Hs). lia. }
  assert (0 <= total one m) by (by apply total_nonneg).
  pose proof (total_dirty m). pose proof (total_pinned m).
  fold m in R1, R2. lia.
Qed.

Lemma counted_counters n l : counted n l -> lwf l -> n < 2 ^ 32 - 1 -> counters_ok l.
Proof.
  intros Hc Hl Hn. pose proof (counted_ranges n l Hc Hl) as (_ & ? & _ & ?). split.
  - unfold gauges_ok. pose proof (ct_gauges _ _ Hc) as [= _ _ _ ->]. lia.
  - intros x e He. pose proof (ct_counts _ _ Hc x e He). lia.
Qed.

Lemma counted_mono n n' l : n <= n' -> counted n l -> counted n' l.
Proof. intros Hn [? ? ? Hc]. split; [done..|]. intros x e He. specialize (Hc x e He). lia. Qed.

(** An update of one entry. *)
Lemma counted_update n n' x e e' l l' :
  counted n l -> l_entries l !! x = Some e -> l_entries l' = <[x := e']> (l_entries l) ->
  e_data_size e' = e_data_size e -> c_config (l_cache l') = c_config (l_cache l) ->
  gauges (c_stats (l_cache l')) =
    (total footprint (l_entries l), total one (l_entries l),
     total dirty1 (l_entries l) + (dirty1 e' - dirty1 e),
     total pinned1 (l_entries l) + (pinned1 e' - pinned1 e)) ->
  n <= n' -> 0 <= e_ref_count e' <= n' -> 0 <= e_pin_count e' <= n' ->
  counted n' l'.
Proof.
  intros [L G R C] He Ee Hs Hcf Hg Hn Hr Hp.
  assert (footprint e' = footprint e) as Hf by (unfold footprint; by rewrite Hs).
  split; rewrite ?Hcf, ?Ee, ?(total_update _ _ _ _ e' He); [done| | |].
  - rewrite Hg, Hf, Z.sub_diag, Z.add_0_r. unfold one. by rewrite Z.sub_diag, Z.add_0_r.
  - rewrite Hf, Z.sub_diag, Z.add_0_r. unfold one. by rewrite Z.sub_diag, Z.add_0_r.
  - intros y f [[<- <-]|[_ Hy]]%lookup_insert_Some; [done|]. specialize (C y f Hy). lia.
Qed.

Lemma counted_remove n x e l l' :
  counted n l -> lwf l -> l_entries l !! x = Some e -> e_pin_count e = 0 ->
  l_entries l' = delete x (l_entries l) -> c_config (l_cache l') = c_config (l_cache l) ->
  gauges (c_stats (l_cache l')) =
    (total footprint (l_entries l) - footprint e, total one (l_entries l) - 1,
     total dirty1 (l_entries l) - dirty1 e, total pinned1 (l_entries l)) ->
  counted n l'.
Proof.
  intros [L G R C] Hl He Hp Ee Hcf Hg.
  split; rewrite ?Hcf, ?Ee, ?(total_delete _ _ _ _ He); [done| | |].
  - rewrite Hg. assert (pinned1 e = 0) as -> by (unfold pinned1; by rewrite Hp).
    unfold one. by rewrite Z.sub_0_r.
  - pose proof (wf_entry _ Hl x e He) as [_ [_ Hs] _ _]. pose proof (align_spec _ Hs).
    unfold footprint, one in *. lia.
  - intros y f [_ Hy]%lookup_delete_Some. by apply (C y).
Qed.

Lemma counted_quiet n l l' : counted n l -> quiet l l' -> counted n l'.
Proof.
  intros [L G R C] [_ He _ _ (Hc & _) Hg]. split; rewrite ?He, ?Hc; [done| |done|done]. congruence.
Qed.

(** ** Every change *)

(** What a load leaves of the statistics and the entries. *)
Lemma load_shape id v v' l :
  let x := env_next v in
  let e := fresh_entry id (l_now (l_set_env (bump v) l)) (Some (env_next v')) in
  let l' := (l_load x id e (with_candidate id v v' l)).2 in
  (exists st n, l_entries l' = <[x := entry_set_ref n (entry_set_state st e)]> (l_entries l) /\
     ((st = KES_EXTENT_CLEAN /\ n = 1) \/ (st = KES_EXTENT_ERROR /\ n = 0))) /\
  c_config (l_cache l') = c_config (l_cache l) /\
  gauges (c_stats (l_cache l')) =
    (let t := c_stats (l_cache l) in
     (u64 (ks_memory_used t + footprint e), u32 (ks_entries_cached t + 1),
      ks_entries_dirty t, ks_entries_pinned t)).
Proof.
  intros x e. rewrite l_load_eq.
  pose proof (l_read_same x id e (l_publish x e (with_candidate id v v' l))) as (_ & Ec & Een & _).
  destruct (l_read x id e _) as [r l1]. cbn [fst snd] in *. unfold l_loaded.
  destruct (r =? KES_SUCCESS); cbn [snd]; (split_and!; [|by cbn; rewrite Ec|by cbn; rewrite Ec]).
  - exists KES_EXTENT_CLEAN, 1. cbn. rewrite Een. cbn. rewrite insert_insert_eq. split; [done|by left].
  - exists KES_EXTENT_ERROR, 0. cbn. rewrite Een. cbn. rewrite insert_insert_eq. split; [done|by right].
Qed.

Lemma counted_load n id v v' l :
  counted n l -> lwf l -> 1 <= n -> l_entries l !! env_next v = None ->
  0 <= extent_data_size id < 2 ^ 62 ->
  fits_now (l_cache l) (KES_ALIGN (extent_data_size id) KES_CACHE_ALIGNMENT) = true ->
  counted n (l_load (env_next v) id
    (fresh_entry id (l_now (l_set_env (bump v) l)) (Some (env_next v'))) (with_candidate id v v' l)).2.
Proof.
  intros Hc Hl Hn Hx Hs Hfit. pose proof (counted_ranges n l Hc Hl) as (R1 & R2 & R3 & R4).
  destruct (load_shape id v v' l) as ((st & k & Ee & Hst) & Ecf & Eg).
  destruct Hc as [L G R C]. pose proof (align_spec _ Hs) as [_ Ha].
  pose proof G as [= G1 G2 G3 G4]. cbv zeta in Eg. rewrite G1, G2, G3, G4 in Eg.
  unfold fits_now in Hfit. rewrite G1, G2 in Hfit. change (footprint (fresh_entry _ _ _)) with
    (KES_ALIGN (extent_data_size id) KES_CACHE_ALIGNMENT) in Eg.
  apply andb_prop in Hfit as [F1%Z.leb_le F2%Z.leb_le]. destruct L as [L1 L2].
  rewrite u32_small in F1, Eg by lia. rewrite u64_small in F2, Eg by lia.
  split; rewrite ?Ecf, ?Ee, ?total_insert by done; [by split| | |].
  - rewrite Eg. unfold footprint at 2, one at 2, dirty1 at 2, pinned1 at 2. cbn [e_data_size entry_set_ref
      entry_set_state fresh_entry e_pin_count e_state].
    assert (is_dirty (entry_set_ref k (entry_set_state st
      (fresh_entry id (l_now (l_set_env (bump v) l)) (Some (env_next v'))))) = false) as ->
      by (destruct Hst as [[-> _]|[-> _]]; done).
    cbn. apply quad_eq; lia.
  - unfold footprint at 1, one at 1. cbn. unfold one, footprint in *. lia.
  - intros y f [[<- <-]|[_ Hy]]%lookup_insert_Some; [|by apply (C y)]. cbn.
    destruct Hst as [[_ ->]|[_ ->]]; lia.
Qed.

Lemma counted_updated n n' x e e' l l' :
  counted n l -> lwf l -> updated x e e' l l' ->
  n <= n' -> 0 <= e_ref_count e' <= n' -> 0 <= e_pin_count e' <= n' -> counted n' l'.
Proof.
  intros Hc Hl [He Ee [_ _ Hs _] (Hd & _) _ _ _ (Hcf & _) Hg] Hn Hr Hp.
  pose proof (counted_ranges n l Hc Hl) as (_ & R2 & _ & R4).
  eapply counted_update; [exact Hc|exact He|exact Ee|done|done| |done|done|done].
  rewrite Hg. cbv zeta. pose proof (ct_gauges _ _ Hc) as [= -> -> -> ->].
  assert (dirty1 e' - dirty1 e = 0) as -> by (unfold dirty1; rewrite Hd; lia).
  rewrite Z.add_0_r. apply quad_eq; [done..|]. fold (pinned1 e) (pinned1 e').
  destruct (total_pinned (<[x := e']> (l_entries l))) as [H1 H2].
  rewrite (total_update pinned1 _ _ _ e' He) in H1, H2.
  rewrite (total_update one _ _ _ e' He) in H2. unfold one in H2, R2. apply u32_small. lia.
Qed.

Lemma flag_gauges x e e' (d : Z) l l' n :
  counted n l -> lwf l -> l_entries l !! x = Some e -> l_entries l' = <[x := e']> (l_entries l) ->
  same_shape e e' -> e_ref_count e' = e_ref_count e -> e_pin_count e' = e_pin_count e ->
  c_config (l_cache l') = c_config (l_cache l) -> dirty1 e' - dirty1 e = d ->
  gauges (c_stats (l_cache l')) =
    (let t := c_stats (l_cache l) in
     (ks_memory_used t, ks_entries_cached t, u32 (ks_entries_dirty t + d), ks_entries_pinned t)) ->
  counted n l'.
Proof.
  intros Hc Hl He Ee [_ _ Hs _] Hr Hp Hcf <- Hg. pose proof (ct_counts _ _ Hc x e He).
  pose proof (counted_ranges n l Hc Hl) as (_ & R2 & R3 & _).
  eapply counted_update; [exact Hc|exact He|exact Ee|done|done| |done|lia|lia].
  rewrite Hg. cbv zeta. pose proof (ct_gauges _ _ Hc) as [= -> -> -> ->].
  assert (pinned1 e' - pinned1 e = 0) as -> by (unfold pinned1; rewrite Hp; lia).
  rewrite Z.add_0_r. apply quad_eq; [done|done| |done].
  destruct (total_dirty (<[x := e']> (l_entries l))) as [H1 H2].
  rewrite (total_update dirty1 _ _ _ e' He) in H1, H2.
  rewrite (total_update one _ _ _ e' He) in H2. unfold one in H2, R2. apply u32_small. lia.
Qed.

Lemma counted_gone n x e l (b : bool) :
  counted n l -> lwf l -> l_entries l !! x = Some e -> e_pin_count e = 0 -> b = is_dirty e ->
  counted n (if b then l_stats (stat_dirty (-1)) (l_remove x e l) else l_remove x e l).
Proof.
  intros Hc Hl He Hp ->. pose proof (counted_ranges n l Hc Hl) as (R1 & R2 & R3 & R4).
  pose proof (ct_gauges _ _ Hc) as [= G1 G2 G3 G4].
  assert (0 <= total footprint (delete x (l_entries l)) /\ 0 <= total one (delete x (l_entries l)) /\
    0 <= total dirty1 (delete x (l_entries l))) as (P1 & P2 & P3).
  { split_and!; apply total_nonneg; intros y f [_ Hy]%lookup_delete_Some; [|done|].
    - pose proof (wf_entry _ Hl y f Hy) as [_ [_ Hs] _ _]. pose proof (align_spec _ Hs).
      unfold footprint. lia.
    - unfold dirty1. by destruct (is_dirty f). }
  rewrite (total_delete footprint _ _ _ He) in P1. rewrite (total_delete one _ _ _ He) in P2.
  rewrite (total_delete dirty1 _ _ _ He) in P3.
  pose proof (wf_entry _ Hl x e He) as [_ [_ Hs] _ _]. pose proof (align_spec _ Hs) as [_ Ha].
  eapply (counted_remove n x e l); [done|done|done|done| | |]; destruct (is_dirty e) eqn:Hd; try done;
    unfold gauges; cbn; rewrite G1, G2, G3, G4; unfold dirty1 in *; rewrite Hd in *; cbn [Z.b2z] in *;
    unfold footprint, one in *; rewrite ?Z.sub_0_r;
    (apply quad_eq; try done; try (apply u64_small; lia); try (apply u32_small; lia)).
Qed.

Lemma step_counted a n l l' :
  counted n l -> lwf l -> 1 <= n < 2 ^ 32 - 1 -> step a l l' ->
  counted (n + Z.of_nat (weight a)) l'.
Proof.
  intros Hc Hl Hn Hs. pose proof (counted_ranges n l Hc Hl) as (R1 & R2 & R3 & R4).
  pose proof (ct_gauges _ _ Hc) as [= G1 G2 G3 G4].
  destruct Hs as [l l' Hq|x e e' l l' Hup Herr Hr Hp|x e e' l l' Hup Hr Hp
    |x e e' id l l' Hup Heq Hpos Hr Hp|x e e' id l l' Hup Heq Hpos Hr Hp|x e l He Hd
    |f id x e p buf l He Hf Heq Hp Hb Hd|x e l He Hev|x e l He Hev
    |id v v' l Hx Hp Hsz Hne Hfit|x id e l He Heq Herr Hd|p bytes x e l He Hp Hr Hn'|r w y l];
    cbn [weight]; rewrite ?Z.add_0_r.
  - by eapply counted_quiet.
  - pose proof (ct_counts _ _ Hc x e (up_old _ _ _ _ _ Hup)) as [? ?]. rewrite u32_small in Hr by lia.
    eapply counted_updated; [done|done|exact Hup|lia..].
  - pose proof (ct_counts _ _ Hc x e (up_old _ _ _ _ _ Hup)) as [? ?]. rewrite u32_small in Hp by lia.
    eapply counted_updated; [done|done|exact Hup|lia..].
  - pose proof (ct_counts _ _ Hc x e (up_old _ _ _ _ _ Hup)) as [? ?]. rewrite u32_small in Hr by lia.
    eapply counted_updated; [done|done|exact Hup|lia..].
  - pose proof (ct_counts _ _ Hc x e (up_old _ _ _ _ _ Hup)) as [? ?]. rewrite u32_small in Hp by lia.
    eapply counted_updated; [done|done|exact Hup|lia..].
  - eapply (flag_gauges x e _ 1); [done|done|exact He|done..| |done].
    unfold dirty1. rewrite Hd. by flags.
  - unfold l_write. destruct (f _ _ _ _) as [r d]. destruct (r =? KES_SUCCESS); cbn [snd].
    + eapply (flag_gauges x e _ (-1)); [done|done|exact He|done..| |done].
      unfold dirty1. by rewrite Hd, flushed_dirty.
    + eapply (flag_gauges x e _ 0); [done|done|exact He|done..| |].
      * unfold dirty1. rewrite Hd. assert (is_dirty (entry_set_flag KES_EXTENT_ERROR e) = true) as ->; [|done].
        rewrite <-Hd. by flags.
      * unfold gauges. cbn. rewrite Z.add_0_r, u32_small by lia. done.
  - pose proof (counted_gone n x e l false Hc Hl He) as Hg. unfold evictable in Hev.
    apply andb_prop in Hev as [Hev Hf]. apply andb_prop in Hev as [Hev _].
    apply andb_prop in Hev as [_ Hp%Z.eqb_eq]. apply andb_prop in Hf as [Hf%negb_true_iff _].
    by apply Hg.
  - apply counted_gone; [done|done|done| |done]. unfold evictable in Hev.
    apply andb_prop in Hev as [Hev _]. apply andb_prop in Hev as [Hev _].
    by apply andb_prop in Hev as [_ Hp%Z.eqb_eq].
  - by apply counted_load; try lia.
  - unfold l_retry. pose proof (l_read_same x id e l) as (_ & Ec & Een & _).
    destruct (l_read x id e l) as [r l1]. cbn [fst snd] in *.
    assert (forall st, has_flag st KES_EXTENT_DIRTY = false ->
      dirty1 (entry_set_state st e) - dirty1 e = 0) as Hz.
    { intros st Hst. unfold dirty1. rewrite Hd. unfold is_dirty. cbn. by rewrite Hst. }
    destruct (r =? KES_SUCCESS).
    + eapply (flag_gauges x e (entry_set_state KES_EXTENT_CLEAN e) 0);
        [done|done|exact He|cbn; by rewrite Een|done..|cbn; by rewrite Ec|by apply Hz|].
      unfold gauges. cbn. rewrite Ec, Z.add_0_r, u32_small by lia. done.
    + eapply (flag_gauges x e (entry_set_state KES_EXTENT_ERROR e) 0);
        [done|done|exact He|cbn; by rewrite Een|done..|cbn; by rewrite Ec|by apply Hz|].
      unfold gauges. cbn. rewrite Ec, Z.add_0_r, u32_small by lia. done.
  - destruct Hc. by split.
  - destruct Hc. by split.
Qed.

Lemma path_counted ls l l' :
  path ls l l' -> forall n, counted n l -> 1 <= n -> n + Z.of_nat (weights ls) < 2 ^ 32 - 1 ->
  counted (n + Z.of_nat (weights ls)) l'.
Proof.
  induction 1 as [l|a ls l1 l2 l3 Hl Hs Hp IH]; intros n Hc Hn Hb.
  { by rewrite Z.add_0_r. }
  change (a :: ls) with ([a] ++ ls) in *. rewrite weights_app in *.
  assert (weights [a] = weight a) as Ew by (unfold weights; cbn; lia). rewrite Ew in *.
  rewrite Nat2Z.inj_add, Z.add_assoc. apply IH; [|lia|lia].
  eapply step_counted; [done|done|lia|done].
Qed.
End device.
