(* ===== verification/CacheHeld.v ===== *)
(** * Extents in use stay

    An extent with a reference or a pin outlives every operation that does not
    take away the last of them: same address, same identifier, same buffer. *)
From S2P Require Import Prelude Types CacheTypes CacheState Cache CacheLinks CacheSpec CacheView.
From S2P Require Import CacheLists CacheWf CacheFacts CacheWalks CacheOps CacheGet CacheSystem.
From S2P Require Import CacheSteps CacheInv.

Section device.
Context {D : Type}.
Implicit Types (l : lcache D).

(** The invariant of a sequence of operations, and its one-operation step. *)
Lemma exec_counted op n l :
  ready l -> counted n l -> 1 <= n -> n + 1 < 2 ^ 32 - 1 -> client_ok op l ->
  counted (n + 1) (l_exec op l).2.
Proof.
  intros Hr Hc Hn Hb Hok. pose proof (rd_wf _ Hr) as Hl.
  destruct (exec_path op l Hr (counted_counters n l Hc Hl ltac:(lia)) Hok) as (ls & Hp & _ & Hw).
  pose proof (path_counted ls l _ Hp n Hc Hn ltac:(lia)) as Hc'.
  eapply counted_mono; [|exact Hc']. lia.
Qed.

Lemma exec_all_counted ops : forall n l,
  ready l -> counted n l -> 1 <= n -> n + Z.of_nat (length ops) < 2 ^ 32 - 1 -> clients_ok ops l ->
  counted (n + Z.of_nat (length ops)) (l_exec_all ops l).2.
Proof.
  induction ops as [|op ops IH]; intros n l Hr Hc Hn Hb Hok; [by rewrite Z.add_0_r|].
  destruct Hok as [Hop Hok]. cbn [length] in *. cbn [l_exec_all].
  pose proof (exec_counted op n l Hr Hc Hn ltac:(lia) Hop) as Hc1.
  pose proof (ready_exec op l Hr Hop) as Hr1. destruct (l_exec op l) as [r l1]. cbn [snd] in *.
  specialize (IH (n + 1) l1 Hr1 Hc1 ltac:(lia) ltac:(lia) Hok). destruct (l_exec_all ops l1) as [rs l2].
  cbn [snd] in *. replace (n + Z.of_nat (S (length ops))) with (n + 1 + Z.of_nat (length ops)) by lia.
  done.
Qed.

(** ** Held entries *)

(** At least [r] references and [k] pins on the extent [id] at [x], whose
    buffer is [p]. *)
Definition holds (x : loc) (id : kes_extent_id) (p : option loc) (r k : Z) l : Prop :=
  exists e, l_entries l !! x = Some e /\ e_id e = id /\ e_data e = p /\
    r <= e_ref_count e /\ k <= e_pin_count e.

Definition ref_cost (a : label) (id : kes_extent_id) : Z :=
  match a with DropRef id' => Z.b2z (kes_extent_equal id id') | _ => 0 end.
Definition pin_cost (a : label) (id : kes_extent_id) : Z :=
  match a with DropPin id' => Z.b2z (kes_extent_equal id id') | _ => 0 end.

Lemma ref_cost_range a id : 0 <= ref_cost a id <= 1.
Proof. destruct a; cbn; try lia. destruct (kes_extent_equal _ _); cbn; lia. Qed.
Lemma pin_cost_range a id : 0 <= pin_cost a id <= 1.
Proof. destruct a; cbn; try lia. destruct (kes_extent_equal _ _); cbn; lia. Qed.

Lemma holds_put x id p r k r' k' y e e' l l' :
  holds x id p r k l -> l_entries l !! y = Some e -> l_entries l' = <[y := e']> (l_entries l) ->
  e_id e' = e_id e -> e_data e' = e_data e -> r' <= r -> k' <= k ->
  (x = y -> r <= e_ref_count e -> k <= e_pin_count e -> e_id e = id -> r' <= e_ref_count e' /\ k' <= e_pin_count e') ->
  holds x id p r' k' l'.
Proof.
  intros (f & Hf & Hi & Hd & Hr & Hk) He Ee Ei Ed Hr' Hk' Hc. unfold holds. rewrite Ee.
  destruct (decide (x = y)) as [->|Hne].
  - assert (f = e) as -> by congruence. exists e'. rewrite lookup_insert_eq.
    destruct (Hc eq_refl Hr Hk Hi). split_and!; [done|congruence|congruence|done|done].
  - exists f. rewrite lookup_insert_ne by done. split_and!; [done|done|done|lia|lia].
Qed.

Lemma holds_same x id p r k l l' :
  holds x id p r k l -> l_entries l' = l_entries l -> holds x id p r k l'.
Proof. intros H He. unfold holds. by rewrite He. Qed.

Lemma holds_gone x id p r k y e l l' b :
  holds x id p r k l -> 0 < r \/ 0 < k -> l_entries l !! y = Some e -> evictable b e = true ->
  l_entries l' = delete y (l_entries l) -> holds x id p r k l'.
Proof.
  intros (f & Hf & Hi & Hd & Hr & Hk) Hpos He Hev Ee. unfold evictable in Hev.
  apply andb_prop in Hev as [Hev _]. apply andb_prop in Hev as [Hev _].
  apply andb_prop in Hev as [H1%Z.eqb_eq H2%Z.eqb_eq].
  exists f. rewrite Ee. rewrite lookup_delete_ne; [done|]. intros ->.
  assert (f = e) as -> by congruence. lia.
Qed.

Lemma step_holds a n x id p r k l l' :
  counted n l -> n < 2 ^ 32 - 1 -> holds x id p r k l -> 0 < r \/ 0 < k -> step a l l' ->
  holds x id p (r - ref_cost a id) (k - pin_cost a id) l'.
Proof.
  intros Hc Hn Hh Hpos Hs.
  destruct Hs as [l l' Hq|y e e' l l' [He Ee [] _ _ _ _ _ _] _ Hr Hp
    |y e e' l l' [He Ee [] _ _ _ _ _ _] Hr Hp
    |y e e' id' l l' [He Ee [] _ _ _ _ _ _] Heq Hd Hr Hp
    |y e e' id' l l' [He Ee [] _ _ _ _ _ _] Heq Hd Hr Hp|y e l He Hd
    |f id' y e p' buf l He Hf Heq Hp Hb Hd|y e l He Hev|y e l He Hev
    |id' v v' l Hx Hp Hsz Hne Hfit|y id' e l He Heq Herr Hd|p' bytes y e l He Hp Hr Hn'|rf w sy l];
    cbn [ref_cost pin_cost]; rewrite ?Z.sub_0_r.
  - eapply holds_same; [done|apply Hq].
  - pose proof (ct_counts _ _ Hc y e He). eapply holds_put; [exact Hh|exact He|exact Ee|done|done|lia|lia|].
    rewrite Hr, Hp, u32_small by lia. lia.
  - pose proof (ct_counts _ _ Hc y e He). eapply holds_put; [exact Hh|exact He|exact Ee|done|done|lia|lia|].
    rewrite Hr, Hp, u32_small by lia. lia.
  - pose proof (ct_counts _ _ Hc y e He). pose proof (ref_cost_range (DropRef id') id) as Hrc. cbn in Hrc.
    eapply holds_put; [exact Hh|exact He|exact Ee|done|done|lia|lia|].
    intros _ ? ? <-. rewrite Hr, Hp, Heq, u32_small by lia. cbn. lia.
  - pose proof (ct_counts _ _ Hc y e He). pose proof (pin_cost_range (DropPin id') id) as Hrc. cbn in Hrc.
    eapply holds_put; [exact Hh|exact He|exact Ee|done|done|lia|lia|].
    intros _ ? ? <-. rewrite Hr, Hp, Heq, u32_small by lia. cbn. lia.
  - eapply (holds_put x id p r k r k y e); [exact Hh|exact He|done|done|done|lia|lia|done].
  - unfold l_write. destruct (f _ _ _ _) as [rc d]. destruct (rc =? KES_SUCCESS);
      (eapply (holds_put x id p r k r k y e); [exact Hh|exact He|done|done|done|lia|lia|done]).
  - by eapply holds_gone.
  - eapply (holds_gone x id p r k y e l _ true); [done|done|done|done|by destruct (is_dirty e)].
  - destruct (load_shape id' v v' l) as ((st & m & Ee & _) & _ & _).
    destruct Hh as (f & Hf & ?). exists f. rewrite Ee, lookup_insert_ne; [done|]. congruence.
  - destruct (retry_entry y id' e l) as (st & Ee & _).
    eapply (holds_put x id p r k r k y e); [exact Hh|exact He|exact Ee|done|done|lia|lia|done].
  - by eapply holds_same.
  - by eapply holds_same.
Qed.

Definition ref_costs (ls : list label) (id : kes_extent_id) : Z := foldr (fun a n => ref_cost a id + n) 0 ls.
Definition pin_costs (ls : list label) (id : kes_extent_id) : Z := foldr (fun a n => pin_cost a id + n) 0 ls.

Lemma costs_nonneg ls id : 0 <= ref_costs ls id /\ 0 <= pin_costs ls id.
Proof.
  unfold ref_costs, pin_costs in *. induction ls as [|a ls IH]; [done|]. cbn.
  pose proof (ref_cost_range a id). pose proof (pin_cost_range a id). lia.
Qed.

Lemma path_holds ls l l' :
  path ls l l' -> forall n x id p r k,
  counted n l -> 1 <= n -> n + Z.of_nat (weights ls) < 2 ^ 32 - 1 -> holds x id p r k l ->
  0 < r - ref_costs ls id \/ 0 < k - pin_costs ls id ->
  holds x id p (r - ref_costs ls id) (k - pin_costs ls id) l'.
Proof.
  induction 1 as [l|a ls l1 l2 l3 Hl Hs Hp IH]; intros n x id p r k Hc Hn Hb Hh Hpos.
  { cbn. by rewrite !Z.sub_0_r. }
  change (a :: ls) with ([a] ++ ls) in Hb. rewrite weights_app in Hb.
  assert (weights [a] = weight a) as Ew by (unfold weights; cbn; lia). rewrite Ew in Hb.
  cbn [ref_costs pin_costs foldr] in *. fold (ref_costs ls id) (pin_costs ls id) in *.
  pose proof (ref_cost_range a id). pose proof (pin_cost_range a id). pose proof (costs_nonneg ls id).
  pose proof (step_holds a n x id p r k l1 l2 Hc ltac:(lia) Hh ltac:(lia) Hs) as Hh2.
  pose proof (step_counted a n l1 l2 Hc Hl ltac:(lia) Hs) as Hc2.
  replace (r - (ref_cost a id + ref_costs ls id)) with (r - ref_cost a id - ref_costs ls id) by lia.
  replace (k - (pin_cost a id + pin_costs ls id)) with (k - pin_cost a id - pin_costs ls id) by lia.
  eapply IH; [exact Hc2|lia|lia|done|lia].
Qed.

(** ** Operations that take away *)

Definition is_put (id : kes_extent_id) (op : cache_op D) : bool :=
  match op with OpPut (Some id') => kes_extent_equal id id' | _ => false end.
Definition is_unpin (id : kes_extent_id) (op : cache_op D) : bool :=
  match op with OpUnpin (Some id') => kes_extent_equal id id' | _ => false end.
Definition count_ops (f : cache_op D -> bool) (ops : list (cache_op D)) : Z :=
  Z.of_nat (length (List.filter f ops)).

Lemma allowed_costs op ls id :
  Forall (allowed op) ls -> (weights ls <= 1)%nat ->
  ref_costs ls id <= Z.b2z (is_put id op) /\ pin_costs ls id <= Z.b2z (is_unpin id op).
Proof.
  intros Hf Hw. unfold ref_costs, pin_costs in *.
  assert (forall ls, Forall (allowed op) ls -> weights ls = 0%nat ->
    foldr (fun a n => ref_cost a id + n) 0 ls = 0 /\ foldr (fun a n => pin_cost a id + n) 0 ls = 0) as H0.
  { clear. induction 1 as [|a ls Ha _ IH]; [done|]. intros Hw. change (a :: ls) with ([a] ++ ls) in Hw.
    rewrite weights_app in Hw. unfold weights at 1 in Hw. cbn in Hw |- *.
    destruct a; cbn in *; try lia; apply IH; lia. }
  revert Hw. induction Hf as [|a ls Ha Hf IH]; intros Hw.
  { destruct (is_put id op), (is_unpin id op); done. }
  change (a :: ls) with ([a] ++ ls) in Hw. rewrite weights_app in Hw. unfold weights at 1 in Hw. cbn in Hw |- *.
  destruct a; cbn in Hw; try (specialize (IH ltac:(lia)); cbn; lia);
    destruct (H0 ls Hf ltac:(lia)) as [-> ->]; cbn [ref_cost pin_cost].
  - cbn in Ha. subst op. cbn. lia.
  - cbn in Ha. subst op. cbn. lia.
Qed.

Lemma exec_holds op n x id p r k l :
  ready l -> counted n l -> 1 <= n -> n + 1 < 2 ^ 32 - 1 -> client_ok op l ->
  holds x id p r k l ->
  0 < r - Z.b2z (is_put id op) \/ 0 < k - Z.b2z (is_unpin id op) ->
  holds x id p (r - Z.b2z (is_put id op)) (k - Z.b2z (is_unpin id op)) (l_exec op l).2.
Proof.
  intros Hr Hc Hn Hb Hok Hh Hpos. pose proof (rd_wf _ Hr) as Hl.
  destruct (exec_path op l Hr (counted_counters n l Hc Hl ltac:(lia)) Hok) as (ls & Hp & Hal & Hw).
  pose proof (allowed_costs op ls id Hal Hw) as [C1 C2].
  destruct (path_holds ls l _ Hp n x id p r k Hc Hn ltac:(lia) Hh ltac:(lia)) as (e & He & Hi & Hd & Hr' & Hk').
  exists e. split_and!; [done|done|done|lia|lia].
Qed.

Lemma exec_all_holds ops : forall n x id p r k l,
  ready l -> counted n l -> 1 <= n -> n + Z.of_nat (length ops) < 2 ^ 32 - 1 -> clients_ok ops l ->
  holds x id p r k l ->
  count_ops (is_put id) ops < r \/ count_ops (is_unpin id) ops < k ->
  holds x id p (r - count_ops (is_put id) ops) (k - count_ops (is_unpin id) ops) (l_exec_all ops l).2.
Proof.
  induction ops as [|op ops IH]; intros n x id p r k l Hr Hc Hn Hb Hok Hh Hpos.
  { unfold count_ops. cbn. by rewrite !Z.sub_0_r. }
  destruct Hok as [Hop Hok]. cbn [length] in *. cbn [l_exec_all].
  assert (forall f, count_ops f (op :: ops) = Z.b2z (f op) + count_ops f ops) as Hcons.
  { intros f. unfold count_ops. cbn. destruct (f op); cbn [length Z.b2z]; lia. }
  rewrite !Hcons in *.
  assert (forall f : cache_op D -> bool, 0 <= count_ops f ops) as Hnn by (intros; unfold count_ops; lia).
  pose proof (Hnn (is_put id)). pose proof (Hnn (is_unpin id)).
  pose proof (exec_holds op n x id p r k l Hr Hc Hn ltac:(lia) Hop Hh ltac:(lia)) as Hh1.
  pose proof (exec_counted op n l Hr Hc Hn ltac:(lia) Hop) as Hc1.
  pose proof (ready_exec op l Hr Hop) as Hr1. destruct (l_exec op l) as [rs l1]. cbn [snd] in *.
  specialize (IH (n + 1) x id p _ _ l1 Hr1 Hc1 ltac:(lia) ltac:(lia) Hok Hh1 ltac:(lia)).
  destruct (l_exec_all ops l1) as [rs' l2]. cbn [snd] in *. rewrite !Z.sub_add_distr. done.
Qed.
End device.
