(* ===== verification/CacheContent.v ===== *)
(** * The cache is transparent

    With callbacks that read and write a device faithfully, a client that
    marks what it changes sees one array of extents: every operation leaves
    the value of every extent as it was, wherever it currently lives, and an
    update changes exactly the extent updated. *)
From S2P Require Import Prelude Types CacheTypes CacheState Cache CacheLinks CacheSpec CacheView.
From S2P Require Import CacheLists CacheWf CacheFacts CacheWalks CacheOps CacheGet CacheSystem.
From S2P Require Import CacheSteps CacheInv CacheHeld.

(** ** Faithful callbacks *)

Section device.
Context {D : Type}.

(** [contents d id] is what the device holds for an extent; [U] are the
    extents in use, which do not overlap: writing one leaves the others. *)
Record faithful (contents : D -> kes_extent_id -> list Z) (U : kes_extent_id -> Prop)
    (rd : read_fn D) (wr : write_fn D) : Prop := {
  fa_ext : forall d id id', kes_extent_equal id id' = true -> contents d id = contents d id';
  fa_same : forall id id', kes_extent_equal id id' = true -> U id -> U id';
  fa_length : forall d id, U id -> Z.of_nat (length (contents d id)) = extent_data_size id;
  fa_read : forall h id d r bytes d', U id ->
    rd h id (extent_data_size id) d = (r, bytes, d') ->
    (forall id', contents d' id' = contents d id') /\
    (r = KES_SUCCESS -> take (Z.to_nat (extent_data_size id)) bytes = contents d id);
  fa_write : forall h id d bytes r d', U id ->
    Z.of_nat (length bytes) = extent_data_size id -> wr h id bytes d = (r, d') ->
    (forall id', U id' -> r ≠ KES_SUCCESS \/ kes_extent_equal id id' = false ->
       contents d' id' = contents d id') /\
    (r = KES_SUCCESS -> contents d' id = bytes)
}.

Context (contents : D -> kes_extent_id -> list Z) (U : kes_extent_id -> Prop).
Context (rd : read_fn D) (wr : write_fn D).
Context (Hdev : faithful contents U rd wr).
Implicit Types (l : lcache D) (id : kes_extent_id).

(** The data of an entry's buffer. *)
Definition held_bytes l (e : kes_extent_entry) : list Z :=
  take (Z.to_nat (e_data_size e)) (default [] (l_buffer l e)).

(** The value of an extent: in the cache if it is dirty there, on the device
    otherwise. *)
Definition value l id : list Z :=
  match l_find id l with
  | Some x =>
      match l_entries l !! x with
      | Some e => if is_dirty e then held_bytes l e else contents (l_dev l) id
      | None => contents (l_dev l) id
      end
  | None => contents (l_dev l) id
  end.

Record coherent l : Prop := {
  co_read : c_read_extent (l_cache l) = Some rd;
  co_write : c_write_extent (l_cache l) = Some wr;
  co_ids : forall x e, l_entries l !! x = Some e -> U (e_id e);
  co_clean : forall x e, l_entries l !! x = Some e -> is_dirty e = false -> is_error e = false ->
               held_bytes l e = contents (l_dev l) (e_id e);
  co_error : forall x e, l_entries l !! x = Some e -> is_dirty e = false -> is_error e = true ->
               e_ref_count e = 0
}.

(** ** Values *)

Lemma l_find_cached x e id l :
  lwf l -> l_entries l !! x = Some e -> kes_extent_equal (e_id e) id = true -> l_find id l = Some x.
Proof.
  intros Hl He Heq. destruct (l_find id l) as [y|] eqn:Ef.
  - apply l_find_Some in Ef as (_ & f & Hy & Heq'). f_equal. eapply (wf_ids _ Hl); [exact Hy|exact He|].
    apply extent_equal_iff in Heq as (? & ? & ?), Heq' as (? & ? & ?). apply extent_equal_iff.
    split_and!; congruence.
  - rewrite (l_find_none id l Hl Ef x e He) in Heq. done.
Qed.

Lemma value_cached x e id l :
  lwf l -> l_entries l !! x = Some e -> kes_extent_equal (e_id e) id = true ->
  value l id = if is_dirty e then held_bytes l e else contents (l_dev l) id.
Proof. intros Hl He Heq. unfold value. by rewrite (l_find_cached x e id l Hl He Heq), He. Qed.

Lemma value_absent id l :
  (forall x e, l_entries l !! x = Some e -> kes_extent_equal (e_id e) id = false) ->
  value l id = contents (l_dev l) id.
Proof.
  intros Hn. unfold value. destruct (l_find id l) as [x|] eqn:Ef; [|done].
  apply l_find_Some in Ef as (_ & e & He & Heq). rewrite (Hn x e He) in Heq. done.
Qed.

(** An extent is cached at one address, or nowhere. *)
Lemma cached_or_not id l :
  (exists x e, l_entries l !! x = Some e /\ kes_extent_equal (e_id e) id = true) \/
  (forall x e, l_entries l !! x = Some e -> kes_extent_equal (e_id e) id = false).
Proof.
  destruct (l_find id l) as [x|] eqn:Ef.
  - apply l_find_Some in Ef as (_ & e & He & Heq). left. by exists x, e.
  - destruct (decide (map_Exists (fun _ e => kes_extent_equal (e_id e) id = true) (l_entries l)))
      as [(x & e & He & Heq)|Hn]; [left; by exists x, e|right].
    intros x e He. apply not_true_iff_false. intros Heq. apply Hn. by exists x, e.
Qed.

(** Same values when entries, buffers and device agree where it matters. *)
Lemma value_same l l' :
  lwf l -> lwf l' ->
  (forall x e', l_entries l' !! x = Some e' -> exists e, l_entries l !! x = Some e /\
     e_id e = e_id e' /\ is_dirty e = is_dirty e' /\ (is_dirty e = true -> held_bytes l' e' = held_bytes l e)) ->
  (forall x e, l_entries l !! x = Some e -> is_Some (l_entries l' !! x)) ->
  (forall id, U id -> contents (l_dev l') id = contents (l_dev l) id) ->
  forall id, U id -> value l' id = value l id.
Proof.
  intros Hl Hl' Hback Hfwd Hc id Hu.
  destruct (cached_or_not id l') as [(x & e' & He' & Heq)|Hn].
  - rewrite (value_cached x e' id l') by done. destruct (Hback x e' He') as (e & He & Hi & Hd & Hh).
    rewrite (value_cached x e id l) by (done || by rewrite Hi). rewrite Hd.
    destruct (is_dirty e') eqn:E; [by apply Hh|by apply Hc].
  - rewrite (value_absent id l') by done. rewrite (value_absent id l); [by apply Hc|].
    intros x e He. destruct (Hfwd x e He) as [e' He']. destruct (Hback x e' He') as (e0 & He0 & Hi & _).
    assert (e0 = e) as -> by congruence. rewrite Hi. by apply (Hn x).
Qed.

Lemma held_same l l' e e' :
  l_bufs l' = l_bufs l -> e_data e' = e_data e -> e_data_size e' = e_data_size e ->
  held_bytes l' e' = held_bytes l e.
Proof. intros Hb Hd Hs. unfold held_bytes, l_buffer. by rewrite Hb, Hd, Hs. Qed.

(** ** Every change keeps coherence and values *)

Definition keeps l l' : Prop := coherent l' /\ forall id, U id -> value l' id = value l id.

Lemma keeps_refl l : coherent l -> keeps l l.
Proof. by split. Qed.
Lemma keeps_trans l1 l2 l3 : keeps l1 l2 -> (coherent l2 -> keeps l2 l3) -> keeps l1 l3.
Proof. intros [C1 V1] H. destruct (H C1) as [C2 V2]. split; [done|]. intros id Hu. by rewrite V2, V1. Qed.

(** An entry rewritten without change of contents. *)
Lemma keeps_update x e e' l l' :
  coherent l -> lwf l -> lwf l' ->
  l_entries l !! x = Some e -> l_entries l' = <[x := e']> (l_entries l) -> same_shape e e' ->
  is_dirty e' = is_dirty e -> is_error e' = is_error e ->
  (is_error e = true -> is_dirty e = false -> e_ref_count e' = 0) ->
  l_bufs l' = l_bufs l -> l_dev l' = l_dev l -> same_setup l l' -> keeps l l'.
Proof.
  intros [C1 C2 C3 C4 C5] Hl Hl' He Ee [Si Sd Ss Sw] Hd Herr Hr Hb Hv (_ & Hrd & Hwr).
  split.
  - split; [congruence|congruence|..]; rewrite Ee.
    + intros y f [[<- <-]|[_ Hy]]%lookup_insert_Some; [rewrite Si|]; eauto.
    + intros y f [[<- <-]|[_ Hy]]%lookup_insert_Some Hfd Hfe; rewrite Hv.
      * rewrite (held_same l l' e e') by done. rewrite Si. apply (C4 x); congruence.
      * rewrite (held_same l l' f f) by done. by apply (C4 y).
    + intros y f [[<- <-]|[_ Hy]]%lookup_insert_Some Hfd Hfe; [apply Hr; congruence|by apply (C5 y)].
  - apply value_same; [done|done|..].
    + rewrite Ee. intros y f [[<- <-]|[_ Hy]]%lookup_insert_Some.
      * exists e. split_and!; [done|done|done|]. intros _. by apply held_same.
      * exists f. split_and!; [done|done|done|]. intros _. by apply held_same.
    + intros y f Hy. rewrite Ee. rewrite lookup_insert_is_Some'. right. by eexists.
    + intros id _. by rewrite Hv.
Qed.

Lemma keeps_quiet l l' : coherent l -> lwf l -> lwf l' -> quiet l l' -> keeps l l'.
Proof.
  intros [C1 C2 C3 C4 C5] Hl Hl' [_ Ee Hb Hv (_ & Hrd & Hwr) _]. split.
  - split; [congruence|congruence|..]; rewrite Ee; [done| |done].
    intros x e He Hd Herr. rewrite Hv, (held_same l l' e e) by done. by apply (C4 x).
  - apply value_same; [done|done|..].
    + rewrite Ee. intros y f Hy. exists f. split_and!; [done..|]. intros _. by apply held_same.
    + rewrite Ee. intros y f Hy. by eexists.
    + intros id _. by rewrite Hv.
Qed.

(** An entry removed that is not dirty. *)
Lemma keeps_remove x e l l' :
  coherent l -> lwf l -> lwf l' -> l_entries l !! x = Some e -> is_dirty e = false ->
  l_entries l' = delete x (l_entries l) -> l_bufs l' = delete_some (e_data e) (l_bufs l) ->
  l_dev l' = l_dev l -> same_setup l l' -> keeps l l'.
Proof.
  intros [C1 C2 C3 C4 C5] Hl Hl' He Hd Ee Hb Hv (_ & Hrd & Hwr).
  assert (forall y f, y ≠ x -> l_entries l !! y = Some f -> held_bytes l' f = held_bytes l f) as Hh.
  { intros y f Hne Hy. unfold held_bytes, l_buffer. rewrite Hb. destruct (e_data e) as [p|] eqn:Hp; [|done].
    destruct (e_data f) as [q|] eqn:Hq; [|done]. cbn. rewrite lookup_delete_ne; [done|].
    intros ->. apply Hne. apply (wf_own _ Hl y x f e Hy He). congruence. }
  split.
  - split; [congruence|congruence|..]; rewrite Ee.
    + intros y f [_ Hy]%lookup_delete_Some. eauto.
    + intros y f [Hne Hy]%lookup_delete_Some Hfd Hfe. rewrite Hv, (Hh y f) by done. by apply (C4 y).
    + intros y f [_ Hy]%lookup_delete_Some. by apply (C5 y).
  - intros id Hu. destruct (cached_or_not id l') as [(y & f & Hy & Heq)|Hn].
    + rewrite (value_cached y f id l') by done. rewrite Ee in Hy.
      apply lookup_delete_Some in Hy as [Hne Hy]. rewrite (value_cached y f id l) by done.
      by rewrite Hv, (Hh y f).
    + rewrite (value_absent id l') by done. rewrite Hv.
      destruct (cached_or_not id l) as [(y & f & Hy & Heq)|Hn']; [|by rewrite value_absent].
      rewrite (value_cached y f id l) by done. destruct (decide (y = x)) as [->|Hne].
      * assert (f = e) as -> by congruence. by rewrite Hd.
      * rewrite (Hn y f) in Heq; [done|]. by rewrite Ee, lookup_delete_ne.
Qed.

Lemma held_length x e l :
  lwf l -> l_entries l !! x = Some e -> Z.of_nat (length (held_bytes l e)) = extent_data_size (e_id e).
Proof.
  intros Hl He. pose proof (wf_entry _ Hl x e He) as Hok.
  destruct (entry_buffer _ _ Hok) as (p & buf & Hp & Hb & Hn). destruct (en_size _ _ Hok) as [<- Hs].
  unfold held_bytes, l_buffer. rewrite Hp. cbn. rewrite Hb. cbn. rewrite length_take. lia.
Qed.

Lemma keeps_write id x e buf l :
  coherent l -> lwf l -> l_entries l !! x = Some e -> kes_extent_equal (e_id e) id = true ->
  l_buffer l e = Some buf -> is_dirty e = true -> keeps l (l_write wr id x e buf l).2.
Proof.
  intros Hco Hl He Heq Hb Hd. pose proof (lwf_write wr id x e buf l Hl He) as Hl'.
  pose proof (held_length x e l Hl He) as Hlen. destruct Hco as [C1 C2 C3 C4 C5].
  assert (held_bytes l e = take (Z.to_nat (e_data_size e)) buf) as Hhb by (unfold held_bytes; by rewrite Hb).
  rewrite (equal_size _ _ Heq) in Hlen.
  pose proof (fa_same _ _ _ _ Hdev _ _ Heq (C3 x e He)) as Hu.
  unfold l_write in *. rewrite <-Hhb in *.
  destruct (wr _ _ _ _) as [r d] eqn:Hw.
  destruct (fa_write _ _ _ _ Hdev _ id (l_dev l) (held_bytes l e) r d Hu Hlen Hw) as [Hothers Hthis].
  destruct (Z.eqb_spec r KES_SUCCESS) as [->|Hr]; cbn [snd] in *.
  - specialize (Hthis eq_refl). set (l' := l_stats _ _) in *.
    assert (forall f, held_bytes l' f = held_bytes l f) as Hh by done.
    assert (forall y f, y ≠ x -> l_entries l !! y = Some f -> kes_extent_equal id (e_id f) = false) as Hne.
    { intros y f Hne Hy. apply not_true_iff_false. intros E. apply Hne.
      apply (wf_ids _ Hl y x f e Hy He). by rewrite equal_sym, (equal_trans _ id). }
    split.
    + split; [done|done|..]; cbn.
      * intros y f [[<- <-]|[_ Hy]]%lookup_insert_Some; eauto. apply (C3 x e He).
      * intros y f [[<- <-]|[Hy0 Hy]]%lookup_insert_Some Hfd Hfe.
        -- transitivity (contents d id); [by rewrite Hthis|]. apply (fa_ext _ _ _ _ Hdev).
           by rewrite equal_sym.
        -- rewrite Hh, (Hothers (e_id f)); [by apply (C4 y)|by apply (C3 y)|right; by eapply Hne].
      * intros y f [[<- <-]|[_ Hy]]%lookup_insert_Some Hfd Hfe; [|by apply (C5 y)].
        by rewrite flushed_error in Hfe.
    + intros id' Hu'. destruct (cached_or_not id' l') as [(y & f & Hy & Heq')|Hn].
      * rewrite (value_cached y f id' l') by done. cbn in Hy.
        apply lookup_insert_Some in Hy as [[<- <-]|[Hyx Hy]].
        -- rewrite flushed_dirty. rewrite (value_cached x e id' l) by done. rewrite Hd.
           transitivity (contents d id); [|done]. apply (fa_ext _ _ _ _ Hdev).
           rewrite equal_sym, <-(equal_trans (e_id e)); done.
        -- rewrite (value_cached y f id' l) by done. destruct (is_dirty f); [by apply Hh|].
           apply Hothers; [done|right]. rewrite equal_sym, <-(equal_trans (e_id f)) by done.
           rewrite equal_sym. by eapply Hne.
      * rewrite (value_absent id' l') by done. rewrite (value_absent id' l).
        -- apply Hothers; [done|right]. rewrite <-(equal_trans (e_id e)) by done.
           apply (Hn x (flushed e)). apply lookup_insert_eq.
        -- intros y f Hy. destruct (decide (y = x)) as [->|Hyx].
           ++ assert (f = e) as -> by congruence. apply (Hn x (flushed e)). apply lookup_insert_eq.
           ++ apply (Hn y). cbn. by rewrite lookup_insert_ne.
  - set (e' := entry_set_flag KES_EXTENT_ERROR e) in *.
    assert (is_dirty e' = true) as Hd' by (rewrite <-Hd; unfold e'; by flags).
    assert (forall id', U id' -> contents d id' = contents (l_dev l) id') as Hc by (intros; apply Hothers; auto).
    split.
    + split; [done|done|..]; cbn.
      * intros y f [[<- <-]|[_ Hy]]%lookup_insert_Some; eauto. apply (C3 x e He).
      * intros y f [[<- <-]|[Hy0 Hy]]%lookup_insert_Some Hfd Hfe; [congruence|].
        rewrite Hc by (by apply (C3 y)). by apply (C4 y).
      * intros y f [[<- <-]|[_ Hy]]%lookup_insert_Some Hfd Hfe; [congruence|by apply (C5 y)].
    + apply value_same; [done|done|..|exact Hc]; cbn.
      * intros y f [[<- <-]|[_ Hy]]%lookup_insert_Some; [exists e|exists f; done].
        by split_and!; [|done|rewrite Hd'|].
      * intros y f Hy. rewrite lookup_insert_is_Some'. right. by eexists.
Qed.

(** A read into the buffer of an entry that holds nothing yet. *)
Lemma keeps_read_into x e' p nb l l' :
  coherent l -> lwf l -> lwf l' ->
  (forall f, l_entries l !! x = Some f -> e_id f = e_id e' /\ is_dirty f = false) ->
  l_entries l' = <[x := e']> (l_entries l) -> l_bufs l' = <[p := nb]> (l_bufs l) ->
  (forall y f, y ≠ x -> l_entries l !! y = Some f -> e_data f ≠ Some p) ->
  e_data e' = Some p -> U (e_id e') -> is_dirty e' = false ->
  (if is_error e' then e_ref_count e' = 0
   else take (Z.to_nat (e_data_size e')) nb = contents (l_dev l) (e_id e')) ->
  (forall id, contents (l_dev l') id = contents (l_dev l) id) ->
  c_read_extent (l_cache l') = c_read_extent (l_cache l) ->
  c_write_extent (l_cache l') = c_write_extent (l_cache l) -> keeps l l'.
Proof.
  intros [C1 C2 C3 C4 C5] Hl Hl' Hx Ee Eb Hown Hp Hu Hd Hst Hc Hrd Hwr.
  assert (forall y f, y ≠ x -> l_entries l !! y = Some f -> held_bytes l' f = held_bytes l f) as Hh.
  { intros y f Hne Hy. unfold held_bytes, l_buffer. rewrite Eb. pose proof (Hown y f Hne Hy).
    destruct (e_data f) as [q|]; [|done]. cbn. rewrite lookup_insert_ne; [done|]. congruence. }
  split.
  - split; [congruence|congruence|..]; rewrite Ee.
    + intros y f [[<- <-]|[_ Hy]]%lookup_insert_Some; eauto.
    + intros y f [[<- <-]|[Hne Hy]]%lookup_insert_Some Hfd Hfe; rewrite Hc.
      * rewrite Hfe in Hst. unfold held_bytes, l_buffer. rewrite Hp, Eb. cbn. by rewrite lookup_insert_eq.
      * rewrite (Hh y f) by done. by apply (C4 y).
    + intros y f [[<- <-]|[_ Hy]]%lookup_insert_Some Hfd Hfe; [by rewrite Hfe in Hst|by apply (C5 y)].
  - intros id Hid. destruct (cached_or_not id l') as [(y & f & Hy & Heq)|Hn].
    + rewrite (value_cached y f id l') by done. pose proof Hy as Hy'. rewrite Ee in Hy'.
      apply lookup_insert_Some in Hy' as [[<- <-]|[Hne Hy']].
      * rewrite Hd, Hc. destruct (cached_or_not id l) as [(z & g & Hz & Heq')|Hn']; [|by rewrite value_absent].
        destruct (decide (z = x)) as [->|Hzx].
        -- destruct (Hx g Hz) as [_ Hg]. rewrite (value_cached x g id l) by done. by rewrite Hg.
        -- exfalso. apply Hzx. apply (wf_ids _ Hl' z x g e'); [by rewrite Ee, lookup_insert_ne|done|].
           by rewrite (equal_trans _ id), equal_sym.
      * rewrite (value_cached y f id l) by done. by rewrite Hc, (Hh y f).
    + rewrite (value_absent id l'), Hc by done. rewrite value_absent; [done|].
      intros y f Hy. destruct (decide (y = x)) as [->|Hne].
      * destruct (Hx f Hy) as [-> _]. apply (Hn x). by rewrite Ee, lookup_insert_eq.
      * apply (Hn y). by rewrite Ee, lookup_insert_ne.
Qed.

(** What [l_read] does through a faithful callback. *)
Lemma read_result x id e p buf l :
  c_read_extent (l_cache l) = Some rd -> e_data e = Some p -> l_bufs l !! p = Some buf ->
  0 <= e_data_size e <= Z.of_nat (length buf) -> U id -> e_data_size e = extent_data_size id ->
  exists nb, l_bufs (l_read x id e l).2 = <[p := nb]> (l_bufs l) /\
    ((l_read x id e l).1 = KES_SUCCESS -> take (Z.to_nat (e_data_size e)) nb = contents (l_dev l) id) /\
    forall id', contents (l_dev (l_read x id e l).2) id' = contents (l_dev l) id'.
Proof.
  intros Hrd Hp Hb Hn Hu Hs. unfold l_read. rewrite Hrd, Hp, Hb, Hs.
  destruct (rd _ _ _ _) as [[r bytes] d] eqn:Hr. cbn [fst snd].
  destruct (fa_read _ _ _ _ Hdev _ id (l_dev l) r bytes d Hu Hr) as [Hsame Hok].
  eexists. split; [done|]. split; [|exact Hsame]. intros Hz. change (default [] (Some buf)) with buf.
  rewrite <-(Hok Hz). pose proof (fa_length _ _ _ _ Hdev (l_dev l) id Hu) as Hlen.
  rewrite <-(Hok Hz), length_take in Hlen.
  change (take ?n (splice 0 ?bs ?l)) with (slice 0 n (splice 0 bs l)).
  replace (Z.to_nat (extent_data_size id)) with (length (take (Z.to_nat (extent_data_size id)) bytes)) at 1
    by (rewrite length_take; lia).
  apply slice_splice_same.
Qed.

Lemma keeps_retry x id e l :
  coherent l -> lwf l -> l_entries l !! x = Some e -> kes_extent_equal (e_id e) id = true ->
  is_error e = true -> is_dirty e = false -> keeps l (l_retry x id e l).
Proof.
  intros Hco Hl He Heq Herr Hd. pose proof (lwf_retry x id e l Hl He) as Hl'.
  pose proof (wf_entry _ Hl x e He) as Hok.
  destruct (entry_buffer _ _ Hok) as (p & buf & Hp & Hb & Hn). destruct (en_size _ _ Hok) as [Hs Hs'].
  pose proof (fa_same _ _ _ _ Hdev _ _ Heq (co_ids _ Hco x e He)) as Hu.
  rewrite (equal_size _ _ Heq) in Hs.
  destruct (read_result x id e p buf l) as (nb & Eb & Hnb & Hc); [apply Hco|done|done|lia|done|done|].
  pose proof (l_read_same x id e l) as (_ & Ec & Een & _).
  unfold l_retry in *. destruct (l_read x id e l) as [r l1]. cbn [fst snd] in *.
  assert (forall y f, y ≠ x -> l_entries l !! y = Some f -> e_data f ≠ Some p) as Hown.
  { intros y f Hne Hy Hf. apply Hne. apply (wf_own _ Hl y x f e Hy He). congruence. }
  pose proof (co_error _ Hco x e He Hd Herr) as Href.
  destruct (Z.eqb_spec r KES_SUCCESS) as [->|Hr].
  - eapply (keeps_read_into x (entry_set_state KES_EXTENT_CLEAN e) p nb); [done|done|done| | | |exact Hown|done|
      exact (co_ids _ Hco x e He)|done| |exact Hc|..]; cbn; rewrite ?Een, ?Ec; try done.
    + intros f Hf. assert (f = e) as -> by congruence. done.
    + rewrite (Hnb eq_refl). apply (fa_ext _ _ _ _ Hdev). by rewrite equal_sym.
  - eapply (keeps_read_into x (entry_set_state KES_EXTENT_ERROR e) p nb); [done|done|done| | | |exact Hown|done|
      exact (co_ids _ Hco x e He)|done| |exact Hc|..]; cbn; rewrite ?Een, ?Ec; try done.
    intros f Hf. assert (f = e) as -> by congruence. done.
Qed.

Lemma keeps_load id v v' l :
  let l' := (l_load (env_next v) id
    (fresh_entry id (l_now (l_set_env (bump v) l)) (Some (env_next v'))) (with_candidate id v v' l)).2 in
  coherent l -> lwf l -> lwf l' -> U id -> l_entries l !! env_next v = None ->
  l_bufs l !! env_next v' = None -> 0 <= extent_data_size id < 2 ^ 62 -> keeps l l'.
Proof.
  intros l' Hco Hl Hl' Hu Hx Hp Hs. unfold l' in *. clear l'. rewrite l_load_eq in *.
  set (x := env_next v) in *. set (p := env_next v') in *.
  set (e := fresh_entry id (l_now (l_set_env (bump v) l)) (Some p)) in *.
  set (lp := l_publish x e (with_candidate id v v' l)) in *.
  destruct (align_spec _ Hs) as [_ Hal].
  destruct (read_result x id e p
    (take (Z.to_nat (KES_ALIGN (extent_data_size id) KES_CACHE_ALIGNMENT))
       (env_junk v' p (KES_ALIGN (extent_data_size id) KES_CACHE_ALIGNMENT) ++
        replicate (Z.to_nat (KES_ALIGN (extent_data_size id) KES_CACHE_ALIGNMENT)) 0)) lp)
    as (nb & Eb & Hnb & Hc); [apply Hco|done|cbn; by rewrite lookup_insert_eq| |done|done|].
  { rewrite length_take, length_app, length_replicate. cbn. lia. }
  pose proof (l_read_same x id e lp) as (_ & Ec & Een & _).
  destruct (l_read x id e lp) as [r l1]. cbn [fst snd] in *.
  assert (l_entries l1 = <[x := e]> (l_entries l)) as Een' by exact Een.
  assert (l_bufs l1 = <[p := nb]> (l_bufs l)) as Eb'.
  { rewrite Eb. cbn. by rewrite insert_insert_eq. }
  assert (forall y f, y ≠ x -> l_entries l !! y = Some f -> e_data f ≠ Some p) as Hown.
  { intros y f _ Hy Hf. destruct (en_data _ _ (wf_entry _ Hl y f Hy)) as (q & b & Hq & Hb & _).
    congruence. }
  assert (forall st n, l_entries (l_put x (entry_set_ref n (entry_set_state st e)) l1) =
    <[x := entry_set_ref n (entry_set_state st e)]> (l_entries l)) as Hput.
  { intros st n. cbn. by rewrite Een', insert_insert_eq. }
  assert (c_read_extent (l_cache l1) = c_read_extent (l_cache l) /\
    c_write_extent (l_cache l1) = c_write_extent (l_cache l)) as [Er Ew] by by rewrite Ec.
  unfold l_loaded in *. destruct (Z.eqb_spec r KES_SUCCESS) as [->|Hr]; cbn [snd] in *.
  - eapply (keeps_read_into x (entry_set_ref 1 (entry_set_state KES_EXTENT_CLEAN e)) p nb);
      [done|done|done|intros f Hf; congruence|exact (Hput KES_EXTENT_CLEAN 1)|exact Eb'|exact Hown|done|done|done| |exact Hc|done|done].
    exact (Hnb eq_refl).
  - eapply (keeps_read_into x (entry_set_ref 0 (entry_set_state KES_EXTENT_ERROR e)) p nb);
      [done|done|done|intros f Hf; congruence|exact (Hput KES_EXTENT_ERROR 0)|exact Eb'|exact Hown|done|done|done|done|exact Hc|done|done].
Qed.

(** ** Paths *)

(** Changes that concern no client; a loaded extent is one in use. *)
Definition plain_label (a : label) : Prop :=
  match a with
  | Quiet | Acquire | DropRef _ | DropPin _ | Write | Evict => True
  | Load id => U id
  | _ => False
  end.

Lemma keeps_step a n l l' :
  coherent l -> lwf l -> lwf l' -> counted n l -> step a l l' -> plain_label a -> keeps l l'.
Proof.
  intros Hco Hl Hl' Hc Hs Ha.
  destruct Hs as [l l' Hq|x e e' l l' [He Ee Hsh (Hd & Herr & _) _ Hb Hv Hset _] Hne Hr Hp
    |x e e' l l' [He Ee Hsh (Hd & Herr & _) _ Hb Hv Hset _] Hr Hp
    |x e e' id l l' [He Ee Hsh (Hd & Herr & _) _ Hb Hv Hset _] Heq Hpos Hr Hp
    |x e e' id l l' [He Ee Hsh (Hd & Herr & _) _ Hb Hv Hset _] Heq Hpos Hr Hp|x e l He Hd
    |f id x e p buf l He Hf Heq Hp Hb Hd|x e l He Hev|x e l He Hev
    |id v v' l Hx Hp Hsz Hne Hfit|x id e l He Heq Herr Hd|p bytes x e l He Hp Hr Hn'|r w y l]; cbn in Ha;
    try done.
  - by apply keeps_quiet.
  - eapply keeps_update; try done. congruence.
  - eapply keeps_update; try done. intros. rewrite Hr. by apply (co_error _ Hco x).
  - eapply keeps_update; try done. intros H1 H2. pose proof (co_error _ Hco x e He H2 H1). lia.
  - eapply keeps_update; try done. intros. rewrite Hr. by apply (co_error _ Hco x).
  - assert (f = wr) as -> by (pose proof (co_write _ Hco); congruence).
    apply keeps_write; try done. unfold l_buffer. by rewrite Hp.
  - pose proof Hev as Hev'. unfold evictable in Hev'. apply andb_prop in Hev' as [_ Hf].
    apply andb_prop in Hf as [Hf%negb_true_iff _]. by eapply keeps_remove.
  - by apply keeps_load.
  - by apply keeps_retry.
Qed.

Lemma keeps_path ls l l' :
  path ls l l' -> forall n, lwf l' -> coherent l -> counted n l -> 1 <= n ->
  n + Z.of_nat (weights ls) < 2 ^ 32 - 1 -> Forall plain_label ls -> keeps l l'.
Proof.
  induction 1 as [l|a ls l1 l2 l3 Hl Hs Hp IH]; intros n Hl' Hco Hc Hn Hb Hf; [by apply keeps_refl|].
  apply Forall_cons in Hf as [Ha Hf]. change (a :: ls) with ([a] ++ ls) in Hb. rewrite weights_app in Hb.
  assert (weights [a] = weight a) as Ew by (unfold weights; cbn; lia). rewrite Ew in Hb.
  assert (lwf l2) as Hl2 by (destruct Hp; done).
  eapply keeps_trans; [by eapply keeps_step|]. intros Hco2.
  apply (IH (n + Z.of_nat (weight a))); [done|done| |lia|lia|done].
  eapply step_counted; [exact Hc|done|lia|done].
Qed.

(** ** Operations *)

(** What a client may do at [l] for its data to be safe: extents in use only,
    marks only on extents it holds, no dirty extent thrown away, no other
    callbacks, no store outside [update]. *)
Definition careful (op : cache_op D) l : Prop :=
  match op with
  | OpGet (Some id) => id_ok id /\ U id
  | OpMarkDirty (Some id) => forall x e, l_entries l !! x = Some e ->
      kes_extent_equal (e_id e) id = true -> 0 < e_ref_count e
  | OpInvalidate (Some id) => forall x e, l_entries l !! x = Some e ->
      kes_extent_equal (e_id e) id = true -> is_dirty e = false
  | OpSetCallbacks _ _ _ => False
  | OpStore _ _ => False
  | _ => True
  end.

Lemma careful_ok op l : careful op l -> client_ok op l.
Proof. by destruct op as [[id|]|id|id|id|id|id|id| | | |r w y|p bytes|sec nsec script]; [intros [? _]|..]. Qed.

Definition routine (op : cache_op D) : Prop :=
  match op with
  | OpGet (Some id) => U id
  | OpMarkDirty _ | OpInvalidate _ | OpSetCallbacks _ _ _ | OpStore _ _ => False
  | _ => True
  end.

Lemma routine_labels op : routine op -> forall ls, Forall (allowed op) ls -> Forall plain_label ls.
Proof.
  intros Hr ls Hls. eapply Forall_impl; [exact Hls|]. intros a Ha.
  destruct a; cbn in Ha; try done.
  - by destruct Ha as [? ->].
  - by destruct Ha as [? ->].
  - by subst op.
  - by destruct Ha as [? ->].
  - by destruct Ha as (? & ? & ? & ->).
Qed.

Lemma keeps_mark x e l :
  coherent l -> lwf l -> l_entries l !! x = Some e -> is_dirty e = false -> is_error e = false ->
  let l' := l_stats (stat_dirty 1) (l_put x (entry_set_flag KES_EXTENT_DIRTY e) l) in
  lwf l' -> keeps l l'.
Proof.
  intros Hco Hl He Hd Herr l' Hl'. set (e' := entry_set_flag KES_EXTENT_DIRTY e) in *.
  assert (is_dirty e' = true) as Hd' by (unfold e'; by flags).
  assert (forall f, held_bytes l' f = held_bytes l f) as Hh by done.
  pose proof (co_clean _ Hco x e He Hd Herr) as Hcl. destruct Hco as [C1 C2 C3 C4 C5]. split.
  - split; [done|done|..]; cbn.
    + intros y f [[<- <-]|[_ Hy]]%lookup_insert_Some; [apply (C3 x e He)|by apply (C3 y)].
    + intros y f [[<- <-]|[_ Hy]]%lookup_insert_Some Hfd Hfe; [congruence|by apply (C4 y)].
    + intros y f [[<- <-]|[_ Hy]]%lookup_insert_Some Hfd Hfe; [congruence|by apply (C5 y)].
  - intros id Hu. destruct (cached_or_not id l') as [(y & f & Hy & Heq)|Hn].
    + rewrite (value_cached y f id l') by done. cbn in Hy.
      apply lookup_insert_Some in Hy as [[<- <-]|[Hne Hy]].
      * rewrite Hd', (value_cached x e id l), Hd by done. rewrite Hh.
        change (held_bytes l e') with (held_bytes l e). rewrite Hcl. by apply (fa_ext _ _ _ _ Hdev).
      * by rewrite (value_cached y f id l).
    + rewrite (value_absent id l') by done. rewrite value_absent; [done|]. intros y f Hy.
      destruct (decide (y = x)) as [->|Hne].
      * assert (f = e) as -> by congruence. apply (Hn x e'). apply lookup_insert_eq.
      * apply (Hn y). cbn. by rewrite lookup_insert_ne.
Qed.

Lemma keeps_exec op n l :
  ready l -> counted n l -> 1 <= n -> n + 1 < 2 ^ 32 - 1 -> coherent l -> careful op l ->
  keeps l (l_exec op l).2.
Proof.
  intros Hr Hc Hn Hb Hco Hca. pose proof (rd_wf _ Hr) as Hl. pose proof (careful_ok op l Hca) as Hok.
  pose proof (rd_wf _ (ready_exec op l Hr Hok)) as Hl'.
  assert ((forall ls, Forall (allowed op) ls -> Forall plain_label ls) -> keeps l (l_exec op l).2) as Hpath.
  { intros Hpl. destruct (exec_path op l Hr (counted_counters n l Hc Hl ltac:(lia)) Hok) as (ls & Hp & Hal & Hw).
    eapply keeps_path; [exact Hp|done|done|exact Hc|done|lia|by apply Hpl]. }
  destruct op as [id|id|[id|]|id|id|id|[id|]| | | |r w y|p bytes|sec nsec script]; cbn in Hca; try done;
    try (apply Hpath, routine_labels; done || (destruct id; [apply Hca|done])).
  - cbn [l_exec l_coded] in *. unfold l_mark_dirty, l_with in *.
    destruct (l_find id l) as [x|] eqn:Ef; [|by apply keeps_refl].
    apply l_find_Some in Ef as (_ & e & He & Heq). rewrite He in *.
    destruct (has_flag (e_state e) KES_EXTENT_DIRTY) eqn:Hd; [by apply keeps_refl|].
    apply keeps_mark; [done|done|done|done| |exact Hl'].
    destruct (is_error e) eqn:Herr; [|done]. specialize (Hca x e He Heq).
    pose proof (co_error _ Hco x e He Hd Herr). lia.
  - cbn [l_exec l_coded] in *. unfold l_invalidate, l_with in *.
    destruct (l_find id l) as [x|] eqn:Ef; [|by apply keeps_refl].
    apply l_find_Some in Ef as (_ & e & He & Heq). rewrite He in *.
    destruct (_ || _); [by apply keeps_refl|]. unfold l_try_evict in *. rewrite He in *.
    destruct (evictable true e); [|by apply keeps_refl]. cbn [negb] in *.
    specialize (Hca x e He Heq). unfold is_dirty in Hca. rewrite Hca in *.
    by eapply keeps_remove.
Qed.

(** ** Clients that update extents *)

(** One call, or a change of a buffer followed by [kes_cache_mark_dirty]. *)
Inductive client_step :=
  | Do (op : cache_op D)
  | Update (id : kes_extent_id) (p : loc) (bytes : list Z).

Definition calls (st : client_step) : list (cache_op D) :=
  match st with
  | Do op => [op]
  | Update id p bytes => [OpStore p bytes; OpMarkDirty (Some id)]
  end.

(** What a step does to the array of extents. *)
Definition effect (v : kes_extent_id -> list Z) (st : client_step) : kes_extent_id -> list Z :=
  match st with
  | Do _ => v
  | Update id _ bytes => fun id' =>
      if kes_extent_equal id id' then splice 0 bytes (v id') else v id'
  end.

Definition step_careful (st : client_step) l : Prop :=
  match st with
  | Do op => careful op l
  | Update id p bytes => exists x e, l_entries l !! x = Some e /\
      kes_extent_equal (e_id e) id = true /\ e_data e = Some p /\ 0 < e_ref_count e /\
      Z.of_nat (length bytes) <= e_data_size e
  end.
Fixpoint steps_careful (sts : list client_step) l : Prop :=
  match sts with
  | [] => True
  | st :: sts' => step_careful st l /\ steps_careful sts' (l_exec_all (calls st) l).2
  end.

Lemma held_value x e id l :
  coherent l -> lwf l -> l_entries l !! x = Some e -> kes_extent_equal (e_id e) id = true ->
  is_dirty e = true \/ is_error e = false -> value l id = held_bytes l e.
Proof.
  intros Hco Hl He Heq Hst. rewrite (value_cached x e id l) by done.
  destruct (is_dirty e) eqn:Hd; [done|]. destruct Hst as [|Herr]; [done|].
  rewrite (co_clean _ Hco x e He Hd Herr). symmetry. by apply (fa_ext _ _ _ _ Hdev).
Qed.

Lemma update_value id p bytes x e l :
  coherent l -> lwf l -> l_entries l !! x = Some e -> kes_extent_equal (e_id e) id = true ->
  e_data e = Some p -> 0 < e_ref_count e -> Z.of_nat (length bytes) <= e_data_size e ->
  let l' := (l_mark_dirty id (l_store p bytes l)).2 in
  lwf l' -> coherent l' /\
  forall id', U id' -> value l' id' = if kes_extent_equal id id' then splice 0 bytes (value l id') else value l id'.
Proof.
  intros Hco Hl He Heq Hp Hr Hn l' Hl'.
  assert (is_dirty e = true \/ is_error e = false) as Hst.
  { destruct (is_dirty e) eqn:Hd; [by left|right]. destruct (is_error e) eqn:Herr; [|done].
    pose proof (co_error _ Hco x e He Hd Herr). lia. }
  destruct (entry_buffer _ _ (wf_entry _ Hl x e He)) as (q & buf & Hq & Hb & Hlen).
  assert (q = p) as -> by congruence. pose proof (en_size _ _ (wf_entry _ Hl x e He)) as [_ Hsz].
  assert (exists e', is_dirty e' = true /\ same_shape e e' /\ l_entries l' = <[x := e']> (l_entries l) /\
    l_bufs l' = <[p := splice 0 bytes buf]> (l_bufs l) /\ l_dev l' = l_dev l /\
    c_read_extent (l_cache l') = c_read_extent (l_cache l) /\
    c_write_extent (l_cache l') = c_write_extent (l_cache l)) as (e' & Hd' & [Si Sd Ss Sw] & Ee & Eb & Ev & Er & Ew).
  { unfold l', l_mark_dirty, l_with.
    assert (lwf (l_store p bytes l)) as Hls by by eapply lwf_store.
    rewrite (l_find_cached x e id (l_store p bytes l)) by done.
    change (l_entries (l_store p bytes l)) with (l_entries l). rewrite He.
    assert (l_bufs (l_store p bytes l) = <[p := splice 0 bytes buf]> (l_bufs l)) as Hbs
      by (unfold l_store; by rewrite Hb).
    destruct (has_flag (e_state e) KES_EXTENT_DIRTY) eqn:Hd; cbn [snd].
    - exists e. split_and!; try done. by rewrite insert_id.
    - exists (entry_set_flag KES_EXTENT_DIRTY e). split_and!; try done. by flags. }
  assert (forall y f, y ≠ x -> l_entries l !! y = Some f -> held_bytes l' f = held_bytes l f) as Hh.
  { intros y f Hne Hy. unfold held_bytes, l_buffer. rewrite Eb. destruct (e_data f) as [q|] eqn:Hqf; [|done].
    cbn. rewrite lookup_insert_ne; [done|]. intros <-. apply Hne. apply (wf_own _ Hl y x f e Hy He). congruence. }
  assert (held_bytes l' e' = splice 0 bytes (held_bytes l e)) as Hhe.
  { unfold held_bytes, l_buffer. rewrite Sd, Ss, Hp. cbn [mbind option_bind]. rewrite Eb, Hb, lookup_insert_eq.
    change (default [] (Some ?b)) with b. change (take ?n (splice 0 ?bs ?l)) with (slice 0 n (splice (0 + 0) bs l)).
    rewrite slice_of_splice by lia. done. }
  pose proof Hco as [C1 C2 C3 C4 C5]. split.
  - split; [congruence|congruence|..]; rewrite Ee.
    + intros y f [[<- <-]|[_ Hy]]%lookup_insert_Some; [rewrite Si; by apply (C3 x)|by apply (C3 y)].
    + intros y f [[<- <-]|[Hne Hy]]%lookup_insert_Some Hfd Hfe; [congruence|].
      rewrite Ev, (Hh y f) by done. by apply (C4 y).
    + intros y f [[<- <-]|[_ Hy]]%lookup_insert_Some Hfd Hfe; [congruence|by apply (C5 y)].
  - intros id' Hu. destruct (kes_extent_equal id id') eqn:Eid.
    + assert (kes_extent_equal (e_id e) id' = true) as Heq' by by rewrite (equal_trans _ id).
      rewrite (held_value x e id' l) by done. rewrite (value_cached x e' id' l'); [|done| |by rewrite Si].
      * by rewrite Hd', Hhe.
      * by rewrite Ee, lookup_insert_eq.
    + destruct (cached_or_not id' l') as [(y & f & Hy & Heq')|Hno].
      * rewrite (value_cached y f id' l') by done. rewrite Ee in Hy.
        apply lookup_insert_Some in Hy as [[<- <-]|[Hne Hy]].
        -- rewrite Si, (equal_trans _ id) in Heq' by done. congruence.
        -- rewrite (value_cached y f id' l) by done. by rewrite Ev, (Hh y f).
      * rewrite (value_absent id' l') by done. rewrite (value_absent id' l); [by rewrite Ev|].
        intros y f Hy. destruct (decide (y = x)) as [->|Hne].
        -- assert (f = e) as -> by congruence. rewrite <-Si. apply (Hno x). by rewrite Ee, lookup_insert_eq.
        -- apply (Hno y). by rewrite Ee, lookup_insert_ne.
Qed.

(** One step of a careful client. *)
Lemma step_value st n l :
  ready l -> counted n l -> 1 <= n -> n + Z.of_nat (length (calls st)) < 2 ^ 32 - 1 ->
  coherent l -> step_careful st l ->
  let l' := (l_exec_all (calls st) l).2 in
  clients_ok (calls st) l /\ ready l' /\ counted (n + Z.of_nat (length (calls st))) l' /\ coherent l' /\
  forall id, U id -> value l' id = effect (value l) st id.
Proof.
  intros Hr Hc Hn Hb Hco Hca l'.
  assert (clients_ok (calls st) l) as Hok.
  { destruct st as [op|id p bytes]; [by split; [apply careful_ok|]|].
    destruct Hca as (x & e & He & Heq & Hp & Href & Hlen). split; [by exists x, e|done]. }
  assert (ready l') as Hr'.
  { clear -Hr Hok. unfold l'. clear l'. revert l Hr Hok. induction (calls st) as [|op ops IH]; intros l Hr Hok; [done|].
    destruct Hok as [Hop Hok]. cbn. pose proof (ready_exec op l Hr Hop) as Hr1.
    destruct (l_exec op l) as [r l1]. cbn in *. specialize (IH l1 Hr1 Hok). by destruct (l_exec_all ops l1). }
  split_and!; [done|done|by apply exec_all_counted|..]; destruct st as [op|id p bytes].
  - pose proof (keeps_exec op n l Hr Hc Hn ltac:(cbn in Hb; lia) Hco Hca) as [Hk _].
    unfold l' in *. cbn in *. by destruct (l_exec op l).
  - destruct Hca as (x & e & He & Heq & Hp & Href & Hlen). unfold l' in *. cbn in *.
    pose proof (update_value id p bytes x e l Hco (rd_wf _ Hr) He Heq Hp Href Hlen) as Hu.
    destruct (l_mark_dirty id (l_store p bytes l)) as [r l2]. apply (Hu (rd_wf _ Hr')).
  - pose proof (keeps_exec op n l Hr Hc Hn ltac:(cbn in Hb; lia) Hco Hca) as [_ Hk].
    unfold l' in *. cbn in *. by destruct (l_exec op l).
  - destruct Hca as (x & e & He & Heq & Hp & Href & Hlen). unfold l' in *. cbn in *.
    pose proof (update_value id p bytes x e l Hco (rd_wf _ Hr) He Heq Hp Href Hlen) as Hu.
    destruct (l_mark_dirty id (l_store p bytes l)) as [r l2]. apply (Hu (rd_wf _ Hr')).
Qed.

Lemma exec_all_app ops ops' l :
  l_exec_all (ops ++ ops') l =
  ((l_exec_all ops l).1 ++ (l_exec_all ops' (l_exec_all ops l).2).1,
   (l_exec_all ops' (l_exec_all ops l).2).2).
Proof.
  revert l. induction ops as [|op ops IH]; intros l; [cbn; by destruct (l_exec_all ops' l)|].
  cbn. destruct (l_exec op l) as [r l1]. rewrite IH. destruct (l_exec_all ops l1) as [rs l2]. cbn.
  by destruct (l_exec_all ops' l2).
Qed.

Lemma clients_ok_app ops ops' l :
  clients_ok ops l -> clients_ok ops' (l_exec_all ops l).2 -> clients_ok (ops ++ ops') l.
Proof.
  revert l. induction ops as [|op ops IH]; intros l; [done|]. cbn. intros [Hop Hok] Hok'. split; [done|].
  destruct (l_exec op l) as [r l1]. cbn in *. apply IH; [done|]. by destruct (l_exec_all ops l1).
Qed.

Lemma effect_ext st v v' : (forall id, U id -> v id = v' id) -> forall id, U id -> effect v st id = effect v' st id.
Proof. intros Hv id Hu. destruct st as [op|id0 p bytes]; cbn; [by apply Hv|]. by rewrite Hv. Qed.

Lemma effects_ext sts : forall v v', (forall id, U id -> v id = v' id) ->
  forall id, U id -> foldl effect v sts id = foldl effect v' sts id.
Proof.
  induction sts as [|st sts IH]; intros v v' Hv id Hu; [by apply Hv|]. cbn. apply IH; [|done].
  by apply effect_ext.
Qed.

Definition all_calls (sts : list client_step) : list (cache_op D) := concat (calls <$> sts).

Lemma steps_value sts : forall n l,
  ready l -> counted n l -> 1 <= n -> n + Z.of_nat (length (all_calls sts)) < 2 ^ 32 - 1 ->
  coherent l -> steps_careful sts l ->
  let l' := (l_exec_all (all_calls sts) l).2 in
  clients_ok (all_calls sts) l /\ ready l' /\ counted (n + Z.of_nat (length (all_calls sts))) l' /\
  coherent l' /\ forall id, U id -> value l' id = foldl effect (value l) sts id.
Proof.
  induction sts as [|st sts IH]; intros n l Hr Hc Hn Hb Hco Hca; [by rewrite Z.add_0_r|].
  destruct Hca as [Hst Hca]. unfold all_calls in *. cbn [fmap list_fmap concat] in *.
  rewrite length_app, Nat2Z.inj_add in *.
  destruct (step_value st n l Hr Hc Hn ltac:(lia) Hco Hst) as (Hok & Hr1 & Hc1 & Hco1 & Hv1).
  destruct (IH _ _ Hr1 Hc1 ltac:(lia) ltac:(lia) Hco1 Hca) as (Hok2 & Hr2 & Hc2 & Hco2 & Hv2).
  rewrite exec_all_app. cbn [snd]. rewrite Z.add_assoc.
  split_and!; [by apply clients_ok_app|done|done|done|]. intros id Hu. rewrite (Hv2 id Hu). cbn.
  by apply effects_ext.
Qed.

(** ** What a successful lookup returns *)

Lemma get_success id b l l' :
  ready l -> l_get id l = ((KES_SUCCESS, b), l') ->
  exists x e p, l_entries l' !! x = Some e /\ kes_extent_equal (e_id e) id = true /\
    e_data e = Some p /\ b = Some p /\ is_error e = false.
Proof.
  intros Hr. unfold l_get. set (l1 := l_inflight 1 l).
  assert (lwf l1) as Hl1 by (apply lwf_inflight, Hr).
  assert (forall e, e_data e = b -> (exists x, l_entries l' !! x = Some e) -> kes_extent_equal (e_id e) id = true ->
    is_error e = false -> lwf l' -> exists x e p, l_entries l' !! x = Some e /\ kes_extent_equal (e_id e) id = true /\
    e_data e = Some p /\ b = Some p /\ is_error e = false) as Hdone.
  { intros e <- [x He] Heq Herr Hl'. destruct (entry_buffer _ _ (wf_entry _ Hl' x e He)) as (p & ? & Hp & _).
    exists x, e, p. by split_and!. }
  destruct (l_find id l1) as [x|] eqn:Ef.
  - apply l_find_Some in Ef as (Hx & e0 & He0 & Heq). intros Hat.
    pose proof (lwf_attach x id l1 Hl1 Hx) as Hl'. rewrite Hat in Hl'. cbn in Hl'.
    unfold l_attach in Hat. rewrite He0 in Hat.
    set (l2 := if needs_retry e0 then l_retry x id e0 l1 else l1) in *.
    assert (exists e, l_entries l2 !! x = Some e /\ e_id e = e_id e0) as (e & He & Hid).
    { unfold l2. destruct (needs_retry e0); [|by exists e0].
      destruct (retry_entry x id e0 l1) as (st & -> & _). exists (entry_set_state st e0).
      by rewrite lookup_insert_eq. }
    rewrite He in Hat. destruct (has_flag (e_state e) KES_EXTENT_ERROR) eqn:Herr; [done|].
    injection Hat as Hb Hl'e.
    apply (Hdone (entry_set_access (l_now l2) (u64 (e_access_count e + 1))
      (entry_set_ref (u32 (e_ref_count e + 1)) e))); [exact Hb| |cbn; by rewrite Hid|exact Herr|done].
    exists x. rewrite <-Hl'e. cbn. apply lookup_insert_eq.
  - intros Hm. unfold l_miss in Hm. destruct (l_make_room _ l1) as [room l2].
    destruct room; [|done]. cbn [negb] in Hm.
    destruct (next_failure (l_env l2)) as [[] v]; [done|].
    destruct (next_failure (bump v)) as [[] v']; [done|].
    change (l_set_env (bump v') _) with (with_candidate id v v' l2) in Hm.
    set (e := fresh_entry id _ _) in Hm. rewrite l_load_eq in Hm.
    pose proof (l_read_same (env_next v) id e (l_publish (env_next v) e (with_candidate id v v' l2)))
      as (_ & _ & Een & _).
    destruct (l_read _ _ _ _) as [r l3]. cbn [fst snd] in *. unfold l_loaded in Hm.
    destruct (Z.eqb_spec r KES_SUCCESS) as [->|Hne].
    + injection Hm as Hb Hl'e. exists (env_next v), (entry_set_state KES_EXTENT_CLEAN e), (env_next v').
      rewrite <-Hl'e. cbn. split_and!; [apply lookup_insert_eq|apply extent_equal_refl|done|done|done].
    + destruct (Z.eqb_spec r KES_ERROR_INVALID) as [->|]; done.
Qed.

(** The buffer holds the value of the extent, and keeps holding it. *)
Lemma get_value id b n l l' :
  ready l -> counted n l -> 1 <= n -> n + 1 < 2 ^ 32 - 1 -> coherent l ->
  id_ok id -> U id -> id_accepted id = true -> l_get id l = ((KES_SUCCESS, b), l') ->
  exists p buf, b = Some p /\ l_bufs l' !! p = Some buf /\
    take (Z.to_nat (extent_data_size id)) buf = value l id.
Proof.
  intros Hr Hc Hn Hb Hco Hid Hu Ha Hg.
  destruct (get_success id b l l' Hr Hg) as (x & e & p & He & Heq & Hp & -> & Herr).
  pose proof (keeps_exec (OpGet (Some id)) n l Hr Hc Hn Hb Hco (conj Hid Hu)) as [Hco' Hv].
  pose proof (ready_exec (OpGet (Some id)) l Hr Hid) as Hr'. cbn [l_exec] in *. rewrite Ha, Hg in *.
  cbn [snd] in *. pose proof (rd_wf _ Hr') as Hl'.
  destruct (entry_buffer _ _ (wf_entry _ Hl' x e He)) as (q & buf & Hq & Hbuf & _).
  assert (q = p) as -> by congruence. exists p, buf. split_and!; [done|done|].
  rewrite <-(Hv id Hu), (held_value x e id l') by auto.
  unfold held_bytes, l_buffer. rewrite Hp. cbn [mbind option_bind]. rewrite Hbuf.
  change (default [] (Some buf)) with buf. pose proof (en_size _ _ (wf_entry _ Hl' x e He)) as [-> _].
  by rewrite (equal_size _ _ Heq).
Qed.
End device.
