(* ===== verification/CacheOrder.v ===== *)
(** * Which extents leave

    [make_room_for_new_entry] evicts from the least recently used end and
    stops once there is room; [kes_cache_sync] visits every extent, writes
    the dirty ones and drops all that nobody uses. *)
From S2P Require Import Prelude Types CacheTypes CacheState Cache CacheLinks CacheSpec CacheView.
From S2P Require Import CacheLists CacheWf CacheFacts CacheWalks CacheOps CacheGet CacheSystem.
From S2P Require Import CacheSteps.

Section device.
Context {D : Type}.
Implicit Types (l : lcache D).

(** ** One visit *)

Lemma visit_other x y l : y ≠ x -> l_entries (l_visit x l) !! y = l_entries l !! y.
Proof.
  intros Hne. assert (l_entries (l_write_back x l) !! y = l_entries l !! y) as Hw.
  { unfold l_write_back. destruct (l_entries l !! x) as [e|]; [|done]. destruct (_ && _); [|done].
    destruct (c_write_extent _) as [f|]; [|done]. destruct (l_buffer l e); [|done].
    unfold l_write. destruct (f _ _ _ _) as [r d].
    destruct (r =? KES_SUCCESS); cbn; by rewrite lookup_insert_ne. }
  unfold l_visit, l_try_evict. destruct (l_entries (l_write_back x l) !! x) as [e|]; [|done].
  destruct (evictable false e); cbn; [|done]. by rewrite lookup_delete_ne.
Qed.

Definition writes_succeed (f : write_fn D) : Prop :=
  forall h id bytes d, (f h id bytes d).1 = KES_SUCCESS.

(** What is left after its visit. *)
Definition settled l (e : kes_extent_entry) : Prop :=
  evictable false e = false /\
  forall f, c_write_extent (l_cache l) = Some f -> writes_succeed f -> is_dirty e = false.

Lemma setup_write_back x l : same_setup l (l_write_back x l).
Proof.
  unfold l_write_back. destruct (l_entries l !! x) as [e|]; [|done]. destruct (_ && _); [|done].
  destruct (c_write_extent (l_cache l)) as [f|] eqn:Hf; [|done]. destruct (l_buffer l e); [|done].
  unfold l_write. destruct (f _ _ _ _) as [r d].
  destruct (r =? KES_SUCCESS); (split_and!; [done|done|exact Hf]) || (split_and!; done).
Qed.

Lemma setup_visit x l : same_setup l (l_visit x l).
Proof.
  destruct (setup_write_back x l) as (Hc & Hr & Hw). unfold l_visit, l_try_evict.
  destruct (l_entries (l_write_back x l) !! x) as [e|]; [|done]. by destruct (evictable false e).
Qed.

Lemma visit_this x l e' : lwf l -> l_entries (l_visit x l) !! x = Some e' -> settled l e'.
Proof.
  intros Hl. unfold l_visit, l_try_evict.
  destruct (l_entries (l_write_back x l) !! x) as [e|] eqn:Hw; [|cbn; congruence].
  destruct (evictable false e) eqn:Hev; cbn [snd]; [cbn; by rewrite lookup_delete_eq|].
  rewrite Hw. intros [= <-]. split; [done|]. intros f Hf Hok.
  unfold l_write_back in Hw. destruct (l_entries l !! x) as [e0|] eqn:He; [|congruence].
  pose proof (wf_entry _ Hl x e0 He) as Hen. pose proof (en_loading _ _ Hen) as Hld.
  unfold is_loading in Hld. rewrite Hld, Hf in Hw. cbn [negb] in Hw. rewrite andb_true_r in Hw.
  destruct (has_flag (e_state e0) KES_EXTENT_DIRTY) eqn:Hd; [|unfold is_dirty; congruence].
  destruct (entry_buffer _ _ Hen) as (p & buf & Hp & Hb & _).
  assert (l_buffer l e0 = Some buf) as Hbuf by (unfold l_buffer; by rewrite Hp). rewrite Hbuf in Hw.
  unfold l_write in Hw. specialize (Hok (cc_device_handle (c_config (l_cache l))) (e_id e0)
    (take (Z.to_nat (e_data_size e0)) buf) (l_dev l)).
  destruct (f _ _ _ _) as [r d]. cbn in Hok. subst r. cbn in Hw. rewrite lookup_insert_eq in Hw.
  injection Hw as <-. apply flushed_dirty.
Qed.

Lemma settled_setup l l' e : same_setup l l' -> settled l e -> settled l' e.
Proof. intros (_ & _ & Hw) [H1 H2]. split; [done|]. intros f Hf. apply H2. congruence. Qed.

(** ** The sweep *)

Lemma visits_settle ls : forall l (seen : list loc),
  lwf l -> (forall x, x ∈ l_order l -> x ∈ seen \/ x ∈ ls) ->
  (forall x e, x ∈ seen -> x ∉ ls -> l_entries l !! x = Some e -> settled l e) -> NoDup ls ->
  let l' := foldl (fun l x => l_visit x l) l ls in
  forall x e, l_entries l' !! x = Some e -> settled l' e.
Proof.
  induction ls as [|y ls IH]; intros l dn Hl Hall Hdn Hnd; cbn [foldl].
  - intros x e He. apply (Hdn x e); [|apply not_elem_of_nil|done].
    assert (x ∈ l_order l) as Hx by (apply (wf_dom _ Hl); by eexists).
    destruct (Hall x Hx) as [|Hn]; [done|]. by apply not_elem_of_nil in Hn.
  - apply NoDup_cons in Hnd as [Hy Hnd]. pose proof (lwf_visit y l Hl) as Hl1.
    apply (IH (l_visit y l) (y :: dn)); [done| | |done].
    + intros x Hx. assert (x ∈ l_order l) as Hx0.
      { unfold l_visit in Hx. destruct (try_evict_order false y (l_write_back y l)) as [E|E];
          rewrite E, ?elem_of_without, write_back_order in Hx; tauto. }
      destruct (Hall x Hx0) as [Hd|[->|Hi]%elem_of_cons]; [left; by right|left; by left|by right].
    + intros x e Hx Hxl He. apply (settled_setup l); [apply setup_visit|].
      destruct (decide (x = y)) as [->|Hne]; [by apply (visit_this y l e)|].
      rewrite visit_other in He by done. apply elem_of_cons in Hx as [|Hx]; [done|].
      apply (Hdn x e); [done| |done]. by intros [?|?]%elem_of_cons.
Qed.

Lemma sweep_settles l x e :
  lwf l -> l_entries (l_sweep l) !! x = Some e -> settled (l_sweep l) e.
Proof.
  intros Hl. unfold l_sweep. apply (visits_settle (l_order l) l []); [done|by right| |apply Hl].
  intros y f Hy. by apply not_elem_of_nil in Hy.
Qed.

Lemma sweep_setup l : same_setup l (l_sweep l).
Proof.
  unfold l_sweep. generalize (l_order l) as ls. intros ls. revert l.
  induction ls as [|x ls IH]; intros l; [done|]. cbn. destruct (IH (l_visit x l)) as (H1 & H2 & H3).
  destruct (setup_visit x l) as (? & ? & ?). split_and!; congruence.
Qed.

(** ** Making room *)

Lemma without_app x (a b : list loc) : without x (a ++ b) = without x a ++ without x b.
Proof. unfold without. apply filter_app. Qed.
Lemma without_id x (a : list loc) : x ∉ a -> without x a = a.
Proof.
  intros Hx. unfold without. induction a as [|y a IH]; [done|]. rewrite filter_cons.
  apply not_elem_of_cons in Hx as [Hne Hx]. rewrite decide_True by congruence. by rewrite IH.
Qed.

(** The outcome of a search from the least recently used end: what is more
    recent than the last extent visited is as before; of the others, those
    that could go are gone. *)
Record vacated l (ok : bool) l' (newer older : list loc) : Prop := {
  va_split : l_order l = newer ++ older;
  va_newer : forall x, x ∈ newer -> l_entries l' !! x = l_entries l !! x;
  va_kept : forall x e, x ∈ older -> l_entries l' !! x = Some e -> settled l e;
  va_busy : ok = false -> newer = []
}.

Lemma settled_back l l' e : same_setup l l' -> settled l' e -> settled l e.
Proof. intros (_ & _ & Hw) [H1 H2]. split; [done|]. intros f Hf. apply H2. congruence. Qed.

(** The order after a visit, the rest of the list being [reverse ls]. *)
Lemma visit_rest x ls post l :
  lwf l -> l_order l = reverse ls ++ x :: post ->
  exists kept, l_order (l_visit x l) = reverse ls ++ kept /\ (forall y, y ∈ kept -> y ∈ x :: post) /\
    (forall y, y ∈ x :: post -> is_Some (l_entries (l_visit x l) !! y) -> y ∈ kept).
Proof.
  intros Hl Ho. pose proof (wf_nodup _ Hl) as Hnd. rewrite Ho in Hnd.
  pose proof (lwf_visit x l Hl) as Hl1. unfold l_visit in *.
  destruct (try_evict_order false x (l_write_back x l)) as [E|E]; rewrite write_back_order in E.
  - exists (x :: post). by rewrite E.
  - exists post. rewrite E, Ho, without_split by done. split_and!; [done|by right|].
    intros y Hy Hs. apply (wf_dom _ Hl1) in Hs. rewrite E, elem_of_without in Hs.
    destruct Hs as [Hne _]. by apply elem_of_cons in Hy as [->|].
Qed.

Lemma evict_loop_vacates need ls : forall l post,
  lwf l -> l_order l = reverse ls ++ post ->
  (forall x e, x ∈ post -> l_entries l !! x = Some e -> settled l e) ->
  let r := l_evict_loop need ls l in
  exists newer older, reverse ls = newer ++ older /\ vacated l r.1 r.2 newer (older ++ post).
Proof.
  induction ls as [|x ls IH]; intros l post Hl Ho Hpost.
  { exists [], []. split; [done|]. by split. }
  rewrite reverse_cons, <-app_assoc in Ho. cbn [app] in Ho.
  pose proof (wf_nodup _ Hl) as Hnd. rewrite Ho in Hnd.
  assert (x ∉ reverse ls) as Hxr.
  { apply NoDup_app in Hnd as (_ & Hd & _). intros Hx. apply (Hd x Hx). by left. }
  destruct (visit_rest x ls post l Hl Ho) as (kept & Ho1 & Hk1 & Hk2).
  pose proof (lwf_visit x l Hl) as Hl1. pose proof (setup_visit x l) as Hs1.
  pose proof (fun y => visit_other x y l) as Hother. pose proof (fun e => visit_this x l e Hl) as Hthis.
  cbn [l_evict_loop]. unfold l_visit in *.
  destruct (l_try_evict false x (l_write_back x l)) as [evicted l1]. cbn [snd] in *.
  assert (forall l2, l_order l2 = l_order l1 -> l_entries l2 = l_entries l1 -> same_setup l1 l2 -> lwf l2 ->
    let r := l_evict_loop need ls l2 in
    exists newer older, reverse (x :: ls) = newer ++ older /\ vacated l r.1 r.2 newer (older ++ post)) as Hgo.
  { intros l2 Eo Ee Hs2 Hl2 r. assert (same_setup l l2) as Hs by
      (destruct Hs1 as (? & ? & ?), Hs2 as (? & ? & ?); split_and!; congruence).
    destruct (IH l2 kept Hl2) as (newer & older & Hsp & [V1 V2 V3 V4]).
    { by rewrite Eo. }
    { rewrite Ee. intros y e Hy He. apply (settled_setup l); [done|].
      destruct (decide (y = x)) as [->|Hne]; [by apply Hthis|]. rewrite Hother in He by done.
      apply Hk1, elem_of_cons in Hy as [|Hy]; [done|]. by apply (Hpost y). }
    exists newer, (older ++ [x]). rewrite reverse_cons, Hsp, <-app_assoc. split; [done|].
    split; [by rewrite Ho, Hsp, <-!app_assoc| |..|done].
    - intros y Hy. rewrite V2, Ee by done. apply Hother. intros ->. apply Hxr. rewrite Hsp, elem_of_app. by left.
    - intros y e Hy He. apply (settled_back l l2); [done|]. apply (V3 y); [|done].
      rewrite <-app_assoc, !elem_of_app in Hy. apply elem_of_app. destruct Hy as [Hy|Hy]; [by left|right].
      destruct (kp_ids _ _ (kept_evict_loop need ls l2) y e He) as (e0 & He0 & _). rewrite Ee in He0.
      apply Hk2; [|by eexists]. cbn [app] in Hy. by rewrite <-elem_of_app in Hy. }
  destruct evicted; [|by apply Hgo].
  destruct (fits_now _ need); [|by apply Hgo; [| | |apply lwf_stats]]. cbn [fst snd].
  exists (reverse ls), [x]. rewrite reverse_cons. split; [done|]. split; [done| | |done].
  - intros y Hy. cbn. apply Hother. by intros ->.
  - intros y e Hy He. cbn in He. destruct (decide (y = x)) as [->|Hne]; [by apply Hthis|].
    rewrite Hother in He by done. apply elem_of_cons in Hy as [|Hy]; [done|]. by apply (Hpost y).
Qed.

Lemma make_room_vacates n l :
  lwf l ->
  let r := l_make_room n l in
  exists newer older, vacated l r.1 r.2 newer older.
Proof.
  intros Hl. unfold l_make_room. destruct (fits_now _ _).
  - exists (l_order l), []. split; cbn; [by rewrite app_nil_r|done| |done].
    intros x e Hx. by apply not_elem_of_nil in Hx.
  - destruct (evict_loop_vacates (KES_ALIGN n KES_CACHE_ALIGNMENT) (reverse (l_order l)) l [] Hl)
      as (newer & older & _ & Hv).
    + by rewrite reverse_involutive, app_nil_r.
    + intros x e Hx. by apply not_elem_of_nil in Hx.
    + by exists newer, (older ++ []).
Qed.

(** Without room in the end, the limits are still exceeded. *)
Lemma fits_gauges (l l' : lcache D) n :
  c_config (l_cache l') = c_config (l_cache l) ->
  gauges (c_stats (l_cache l')) = gauges (c_stats (l_cache l)) ->
  fits_now (l_cache l') n = fits_now (l_cache l) n.
Proof. unfold fits_now, gauges. by intros -> [= -> -> _ _]. Qed.

Lemma evict_loop_no_room need ls : forall l,
  fits_now (l_cache l) need = false -> (l_evict_loop need ls l).1 = false ->
  fits_now (l_cache (l_evict_loop need ls l).2) need = false.
Proof.
  induction ls as [|x ls IH]; intros l Hf; [done|]. cbn [l_evict_loop].
  assert (fits_now (l_cache (l_write_back x l)) need = false) as Hw.
  { unfold l_write_back. destruct (l_entries l !! x) as [e|]; [|done]. destruct (_ && _); [|done].
    destruct (c_write_extent _) as [f|]; [|done]. destruct (l_buffer l e); [|done].
    unfold l_write. destruct (f _ _ _ _) as [r d]. by destruct (r =? KES_SUCCESS). }
  unfold l_try_evict. destruct (l_entries (l_write_back x l) !! x) as [e|]; [|by apply IH].
  destruct (evictable false e); [|by apply IH].
  destruct (fits_now (l_cache (l_stats _ _)) need) eqn:E; [done|]. by apply IH.
Qed.

Lemma make_room_no_room n l :
  (l_make_room n l).1 = false ->
  fits_now (l_cache (l_make_room n l).2) (KES_ALIGN n KES_CACHE_ALIGNMENT) = false.
Proof.
  unfold l_make_room. destruct (fits_now _ _) eqn:E; [done|]. by apply evict_loop_no_room.
Qed.
End device.
