(* ===== verification/CacheReach.v ===== *)
(** * From creation on

    The facts every theorem about a client of the cache starts from: after
    [kes_cache_create] succeeded, a sequence of calls runs to its end, and the
    state reached satisfies all invariants. *)
From stdpp Require Import functions.
From S2P Require Import Prelude Types CacheTypes CacheState Cache CacheLinks CacheSpec CacheView.
From S2P Require Import CacheLists CacheWf CacheFacts CacheWalks CacheOps CacheGet CacheSystem.
From S2P Require Import CacheLifecycle CacheSteps CacheInv CacheHeld CacheContent CacheOrder.

Section device.
Context {D : Type}.

(** The reference cache [kes_cache_create] leaves: two allocations later. *)
Definition l_created (cfg : kes_cache_config) (s : cstate D) : lcache D :=
  l_new cfg (cs_threads s) (next_failure (next_failure (cs_env s)).2).2 (cs_dev s).

Lemma created cfg (s s0 : cstate D) :
  no_cache s -> run (kes_cache_create (Some cfg)) s = Returns (true, s0) ->
  at_rest (l_created cfg s) s0 /\ ready (l_created cfg s).
Proof.
  intros Hs Hr. pose proof (create_run cfg s Hs) as Hc. unfold l_created.
  destruct (next_failure (cs_env s)) as [failed v]. cbn [snd].
  destruct (next_failure v) as [failed' v']. cbn [snd]. destruct Hc as (s' & Hr' & Hrest).
  rewrite Hr' in Hr. injection Hr as Hb ->. rewrite Hb in Hrest. split; [done|apply ready_new].
Qed.

Lemma counted_new cfg ts v d : limits_ok cfg -> counted 1 (l_new (D := D) cfg ts v d).
Proof.
  intros [L1 L2]. split; cbn; rewrite ?total_empty; [done|done|lia|].
  intros x e He. by rewrite lookup_empty in He.
Qed.

(** The state after a sequence of calls. *)
Definition l_after (cfg : kes_cache_config) (s : cstate D) (ops : list (cache_op D)) : lcache D :=
  (l_exec_all ops (l_created cfg s)).2.

Lemma reached cfg (s s0 : cstate D) ops :
  no_cache s -> run (kes_cache_create (Some cfg)) s = Returns (true, s0) ->
  clients_ok ops (l_created cfg s) ->
  exists s1, run (exec_all ops) s0 = Returns ((l_exec_all ops (l_created cfg s)).1, s1) /\
    at_rest (l_after cfg s ops) s1 /\ ready (l_after cfg s ops) /\
    (limits_ok cfg -> Z.of_nat (length ops) < 2 ^ 32 - 2 ->
     counted (1 + Z.of_nat (length ops)) (l_after cfg s ops)).
Proof.
  intros Hs Hr Hok. destruct (created cfg s s0 Hs Hr) as [Hrest Hready].
  destruct (exec_all_refines ops _ s0 Hready Hok Hrest) as [Hready' (s1 & Hrun & Hrest')].
  exists s1. split_and!; [done|done|done|]. intros Hl Hn.
  apply exec_all_counted; [done|by apply counted_new|lia|lia|done].
Qed.

(** What a state shows of its reference cache. *)
Lemma rest_entries (l : lcache D) s : at_rest l s -> cs_entries s = l_entries l.
Proof. intros (ch & _ & Hr). apply (rp_entries _ _ Hr). Qed.
Lemma rest_bufs (l : lcache D) s : at_rest l s -> cs_bufs s = l_bufs l.
Proof. intros (ch & _ & Hr). apply (rp_bufs _ _ Hr). Qed.
Lemma rest_dev (l : lcache D) s : at_rest l s -> cs_dev s = l_dev l.
Proof. intros (ch & _ & Hr). apply (rp_dev _ _ Hr). Qed.
Lemma rest_cache (l : lcache D) s :
  at_rest l s -> exists c, cs_cache s = Some c /\ c_stats c = c_stats (l_cache l) /\
    c_config c = c_config (l_cache l) /\ c_mru_head c = head (l_order l) /\
    c_lru_tail c = last (l_order l).
Proof. intros (ch & _ & Hr). eexists. split; [apply (rp_cache _ _ Hr)|]. done. Qed.

Lemma counted_counts_ok n (l : lcache D) : counted n l -> counts_ok l.
Proof. intros [_ _ _ Hc] x e He. specialize (Hc x e He). lia. Qed.

(** ** Careful clients *)

Context (contents : D -> kes_extent_id -> list Z) (U : kes_extent_id -> Prop).
Context (rd : read_fn D) (wr : write_fn D) (sy : option (sync_fn D)).
Context (Hdev : faithful contents U rd wr).

(** Register the callbacks, then work. *)
Definition session (sts : list (client_step (D := D))) : list (cache_op D) :=
  OpSetCallbacks (Some rd) (Some wr) sy :: all_calls sts.

Definition l_session (cfg : kes_cache_config) (s : cstate D) : lcache D :=
  l_after cfg s [OpSetCallbacks (Some rd) (Some wr) sy].

Lemma session_reached cfg (s s0 : cstate D) sts :
  limits_ok cfg -> no_cache s -> run (kes_cache_create (Some cfg)) s = Returns (true, s0) ->
  steps_careful U sts (l_session cfg s) -> Z.of_nat (length (all_calls sts)) < 2 ^ 32 - 4 ->
  exists rs s1, run (exec_all (session sts)) s0 = Returns (rs, s1) /\
    let l1 := l_after cfg s (session sts) in
    at_rest l1 s1 /\ ready l1 /\ counted (2 + Z.of_nat (length (all_calls sts))) l1 /\
    coherent contents U rd wr l1 /\
    forall id, U id -> value contents l1 id = foldl effect (contents (cs_dev s)) sts id.
Proof.
  intros Hlim Hs Hr Hca Hn. destruct (created cfg s s0 Hs Hr) as [Hrest Hready].
  set (l0 := l_session cfg s) in *.
  assert (ready l0) as Hr0 by exact (ready_exec (OpSetCallbacks (Some rd) (Some wr) sy) _ Hready I).
  assert (counted 2 l0) as Hc0.
  { apply (exec_counted (OpSetCallbacks (Some rd) (Some wr) sy) 1); [done|by apply counted_new|lia|lia|done]. }
  assert (coherent contents U rd wr l0) as Hco.
  { split; [done|done|..]; intros x e He; cbn in He; by rewrite lookup_empty in He. }
  destruct (steps_value contents U rd wr Hdev sts 2 l0 Hr0 Hc0 ltac:(lia) ltac:(lia) Hco Hca)
    as (Hok & Hr1 & Hc1 & Hco1 & Hv1).
  assert (clients_ok (session sts) (l_created cfg s)) as Hok' by by split.
  destruct (reached cfg s s0 (session sts) Hs Hr Hok') as (s1 & Hrun & Hrest1 & _).
  assert (l_after cfg s (session sts) = (l_exec_all (all_calls sts) l0).2) as El.
  { unfold l_after, session. cbn. unfold l0, l_session, l_after. cbn.
    by destruct (l_exec_all (all_calls sts) _). }
  eexists _, s1. split; [exact Hrun|]. cbv zeta. rewrite El in *.
  split_and!; [done|done|exact Hc1|done|]. intros id Hu. rewrite (Hv1 id Hu).
  apply (effects_ext U); [|done]. intros id' _. apply value_absent. intros x e He. cbn in He.
  by rewrite lookup_empty in He.
Qed.
End device.
