(* ===== verification/CacheDemo.v ===== *)
(** * A small cache to run

    A device that stores extents by identifier, the smallest configuration
    [kes_cache_create] accepts, and a few calls; the witnesses of the theorems
    evaluate on them. *)
From S2P Require Import Prelude Types CacheTypes CacheState Cache CacheLinks CacheSpec CacheView.
From S2P Require Import CacheWf CacheFacts CacheSystem CacheLifecycle CacheInv CacheContent.

Abbreviation kv := (gmap (Z * Z * Z) (list Z)).
Definition key (id : kes_extent_id) : Z * Z * Z :=
  (id_start_block id, id_block_count id, id_block_size id).
Definition kv_contents (d : kv) (id : kes_extent_id) : list Z :=
  let n := Z.to_nat (extent_data_size id) in take n (default [] (d !! key id) ++ replicate n 0).
Definition kv_read : read_fn kv := fun _ id _ d => (KES_SUCCESS, kv_contents d id, d).
Definition kv_write : write_fn kv := fun _ id bytes d => (KES_SUCCESS, <[key id := bytes]> d).
(** A device that can no longer be written. *)
Definition kv_write_fails : write_fn kv := fun _ _ _ d => (KES_ERROR_IO, d).

Lemma kv_faithful : faithful kv_contents (fun _ => True) kv_read kv_write.
Proof.
  split.
  - intros d id id' (Hs & Hc & Hz)%extent_equal_iff. unfold kv_contents, key, extent_data_size.
    by rewrite Hs, Hc, Hz.
  - done.
  - intros d id _. unfold kv_contents. rewrite length_take, length_app, length_replicate.
    pose proof (u64_range (id_block_count id * id_block_size id)). unfold extent_data_size in *. lia.
  - intros h id d r bytes d' _ Hr. unfold kv_read in Hr.
    assert (bytes = kv_contents d id /\ d' = d) as [-> ->] by (split; congruence).
    split; [done|]. intros _. unfold kv_contents.
    by rewrite take_take, Nat.min_id.
  - intros h id d bytes r d' _ Hlen [= <- <-]. split.
    + intros id' _ [|Hne]; [done|]. unfold kv_contents. rewrite lookup_insert_ne; [done|].
      intros [= Hs Hc Hz]. rewrite (proj2 (extent_equal_iff id id')) in Hne; [done|done].
    + intros _. unfold kv_contents. rewrite lookup_insert_eq.
      change (default [] (Some bytes)) with bytes.
      rewrite take_app_le by lia. apply take_ge. lia.
Qed.

Definition demo_config : kes_cache_config :=
  mkCacheConfig KES_CACHE_MIN_MEMORY 0 KES_CACHE_MIN_ENTRIES KES_CACHE_LRU 1 1000 false false None.
Definition demo_id (n : Z) : kes_extent_id := mkId n 1 4096 0.
Definition demo_env : env := mkEnv 1000 0 [] 1%positive 1 (fun _ _ => []).
Definition demo_start : cstate kv := mkState None ∅ ∅ ∅ ∅ ∅ ∅ [] demo_env ∅.
Definition after {A} (o : outcome (A * cstate kv)) : cstate kv :=
  match o with Returns (_, s) => s | _ => demo_start end.
Definition demo_created : cstate kv := after (run (kes_cache_create (Some demo_config)) demo_start).

Lemma demo_no_cache : no_cache demo_start.
Proof. by split. Qed.
Lemma demo_limits : limits_ok demo_config.
Proof. split; vm_compute; split; congruence. Qed.
Lemma demo_creates : run (kes_cache_create (Some demo_config)) demo_start = Returns (true, demo_created).
Proof. vm_compute. reflexivity. Qed.
Lemma demo_id_ok n : 0 <= n < 1000 -> id_ok (demo_id n).
Proof. intros H. split; cbn; lia. Qed.
