(* ===== verification/CacheProps.v ===== *)
(** * What the extent cache guarantees

    Theorems about the programs of [Cache] run one call at a time on any
    device, each with a witness on the cache of [CacheDemo]. *)
From stdpp Require Import functions.
From S2P Require Import Prelude Types CacheTypes CacheState Cache CacheLinks CacheSpec CacheView.
From S2P Require Import CacheLists CacheWf CacheFacts CacheWalks CacheOps CacheGet CacheSystem.
From S2P Require Import CacheLifecycle CacheSteps CacheInv CacheHeld CacheContent CacheOrder CacheReach.
From S2P Require Import CacheDemo.

(** ** Calls used by the witnesses *)

Definition demo_calls : list (cache_op kv) :=
  [OpSetCallbacks (Some kv_read) (Some kv_write) None; OpGet (Some (demo_id 0));
   OpMarkDirty (Some (demo_id 0)); OpPin (Some (demo_id 1)); OpGet (Some (demo_id 1));
   OpPut (Some (demo_id 1)); OpSync; OpGet None].
(** The buffer of the first extent is the second allocation. *)
Definition demo_session : list (client_step (D := kv)) :=
  [Do (OpGet (Some (demo_id 0))); Update (demo_id 0) 2%positive [7; 8; 9];
   Do (OpPut (Some (demo_id 0)))].

Lemma demo_clients_ok : clients_ok demo_calls (l_created demo_config demo_start).
Proof. repeat (split; [first [exact I|apply demo_id_ok; lia]|]). exact I. Qed.

Lemma demo_session_careful :
  steps_careful (fun _ => True) demo_session (l_session kv_read kv_write None demo_config demo_start).
Proof.
  split; [split; [apply demo_id_ok; lia|exact I]|]. split; [|split; [exact I|exact I]].
  eexists 1%positive, _. split; [vm_compute; reflexivity|]. vm_compute. split_and!; congruence.
Qed.

(** C9: from [kes_cache_create] on, any sequence of calls by a client that
    keeps its side of the interface runs to its end -- no use of freed memory,
    no unlocking of a free lock, no deadlock, no loop without end -- and
    returns exactly what the reference cache returns, in a state that
    represents the reference cache. *)
Theorem cache_refines {D} (cfg : kes_cache_config) (ops : list (cache_op D)) (s s0 : cstate D) :
  no_cache s -> run (kes_cache_create (Some cfg)) s = Returns (true, s0) ->
  clients_ok ops (l_created cfg s) ->
  exists s1, run (exec_all ops) s0 = Returns ((l_exec_all ops (l_created cfg s)).1, s1) /\
    at_rest (l_after cfg s ops) s1 /\ lwf (l_after cfg s ops).
Proof.
  intros Hs Hr Hok. destruct (reached cfg s s0 ops Hs Hr Hok) as (s1 & Hrun & Hrest & Hready & _).
  exists s1. split_and!; [done|done|apply Hready].
Qed.

Lemma cache_refines_witness :
  exists s1, run (exec_all demo_calls) demo_created =
      Returns ((l_exec_all demo_calls (l_created demo_config demo_start)).1, s1) /\
    at_rest (l_after demo_config demo_start demo_calls) s1 /\
    lwf (l_after demo_config demo_start demo_calls).
Proof.
  apply (cache_refines demo_config demo_calls demo_start demo_created).
  - apply demo_no_cache.
  - apply demo_creates.
  - apply demo_clients_ok.
Defined.

(** C10: the cache is transparent.  On a device whose callbacks read and write
    faithfully, after any work of a client that marks what it changes, a
    successful [kes_cache_get_extent] returns a buffer whose contents are what
    the device held at creation with the client's updates applied, however
    often extents were written back, evicted and loaded again, and whether or
    not allocations failed. *)
Theorem cache_transparent {D} (contents : D -> kes_extent_id -> list Z)
    (U : kes_extent_id -> Prop) rd wr sy cfg sts (s s0 : cstate D) :
  faithful contents U rd wr -> limits_ok cfg ->
  no_cache s -> run (kes_cache_create (Some cfg)) s = Returns (true, s0) ->
  steps_careful U sts (l_session rd wr sy cfg s) ->
  Z.of_nat (length (all_calls sts)) < 2 ^ 32 - 4 ->
  exists rs s1, run (exec_all (session rd wr sy sts)) s0 = Returns (rs, s1) /\
    forall id p s2, id_ok id -> U id ->
      run (kes_cache_get_extent true (Some id) true) s1 = Returns ((KES_SUCCESS, Some (Some p)), s2) ->
      exists buf, cs_bufs s2 !! p = Some buf /\
        take (Z.to_nat (extent_data_size id)) buf = foldl effect (contents (cs_dev s)) sts id.
Proof.
  intros Hdev Hlim Hs Hr Hca Hn.
  destruct (session_reached contents U rd wr sy Hdev cfg s s0 sts Hlim Hs Hr Hca Hn)
    as (rs & s1 & Hrun & Hrest & Hready & Hc & Hco & Hv).
  exists rs, s1. split; [exact Hrun|]. intros id p s2 Hid Hu Hg.
  set (l1 := l_after cfg s (session rd wr sy sts)) in *.
  destruct (implements_run _ _ _ s1 (exec_implements (OpGet (Some id)) l1 Hready Hid) Hrest)
    as (s2' & Hrun2 & Hrest2).
  cbn [exec] in Hrun2. rewrite run_bind, Hg in Hrun2. cbn in Hrun2. injection Hrun2 as Hres <-.
  destruct (id_accepted id) eqn:Ha; [|done].
  destruct (l_get id l1) as [[r b] l2] eqn:Eg. cbn in Hres. injection Hres as <- <-.
  destruct (get_value contents U rd wr Hdev id (Some p) (2 + Z.of_nat (length (all_calls sts))) l1 l2
    Hready Hc ltac:(lia) ltac:(lia) Hco Hid Hu Ha Eg) as (q & buf & Hq & Hbuf & Hval).
  injection Hq as <-. cbn [l_exec] in Hrest2. rewrite Ha, Eg in Hrest2. exists buf. rewrite (rest_bufs _ _ Hrest2), <-(Hv id Hu). by split.
Qed.

Lemma cache_transparent_witness :
  exists rs s1, run (exec_all (session kv_read kv_write None demo_session)) demo_created =
      Returns (rs, s1) /\
    forall id p s2, id_ok id -> True ->
      run (kes_cache_get_extent true (Some id) true) s1 = Returns ((KES_SUCCESS, Some (Some p)), s2) ->
      exists buf, cs_bufs s2 !! p = Some buf /\
        take (Z.to_nat (extent_data_size id)) buf = foldl effect (kv_contents ∅) demo_session id.
Proof.
  apply (cache_transparent kv_contents (fun _ => True) kv_read kv_write None demo_config demo_session
    demo_start demo_created).
  - apply kv_faithful.
  - apply demo_limits.
  - apply demo_no_cache.
  - apply demo_creates.
  - apply demo_session_careful.
  - vm_compute. reflexivity.
Defined.



(** C19: an extent somebody holds stays.  While fewer [kes_cache_put_extent]
    calls than the extent has references (or fewer unpins than pins) are made
    for it, no operation frees it or moves it: the pointer a client obtained
    remains valid and still belongs to the same extent. *)
Theorem held_extents_stay {D} cfg (ops ops' : list (cache_op D)) (s s0 s1 : cstate D) rs x e :
  limits_ok cfg -> no_cache s -> run (kes_cache_create (Some cfg)) s = Returns (true, s0) ->
  clients_ok (ops ++ ops') (l_created cfg s) -> Z.of_nat (length (ops ++ ops')) < 2 ^ 32 - 2 ->
  run (exec_all ops) s0 = Returns (rs, s1) -> cs_entries s1 !! x = Some e ->
  count_ops (is_put (e_id e)) ops' < e_ref_count e \/
    count_ops (is_unpin (e_id e)) ops' < e_pin_count e ->
  exists rs' s2 e', run (exec_all ops') s1 = Returns (rs', s2) /\ cs_entries s2 !! x = Some e' /\
    e_id e' = e_id e /\ e_data e' = e_data e.
Proof.
  intros Hlim Hs Hr Hok Hn Hrun He Hpos. destruct (created cfg s s0 Hs Hr) as [Hrest0 Hready0].
  set (l0 := l_created cfg s) in *. rewrite length_app in Hn.
  assert (clients_ok ops l0 /\ clients_ok ops' (l_exec_all ops l0).2) as [Hok1 Hok2].
  { clear -Hok. revert Hok. generalize l0. induction ops as [|op ops IH]; intros l; [done|].
    cbn. intros [Hop Hrest]. specialize (IH _ Hrest). destruct (l_exec op l) as [r l1]. cbn in *.
    destruct (l_exec_all ops l1). tauto. }
  destruct (reached cfg s s0 ops Hs Hr Hok1) as (s1' & Hrun' & Hrest & Hready & Hc).
  rewrite Hrun in Hrun'. injection Hrun' as -> <-. specialize (Hc Hlim ltac:(lia)).
  fold (l_after cfg s ops) in Hok2.
  destruct (exec_all_refines ops' _ s1 Hready Hok2 Hrest) as [_ (s2 & Hrun2 & Hrest2)].
  rewrite (rest_entries _ _ Hrest) in He.
  destruct (exec_all_holds ops' (1 + Z.of_nat (length ops)) x (e_id e) (e_data e) (e_ref_count e)
    (e_pin_count e) _ Hready Hc ltac:(lia) ltac:(lia) Hok2) as (e' & He' & Hi & Hd & _); [by exists e|done|].
  eexists _, s2, e'. rewrite (rest_entries _ _ Hrest2). by split_and!.
Qed.

(** The state after [demo_calls], and the entry of the extent still held. *)
Definition demo_reached : cstate kv := after (run (exec_all demo_calls) demo_created).
Definition demo_results : list cache_result := (l_exec_all demo_calls (l_created demo_config demo_start)).1.
Definition demo_entry : kes_extent_entry := default zero_entry (cs_entries demo_reached !! 1%positive).
Definition demo_more : list (cache_op kv) := [OpSync; OpPut (Some (demo_id 1)); OpGet (Some (demo_id 2))].

Lemma demo_runs : run (exec_all demo_calls) demo_created = Returns (demo_results, demo_reached).
Proof.
  destruct (reached demo_config demo_start demo_created demo_calls demo_no_cache demo_creates
    demo_clients_ok) as (s1 & Hrun & _). unfold demo_reached, demo_results.
  rewrite Hrun. cbn [after]. reflexivity.
Qed.
Lemma demo_more_ok : clients_ok (demo_calls ++ demo_more) (l_created demo_config demo_start).
Proof. repeat (split; [first [exact I|apply demo_id_ok; lia]|]). exact I. Qed.

Lemma held_extents_stay_witness :
  e_ref_count demo_entry = 1 /\
  exists rs' s2 e', run (exec_all demo_more) demo_reached = Returns (rs', s2) /\
    cs_entries s2 !! 1%positive = Some e' /\ e_id e' = e_id demo_entry /\ e_data e' = e_data demo_entry.
Proof.
  split; [vm_compute; reflexivity|].
  apply (held_extents_stay demo_config demo_calls demo_more demo_start demo_created demo_reached
    demo_results 1%positive demo_entry).
  - apply demo_limits.
  - apply demo_no_cache.
  - apply demo_creates.
  - apply demo_more_ok.
  - vm_compute. reflexivity.
  - apply demo_runs.
  - vm_compute. reflexivity.
  - left. vm_compute. reflexivity.
Defined.

(** C18: [kes_cache_sync] makes the client's updates durable on a device that
    takes writes: afterwards the device holds every extent's value, no extent
    is dirty, and what stays in memory is in use (or failed to load) -- every
    other extent has been dropped. *)
Theorem sync_makes_durable {D} (contents : D -> kes_extent_id -> list Z)
    (U : kes_extent_id -> Prop) rd wr sy cfg sts (s s0 : cstate D) :
  faithful contents U rd wr -> writes_succeed wr -> limits_ok cfg ->
  no_cache s -> run (kes_cache_create (Some cfg)) s = Returns (true, s0) ->
  steps_careful U sts (l_session rd wr sy cfg s) ->
  Z.of_nat (length (all_calls sts)) < 2 ^ 32 - 4 ->
  exists rs s1 s2, run (exec_all (session rd wr sy sts)) s0 = Returns (rs, s1) /\
    run (kes_cache_sync true) s1 = Returns (KES_SUCCESS, s2) /\
    (forall id, U id -> contents (cs_dev s2) id = foldl effect (contents (cs_dev s)) sts id) /\
    forall x e, cs_entries s2 !! x = Some e -> is_dirty e = false /\ (in_use e || is_error e = true).
Proof.
  intros Hdev Hok Hlim Hs Hr Hca Hn.
  destruct (session_reached contents U rd wr sy Hdev cfg s s0 sts Hlim Hs Hr Hca Hn)
    as (rs & s1 & Hrun & Hrest & Hready & Hc & Hco & Hv). cbv zeta in *.
  set (l1 := l_after cfg s (session rd wr sy sts)) in *.
  pose proof (rd_wf _ Hready) as Hl.
  destruct (implements_run _ _ _ s1 (sync_implements l1 Hl) Hrest) as (s2 & Hrun2 & Hrest2).
  cbn [fst snd] in *. exists rs, s1, s2. split; [exact Hrun|]. split; [exact Hrun2|].
  destruct (keeps_exec contents U rd wr Hdev OpSync (2 + Z.of_nat (length (all_calls sts))) l1 Hready Hc
    ltac:(lia) ltac:(lia) Hco I) as [Hco2 Hv2]. cbn [l_exec snd] in *.
  assert (lwf (l_sweep l1)) as Hl2 by by apply lwf_sweep.
  pose proof (exec_counted OpSync _ l1 Hready Hc ltac:(lia) ltac:(lia) I) as Hc2. cbn [l_exec snd] in Hc2.
  assert (forall x e, l_entries (l_sweep l1) !! x = Some e -> is_dirty e = false) as Hclean.
  { intros x e He. destruct (sweep_settles l1 x e Hl He) as [_ Hd]. apply (Hd wr); [|done]. apply Hco2. }
  split.
  - intros id Hu. rewrite (rest_dev _ _ Hrest2), <-(Hv id Hu), <-(Hv2 id Hu).
    destruct (cached_or_not id (l_sweep l1)) as [(x & e & He & Heq)|Hno].
    + rewrite (value_cached contents x e id (l_sweep l1)) by done. by rewrite (Hclean x e He).
    + by rewrite value_absent.
  - rewrite (rest_entries _ _ Hrest2). intros x e He. split; [by apply (Hclean x)|].
    destruct (sweep_settles l1 x e Hl He) as [Hev _]. pose proof (Hclean x e He) as Hd.
    pose proof (wf_entry _ Hl2 x e He) as [_ _ Hw _]. unfold evictable in Hev.
    unfold is_dirty in Hd. rewrite Hw, Hd in Hev. cbn in Hev. fold (is_error e) in Hev.
    destruct (is_error e); [by rewrite orb_true_r|]. rewrite orb_false_r.
    pose proof (counted_counts_ok _ _ Hc2 x e He).
    unfold in_use. destruct (Z.eqb_spec (e_ref_count e) 0), (Z.eqb_spec (e_pin_count e) 0),
      (Z.ltb_spec 0 (e_ref_count e)), (Z.ltb_spec 0 (e_pin_count e)); cbn in Hev |- *; done || lia.
Qed.

Lemma sync_makes_durable_witness :
  exists rs s1 s2, run (exec_all (session kv_read kv_write None demo_session)) demo_created =
      Returns (rs, s1) /\
    run (kes_cache_sync true) s1 = Returns (KES_SUCCESS, s2) /\
    (forall id, True -> kv_contents (cs_dev s2) id = foldl effect (kv_contents ∅) demo_session id) /\
    forall x e, cs_entries s2 !! x = Some e -> is_dirty e = false /\ (in_use e || is_error e = true).
Proof.
  apply (sync_makes_durable kv_contents (fun _ => True) kv_read kv_write None demo_config demo_session
    demo_start demo_created).
  - apply kv_faithful.
  - by intros h id bytes d.
  - apply demo_limits.
  - apply demo_no_cache.
  - apply demo_creates.
  - apply demo_session_careful.
  - vm_compute. reflexivity.
Defined.

(** C21: making room evicts from the least recently used end.  The recency list
    splits into a newer part, left exactly as it was, and an older part, of
    which only what could not be evicted (in use, or dirty and not written)
    remains; an extent in use never leaves; the result says whether the new
    extent fits, and a refusal means that the whole list was tried. *)
Theorem make_room_evicts_lru {D} cfg (ops : list (cache_op D)) (s s0 : cstate D) n :
  limits_ok cfg -> no_cache s -> run (kes_cache_create (Some cfg)) s = Returns (true, s0) ->
  clients_ok ops (l_created cfg s) -> Z.of_nat (length ops) < 2 ^ 32 - 3 ->
  exists rs s1 ok s2 newer older c,
    run (exec_all ops) s0 = Returns (rs, s1) /\
    run (make_room_for_new_entry n) s1 = Returns (ok, s2) /\
    l_order (l_after cfg s ops) = newer ++ older /\
    (forall x, x ∈ newer -> cs_entries s2 !! x = cs_entries s1 !! x) /\
    (forall x e, x ∈ older -> cs_entries s2 !! x = Some e -> evictable false e = false) /\
    (forall x e, cs_entries s1 !! x = Some e -> in_use e = true -> is_Some (cs_entries s2 !! x)) /\
    cs_cache s2 = Some c /\ fits_now c (KES_ALIGN n KES_CACHE_ALIGNMENT) = ok /\
    (ok = false -> newer = []).
Proof.
  intros Hlim Hs Hr Hok Hn.
  destruct (reached cfg s s0 ops Hs Hr Hok) as (s1 & Hrun & Hrest & Hready & Hc).
  specialize (Hc Hlim ltac:(lia)). set (l1 := l_after cfg s ops) in *. pose proof (rd_wf _ Hready) as Hl.
  pose proof Hrest as (ch & Hch & Hrep).
  destruct (steps_make_room n ch l1 Hl Hch) as (ch' & Hch' & _ & Hst).
  destruct (Hst s1 Hrep) as (s2 & Hrun2 & Hrep2).
  destruct (make_room_vacates n l1 Hl) as (newer & older & [V1 V2 V3 V4]).
  destruct (hpath_make_room n l1 Hl) as ((ls & Hp & Hh) & _ & Hfit).
  eexists _, s1, (l_make_room n l1).1, s2, newer, older, _.
  rewrite (rest_entries _ _ Hrest), (rp_entries _ _ Hrep2). cbn [v_l].
  split_and!; [exact Hrun|exact Hrun2|exact V1|exact V2| | |apply (rp_cache _ _ Hrep2)| |exact V4].
  - intros x e Hx He. apply (V3 x e Hx He).
  - intros x e He Hu. pose proof (housekeeping_free ls Hh) as Hw.
    assert (forall id, ref_costs ls id = 0 /\ pin_costs ls id = 0) as Hcost.
    { intros id. clear -Hh. unfold ref_costs, pin_costs. induction Hh as [|a ls [->|[->| ->]] _ IH]; done. }
    destruct (Hcost (e_id e)) as [C1 C2]. unfold in_use in Hu. apply orb_true_iff in Hu.
    rewrite !Z.ltb_lt in Hu.
    destruct (path_holds ls l1 _ Hp (1 + Z.of_nat (length ops)) x (e_id e) (e_data e) (e_ref_count e)
      (e_pin_count e) Hc ltac:(lia) ltac:(lia)) as (e' & He' & _); [by exists e|lia|]. by exists e'.
  - destruct (l_make_room n l1).1 eqn:Eb; [by apply Hfit|by apply make_room_no_room].
Qed.

Lemma make_room_evicts_lru_witness :
  exists rs s1 ok s2 newer older c,
    run (exec_all demo_calls) demo_created = Returns (rs, s1) /\
    run (make_room_for_new_entry (2 ^ 20)) s1 = Returns (ok, s2) /\
    l_order (l_after demo_config demo_start demo_calls) = newer ++ older /\
    (forall x, x ∈ newer -> cs_entries s2 !! x = cs_entries s1 !! x) /\
    (forall x e, x ∈ older -> cs_entries s2 !! x = Some e -> evictable false e = false) /\
    (forall x e, cs_entries s1 !! x = Some e -> in_use e = true -> is_Some (cs_entries s2 !! x)) /\
    cs_cache s2 = Some c /\ fits_now c (KES_ALIGN (2 ^ 20) KES_CACHE_ALIGNMENT) = ok /\
    (ok = false -> newer = []).
Proof.
  apply (make_room_evicts_lru demo_config demo_calls demo_start demo_created).
  - apply demo_limits.
  - apply demo_no_cache.
  - apply demo_creates.
  - apply demo_clients_ok.
  - vm_compute. reflexivity.
Defined.

(** C22: [kes_cache_destroy] without anything in use frees every entry, every
    buffer and the cache; otherwise it returns [KES_ERROR_BUSY], frees exactly
    the extents not in use and leaves a cache that works.  Either way nothing
    is written: what was dirty is lost. *)
Theorem destroy_frees_all {D} cfg (ops : list (cache_op D)) (s s0 : cstate D) :
  limits_ok cfg -> no_cache s -> run (kes_cache_create (Some cfg)) s = Returns (true, s0) ->
  clients_ok ops (l_created cfg s) -> Z.of_nat (length ops) < 2 ^ 32 - 2 ->
  exists rs s1 r s2, run (exec_all ops) s0 = Returns (rs, s1) /\
    run (kes_cache_destroy true) s1 = Returns (r, s2) /\ cs_dev s2 = cs_dev s1 /\
    if decide (map_Exists (fun _ e => in_use e = true) (cs_entries s1)) then
      r = KES_ERROR_BUSY /\
      (exists l2, at_rest l2 s2 /\ ready l2) /\
      cs_entries s2 = filter (fun p => in_use p.2 = true) (cs_entries s1)
    else r = KES_SUCCESS /\ no_cache s2.
Proof.
  intros Hlim Hs Hr Hok Hn.
  destruct (reached cfg s s0 ops Hs Hr Hok) as (s1 & Hrun & Hrest & Hready & Hc).
  specialize (Hc Hlim Hn). set (l1 := l_after cfg s ops) in *.
  pose proof Hrest as (ch & Hch & Hrep).
  destruct (destroy_ends ch l1 Hready Hch s1 Hrep) as (s2 & Hrun2 & Hend).
  eexists _, s1, _, s2. split; [exact Hrun|]. split; [exact Hrun2|].
  rewrite (rest_entries _ _ Hrest), (rest_dev _ _ Hrest). unfold l_destroy in *.
  set (l0 := l_destroying true (l_stopped l1)) in *.
  assert (lwf l0) as Hl0 by (apply (lwf_cache (l_stopped l1)); [apply lwf_cache; [apply Hready|done..]|done..]).
  pose proof (drain_filter l0 Hl0 (counted_counts_ok _ _ Hc)) as Hf.
  change (l_entries l0) with (l_entries l1) in Hf.
  pose proof (lwf_drain true (l_order l0) l0 Hl0) as Hld.
  destruct (drain_other true (l_order l0) l0) as (Hdv & _).
  change (foldl _ l0 (l_order l0)) with (l_drain l0) in Hld, Hdv. change (l_dev l0) with (l_dev l1) in Hdv.
  assert (map_Exists (fun _ e => in_use e = true) (l_entries l1) <-> l_order (l_drain l0) ≠ []) as Hiff.
  { split.
    - intros (x & e & He & Hu) E. assert (l_entries (l_drain l0) !! x = Some e) as Hx
        by (rewrite Hf; by apply map_lookup_filter_Some).
      assert (x ∈ l_order (l_drain l0)) as Hin by (apply (wf_dom _ Hld); by eexists).
      rewrite E in Hin. by apply not_elem_of_nil in Hin.
    - destruct (l_order (l_drain l0)) as [|x o] eqn:E; [done|]. intros _.
      destruct (proj1 (wf_dom _ Hld x)) as [e He]; [rewrite E; by left|].
      rewrite Hf in He. apply map_lookup_filter_Some in He as [He Hu]. by exists x, e. }
  destruct (decide (l_order (l_drain l0) = [])) as [E|E]; cbn [fst snd] in *.
  - rewrite decide_False by tauto. destruct Hend as [? ?]. by split_and!.
  - rewrite decide_True by tauto. destruct Hend as [Hrd2 Hrest2].
    rewrite (rest_dev _ _ Hrest2), (rest_entries _ _ Hrest2). split; [exact Hdv|].
    split_and!; [done|by eexists|exact Hf].
Qed.

Lemma destroy_frees_all_witness :
  exists rs s1 r s2, run (exec_all demo_calls) demo_created = Returns (rs, s1) /\
    run (kes_cache_destroy true) s1 = Returns (r, s2) /\ cs_dev s2 = cs_dev s1 /\
    if decide (map_Exists (fun _ e => in_use e = true) (cs_entries s1)) then
      r = KES_ERROR_BUSY /\
      (exists l2, at_rest l2 s2 /\ ready l2) /\
      cs_entries s2 = filter (fun p => in_use p.2 = true) (cs_entries s1)
    else r = KES_SUCCESS /\ no_cache s2.
Proof.
  apply (destroy_frees_all demo_config demo_calls demo_start demo_created).
  - apply demo_limits.
  - apply demo_no_cache.
  - apply demo_creates.
  - apply demo_clients_ok.
  - vm_compute. reflexivity.
Defined.
