(* ===== verification/CacheBackground.v ===== *)
(** * Background threads

    [kes_cache_start] and [kes_cache_stop] against the reference cache, with
    the failures of allocation and thread creation, and what one background
    thread does when it runs. *)
From stdpp Require Import functions.
From S2P Require Import Prelude Types CacheTypes CacheState Cache CacheLinks CacheSpec CacheView.
From S2P Require Import CacheLists CacheWf CacheFacts CacheWalks CacheOps CacheGet CacheSystem.
From S2P Require Import CacheLifecycle CacheReach CacheDemo.

(** How many of [n] threads start before the first failure, and the
    environment afterwards. *)
Definition next_thread (v : env) : env :=
  mkEnv (env_sec v) (env_nsec v) (env_script v) (env_next v) (env_next_thread v + 1) (env_junk v).
Fixpoint spawned (n : nat) (v : env) : nat * env :=
  match n with
  | O => (O, v)
  | S n' =>
      let '(failed, v1) := next_failure v in
      if failed then (O, v1) else let '(k, v2) := spawned n' (next_thread v1) in (S k, v2)
  end.

(** None of the next [n] outcomes of the script is a failure. *)
Definition no_failure (n : nat) (v : env) : bool := forallb negb (take n (env_script v)).

Lemma next_failure_script v b v' :
  next_failure v = (b, v') ->
  env_next_thread v' = env_next_thread v /\ env_next v' = env_next v /\
  forall n, no_failure (S n) v = negb b && no_failure n v'.
Proof.
  unfold next_failure, no_failure. destruct (env_script v) as [|c cs] eqn:E.
  - intros [= <- <-]. rewrite E. split_and!; [done|done|]. intros [|n]; cbn; by rewrite ?firstn_nil.
  - intros [= <- <-]. by split_and!.
Qed.

Lemma spawned_all n v : (fst (spawned n v) =? n)%nat = no_failure n v.
Proof.
  revert v. induction n as [|n IH]; intros v; cbn [spawned]; [done|].
  destruct (next_failure v) as [b v1] eqn:Hf. destruct (next_failure_script v b v1 Hf) as (_ & _ & Hs).
  rewrite Hs. destruct b; [done|]. specialize (IH (next_thread v1)).
  destruct (spawned n (next_thread v1)) as [k v2]. cbn in *. exact IH.
Qed.

Lemma spawned_next n v : env_next (snd (spawned n v)) = env_next v.
Proof.
  revert v. induction n as [|n IH]; intros v; cbn [spawned]; [done|].
  destruct (next_failure v) as [b v1] eqn:Hf. destruct (next_failure_script v b v1 Hf) as (_ & Hn & _).
  destruct b; [exact Hn|]. specialize (IH (next_thread v1)).
  destruct (spawned n (next_thread v1)) as [k v2]. cbn in *. congruence.
Qed.

Section device.
Context {D : Type}.
Implicit Types (l : lcache D) (ts : list Z).

Lemma rep_threads h P ch l s ts v :
  rep (mkView h P ch l) s ->
  rep (mkView h P ch (l_set_threads ts (l_set_env v l))) (set_threads ts (set_env v s)).
Proof. by intros []. Qed.

Lemma steps_pthread_create h P ch l b v :
  next_failure (l_env l) = (b, v) ->
  steps pthread_create (mkView h P ch l) (if b then (11, 0) else (0, env_next_thread v))
    (mkView h P ch (if b then l_set_env v l
                    else l_set_threads (env_next_thread v :: l_threads l) (l_set_env (next_thread v) l))).
Proof.
  intros Hf s Hs. cbn. rewrite (rp_env _ _ Hs). cbn. rewrite Hf. destruct b; (eexists; split; [done|]).
  - by destruct Hs.
  - rewrite (rp_threads _ _ Hs). by apply rep_threads.
Qed.

Lemma steps_pthread_join h P ch l t :
  t ∈ l_threads l -> c_shutdown (l_cache l) = true ->
  steps (pthread_join t) (mkView h P ch l) tt
    (mkView h P ch (l_set_threads (filter (fun u => u ≠ t) (l_threads l)) l)).
Proof.
  intros Ht Hd s Hs. cbn. rewrite (rp_cache _ _ Hs), (rp_threads _ _ Hs). cbn.
  rewrite decide_True by done. rewrite Hd. eexists. split; [done|]. by destruct Hs.
Qed.

Lemma steps_join_all h P ch ts : forall l,
  NoDup ts -> ts ⊆ l_threads l -> c_shutdown (l_cache l) = true ->
  steps (join_all ts) (mkView h P ch l) tt
    (mkView h P ch (l_set_threads (filter (fun u => u ∉ ts) (l_threads l)) l)).
Proof.
  induction ts as [|t ts IH]; intros l Hnd Hin Hd; cbn [join_all].
  - eapply steps_eq; [apply steps_ret|done|]. f_equal. destruct l as [? ? ? ? us ? ?]. unfold l_set_threads.
    cbn. f_equal. symmetry. apply filter_keeps_all. apply Forall_forall. intros u _. apply not_elem_of_nil.
  - apply NoDup_cons in Hnd as [Ht Hnd].
    eapply steps_bind; [apply steps_pthread_join; [apply Hin; by left|done]|].
    eapply steps_eq; [apply IH; [done| |done]|done|].
    + intros u Hu. cbn. apply list_elem_of_filter. split; [|apply Hin; by right]. by intros ->.
    + f_equal. cbn. unfold l_set_threads. cbn. f_equal. rewrite list_filter_filter.
      apply list_filter_iff. intros u. rewrite not_elem_of_cons. tauto.
Qed.

(** ** Starting *)

Lemma spawned_ids (t : Z) (k : nat) : seqZ t (Z.of_nat (S k)) = t :: seqZ (t + 1) (Z.of_nat k).
Proof. rewrite seqZ_cons by lia. f_equal. f_equal; lia. Qed.

(** The reference result of the creation loop: [k] of [n] threads started. *)
Definition l_started (n k : nat) (started ts0 : list Z) (v : env) l : lcache D :=
  let new := seqZ (env_next_thread (l_env l)) (Z.of_nat k) in
  if (k =? n)%nat then
    l_set_threads (reverse new ++ l_threads l) (l_set_env v
      (l_set_cache (cache_set_threads (Some (started ++ new)) (c_shutdown (l_cache l)) (l_cache l)) l))
  else l_set_threads ts0 (l_set_env v (l_set_cache (cache_set_threads None false (l_cache l)) l)).

Lemma steps_start_loop P ch ts0 n : forall started l,
  c_bg_threads (l_cache l) = Some started -> l_threads l = reverse started ++ ts0 -> NoDup started ->
  (forall u, u ∈ started -> u < env_next_thread (l_env l) /\ u ∉ ts0) ->
  (forall u, u ∈ ts0 -> u < env_next_thread (l_env l)) ->
  steps (start_loop n started) (mkView ∅ P ch l)
    (if (fst (spawned n (l_env l)) =? n)%nat then KES_SUCCESS else KES_ERROR_INVALID)
    (mkView ∅ P ch (l_started n (fst (spawned n (l_env l))) started ts0 (snd (spawned n (l_env l))) l)).
Proof.
  induction n as [|n IH]; intros started l Hbg Hts Hnd Hst H0; cbn [start_loop spawned].
  { eapply steps_eq; [apply steps_ret|done|]. f_equal. unfold l_started. cbn.
    rewrite app_nil_r. destruct l as [? c ? ? ? ? ?], c. cbn in *. by subst. }
  destruct (next_failure (l_env l)) as [b v] eqn:Hf.
  destruct (next_failure_script _ _ _ Hf) as (Hid & _).
  eapply steps_bind; [by apply steps_pthread_create|]. destruct b; cbn [fst snd].
  - cbn [Z.eqb negb].
    eapply steps_bind; [apply steps_lock; [done|held]|].
    eapply steps_bind; [by apply steps_modify_cache|].
    eapply steps_bind; [apply steps_unlock_top; [done|held|lia]|].
    eapply steps_bind; [apply steps_join_all; [done| |done]|].
    { cbn. rewrite Hts. intros u Hu. apply elem_of_app. left. by apply elem_of_reverse. }
    eapply steps_bind; [by apply steps_modify_cache|].
    eapply steps_eq; [apply steps_ret|done|]. f_equal. unfold l_started. cbn.
    unfold l_set_threads, l_set_env, l_set_cache. cbn. f_equal. rewrite Hts, filter_app.
    rewrite filter_keeps_none, filter_keeps_all; [done|..]; apply Forall_forall; intros u Hu.
    + intros Hs. by destruct (Hst u Hs).
    + rewrite elem_of_reverse in Hu. intros Hs. exact (Hs Hu).
  - cbn [Z.eqb negb]. eapply steps_bind; [by apply steps_modify_cache|].
    set (t := env_next_thread v) in *.
    match goal with |- steps _ (mkView _ _ _ ?l1) _ _ => set (l' := l1) end.
    assert ((t ∉ started) /\ (t ∉ ts0)) as [Hn1 Hn2].
    { split; intros Hu; [apply Hst in Hu as [Hu _]|apply H0 in Hu]; lia. }
    eapply steps_eq; [apply (IH (started ++ [t]) l')|..].
    + done.
    + cbn. rewrite Hts, reverse_snoc. done.
    + apply NoDup_app. split_and!; [done| |apply NoDup_singleton]. intros u Hu ->%list_elem_of_singleton.
      done.
    + intros u. rewrite elem_of_app, list_elem_of_singleton. cbn. fold t. intros [Hu| ->]; [|split; [lia|done]].
      destruct (Hst u Hu). split; [lia|done].
    + intros u Hu. cbn. fold t. specialize (H0 u Hu). lia.
    + change (l_env l') with (next_thread v). by destruct (spawned n (next_thread v)).
    + f_equal. change (l_env l') with (next_thread v).
      destruct (spawned n (next_thread v)) as [k v2]. cbn [fst snd]. unfold l_started.
      rewrite <-Hid. fold t. rewrite spawned_ids, reverse_cons. change (S k =? S n)%nat with (k =? n)%nat.
      change (env_next_thread (l_env l')) with (t + 1). destruct (k =? n)%nat; [|done].
      change (l_threads l') with (t :: l_threads l). by rewrite <-!app_assoc.
Qed.

Definition thread_count l : nat := Z.to_nat (cc_background_threads (c_config (l_cache l))).

(** [kes_cache_start] of a cache that has no threads. *)
Definition l_start l : Z * lcache D :=
  let '(failed, v) := next_failure (l_env l) in
  if failed then (KES_ERROR_NOMEM, l_set_env v l)
  else
    let '(k, v') := spawned (thread_count l) v in
    (if (k =? thread_count l)%nat then KES_SUCCESS else KES_ERROR_INVALID,
     l_started (thread_count l) k [] (l_threads l) v'
       (l_set_cache (cache_set_threads (Some []) false (l_cache l)) (l_set_env v l))).

Lemma steps_start P ch l :
  c_bg_threads (l_cache l) = None -> 0 < cc_background_threads (c_config (l_cache l)) ->
  (forall u, u ∈ l_threads l -> u < env_next_thread (l_env l)) ->
  steps (kes_cache_start true) (mkView ∅ P ch l) (l_start l).1 (mkView ∅ P ch (l_start l).2).
Proof.
  intros Hbg Hpos Hids. unfold kes_cache_start, l_start. cbn [negb].
  eapply steps_bind; [apply steps_load_cache|].
  change (cc_background_threads (c_config (full ch l))) with (cc_background_threads (c_config (l_cache l))).
  destruct (Z.leb_spec (cc_background_threads (c_config (l_cache l))) 0); [lia|].
  change (c_bg_threads (full ch l)) with (c_bg_threads (l_cache l)). rewrite Hbg.
  destruct (next_failure (l_env l)) as [b v] eqn:Hf. destruct (next_failure_script _ _ _ Hf) as (Hid & _).
  eapply steps_bind; [by apply steps_calloc_ok|]. destruct b; cbn [negb].
  - apply steps_ret.
  - eapply steps_bind; [by apply steps_modify_cache|].
    set (l1 := l_set_cache (cache_set_threads (Some []) false (l_cache l)) (l_set_env v l)).
    pose proof (steps_start_loop P ch (l_threads l) (thread_count l) [] l1) as Hloop.
    change (l_env l1) with v in Hloop. destruct (spawned (thread_count l) v) as [k v'].
    apply Hloop; [done|done|constructor| |].
    + by intros u ?%not_elem_of_nil.
    + intros u Hu. rewrite Hid. by apply Hids.
Qed.

(** A second start is refused. *)
Lemma start_again P ch l ts :
  c_bg_threads (l_cache l) = Some ts -> 0 < cc_background_threads (c_config (l_cache l)) ->
  steps (kes_cache_start true) (mkView ∅ P ch l) KES_ERROR_EXISTS (mkView ∅ P ch l).
Proof.
  intros Hbg Hpos. unfold kes_cache_start. cbn [negb]. eapply steps_bind; [apply steps_load_cache|].
  change (cc_background_threads (c_config (full ch l))) with (cc_background_threads (c_config (l_cache l))).
  destruct (Z.leb_spec (cc_background_threads (c_config (l_cache l))) 0); [lia|].
  change (c_bg_threads (full ch l)) with (c_bg_threads (l_cache l)). rewrite Hbg. apply steps_ret.
Qed.

(** ** Stopping *)

Definition l_stop_all (ts0 : list Z) l : lcache D :=
  l_set_threads ts0 (l_set_cache (cache_set_threads None true (l_cache l)) l).

Lemma steps_stop_running P ch l ts ts0 :
  c_bg_threads (l_cache l) = Some ts -> length ts = thread_count l ->
  l_threads l = reverse ts ++ ts0 -> NoDup ts -> (forall u, u ∈ ts -> u ∉ ts0) ->
  steps (kes_cache_stop true) (mkView ∅ P ch l) KES_SUCCESS (mkView ∅ P ch (l_stop_all ts0 l)).
Proof.
  intros Hbg Hlen Hts Hnd Hdis. unfold kes_cache_stop. cbn [negb].
  eapply steps_bind; [apply steps_lock; [done|held]|].
  eapply steps_bind; [by apply steps_modify_cache|].
  eapply steps_bind; [apply steps_unlock_top; [done|held|lia]|].
  eapply steps_bind; [apply steps_load_cache|].
  change (c_bg_threads (full ch _)) with (c_bg_threads (l_cache l)). rewrite Hbg.
  change (cc_background_threads (c_config (full ch _))) with (cc_background_threads (c_config (l_cache l))).
  fold (thread_count l). rewrite <-Hlen, take_ge by lia.
  eapply steps_bind.
  - eapply steps_bind; [apply steps_join_all; [done| |done]|].
    { cbn. rewrite Hts. intros u Hu. apply elem_of_app. left. by rewrite elem_of_reverse. }
    by apply steps_modify_cache.
  - eapply steps_eq; [apply steps_ret|done|]. f_equal. unfold l_stop_all, l_set_threads, l_set_cache. cbn.
    f_equal. rewrite Hts, filter_app, filter_keeps_none, filter_keeps_all; [done|..];
      apply Forall_forall; intros u Hu.
    + intros Hs. by destruct (Hdis u Hs).
    + rewrite elem_of_reverse in Hu. intros Hs. exact (Hs Hu).
Qed.

(** ** One thread *)

Definition after_syncs (n : nat) l : lcache D := (l_exec_all (replicate n OpSync) l).2.

Lemma after_syncs_S n l : after_syncs (S n) l = after_syncs n (l_sweep l).
Proof. unfold after_syncs. cbn. by destruct (l_exec_all (replicate n OpSync) (l_sweep l)). Qed.

Abbreviation cache_locked := (<[LCache := 0%nat]> (∅ : held)).

Lemma bg_rounds_steps n : forall ch l, lwf l -> chains_ok ch l -> c_shutdown (l_cache l) = false ->
  exists ch', chains_ok ch' (after_syncs n l) /\
    steps (bg_rounds n) (mkView cache_locked no_pins ch l) tt
      (mkView cache_locked no_pins ch' (after_syncs n l)).
Proof.
  induction n as [|n IH]; intros ch l Hl Hc Hd; cbn [bg_rounds].
  { exists ch. split; [done|apply steps_ret]. }
  destruct (steps_cache_sweep ch l Hl Hc) as (ch1 & Hc1 & Hl1 & Hs).
  destruct (control_sweep l) as (_ & _ & _ & _ & Hd1). rewrite Hd in Hd1.
  destruct (IH ch1 (l_sweep l) Hl1 Hc1 Hd1) as (ch' & Hc' & Hrest). rewrite after_syncs_S.
  exists ch'. split; [done|].
  eapply steps_bind; [apply steps_load_cache|].
  change (c_shutdown (full ch l)) with (c_shutdown (l_cache l)). rewrite Hd.
  eapply steps_bind; [apply steps_unlock_top; [done|held|lia]|].
  eapply steps_bind; [apply steps_lock; [done|held]|].
  eapply steps_bind with (r := true); [|exact Hrest]. unfold cache_bg_round.
  eapply steps_bind; [apply steps_load_cache|].
  change (c_shutdown (full ch l)) with (c_shutdown (l_cache l)). rewrite Hd.
  eapply steps_bind; [apply steps_unlock_top; [done|held|lia]|].
  eapply steps_bind; [exact Hs|].
  eapply steps_bind; [apply steps_lock; [done|held]|]. apply steps_ret.
Qed.

Lemma bg_thread_implements n l : lwf l ->
  implements (cache_bg_thread_func n) l
    (tt, if c_shutdown (l_cache l) then l else after_syncs n l).
Proof.
  intros Hl ch Hc. unfold cache_bg_thread_func. destruct (c_shutdown (l_cache l)) eqn:Hd.
  - exists ch. split; [done|]. eapply steps_bind; [apply steps_lock; [done|held]|].
    eapply steps_bind; [|apply (steps_unlock_top LCache 0%nat); [done|held|lia]].
    destruct n as [|n]; cbn [bg_rounds]; [apply steps_ret|].
    eapply steps_bind; [apply steps_load_cache|].
    change (c_shutdown (full ch l)) with (c_shutdown (l_cache l)). rewrite Hd. apply steps_ret.
  - destruct (bg_rounds_steps n ch l Hl Hc Hd) as (ch' & Hc' & Hs). exists ch'. split; [done|].
    eapply steps_bind; [apply steps_lock; [done|held]|].
    eapply steps_bind; [exact Hs|]. apply steps_unlock_top; [done|held|lia].
Qed.
End device.

(** ** What [kes_cache_start] and [kes_cache_stop] promise *)

(** A cache between two calls, without threads, with the entries of [s]. *)
Definition usable {D} (s s' : cstate D) : Prop :=
  cs_entries s' = cs_entries s /\ exists l, at_rest l s' /\ ready l.

Lemma usable_same {D} ch (l : lcache D) ts b v (s s' : cstate D) :
  rep (mkView ∅ no_pins ch l) s -> chains_ok ch l -> ready l -> env_next v = env_next (l_env l) ->
  rep (mkView ∅ no_pins ch (l_set_threads ts (l_set_env v
    (l_set_cache (cache_set_threads None b (l_cache l)) l)))) s' ->
  usable s s'.
Proof.
  intros Hs Hc [Hl Hd Hi Ht] Hv Hs'. split; [by rewrite (rp_entries _ _ Hs'), (rp_entries _ _ Hs)|].
  eexists. split; [exists ch; split; [|exact Hs']; by eapply chains_ok_same|].
  split; [|done..]. destruct Hl as [? ? ? ? ? ? Hf Hm]. split; try done. cbn. intros x Hx. rewrite Hv.
  by apply Hf.
Qed.

(** C23: [kes_cache_start] starts exactly the configured number of threads, or
    none: when memory or a thread cannot be had, the threads already started
    have been joined and the cache is as before.  It succeeds exactly when
    nothing fails.  Once started, a second start is refused, and
    [kes_cache_stop] ends all of them and leaves a cache that works. *)
Theorem start_stop_roundtrip {D} (l : lcache D) (s : cstate D) :
  at_rest l s -> ready l -> 0 < cc_background_threads (c_config (l_cache l)) ->
  (forall t, t ∈ cs_threads s -> t < env_next_thread (cs_env s)) ->
  exists r s2 c2, run (kes_cache_start true) s = Returns (r, s2) /\ cs_cache s2 = Some c2 /\
    (r =? KES_SUCCESS) = no_failure (S (thread_count l)) (cs_env s) /\
    if r =? KES_SUCCESS then
      exists ts s3, c_bg_threads c2 = Some ts /\ length ts = thread_count l /\ NoDup ts /\
        c_shutdown c2 = false /\ cs_threads s2 ≡ₚ ts ++ cs_threads s /\
        (exists s2', run (kes_cache_start true) s2 = Returns (KES_ERROR_EXISTS, s2')) /\
        run (kes_cache_stop true) s2 = Returns (KES_SUCCESS, s3) /\
        cs_threads s3 = cs_threads s /\ usable s s3
    else (r = KES_ERROR_NOMEM \/ r = KES_ERROR_INVALID) /\ c_bg_threads c2 = None /\
      cs_threads s2 = cs_threads s /\ usable s s2.
Proof.
  intros (ch & Hch & Hrep) Hready Hpos Hids. pose proof (rd_threads _ Hready) as Hbg.
  rewrite (rp_threads _ _ Hrep), (rp_env _ _ Hrep) in *. cbn [v_l] in *.
  destruct (steps_start no_pins ch l Hbg Hpos Hids s Hrep) as (s2 & Hrun & Hrep2).
  eexists _, s2, _. split; [exact Hrun|]. split; [exact (rp_cache _ _ Hrep2)|].
  unfold l_start in *. destruct (next_failure (l_env l)) as [b v] eqn:Hf.
  destruct (next_failure_script _ _ _ Hf) as (Hid & Hnx & Hsc). rewrite Hsc.
  destruct b; cbn [fst snd negb andb] in *.
  { change (KES_ERROR_NOMEM =? KES_SUCCESS) with false.
    split_and!; [done|by left|exact Hbg|exact (rp_threads _ _ Hrep2)|].
    eapply (usable_same ch l (l_threads l) (c_shutdown (l_cache l)) v); [done..|].
    destruct l as [? c ? ? ? ? ?], c. cbn in *. subst. exact Hrep2. }
  pose proof (spawned_all (thread_count l) v) as Hk. pose proof (spawned_next (thread_count l) v) as Hnx'.
  destruct (spawned (thread_count l) v) as [k v'] eqn:Hsp. cbn [fst snd] in *.
  rewrite <-Hk. unfold l_started in *. destruct (Nat.eqb_spec k (thread_count l)) as [->|Hne];
    cbn [fst snd] in *.
  2:{ change (KES_ERROR_INVALID =? KES_SUCCESS) with false.
      split_and!; [done|by right|done|exact (rp_threads _ _ Hrep2)|].
      eapply (usable_same ch l (l_threads l) false v'); [done..|congruence|exact Hrep2]. }
  change (KES_SUCCESS =? KES_SUCCESS) with true. split; [done|].
  match type of Hrep2 with rep (mkView _ _ _ ?x) _ => set (l2 := x) in * end.
  set (ts := seqZ (env_next_thread v) (Z.of_nat (thread_count l))) in *.
  assert (forall u, u ∈ ts -> u ∉ l_threads l) as Hdis.
  { intros u Hu%elem_of_seqZ Hl. apply Hids in Hl. lia. }
  assert (length ts = thread_count l) as Hlen by (unfold ts; rewrite length_seqZ; lia).
  destruct (start_again no_pins ch l2 ts eq_refl Hpos s2 Hrep2) as (s2' & Hagain & _).
  destruct (steps_stop_running no_pins ch l2 ts (l_threads l) eq_refl Hlen eq_refl (NoDup_seqZ _ _) Hdis
    s2 Hrep2) as (s3 & Hstop & Hrep3).
  exists ts, s3. split_and!; [done|done|apply NoDup_seqZ|done| |by eexists|exact Hstop|exact (rp_threads _ _ Hrep3)|].
  - rewrite (rp_threads _ _ Hrep2). cbn. by rewrite reverse_Permutation.
  - eapply (usable_same ch l (l_threads l) true v'); [done..|congruence|exact Hrep3].
Qed.


(** ** On the cache of [CacheDemo] *)

Definition demo_l : lcache kv := l_created demo_config demo_start.

Lemma demo_rest : at_rest demo_l demo_created /\ ready demo_l.
Proof. exact (created demo_config demo_start demo_created demo_no_cache demo_creates). Qed.

Lemma start_stop_roundtrip_witness :
  exists r s2 c2, run (kes_cache_start true) demo_created = Returns (r, s2) /\ cs_cache s2 = Some c2 /\
    (r =? KES_SUCCESS) = no_failure (S (thread_count demo_l)) (cs_env demo_created) /\
    if r =? KES_SUCCESS then
      exists ts s3, c_bg_threads c2 = Some ts /\ length ts = thread_count demo_l /\ NoDup ts /\
        c_shutdown c2 = false /\ cs_threads s2 ≡ₚ ts ++ cs_threads demo_created /\
        (exists s2', run (kes_cache_start true) s2 = Returns (KES_ERROR_EXISTS, s2')) /\
        run (kes_cache_stop true) s2 = Returns (KES_SUCCESS, s3) /\
        cs_threads s3 = cs_threads demo_created /\ usable demo_created s3
    else (r = KES_ERROR_NOMEM \/ r = KES_ERROR_INVALID) /\ c_bg_threads c2 = None /\
      cs_threads s2 = cs_threads demo_created /\ usable demo_created s2.
Proof.
  apply (start_stop_roundtrip demo_l demo_created).
  - apply demo_rest.
  - apply demo_rest.
  - vm_compute. reflexivity.
  - intros t Ht. vm_compute in Ht. by apply not_elem_of_nil in Ht.
Defined.

