(* ===== verification/CacheThreads.v ===== *)
(** * Several threads on one cache

    Clients and background threads run their programs on the shared state,
    one atomic step at a time and in any order ([pool_step]).  [ordered] is
    the discipline their programs follow: which locks a thread holds at each
    step, which entries it is loading and which it keeps to itself, locks being
    taken in the order entry, bucket, cache, and memory being changed only as
    these allow ([protected]).  [pool_inv] ties the disciplines of all threads to
    the locks of the state; [progress] draws the conclusion that threads never
    block each other for ever. *)
From S2P Require Import Prelude Types CacheTypes CacheState Cache CacheWf CacheSystem.

(** What the threads of a program do. *)
Inductive job (D : Type) :=
  | Client (ops : list (cache_op D))
  | Background (rounds : nat).
Arguments Client {D} ops.
Arguments Background {D} rounds.

(** A thread, seen by the discipline: the locks it holds ([true]:
    exclusively), the entries whose load it has to finish, and the entries it
    has allocated and not yet shown to anybody. *)
Record ghost := G { g_held : gmap lock_name bool; g_load : gset loc; g_own : gset loc }.
Definition idle : ghost := G ∅ ∅ ∅.

(** Kinds of steps. *)
Inductive request :=
  | Access                  (* no lock involved, never blocks *)
  | Take (x : lock_name)
  | Share (x : lock_name)
  | Release (x : lock_name)
  | Await (l : loc)         (* the end of a load, then the entry's lock *)
  | Exhausted.              (* the model's fuel is used up *)

Definition rank (x : lock_name) : nat :=
  match x with LEntry _ => 0 | LBucket _ => 1 | LCache => 2 end%nat.
Definition above (x : lock_name) (g : ghost) : Prop :=
  forall y b, g_held g !! y = Some b -> (rank y < rank x)%nat.

Definition admissible (r : request) (g : ghost) : Prop :=
  match r with
  | Take x | Share x => above x g
  | Release x => is_Some (g_held g !! x)
  | Await _ => g = idle
  | Access | Exhausted => True
  end.
Definition available (r : request) (h : held) : Prop :=
  match r with
  | Take x => h !! x = None
  | Await l => h !! LEntry l = None
  | Share x => h !! x ≠ Some 0%nat
  | Access | Release _ => True
  | Exhausted => False
  end.
Definition held_after (r : request) (h : held) : held :=
  match r with
  | Take x => <[x := 0%nat]> h
  | Await l => <[LEntry l := 0%nat]> h
  | Share x => <[x := S (default 0%nat (h !! x))]> h
  | Release x =>
      match h !! x with
      | Some (S (S n)) => <[x := S n]> h
      | _ => delete x h
      end
  | Access | Exhausted => h
  end.
Definition ghost_after (r : request) (g : ghost) : gmap lock_name bool :=
  match r with
  | Take x => <[x := true]> (g_held g)
  | Await l => <[LEntry l := true]> (g_held g)
  | Share x => <[x := false]> (g_held g)
  | Release x => delete x (g_held g)
  | Access | Exhausted => g_held g
  end.

Section device.
Context {D : Type}.
Implicit Types (s : cstate D).

(** ** Interleavings *)

Definition program (j : job D) : prog D () :=
  match j with
  | Client ops => exec_all ops ;;; Ret tt
  | Background rounds => cache_bg_thread_func rounds
  end.

(** One step of one thread; [Stuck] when it has ended or has to wait. *)
Definition next {A} (m : prog D A) (s : cstate D) : outcome (prog D A * cstate D) :=
  match m with
  | Ret _ => Stuck
  | Step f k =>
      match f s with
      | Returns (x, s') => Returns (k x, s')
      | Undef => Undef
      | Stuck => Stuck
      end
  end.
Definition ended {A} (m : prog D A) : bool := match m with Ret _ => true | Step _ _ => false end.

Inductive pool_step : list (prog D ()) * cstate D -> list (prog D ()) * cstate D -> Prop :=
  | pool_step_of ts s i m m' s' :
      ts !! i = Some m -> next m s = Returns (m', s') -> pool_step (ts, s) (<[i := m']> ts, s').

(** The same, for a given order of the threads. *)
Fixpoint follow (order : list nat) (ts : list (prog D ())) (s : cstate D)
    : outcome (list (prog D ()) * cstate D) :=
  match order with
  | [] => Returns (ts, s)
  | i :: order' =>
      match ts !! i with
      | None => Stuck
      | Some m =>
          match next m s with
          | Returns (m', s') => follow order' (<[i := m']> ts) s'
          | Undef => Undef
          | Stuck => Stuck
          end
      end
  end.

(** ** The discipline *)

Definition loading s (l : loc) : Prop :=
  exists e, cs_entries s !! l = Some e /\ is_loading e = true.

(** No shared pointer leads to the entry [l]. *)
Record hidden s (l : loc) : Prop := {
  hi_list : forall y k, cs_list s !! y = Some k -> lk_next k ≠ Some l /\ lk_prev k ≠ Some l;
  hi_hash : forall y k, cs_hash s !! y = Some k -> lk_next k ≠ Some l /\ lk_prev k ≠ Some l;
  hi_cache : forall c, cs_cache s = Some c ->
    c_mru_head c ≠ Some l /\ c_lru_tail c ≠ Some l /\ forall n, c_heads c !! n ≠ Some (Some l)
}.

(** Addresses still to be given out are not in use. *)
Definition sane s : Prop :=
  forall l, is_Some (cs_entries s !! l) \/ is_Some (cs_list s !! l) -> (l < env_next (cs_env s))%positive.

(** What the cache lock protects in the cache structure. *)
Definition guarded (c : kes_cache D) :=
  (c_stats c, c_mru_head c, c_lru_tail c, c_inflight_lookups c, c_destroying c).

(** The step changes only what the thread's locks, or its being the only one
    to know an entry, allow; identifier, buffer and size of an entry that
    others may know do not change at all. *)
Record protected (g : ghost) s s' : Prop := {
  pr_entry : forall l e e', cs_entries s !! l = Some e -> cs_entries s' !! l = Some e' -> l ∉ g_own g ->
    (e' = e \/ g_held g !! LEntry l = Some true) /\
    e_id e' = e_id e /\ e_data e' = e_data e /\ e_data_size e' = e_data_size e;
  pr_list : forall l k k', cs_list s !! l = Some k -> cs_list s' !! l = Some k' -> l ∉ g_own g ->
    k' = k \/ g_held g !! LCache = Some true;
  pr_cache : forall c c', cs_cache s = Some c -> cs_cache s' = Some c' ->
    guarded c' = guarded c \/ g_held g !! LCache = Some true;
  pr_heads : forall c c' n, cs_cache s = Some c -> cs_cache s' = Some c' ->
    c_heads c' !! n = c_heads c !! n \/
    exists i, 0 <= i /\ n = Z.to_nat i /\ g_held g !! LBucket i = Some true
}.

(** The entries a thread keeps to itself stay hidden; new ones are fresh, and
    freed ones do not come back. *)
Definition owns (g g' : ghost) s s' : Prop :=
  (env_next (cs_env s) <= env_next (cs_env s'))%positive /\
  (forall l, is_Some (cs_entries s' !! l) ->
    is_Some (cs_entries s !! l) \/ (env_next (cs_env s) <= l < env_next (cs_env s'))%positive) /\
  forall l, l ∈ g_own g' -> (hidden s l -> hidden s' l) /\
    (l ∈ g_own g \/ (env_next (cs_env s) <= l < env_next (cs_env s'))%positive).

(** A step as the discipline sees it. *)
Record does {X} (r : request) (g : ghost) (f : cstate D -> outcome (X * cstate D)) (g' : X -> ghost)
    : Prop := {
  do_admissible : admissible r g;
  do_locks : forall s x s', f s = Returns (x, s') ->
    available r (cs_held s) /\ cs_held s' = held_after r (cs_held s) /\
    g_held (g' x) = ghost_after r g;
  do_loads : forall s x s' l, f s = Returns (x, s') -> loading s' l ->
    l ∈ g_load (g' x) \/ (loading s l /\ l ∉ g_load g);
  do_protects : forall s x s', f s = Returns (x, s') -> sane s -> sane s' /\ protected g s s';
  do_owns : forall s x s', f s = Returns (x, s') -> owns g (g' x) s s';
  do_blocks : forall s, f s = Stuck ->
    ~ available r (cs_held s) /\ r ≠ Exhausted \/ (exists l, r = Await l /\ loading s l) \/
    (r = Exhausted /\ forall s', f s' = Stuck)
}.

Fixpoint ordered {A} (m : prog D A) (g : ghost) (Q : A -> ghost -> Prop) : Prop :=
  match m with
  | Ret a => Q a g
  | Step f k => exists r g', does r g f g' /\ forall x, ordered (k x) (g' x) Q
  end.

Lemma ordered_mono {A} (m : prog D A) g (Q Q' : A -> ghost -> Prop) :
  ordered m g Q -> (forall a g', Q a g' -> Q' a g') -> ordered m g Q'.
Proof.
  intros Hm HQ. revert g Hm. induction m as [a|X f k IH]; intros g; cbn; [apply HQ|].
  intros (r & g' & Hd & Hk). exists r, g'. split; [done|]. intros x. by apply IH.
Qed.

Lemma ordered_bind {A B} (m : prog D A) (k : A -> prog D B) g Q R :
  ordered m g Q -> (forall a g', Q a g' -> ordered (k a) g' R) -> ordered (pbind m k) g R.
Proof.
  intros Hm Hk. revert g Hm. induction m as [a|X f c IH]; intros g; cbn; [apply Hk|].
  intros (r & g' & Hd & Hc). exists r, g'. split; [done|]. intros x. by apply IH.
Qed.

Lemma ordered_assoc {A B C} (m : prog D A) (k : A -> prog D B) (c : B -> prog D C) g Q :
  ordered (pbind m (fun x => pbind (k x) c)) g Q -> ordered (pbind (pbind m k) c) g Q.
Proof.
  revert g. induction m as [a|X f h IH]; intros g; cbn; [done|].
  intros (r & g' & Hd & Hk). exists r, g'. split; [done|]. intros x. by apply IH.
Qed.

(** Programs that leave the thread as they found it, whatever they return. *)
Definition keeps {A} (m : prog D A) (g : ghost) : Prop := ordered m g (fun _ g' => g' = g).

Lemma keeps_bind {A B} (m : prog D A) (k : A -> prog D B) g R :
  keeps m g -> (forall a, ordered (k a) g R) -> ordered (pbind m k) g R.
Proof. intros Hm Hk. eapply ordered_bind; [exact Hm|]. by intros a g' ->. Qed.

Lemma keeps_last {A} (m : prog D A) g (Q : A -> ghost -> Prop) :
  keeps m g -> (forall a, Q a g) -> ordered m g Q.
Proof. intros Hm HQ. eapply ordered_mono; [exact Hm|]. by intros a g' ->. Qed.

Lemma ordered_step {X} r g (f : cstate D -> outcome (X * cstate D)) g' Q :
  does r g f g' -> (forall x, Q x (g' x)) -> ordered (act f) g Q.
Proof. intros Hd HQ. exists r, g'. by split. Qed.

(** ** The threads together *)

Definition sum_of (f : ghost -> nat) (gs : list ghost) : nat := sum_list_with f gs.
Definition writers (x : lock_name) (g : ghost) : nat :=
  match g_held g !! x with Some true => 1 | _ => 0 end.
Definition readers (x : lock_name) (g : ghost) : nat :=
  match g_held g !! x with Some false => 1 | _ => 0 end.

(** The locks of the state are those the threads hold, and every load in
    progress is some thread's. *)
Record agree (gs : list ghost) s : Prop := {
  ag_locks : forall x,
    sum_of (writers x) gs = (match cs_held s !! x with Some O => 1 | _ => 0 end)%nat /\
    sum_of (readers x) gs = (match cs_held s !! x with Some n => n | None => 0 end)%nat;
  ag_loads : forall l, loading s l -> exists i g, gs !! i = Some g /\ l ∈ g_load g
}.

Record pool_inv (ts : list (prog D ())) (s : cstate D) (gs : list ghost) : Prop := {
  pi_threads : Forall2 (fun m g => ordered m g (fun _ g' => g' = idle)) ts gs;
  pi_agree : agree gs s
}.

Lemma sum_of_insert f gs i g g' :
  gs !! i = Some g -> (sum_of f (<[i := g']> gs) + f g = sum_of f gs + f g')%nat.
Proof.
  unfold sum_of. revert i. induction gs as [|h gs IH]; intros [|i]; cbn; [done|done| |].
  - intros [= ->]. lia.
  - intros Hi. rewrite <-!Nat.add_assoc. f_equal. by apply IH.
Qed.

Lemma sum_of_member f gs i g : gs !! i = Some g -> (f g <= sum_of f gs)%nat.
Proof.
  revert i. induction gs as [|h gs IH]; intros [|i]; cbn; [done|done|..].
  - intros [= ->]. lia.
  - intros Hi. specialize (IH i Hi). unfold sum_of in IH. lia.
Qed.

Lemma sum_of_positive f gs : (0 < sum_of f gs)%nat -> exists i g, gs !! i = Some g /\ (0 < f g)%nat.
Proof.
  induction gs as [|h gs IH]; cbn; [lia|]. intros Hp. destruct (decide (0 < f h)%nat) as [Hh|Hh].
  - by exists 0%nat, h.
  - destruct IH as (i & g & Hi & Hg); [unfold sum_of; lia|]. by exists (S i), g.
Qed.

(** Rewrites the lookups in an updated map that are decided. *)
Local Ltac map_cases := repeat match goal with
  | H : context [<[?y := _]> _ !! ?y] |- _ => rewrite lookup_insert_eq in H
  | |- context [<[?y := _]> _ !! ?y] => rewrite lookup_insert_eq
  | H : context [delete ?y _ !! ?y] |- _ => rewrite lookup_delete_eq in H
  | |- context [delete ?y _ !! ?y] => rewrite lookup_delete_eq
  | H : context [<[_ := _]> _ !! _] |- _ => rewrite lookup_insert_ne in H by done
  | |- context [<[_ := _]> _ !! _] => rewrite lookup_insert_ne by done
  | H : context [delete _ _ !! _] |- _ => rewrite lookup_delete_ne in H by done
  | |- context [delete _ _ !! _] => rewrite lookup_delete_ne by done
  end.

(** Every step of a thread keeps the agreement. *)
Lemma agree_locks r g g' gs i h :
  gs !! i = Some g -> admissible r g -> available r h -> g_held g' = ghost_after r g ->
  (forall x, sum_of (writers x) gs = (match h !! x with Some O => 1 | _ => 0 end)%nat /\
    sum_of (readers x) gs = (match h !! x with Some n => n | None => 0 end)%nat) ->
  forall x, sum_of (writers x) (<[i := g']> gs) =
      (match held_after r h !! x with Some O => 1 | _ => 0 end)%nat /\
    sum_of (readers x) (<[i := g']> gs) =
      (match held_after r h !! x with Some n => n | None => 0 end)%nat.
Proof.
  intros Hi Ha Hv Hg Hgs x. destruct (Hgs x) as [W R].
  pose proof (sum_of_insert (writers x) gs i g g' Hi) as Iw.
  pose proof (sum_of_insert (readers x) gs i g g' Hi) as Ir.
  pose proof (sum_of_member (writers x) gs i g Hi) as Mw.
  pose proof (sum_of_member (readers x) gs i g Hi) as Mr.
  assert (forall y, above y g -> g_held g !! y = None) as Hab.
  { intros y Hy. destruct (g_held g !! y) as [b|] eqn:E; [|done]. specialize (Hy y b E). lia. }
  set (w' := sum_of (writers x) (<[i := g']> gs)) in *. set (w := sum_of (writers x) gs) in *.
  set (n' := sum_of (readers x) (<[i := g']> gs)) in *. set (n0 := sum_of (readers x) gs) in *.
  clearbody w w' n' n0. unfold writers, readers in Iw, Ir, Mw, Mr. rewrite Hg in Iw, Ir.
  destruct r as [|y|y|y|y|]; cbn [admissible available held_after ghost_after] in *; try (split; lia).
  - destruct (decide (x = y)) as [->|Hne].
    + rewrite Hab in Iw, Ir by done. map_cases. rewrite Hv in W, R. split; lia.
    + map_cases. split; lia.
  - destruct (decide (x = y)) as [->|Hne].
    + rewrite Hab in Iw, Ir by done. map_cases.
      destruct (h !! y) as [[|n]|]; cbn [default] in *; [done|split; cbn; lia..].
    + map_cases. split; lia.
  - destruct Ha as [b Hb]. destruct (decide (x = y)) as [->|Hne].
    + rewrite Hb in Iw, Ir. map_cases. rewrite Hb in Mw, Mr. destruct b, (h !! y) as [[|[|n]]|] eqn:E;
        rewrite ?lookup_delete_eq, ?lookup_insert_eq; try (split; lia).
    + map_cases.
      destruct (h !! y) as [[|[|n]]|]; rewrite ?lookup_delete_ne, ?lookup_insert_ne by done; split; lia.
  - subst g. destruct (decide (x = LEntry y)) as [->|Hne].
    + map_cases. rewrite Hv in W, R. cbn in *. split; lia.
    + map_cases. split; lia.
Qed.

Lemma agree_step {A} (m m' : prog D A) s s' g Q gs i :
  gs !! i = Some g -> ordered m g Q -> next m s = Returns (m', s') -> agree gs s ->
  exists g', ordered m' g' Q /\ agree (<[i := g']> gs) s' /\ owns g g' s s' /\ (sane s -> sane s').
Proof.
  destruct m as [a|X f k]; [done|]. cbn. intros Hi (r & g' & [Ha Hl Hlo Hp Ho _] & Hk) Hn [A1 A2].
  destruct (f s) as [[x s1]| |] eqn:Ef; [|done|done]. injection Hn as <- <-.
  exists (g' x). split_and!; [apply Hk| |by apply (Ho _ _ _ Ef)|intros Hs; by apply (Hp _ _ _ Ef)].
  destruct (Hl _ _ _ Ef) as (Hv & Hh & Hg). split.
  - rewrite Hh. by eapply agree_locks.
  - intros l Hld. assert (i < length gs)%nat by (by eapply lookup_lt_Some).
    destruct (Hlo _ _ _ _ Ef Hld) as [Hin|[Hold Hno]].
    { exists i, (g' x). by rewrite list_lookup_insert_eq. }
    destruct (A2 l Hold) as (j & gj & Hj & Hin). exists j, gj. split; [|done].
    rewrite list_lookup_insert_ne; [done|]. intros ->. congruence.
Qed.

(** What the next step of a thread may change. *)
Lemma next_protected {A} (m m' : prog D A) s s' g Q :
  ordered m g Q -> next m s = Returns (m', s') -> sane s -> protected g s s'.
Proof.
  destruct m as [a|X f k]; [done|]. cbn. intros (r & g' & Hd & _) Hn Hs.
  destruct (f s) as [[x s1]| |] eqn:Ef; [|done|done]. injection Hn as _ <-.
  by apply (do_protects _ _ _ _ Hd _ _ _ Ef).
Qed.

Lemma pool_inv_step ts s ts' s' gs :
  pool_step (ts, s) (ts', s') -> pool_inv ts s gs -> exists gs', pool_inv ts' s' gs'.
Proof.
  intros Hs [Ht Hag]. inversion Hs as [? ? i m m' ? Hi Hn]; subst.
  destruct (Forall2_lookup_l _ _ _ _ _ Ht Hi) as (g & Hg & Ho).
  destruct (agree_step m m' s s' g _ gs i Hg Ho Hn Hag) as (g' & Ho' & Hag' & _).
  exists (<[i := g']> gs). split; [by apply Forall2_insert|done].
Qed.

Lemma pool_inv_steps ts s ts' s' gs :
  rtc pool_step (ts, s) (ts', s') -> pool_inv ts s gs -> exists gs', pool_inv ts' s' gs'.
Proof.
  intros Hr. remember (ts, s) as c eqn:Ec. remember (ts', s') as c' eqn:Ec'.
  revert ts s gs Ec. induction Hr as [c|c [ts1 s1] c' Hs Hr IH]; intros ts s gs ->.
  - injection Ec' as -> ->. by exists gs.
  - intros Hi. destruct (pool_inv_step _ _ _ _ _ Hs Hi) as [gs1 Hi1]. by eapply IH.
Qed.

(** ** No deadlock *)

(** The thread has not ended and could not continue in any state: it has
    walked along a list further than the list was long when it started. *)
Definition exhausted {A} (m : prog D A) : Prop := ended m = false /\ forall s, next m s = Stuck.

Definition moves (ts : list (prog D ())) s : Prop := exists c, pool_step (ts, s) c.
(** The next step of some thread is undefined behaviour. *)
Definition undefined (ts : list (prog D ())) s : Prop :=
  exists i m, ts !! i = Some m /\ next m s = Undef.

(** A thread that cannot move waits for a lock or a load another one holds or
    works at, and that one is further along in the lock order. *)
Lemma blocked (m : prog D ()) g gs s :
  ordered m g (fun _ g' => g' = idle) -> ended m = false -> next m s = Stuck -> agree gs s ->
  exhausted m \/
  (exists x j gj, gs !! j = Some gj /\ is_Some (g_held gj !! x) /\ (g = idle \/ above x g)) \/
  (g = idle /\ exists l j gj, gs !! j = Some gj /\ l ∈ g_load gj).
Proof.
  destruct m as [[]|X f k]; [done|]. cbn. intros (r & g' & [Ha Hl Hlo _ _ Hb] & Hk) _ Hn [A1 A2].
  assert (f s = Stuck) as Hf by (destruct (f s) as [[x s1]| |]; done). clear Hn.
  assert (forall x, is_Some (cs_held s !! x) -> exists j gj, gs !! j = Some gj /\ is_Some (g_held gj !! x))
    as Hown.
  { intros x [n Hx]. destruct (A1 x) as [W R]. rewrite Hx in W, R.
    assert (0 < sum_of (writers x) gs \/ 0 < sum_of (readers x) gs)%nat as [Hp|Hp]
      by (destruct n; lia); destruct (sum_of_positive _ _ Hp) as (j & gj & Hj & Hpos);
      exists j, gj; (split; [done|]); unfold writers, readers in Hpos;
      destruct (g_held gj !! x); [done|lia|done|lia]. }
  destruct (Hb s Hf) as [[Hna Hne]|[(l & -> & Hld)|[-> Hall]]].
  - right. left. destruct r as [|x|x|x|l|]; cbn in Ha, Hna; try done.
    + destruct (Hown x) as (j & gj & Hj & Hx); [by apply not_eq_None_Some|]. eauto 8.
    + destruct (Hown x) as (j & gj & Hj & Hx).
      { destruct (cs_held s !! x); [done|]. by destruct Hna. }
      eauto 8.
    + destruct (Hown (LEntry l)) as (j & gj & Hj & Hx); [by apply not_eq_None_Some|]. eauto 8.
  - right. right. split; [apply Ha|]. destruct (A2 l Hld) as (j & gj & Hj & Hin). eauto.
  - left. split; [done|]. intros s'. cbn. by rewrite Hall.
Qed.

(** How far a thread is: nothing in hand, a load, locks. *)
Definition level (g : ghost) : nat :=
  if decide (g_held g = ∅) then if decide (g_load g = ∅) then 0%nat else 1%nat
  else (2 + max_list (rank <$> (map_to_list (g_held g)).*1))%nat.

Lemma level_idle : level idle = 0%nat.
Proof. unfold level. by rewrite !decide_True. Qed.

Lemma rank_listed g x b :
  g_held g !! x = Some b -> rank x ∈ rank <$> (map_to_list (g_held g)).*1.
Proof.
  intros Hx. apply list_elem_of_fmap. exists x. split; [done|].
  apply list_elem_of_fmap. exists (x, b). split; [done|]. by apply elem_of_map_to_list.
Qed.

Lemma level_holds g x : is_Some (g_held g !! x) -> (2 + rank x <= level g)%nat.
Proof.
  intros [b Hx]. unfold level. rewrite decide_False by (intros E; by rewrite E, lookup_empty in Hx).
  pose proof (max_list_elem_of_le _ _ (rank_listed g x b Hx)). lia.
Qed.

Lemma level_above g x : g = idle \/ above x g -> (level g < 2 + rank x)%nat.
Proof.
  intros [->|Ha]; [rewrite level_idle; lia|]. unfold level. case_decide as E; [case_decide; lia|].
  assert (forall n, n ∈ rank <$> (map_to_list (g_held g)).*1 -> n < rank x)%nat as Hall.
  { intros n (y & -> & Hy)%list_elem_of_fmap. apply list_elem_of_fmap in Hy as ([y' b] & -> & Hy).
    apply elem_of_map_to_list in Hy. by apply (Ha y' b). }
  assert (0 < rank x)%nat as Hpos.
  { apply map_choose in E as (y & b & Hy). specialize (Ha y b Hy). lia. }
  clear E Ha. induction (rank <$> (map_to_list (g_held g)).*1) as [|n ns IH]; cbn; [lia|].
  assert (n < rank x)%nat by (apply Hall; left). assert (2 + max_list ns < 2 + rank x)%nat; [|lia].
  apply IH. intros k Hk. apply Hall. by right.
Qed.

Lemma level_bound g : (level g <= 4)%nat.
Proof.
  unfold level. case_decide; [case_decide; lia|].
  assert (max_list (rank <$> (map_to_list (g_held g)).*1) <= 2)%nat; [|lia].
  induction (map_to_list (g_held g)).*1 as [|[|?|?] ns IH]; cbn in *; lia.
Qed.

Lemma progress ts s gs :
  pool_inv ts s gs ->
  (Forall (fun m => ended m = true) ts /\ cs_held s = ∅ /\ forall l, ~ loading s l) \/
  moves ts s \/ undefined ts s \/ exists i m, ts !! i = Some m /\ exhausted m.
Proof.
  intros [Ht Hag]. destruct (decide (Forall (fun m => ended m = true) ts)) as [Hall|Hsome].
  { left. split; [done|].
    assert (forall i g, gs !! i = Some g -> g = idle) as Hidle.
    { intros i g Hg. destruct (Forall2_lookup_r _ _ _ _ _ Ht Hg) as (m & Hm & Ho).
      pose proof (Forall_lookup_1 _ _ _ _ Hall Hm). by destruct m. }
    assert (forall f, f idle = 0%nat -> sum_of f gs = 0%nat) as Hzero.
    { intros f Hf. destruct (decide (0 < sum_of f gs)%nat) as [Hp|]; [|lia].
      destruct (sum_of_positive _ _ Hp) as (i & g & Hi & Hg). rewrite (Hidle i g Hi) in Hg. lia. }
    destruct Hag as [A1 A2]. split.
    - apply map_empty. intros x. destruct (A1 x) as [W R]. rewrite Hzero in W, R by done.
      by destruct (cs_held s !! x) as [[|n]|].
    - intros l Hl. destruct (A2 l Hl) as (i & g & Hi & Hin). rewrite (Hidle i g Hi) in Hin. set_solver. }
  right. apply not_Forall_Exists in Hsome; [|apply _].
  apply Exists_exists in Hsome as (m & Hin & Hend). apply list_elem_of_lookup in Hin as [i Hi].
  destruct (Forall2_lookup_l _ _ _ _ _ Ht Hi) as (g & Hg & Ho).
  remember (5 - level g)%nat as n eqn:En. revert i m g Hi Hg Ho Hend En.
  induction n as [n IH] using lt_wf_ind. intros i m g Hi Hg Ho Hend En.
  destruct (next m s) as [[m' s']| |] eqn:Hn.
  - left. exists (<[i := m']> ts, s'). by econstructor.
  - right. left. by exists i, m.
  - assert (forall j gj, gs !! j = Some gj -> (level g < level gj)%nat ->
      moves ts s \/ undefined ts s \/ exists i m, ts !! i = Some m /\ exhausted m) as Hup.
    { intros j gj Hj Hlt. destruct (Forall2_lookup_r _ _ _ _ _ Ht Hj) as (mj & Hmj & Hoj).
      apply (IH (5 - level gj)%nat) with j mj gj; try done.
      - pose proof (level_bound gj). lia.
      - intros He. destruct mj; [|done]. cbn in Hoj. subst gj. rewrite level_idle in Hlt. lia. }
    destruct (blocked m g gs s Ho) as [Hex|[(x & j & gj & Hj & Hx & Hab)|(-> & l & j & gj & Hj & Hl)]]; [by apply not_true_is_false|done..| | |].
    + right. right. eauto.
    + apply (Hup j gj Hj). pose proof (level_holds gj x Hx). pose proof (level_above g x Hab). lia.
    + apply (Hup j gj Hj). rewrite level_idle. unfold level. case_decide; [|lia].
      rewrite decide_False by set_solver. lia.
Qed.
End device.
Arguments pool_step {D}.
