(* ===== verification/CacheDiscipline.v ===== *)
(** * Every operation of the cache follows the discipline

    One rule per step of the programs of [Cache]: what it does to the locks a
    thread holds, the loads it has begun and the entries it keeps to itself,
    and which lock the memory it changes needs.  [walk] applies them along a
    program. *)
From S2P Require Import Prelude Types CacheTypes CacheState Cache CacheWf CacheSystem CacheThreads.

Section device.
Context {D : Type}.
Implicit Types (l : loc) (H : gmap lock_name bool) (L O : gset loc) (g : ghost) (s : cstate D).

(** ** Steps beside the shared structure *)

(** Entries, links and cache structure are as before, and nothing was
    allocated. *)
Record shared_same s s' : Prop := {
  ss_entries : cs_entries s' = cs_entries s;
  ss_list : cs_list s' = cs_list s;
  ss_hash : cs_hash s' = cs_hash s;
  ss_cache : cs_cache s' = cs_cache s;
  ss_next : env_next (cs_env s') = env_next (cs_env s)
}.

Lemma shared_loading s s' l : shared_same s s' -> loading s' l -> loading s l.
Proof. intros [He _ _ _ _] (e & Hl & Hld). exists e. by rewrite <-He. Qed.

Lemma pointers_hidden s s' l :
  cs_list s' = cs_list s -> cs_hash s' = cs_hash s -> cs_cache s' = cs_cache s -> hidden s l -> hidden s' l.
Proof. intros Hl Hh Hc [? ? ?]. split; by rewrite ?Hl, ?Hh, ?Hc. Qed.

(** No new addresses: the state stays sane. *)
Lemma sane_dom s s' :
  (forall l, is_Some (cs_entries s' !! l) -> is_Some (cs_entries s !! l)) ->
  (forall l, is_Some (cs_list s' !! l) -> is_Some (cs_list s !! l)) ->
  (env_next (cs_env s) <= env_next (cs_env s'))%positive -> sane s -> sane s'.
Proof.
  intros He Hl Hn Hs l Hl'. eapply Pos.lt_le_trans; [apply Hs|exact Hn].
  destruct Hl' as [?|?]; [left; by apply He|right; by apply Hl].
Qed.
Lemma shared_sane s s' : shared_same s s' -> sane s -> sane s'.
Proof. intros [He Hl _ _ Hn]. by apply sane_dom; rewrite ?He, ?Hl, ?Hn. Qed.
Lemma insert_dom {A} (m : gmap loc A) l a b x :
  m !! l = Some a -> is_Some (<[l := b]> m !! x) -> is_Some (m !! x).
Proof. intros Hl [c [[-> _]|[_ Hx]]%lookup_insert_Some]; by eexists. Qed.

Lemma shared_protected g s s' : shared_same s s' -> protected g s s'.
Proof.
  intros [He Hl Hh Hc _]. split.
  - intros l e e'. rewrite He. intros -> [= ->] _. split_and!; [by left|done..].
  - intros l k k'. rewrite Hl. intros -> [= ->] _. by left.
  - intros c c'. rewrite Hc. intros -> [= ->]. by left.
  - intros c c' n. rewrite Hc. intros -> [= ->]. by left.
Qed.

Lemma shared_owns g g' s s' : shared_same s s' -> g_own g' ⊆ g_own g -> owns g g' s s'.
Proof.
  intros [He Hl Hh Hc Hn] Ho. split; [by rewrite Hn|]. split; [rewrite He; by left|]. intros l Hin. split; [|left; by apply Ho].
  by apply pointers_hidden.
Qed.

Lemma does_aside {X} r g (f : cstate D -> outcome (X * cstate D)) (g' : X -> ghost) :
  admissible r g -> (forall x, g_load (g' x) = g_load g) -> (forall x, g_own (g' x) ⊆ g_own g) ->
  (forall s x s', f s = Returns (x, s') -> shared_same s s' /\ available r (cs_held s) /\
     cs_held s' = held_after r (cs_held s) /\ g_held (g' x) = ghost_after r g) ->
  (forall s, f s = Stuck -> ~ available r (cs_held s) /\ r ≠ Exhausted \/
     (exists l, r = Await l /\ loading s l) \/ (r = Exhausted /\ forall s', f s' = Stuck)) ->
  does r g f g'.
Proof.
  intros Ha Hld Ho Hf Hb. split; [done|..|done].
  - intros s x s' E. by destruct (Hf s x s' E) as (_ & ? & ? & ?).
  - intros s x s' l E Hl. destruct (Hf s x s' E) as (Hs & _). rewrite Hld.
    destruct (decide (l ∈ g_load g)); [by left|right]. split; [by eapply shared_loading|done].
  - intros s x s' E Hs. destruct (Hf s x s' E) as [Hsh _].
    split; [by eapply shared_sane|by apply shared_protected].
  - intros s x s' E. apply shared_owns; [apply (Hf s x s' E)|apply Ho].
Qed.

Lemma keeps_aside {X} g (f : cstate D -> outcome (X * cstate D)) :
  (forall s x s', f s = Returns (x, s') -> shared_same s s' /\ cs_held s' = cs_held s) ->
  (forall s, f s ≠ Stuck) ->
  keeps (act f) g.
Proof.
  intros Hf Hs. eapply (ordered_step Access g f (fun _ => g)); [|done].
  apply does_aside; [done..| |intros s E; by destruct (Hs s)].
  intros s x s' E. by destruct (Hf s x s' E).
Qed.

Lemma keeps_reads {X} g (f : cstate D -> option X) : keeps (reads f) g.
Proof.
  apply keeps_aside; intros s; [|by destruct (f s)].
  intros x s'. destruct (f s) as [y|]; [|done]. by intros [= _ <-].
Qed.

Lemma keeps_writes_aside g (f : cstate D -> option (cstate D)) :
  (forall s s', f s = Some s' -> shared_same s s' /\ cs_held s' = cs_held s) -> keeps (writes f) g.
Proof.
  intros Hf. apply keeps_aside; intros s; [|by destruct (f s)].
  intros x s'. destruct (f s) as [y|] eqn:E; [|done]. intros [= _ <-]. by apply Hf.
Qed.

(** Unfolds an optional write. *)
Local Ltac written :=
  intros s s' E; cbn in E; repeat match type of E with
    | context [?o ≫= _] => destruct o eqn:?; cbn in E; [|done]
    | context [match ?o with _ => _ end] => destruct o eqn:?; [|done]
    end;
  injection E as <-.

Lemma keeps_pins_add l n g : keeps (pins_add (D := D) l n) g.
Proof. apply keeps_writes_aside. written. done. Qed.
Lemma keeps_free_buffer p g : keeps (free_buffer (D := D) p) g.
Proof. apply keeps_writes_aside. written. done. Qed.
Lemma keeps_destroy_lock l g : keeps (destroy_entry_lock (D := D) l) g.
Proof. apply keeps_writes_aside. intros s s' E. destruct (cs_held s !! LEntry l); by inversion E. Qed.
Lemma keeps_store p bytes g : keeps (client_store (D := D) p bytes) g.
Proof. apply keeps_writes_aside. written. done. Qed.
Lemma keeps_elapse a b c g : keeps (elapse (D := D) a b c) g.
Proof. apply keeps_writes_aside. written. done. Qed.

Lemma keeps_call_read f id p n g : keeps (call_read (D := D) f id p n) g.
Proof.
  apply keeps_aside; intros s; destruct (cs_cache s), p as [p|]; try done;
    destruct (cs_bufs s !! p) as [buf|]; try done; destruct (_ <? _); try done;
    destruct (f _ _ _ _) as [[r bytes] d]; [|done].
  by intros x s' [= _ <-].
Qed.
Lemma keeps_call_write f id p n g : keeps (call_write (D := D) f id p n) g.
Proof.
  apply keeps_aside; intros s; destruct (cs_cache s), p as [p|]; try done;
    destruct (cs_bufs s !! p) as [buf|]; try done; destruct (_ <? _); try done;
    destruct (f _ _ _ _) as [r d]; [|done].
  by intros x s' [= _ <-].
Qed.

(** ** Changes of the shared structure *)

(** A write that keeps no entry to itself and does not allocate. *)
Lemma keeps_shared g (f : cstate D -> option (cstate D)) :
  g_own g = ∅ ->
  (forall s s', f s = Some s' -> cs_held s' = cs_held s /\ env_next (cs_env s') = env_next (cs_env s) /\
    cs_entries s' = cs_entries s /\
    (forall l, is_Some (cs_list s' !! l) -> is_Some (cs_list s !! l)) /\ protected g s s') ->
  keeps (writes f) g.
Proof.
  intros Ho Hf. eapply (ordered_step Access g _ (fun _ => g)); [|done]. split; [done|..]; intros s.
  - intros x s'. destruct (f s) as [y|] eqn:E; [|done]. intros [= _ <-]. by destruct (Hf s y E) as [-> _].
  - intros x s' l. destruct (f s) as [y|] eqn:E; [|done]. intros [= _ <-] (e & Hl & Hld).
    destruct (Hf s y E) as (_ & _ & He & _). destruct (decide (l ∈ g_load g)); [by left|right].
    split; [|done]. exists e. by rewrite <-He.
  - intros x s'. destruct (f s) as [y|] eqn:E; [|done]. intros [= _ <-] Hs. destruct (Hf s y E) as (_ & Hn & He & Hd & Hp).
    split; [eapply sane_dom; [by rewrite He|exact Hd|by rewrite Hn|exact Hs]|apply Hp].
  - intros x s'. destruct (f s) as [y|] eqn:E; [|done]. intros [= _ <-].
    destruct (Hf s y E) as (_ & Hn & He & _). split; [by rewrite Hn|]. split; [rewrite He; by left|].
    rewrite Ho. set_solver.
  - by destruct (f s).
Qed.

(** Nothing but the cache structure changes. *)
Lemma keeps_modify_cache h g :
  g_own g = ∅ -> (forall c, c_heads (h c) = c_heads c) ->
  g_held g !! LCache = Some true \/ (forall c, guarded (h c) = guarded c) ->
  keeps (modify_cache (D := D) h) g.
Proof.
  intros Ho Hh Hg. apply keeps_shared; [done|]. written. split_and!; [done..|by intros|]. split; cbn.
  - intros l e e' -> [= ->] _. split_and!; [by left|done..].
  - intros l k1 k' -> [= ->] _. by left.
  - intros c c' E [= <-]. destruct Hg as [Hg|Hg]; [by right|left]. rewrite Hg. congruence.
  - intros c c' n E [= <-]. left. rewrite Hh. congruence.
Qed.
Lemma keeps_modify_stats h g :
  g_own g = ∅ -> g_held g !! LCache = Some true -> keeps (modify_stats (D := D) h) g.
Proof. intros Ho Hg. apply keeps_modify_cache; [done|done|by left]. Qed.

Lemma keeps_set_head i p g :
  g_own g = ∅ -> 0 <= i -> g_held g !! LBucket i = Some true -> keeps (set_head (D := D) i p) g.
Proof.
  intros Ho Hi Hg. apply keeps_shared; [done|]. written. split_and!; [done..|by intros|]. split; cbn.
  - intros l e e' -> [= ->] _. split_and!; [by left|done..].
  - intros l k1 k' -> [= ->] _. by left.
  - intros c c' E [= <-]. left. assert (k = c) as <- by congruence. done.
  - intros c c' n E [= <-]. assert (k = c) as <- by congruence. cbn.
    destruct (decide (n = Z.to_nat i)) as [->|Hne]; [right; by exists i|left]. by rewrite list_lookup_insert_ne.
Qed.

(** LRU links: under the cache lock, or of an entry nobody else knows. *)
Lemma protected_links g s l k0 k :
  cs_list s !! l = Some k0 -> k = k0 \/ g_held g !! LCache = Some true \/ l ∈ g_own g ->
  protected g s (set_list (<[l := k]> (cs_list s)) s).
Proof.
  intros Hk Hl. split; cbn.
  - intros y e e' -> [= ->] _. split_and!; [by left|done..].
  - intros y k1 k' Hy Hy' Hno. destruct (decide (y = l)) as [->|Hne].
    + rewrite lookup_insert_eq in Hy'. destruct Hl as [->|[Hl|Hl]]; [left; congruence|by right|done].
    + rewrite lookup_insert_ne in Hy' by done. left. congruence.
  - intros c c' -> [= ->]. by left.
  - intros c c' n -> [= ->]. by left.
Qed.
Lemma keeps_set_list_next l p g :
  g_own g = ∅ -> g_held g !! LCache = Some true -> keeps (set_list_next (D := D) l p) g.
Proof. intros Ho Hg. apply keeps_shared; [done|]. written. split_and!; [done..|by intros ?; eapply insert_dom|]. eapply protected_links; eauto. Qed.
Lemma keeps_set_list_prev l p g :
  g_own g = ∅ -> g_held g !! LCache = Some true -> keeps (set_list_prev (D := D) l p) g.
Proof. intros Ho Hg. apply keeps_shared; [done|]. written. split_and!; [done..|by intros ?; eapply insert_dom|]. eapply protected_links; eauto. Qed.

Lemma protected_hash g s m : protected g s (set_hash m s).
Proof.
  split; cbn.
  - intros y e e' -> [= ->] _. split_and!; [by left|done..].
  - intros y k k' -> [= ->] _. by left.
  - intros c c' -> [= ->]. by left.
  - intros c c' n -> [= ->]. by left.
Qed.
Lemma keeps_set_hash_next l p g : g_own g = ∅ -> keeps (set_hash_next (D := D) l p) g.
Proof. intros Ho. apply keeps_shared; [done|]. written. split_and!; [done..|by intros|]. apply protected_hash. Qed.
Lemma keeps_set_hash_prev l p g : g_own g = ∅ -> keeps (set_hash_prev (D := D) l p) g.
Proof. intros Ho. apply keeps_shared; [done|]. written. split_and!; [done..|by intros|]. apply protected_hash. Qed.

(** A thread clears the links of an entry it keeps to itself. *)
Lemma keeps_own_links g (f : cstate D -> option (cstate D)) :
  (forall s s', f s = Some s' -> cs_held s' = cs_held s /\ env_next (cs_env s') = env_next (cs_env s) /\
    cs_entries s' = cs_entries s /\
    (forall l, is_Some (cs_list s' !! l) -> is_Some (cs_list s !! l)) /\ protected g s s' /\
    forall l, hidden s l -> hidden s' l) ->
  keeps (writes f) g.
Proof.
  intros Hf. eapply (ordered_step Access g _ (fun _ => g)); [|done]. split; [done|..]; intros s.
  - intros x s'. destruct (f s) as [y|] eqn:E; [|done]. intros [= _ <-]. by destruct (Hf s y E) as [-> _].
  - intros x s' l. destruct (f s) as [y|] eqn:E; [|done]. intros [= _ <-] (e & Hl & Hld).
    destruct (Hf s y E) as (_ & _ & He & _). destruct (decide (l ∈ g_load g)); [by left|right].
    split; [|done]. exists e. by rewrite <-He.
  - intros x s'. destruct (f s) as [y|] eqn:E; [|done]. intros [= _ <-] Hs. destruct (Hf s y E) as (_ & Hn & He & Hd & Hp).
    split; [eapply sane_dom; [by rewrite He|exact Hd|by rewrite Hn|exact Hs]|apply Hp].
  - intros x s'. destruct (f s) as [y|] eqn:E; [|done]. intros [= _ <-].
    destruct (Hf s y E) as (_ & Hn & He & _ & _ & Hh). split; [by rewrite Hn|].
    split; [rewrite He; by left|]. intros l Hl.
    split; [apply Hh|by left].
  - by destruct (f s).
Qed.

Lemma hidden_list s l y k k' :
  cs_list s !! y = Some k -> lk_next k' = lk_next k \/ lk_next k' = None ->
  lk_prev k' = lk_prev k \/ lk_prev k' = None -> hidden s l ->
  hidden (set_list (<[y := k']> (cs_list s)) s) l.
Proof.
  intros Hk Hn Hp [Hl Hh Hc]. split; [|done..]. intros z kz. cbn.
  intros [[-> <-]|[_ Hz]]%lookup_insert_Some; [|by apply (Hl z)].
  destruct (Hl _ _ Hk). split; [by destruct Hn as [->| ->]|by destruct Hp as [->| ->]].
Qed.
Lemma hidden_hash s l y k k' :
  cs_hash s !! y = Some k -> lk_next k' = lk_next k \/ lk_next k' = None ->
  lk_prev k' = lk_prev k \/ lk_prev k' = None -> hidden s l ->
  hidden (set_hash (<[y := k']> (cs_hash s)) s) l.
Proof.
  intros Hk Hn Hp [Hl Hh Hc]. split; [done| |done]. intros z kz. cbn.
  intros [[-> <-]|[_ Hz]]%lookup_insert_Some; [|by apply (Hh z)].
  destruct (Hh _ _ Hk). split; [by destruct Hn as [->| ->]|by destruct Hp as [->| ->]].
Qed.

Lemma keeps_own_list_next l g : l ∈ g_own g -> keeps (set_list_next (D := D) l None) g.
Proof.
  intros Hl. apply keeps_own_links. written. split_and!; [done..|by intros ?; eapply insert_dom|eapply protected_links; eauto|].
  intros y. eapply hidden_list; eauto.
Qed.
Lemma keeps_own_list_prev l g : l ∈ g_own g -> keeps (set_list_prev (D := D) l None) g.
Proof.
  intros Hl. apply keeps_own_links. written. split_and!; [done..|by intros ?; eapply insert_dom|eapply protected_links; eauto|].
  intros y. eapply hidden_list; eauto.
Qed.
Lemma keeps_own_hash_next l g : l ∈ g_own g -> keeps (set_hash_next (D := D) l None) g.
Proof.
  intros Hl. apply keeps_own_links. written. split_and!; [done..|by intros|apply protected_hash|].
  intros y. eapply hidden_hash; eauto.
Qed.
Lemma keeps_own_hash_prev l g : l ∈ g_own g -> keeps (set_hash_prev (D := D) l None) g.
Proof.
  intros Hl. apply keeps_own_links. written. split_and!; [done..|by intros|apply protected_hash|].
  intros y. eapply hidden_hash; eauto.
Qed.

(** ** Entries *)

(** What never changes in an entry others may know. *)
Definition same_parts (e e' : kes_extent_entry) : Prop :=
  e_id e' = e_id e /\ e_data e' = e_data e /\ e_data_size e' = e_data_size e.

(** A thread may change an entry under its lock, parts excepted, or while it
    keeps it to itself. *)
Definition may_change g l (f : kes_extent_entry -> kes_extent_entry) : Prop :=
  (g_held g !! LEntry l = Some true /\ forall e, same_parts e (f e)) \/ l ∈ g_own g.

Lemma does_modify_entry g g' l f :
  may_change g l f -> g_held g' = g_held g -> g_own g' = g_own g ->
  (forall e, is_loading (f e) = true -> l ∈ g_load g' \/ (is_loading e = true /\ l ∉ g_load g)) ->
  (forall y, y ≠ l -> y ∈ g_load g -> y ∈ g_load g') ->
  does Access g (fun s => match
      (e ← cs_entries s !! l; Some (set_entries (<[l := f e]> (cs_entries s)) s)) with
      Some s' => Returns (tt, s') | None => Undef end) (fun _ => g').
Proof.
  intros Hm Hh Ho Hf Hk. split; [done|..]; intros s; destruct (cs_entries s !! l) as [e|] eqn:He;
    try done; cbn.
  - by intros x s' [= _ <-].
  - intros x s' y [= _ <-] (e' & Hy & Hld). cbn in Hy. destruct (decide (y = l)) as [->|Hne].
    + rewrite lookup_insert_eq in Hy. injection Hy as <-. destruct (Hf e Hld) as [?|[? ?]]; [by left|right].
      split; [by exists e|done].
    + rewrite lookup_insert_ne in Hy by done. destruct (decide (y ∈ g_load g)); [left; by apply Hk|right].
      split; [by exists e'|done].
  - intros x s' [= _ <-] Hs. split.
    { eapply sane_dom; [intros y; by apply insert_dom with (1 := He)|done|done|exact Hs]. }
    split; cbn.
    + intros y e1 e2 Hy Hy' Hno. destruct (decide (y = l)) as [->|Hne].
      * rewrite lookup_insert_eq in Hy'. assert (e1 = e) as -> by congruence. injection Hy' as <-.
        destruct Hm as [[Hm Hp]|Hm]; [|done]. split; [by right|apply Hp].
      * rewrite lookup_insert_ne in Hy' by done. assert (e2 = e1) as -> by congruence.
        split_and!; [by left|done..].
    + intros y k k' -> [= ->] _. by left.
    + intros c c' -> [= ->]. by left.
    + intros c c' n -> [= ->]. by left.
  - intros x s' [= _ <-]. split; [done|].
    split; [intros y Hy; left; revert Hy; by apply insert_dom with (1 := He)|].
    intros y Hy. rewrite Ho in Hy. split; [|by left].
    by apply pointers_hidden.
Qed.

Lemma keeps_modify_entry l f g :
  (forall e, is_loading (f e) = true -> is_loading e = true) -> may_change g l f ->
  keeps (modify_entry (D := D) l f) g.
Proof.
  intros Hf Hm. eapply ordered_step; [apply (does_modify_entry g g); try done|done].
  intros e He. destruct (decide (l ∈ g_load g)); [by left|right]. split; [by apply Hf|done].
Qed.

(** The entry becomes LOADING: from here on the thread has to finish it. *)
Lemma ordered_begin_load l f H L O :
  may_change (G H L O) l f ->
  ordered (modify_entry (D := D) l f) (G H L O) (fun _ g => g = G H ({[l]} ∪ L) O).
Proof.
  intros Hm. eapply ordered_step; [apply (does_modify_entry _ (G H ({[l]} ∪ L) O)); try done|done].
  - intros e _. left. cbn. set_solver.
  - cbn. set_solver.
Qed.
Lemma ordered_end_load l f H O :
  may_change (G H {[l]} O) l f -> (forall e, is_loading (f e) = false) ->
  ordered (modify_entry (D := D) l f) (G H {[l]} O) (fun _ g => g = G H ∅ O).
Proof.
  intros Hm Hf. eapply ordered_step; [apply (does_modify_entry _ (G H ∅ O)); try done|done].
  - intros e He. by rewrite Hf in He.
  - cbn. set_solver.
Qed.

(** ** Allocation *)

Lemma protected_grow g s s' :
  (forall l e e', cs_entries s !! l = Some e -> cs_entries s' !! l = Some e' -> e' = e) ->
  (forall l k k', cs_list s !! l = Some k -> cs_list s' !! l = Some k' -> k' = k) ->
  cs_cache s' = cs_cache s -> protected g s s'.
Proof.
  intros He Hl Hc. split.
  - intros l e e' H1 H2 _. rewrite (He l e e' H1 H2). split_and!; [by left|done..].
  - intros l k k' H1 H2 _. left. by apply (Hl l).
  - intros c c'. rewrite Hc. intros -> [= ->]. by left.
  - intros c c' n. rewrite Hc. intros -> [= ->]. by left.
Qed.

(** The state after [calloc] returned the next address. *)
Definition with_new_entry s (v : env) : cstate D :=
  mkState (cs_cache s) (<[env_next (cs_env s) := zero_entry]> (cs_entries s))
    (<[env_next (cs_env s) := no_links]> (cs_list s)) (<[env_next (cs_env s) := no_links]> (cs_hash s))
    (<[env_next (cs_env s) := 0]> (cs_pins s)) (cs_bufs s) (cs_held s) (cs_threads s) (bump v) (cs_dev s).

Lemma fresh_entry_protected g s v :
  env_next v = env_next (cs_env s) -> sane s ->
  sane (with_new_entry s v) /\ protected g s (with_new_entry s v).
Proof.
  intros Hv Hs. split.
  - intros l Hl. cbn. rewrite Hv. assert (l = env_next (cs_env s) \/ (l < env_next (cs_env s))%positive)
      as [->|Hlt]; [|lia|lia].
    destruct (decide (l = env_next (cs_env s))) as [->|Hne]; [by left|right]. apply Hs. cbn in Hl.
    by rewrite !lookup_insert_ne in Hl by done.
  - assert (forall l, is_Some (cs_entries s !! l) \/ is_Some (cs_list s !! l) -> env_next (cs_env s) ≠ l) as Hne.
    { intros l Hl%Hs. lia. }
    apply protected_grow; [..|done]; intros l a b Ha Hb; cbn in Hb.
    + rewrite lookup_insert_ne in Hb by (apply Hne; left; by eexists). congruence.
    + rewrite lookup_insert_ne in Hb by (apply Hne; right; by eexists). congruence.
Qed.

Lemma fresh_entry_owned H L O s v :
  env_next v = env_next (cs_env s) ->
  owns (G H L O) (G H L ({[env_next (cs_env s)]} ∪ O)) s (with_new_entry s v).
Proof.
  intros Hv. split; [cbn; lia|]. split.
  { intros l Hl. cbn in Hl. apply lookup_insert_is_Some' in Hl as [<-|Hl]; [right; cbn; lia|by left]. }
  intros l Hl. split.
  - intros [Hli Hha Hca]. split; [..|done]; intros y k; cbn.
    + intros [[_ <-]|[_ Hy]]%lookup_insert_Some; [done|by apply (Hli y)].
    + intros [[_ <-]|[_ Hy]]%lookup_insert_Some; [done|by apply (Hha y)].
  - cbn in Hl. apply elem_of_union in Hl as [->%elem_of_singleton|Hl]; [right; cbn; lia|by left].
Qed.

(** A new entry belongs to the thread that allocated it. *)
Lemma ordered_calloc_entry H L O :
  ordered (calloc_entry (D := D)) (G H L O)
    (fun r g => g = G H L (match r with Some l => {[l]} ∪ O | None => O end)).
Proof.
  eapply (ordered_step Access _ _ (fun r => G H L (match r with Some l => {[l]} ∪ O | None => O end)));
    [|done].
  split; [done|..]; intros s; unfold next_failure;
    destruct (env_script (cs_env s)) as [|[] bs]; try done.
  all: try (by intros x s' [= <- <-]).
  - intros x s' l [= <- <-] (e & Hl & Hld). destruct (decide (l ∈ L)); [by left|right]. split; [|done].
    cbn in Hl. apply lookup_insert_Some in Hl as [[_ <-]|[_ Hl]]; [done|by exists e].
  - intros x s' l [= <- <-] Hl. destruct (decide (l ∈ L)); [by left|by right].
  - intros x s' l [= <- <-] (e & Hl & Hld). destruct (decide (l ∈ L)); [by left|right]. split; [|done].
    cbn in Hl. apply lookup_insert_Some in Hl as [[_ <-]|[_ Hl]]; [done|by exists e].
  - intros x s' [= <- <-] Hs. by apply fresh_entry_protected.
  - intros x s' [= <- <-] Hs. split; [exact Hs|]. by apply shared_protected.
  - intros x s' [= <- <-] Hs. by apply fresh_entry_protected.
  - intros x s' [= <- <-]. by apply fresh_entry_owned.
  - intros x s' [= <- <-]. by apply shared_owns.
  - intros x s' [= <- <-]. by apply fresh_entry_owned.
Qed.

Lemma keeps_alloc_buffer n g : keeps (alloc_buffer (D := D) n) g.
Proof.
  eapply (ordered_step Access g _ (fun _ => g)); [|done].
  split; [done|..]; intros s; unfold next_failure; destruct (env_script (cs_env s)) as [|[] bs]; try done.
  all: try (by intros x s' [= <- <-]).
  1-3: intros x s' l [= <- <-] (e & Hl & Hld); destruct (decide (l ∈ g_load g)); [by left|right];
    split; [by exists e|done].
  1-3: intros x s' [= <- <-] Hs; split;
    [apply (sane_dom s); [done|done|cbn; lia|exact Hs]|apply protected_grow; cbn; congruence].
  1-3: intros x s' [= <- <-]; split; [cbn; lia|]; split; [by left|]; intros l Hl; split;
    [by apply pointers_hidden|by left].
Qed.

(** Freeing an entry: it is no longer loaded, nor kept. *)
Lemma ordered_free_entry l H L L' O O' :
  O' ⊆ O -> (forall y, y ≠ l -> y ∈ L -> y ∈ L') ->
  ordered (free_entry (D := D) l) (G H L O) (fun _ g => g = G H L' O').
Proof.
  intros HO HL. eapply (ordered_step Access _ _ (fun _ => G H L' O')); [|done].
  split; [done|..]; intros s; cbn; destruct (cs_entries s !! l) as [e|] eqn:He; try done; cbn.
  - by intros x s' [= _ <-].
  - intros x s' y [= _ <-] (e' & Hy & Hld). cbn in Hy. apply lookup_delete_Some in Hy as [Hne Hy].
    destruct (decide (y ∈ L)); [left; by apply HL|right]. split; [by exists e'|done].
  - intros x s' [= _ <-] Hs. split.
    + eapply sane_dom; [..|exact Hs]; [| |done]; intros y [z Hz]; cbn in Hz;
        apply lookup_delete_Some in Hz as [_ Hz]; by eexists.
    + apply protected_grow; [..|done]; intros y a b Ha Hb; cbn in Hb;
        apply lookup_delete_Some in Hb as [_ Hb]; congruence.
  - intros x s' [= _ <-]. split; [done|].
    split; [intros y [z Hz]; left; cbn in Hz; apply lookup_delete_Some in Hz as [_ Hz]; by eexists|].
    intros y Hy. split; [|left; by apply HO].
    intros [Hli Hha Hca]. split; [..|done]; intros z k; cbn; intros [_ Hz]%lookup_delete_Some;
      [by apply (Hli z)|by apply (Hha z)].
Qed.

(** ** Locks, waiting, and the end of the fuel *)

Lemma ordered_lock_own O' x H L O :
  O' ⊆ O -> above x (G H L O) ->
  ordered (lock (D := D) x) (G H L O) (fun _ g => g = G (<[x := true]> H) L O').
Proof.
  intros HO Ha. eapply (ordered_step (Take x) _ _ (fun _ => G (<[x := true]> H) L O')); [|done].
  apply does_aside; [done..| |]; intros s.
  - intros a s'. case_decide; [|done]. destruct (cs_held s !! x) eqn:E; [done|]. by intros [= _ <-].
  - case_decide; [|done]. cbn. destruct (cs_held s !! x); [|done]. by left.
Qed.
Lemma ordered_lock x H L O :
  above x (G H L O) ->
  ordered (lock (D := D) x) (G H L O) (fun _ g => g = G (<[x := true]> H) L O).
Proof. by apply ordered_lock_own. Qed.

Lemma ordered_rdlock x H L O :
  above x (G H L O) ->
  ordered (rdlock (D := D) x) (G H L O) (fun _ g => g = G (<[x := false]> H) L O).
Proof.
  intros Ha. eapply (ordered_step (Share x) _ _ (fun _ => G (<[x := false]> H) L O)); [|done].
  apply does_aside; [done..| |]; intros s.
  - intros a s'. case_decide; [|done]. cbn.
    destruct (cs_held s !! x) as [[|n]|] eqn:E; [done|..]; by intros [= _ <-].
  - case_decide; [|done]. cbn. destruct (cs_held s !! x) as [[|n]|]; [|done..]. left.
    by split; [naive_solver|].
Qed.

Lemma ordered_unlock x b H L O :
  H !! x = None -> ordered (unlock (D := D) x) (G (<[x := b]> H) L O) (fun _ g => g = G H L O).
Proof.
  intros Hx. eapply (ordered_step (Release x) _ _ (fun _ => G H L O)); [|done].
  apply does_aside; [cbn; rewrite lookup_insert_eq; by eexists|done..| |]; intros s.
  - cbn. rewrite delete_insert_id by done. intros a s'. case_decide; [|done].
    destruct (cs_held s !! x) as [[|[|n]]|] eqn:E; [..|done]; by intros [= _ <-].
  - case_decide; [|done]. by destruct (cs_held s !! x) as [[|[|n]]|].
Qed.

Lemma ordered_wait l :
  ordered (cond_wait_loaded (D := D) l) (G (<[LEntry l := true]> ∅) ∅ ∅)
    (fun _ g => g = G (<[LEntry l := true]> ∅) ∅ ∅).
Proof.
  eapply ordered_bind; [by apply ordered_unlock|]. intros _ ? ->.
  eapply (ordered_step (Await l) _ _ (fun _ => G (<[LEntry l := true]> ∅) ∅ ∅)); [|done].
  apply does_aside; [done..| |]; intros s; cbn.
  - intros a s'. destruct (cs_entries s !! l) as [e|]; [|done].
    destruct (cs_held s !! LEntry l); [done|]. destruct (has_flag _ _); [done|]. by intros [= _ <-].
  - destruct (cs_entries s !! l) as [e|] eqn:He; [|done].
    destruct (cs_held s !! LEntry l); [by left|]. destruct (has_flag _ _) eqn:Hf; [|done].
    intros _. right. left. exists l. split; [done|]. by exists e.
Qed.

Lemma ordered_fuel {A} g (Q : A -> ghost -> Prop) : (forall a, Q a g) -> ordered (out_of_fuel (D := D)) g Q.
Proof.
  intros HQ. apply (ordered_step Exhausted _ _ (fun _ => g)); [|done].
  apply does_aside; [done..|]. intros s _. right. by right.
Qed.
End device.

(** ** Automation *)

Create HintDb discipline.
#[export] Hint Resolve keeps_reads keeps_modify_cache keeps_modify_stats keeps_set_list_next
  keeps_set_list_prev keeps_set_hash_next keeps_set_hash_prev keeps_set_head keeps_pins_add
  keeps_free_buffer keeps_destroy_lock keeps_store keeps_elapse keeps_alloc_buffer keeps_call_read
  keeps_call_write : discipline.
#[export] Hint Extern 1 (keeps (free_entry _) (G _ ∅ ∅)) => by apply ordered_free_entry : discipline.

(** The side conditions of the rules, on the few locks of a thread. *)
Ltac in_order :=
  intros ? ?; cbn [g_held]; rewrite ?lookup_insert_Some, ?lookup_empty; intros;
  repeat match goal with
    | H : _ \/ _ |- _ => destruct H
    | H : _ /\ _ |- _ => destruct H
    end; subst; first [done | cbn; lia].
Ltac not_held := repeat (rewrite lookup_insert_ne by done); apply lookup_empty.
Ltac has_lock := cbn [g_held]; repeat (rewrite lookup_insert_ne by done); apply lookup_insert_eq.
#[export] Hint Extern 1 (_ !! _ = Some true) => has_lock : discipline.
#[export] Hint Extern 1 (g_own _ = ∅) => reflexivity : discipline.
#[export] Hint Extern 2 (_ \/ _) => first [left; assumption | left; has_lock | right; reflexivity] : discipline.

(** Walks through a program: branches, accesses, locks, and the operations
    [discipline] knows. *)
Ltac stroll m :=
  lazymatch m with
  | lock _ => apply ordered_lock; in_order
  | rdlock _ => apply ordered_rdlock; in_order
  | unlock _ => apply ordered_unlock; not_held
  | cond_wait_loaded _ => apply ordered_wait
  | out_of_fuel => apply ordered_fuel; by intros
  end.
Ltac walk :=
  repeat (cbv beta;
    lazymatch goal with
    | |- keeps (out_of_fuel) _ => apply ordered_fuel; by intros
    | |- keeps _ _ => first [solve [eauto with discipline] | progress unfold keeps]
    | |- ordered (Ret _) _ _ => solve [done | cbn; auto]
    | |- ordered (pbind (Ret _) _) _ _ => cbn [pbind]
    | |- ordered (pbind (pbind _ _) _) _ _ => apply ordered_assoc
    | |- ordered (pbind ?m _) _ _ =>
        first [ eapply ordered_bind; [stroll m | intros ? ? ->]
              | eapply keeps_bind; [solve [eauto with discipline] | intros ?]
              | eapply keeps_bind; [solve [unfold keeps; walk] | intros ?] ]
    | |- ordered (match ?o with _ => _ end) _ _ => destruct o
    | |- ordered ?m _ _ =>
        first [ eapply ordered_mono; [stroll m | intros ? ? ->; done]
              | apply keeps_last; [solve [eauto with discipline] | intros ?; done]
              | progress cbn [pbind] ]
    end).
