(* ===== verification/CacheOrdered.v ===== *)
(** * The operations, one by one

    Each operation of [Cache] follows the discipline of [CacheThreads]; the
    programs of clients and of background threads start and end with empty
    hands. *)
From S2P Require Import Prelude Types CacheTypes CacheState Cache CacheWf CacheSystem CacheThreads.
From S2P Require Import CacheDiscipline.

Section device.
Context {D : Type}.
Implicit Types (l : loc) (L O : gset loc) (g : ghost).

(** The locks of one entry, held. *)
Abbreviation at_entry l := (G (<[LEntry l := true]> ∅) ∅ ∅).

(** ** Lists, hash table, memory *)

Lemma keeps_load_cache g : keeps (load_cache (D := D)) g.
Proof. apply keeps_reads. Qed.
Lemma keeps_load_entry l g : keeps (load_entry (D := D) l) g.
Proof. apply keeps_reads. Qed.
Lemma keeps_load_list l g : keeps (load_list (D := D) l) g.
Proof. apply keeps_reads. Qed.
Lemma keeps_load_hash l g : keeps (load_hash (D := D) l) g.
Proof. apply keeps_reads. Qed.
Lemma keeps_load_head i g : keeps (load_head (D := D) i) g.
Proof. apply keeps_reads. Qed.
Lemma keeps_pins_load l g : keeps (pins_load (D := D) l) g.
Proof. apply keeps_reads. Qed.
Lemma keeps_walk_fuel g : keeps (walk_fuel (D := D)) g.
Proof. apply keeps_reads. Qed.
Lemma keeps_get_timestamp g : keeps (get_timestamp (D := D)) g.
Proof. apply keeps_reads. Qed.
#[local] Hint Resolve keeps_load_cache keeps_load_entry keeps_load_list keeps_load_hash keeps_load_head
  keeps_pins_load keeps_walk_fuel keeps_get_timestamp : discipline.

Lemma keeps_lru_add_head l g :
  g_own g = ∅ -> g_held g !! LCache = Some true -> keeps (lru_add_head (D := D) l) g.
Proof. intros Ho Hc. unfold lru_add_head. walk. Qed.
Lemma keeps_lru_remove l g :
  g_own g = ∅ -> g_held g !! LCache = Some true -> keeps (lru_remove (D := D) l) g.
Proof. intros Ho Hc. unfold lru_remove. walk. Qed.
#[local] Hint Resolve keeps_lru_add_head keeps_lru_remove : discipline.
Lemma keeps_lru_touch l g :
  g_own g = ∅ -> g_held g !! LCache = Some true -> keeps (lru_touch (D := D) l) g.
Proof. intros Ho Hc. unfold lru_touch. walk. Qed.
Lemma keeps_find_in_chain id fuel p g : keeps (find_in_chain (D := D) id fuel p) g.
Proof. revert p. induction fuel as [|fuel IH]; intros [l|]; cbn [find_in_chain]; walk. Qed.
Lemma keeps_extent_free_data p n g :
  g_own g = ∅ -> g_held g !! LCache = Some true -> keeps (extent_free_data (D := D) p n) g.
Proof. intros Ho Hc. unfold extent_free_data. walk. Qed.
Lemma keeps_extent_alloc_data n g : keeps (extent_alloc_data (D := D) n) g.
Proof. apply keeps_alloc_buffer. Qed.
Lemma keeps_pin_if_some p g : keeps (pin_if_some (D := D) p) g.
Proof. unfold pin_if_some. walk. Qed.
Lemma keeps_read_entry l id g : keeps (read_entry (D := D) l id) g.
Proof. unfold read_entry. walk. Qed.
#[local] Hint Resolve keeps_lru_touch keeps_find_in_chain keeps_extent_free_data keeps_extent_alloc_data
  keeps_pin_if_some keeps_read_entry : discipline.

Lemma bucket_idx_nonneg (c : kes_cache D) id : 0 <= bucket_idx c id.
Proof.
  unfold bucket_idx. apply Z.land_nonneg. left. unfold kes_extent_hash.
  assert (forall x, 0 <= u32 x) as Hu by (intros x; apply Z.mod_pos_bound; lia).
  apply Z.lxor_nonneg. rewrite Z.shiftr_nonneg. split; intros _; apply Hu.
Qed.
#[local] Hint Resolve bucket_idx_nonneg : discipline.

Lemma keeps_hash_find id L O : keeps (hash_find (D := D) id) (G ∅ L O).
Proof. unfold hash_find. walk. Qed.
(** From the bucket lock on, the candidate is no longer the thread's own. *)
Lemma ordered_hash_find_or_insert l L O :
  ordered (hash_find_or_insert (D := D) l) (G ∅ L O) (fun _ g => g = G ∅ L ∅).
Proof.
  unfold hash_find_or_insert. do 2 (eapply keeps_bind; [apply keeps_reads|intros ?]).
  eapply ordered_bind; [by apply (ordered_lock_own ∅); [|in_order]|]. intros _ ? ->. walk.
Qed.
Lemma keeps_leave_lookup L : keeps (leave_lookup (D := D)) (G ∅ L ∅).
Proof. unfold leave_lookup. walk. Qed.
#[local] Hint Resolve keeps_hash_find keeps_leave_lookup : discipline.

(** An update that leaves the LOADING bit and the parts alone, by a thread
    that holds the entry's lock and loads nothing. *)
Local Ltac bit_kept := apply keeps_modify_entry;
  [ intros ?; repeat case_match; flags; done
  | left; split; [has_lock|intros ?; repeat case_match; done] ].
#[local] Hint Extern 1 (keeps (modify_entry _ _) (G _ ∅ ∅)) => bit_kept : discipline.

(** ** Write-back and eviction *)

Lemma keeps_flush_done l n : keeps (flush_done (D := D) l n) (at_entry l).
Proof. unfold flush_done. walk. Qed.
#[local] Hint Resolve keeps_flush_done : discipline.
Lemma keeps_write_back l : keeps (write_back (D := D) l) (at_entry l).
Proof. unfold write_back. walk. Qed.
#[local] Hint Resolve keeps_write_back : discipline.

(** An evicted entry takes its lock with it. *)
Lemma ordered_try_evict l b :
  ordered (try_evict_entry_locked (D := D) l b) (at_entry l)
    (fun evicted g => g = if (evicted : bool) then idle else at_entry l).
Proof. unfold try_evict_entry_locked. walk. Qed.

Lemma keeps_sweep_visit l : keeps (sweep_flush_and_maybe_evict (D := D) l) idle.
Proof.
  unfold sweep_flush_and_maybe_evict, idle. walk. eapply ordered_bind; [apply ordered_try_evict|].
  intros [] ? ->; walk.
Qed.

Lemma keeps_walk_list visit fuel p :
  (forall l, keeps (visit l) idle) -> keeps (walk_list (D := D) visit fuel p) idle.
Proof.
  intros Hv. unfold idle in *. revert p. induction fuel as [|fuel IH]; intros [l|]; cbn [walk_list]; walk.
Qed.

Lemma keeps_cache_sweep : keeps (cache_sweep (D := D)) idle.
Proof.
  unfold cache_sweep, idle. walk. apply keeps_last; [|done]. apply keeps_walk_list, keeps_sweep_visit.
Qed.
#[local] Hint Resolve keeps_cache_sweep : discipline.

Lemma keeps_evict_loop need fuel p fits : keeps (evict_loop (D := D) need fuel p fits) idle.
Proof.
  unfold idle. revert p fits. induction fuel as [|fuel IH]; intros [l|] fits; cbn [evict_loop]; walk.
  eapply ordered_bind; [apply ordered_try_evict|]. intros [] ? ->; walk.
Qed.
#[local] Hint Resolve keeps_evict_loop : discipline.

Lemma keeps_make_room n : keeps (make_room_for_new_entry (D := D) n) idle.
Proof. unfold make_room_for_new_entry, idle. walk. Qed.
#[local] Hint Resolve keeps_make_room : discipline.

(** ** Lookup *)

Lemma keeps_wait_loaded l : keeps (wait_loaded (D := D) l) (at_entry l).
Proof. unfold wait_loaded. walk. Qed.
#[local] Hint Resolve keeps_wait_loaded : discipline.

Lemma ordered_retry_load l id :
  ordered (retry_load (D := D) l id) (at_entry l) (fun _ g => g = at_entry l).
Proof.
  assert (forall L f, (forall e, same_parts e (f e)) -> may_change (G (<[LEntry l := true]> ∅) L ∅) l f)
    as Hm by (intros L f Hf; left; split; [has_lock|done]).
  unfold retry_load. eapply ordered_bind; [by apply ordered_begin_load, Hm|]. intros _ ? ->.
  rewrite union_empty_r_L. walk.
  eapply ordered_bind; [apply ordered_end_load; [by apply Hm|intros ?; by case_match]|].
  intros _ ? ->. walk.
Qed.

Lemma keeps_attach_entry l id : keeps (attach_entry (D := D) l id) idle.
Proof.
  unfold attach_entry, idle. walk. eapply keeps_bind.
  { case_match; [apply ordered_retry_load|done]. }
  intros _. walk.
Qed.
#[local] Hint Resolve keeps_attach_entry : discipline.

Lemma keeps_init_entry l id g : l ∈ g_own g -> keeps (init_extent_entry (D := D) l id) g.
Proof.
  intros Hl. unfold init_extent_entry. walk.
  eapply keeps_bind; [apply keeps_modify_entry; [done|by right]|]. intros _.
  do 3 (eapply keeps_bind; [auto using keeps_own_hash_next, keeps_own_hash_prev, keeps_own_list_next|];
    intros _).
  by apply keeps_own_list_prev.
Qed.

(** The candidate is LOADING from its creation on, and its creator's own. *)
Lemma ordered_make_candidate id :
  ordered (make_candidate (D := D) id) idle
    (fun c g => g = match c with Some l => G ∅ {[l]} {[l]} | None => idle end).
Proof.
  unfold make_candidate, idle. eapply ordered_bind; [apply ordered_calloc_entry|].
  intros [l|] ? ->; rewrite ?union_empty_r_L; [|walk].
  eapply keeps_bind; [apply keeps_init_entry; cbn; set_solver|]. intros _.
  eapply ordered_bind; [apply ordered_begin_load; right; cbn; set_solver|].
  intros _ ? ->. rewrite union_empty_r_L. walk.
  eapply keeps_bind; [apply keeps_modify_entry; [intros ?; by flags|right; cbn; set_solver]|]. intros _.
  walk. eapply ordered_bind; [apply (ordered_free_entry _ _ _ ∅ _ ∅); set_solver|]. intros _ ? ->. walk.
Qed.

Lemma keeps_publish_entry l L : keeps (publish_entry (D := D) l) (G ∅ L ∅).
Proof. unfold publish_entry. walk. Qed.
#[local] Hint Resolve keeps_publish_entry : discipline.

Lemma ordered_finish_load l r :
  ordered (finish_load (D := D) l r) (G ∅ {[l]} ∅) (fun _ g => g = idle).
Proof.
  unfold finish_load, idle. walk.
  eapply ordered_bind with (Q := fun _ g => g = at_entry l); [|intros [? ?] ? ->; walk].
  case_match; (eapply ordered_bind; [apply ordered_end_load;
    [left; split; [has_lock|intros ?; repeat case_match; done]|by intros]|]); intros _ ? ->; walk.
Qed.

Lemma keeps_get_miss id : keeps (get_miss (D := D) id) idle.
Proof.
  unfold get_miss. walk. unfold idle; walk.
  eapply ordered_bind; [apply ordered_make_candidate|]. intros [l|] ? ->; [|walk].
  eapply ordered_bind; [apply ordered_hash_find_or_insert|]. intros [other|] ? ->; walk.
  - eapply ordered_bind; [apply (ordered_free_entry _ _ _ ∅ _ ∅); set_solver|]. intros _ ? ->.
    fold idle. walk.
  - apply ordered_finish_load.
Qed.
#[local] Hint Resolve keeps_get_miss : discipline.

Lemma keeps_get_extent b id b' : keeps (kes_cache_get_extent (D := D) b id b') idle.
Proof. unfold kes_cache_get_extent. walk. Qed.

(** ** The other operations, and the programs of the threads *)

(** They run with the entry's lock in hand and give it back. *)
Lemma keeps_with_entry b id k :
  (forall l, ordered (k l) (at_entry l) (fun _ g => g = idle)) -> keeps (with_entry (D := D) b id k) idle.
Proof. intros Hk. unfold with_entry, idle in *. walk. apply Hk. Qed.

Lemma keeps_put b id : keeps (kes_cache_put_extent (D := D) b id) idle.
Proof. apply keeps_with_entry. intros l. walk. Qed.
Lemma keeps_mark_dirty b id : keeps (kes_cache_mark_dirty (D := D) b id) idle.
Proof. apply keeps_with_entry. intros l. walk. Qed.
Lemma keeps_pin b id : keeps (kes_cache_pin_extent (D := D) b id) idle.
Proof. apply keeps_with_entry. intros l. walk. Qed.
Lemma keeps_unpin b id : keeps (kes_cache_unpin_extent (D := D) b id) idle.
Proof. apply keeps_with_entry. intros l. walk. Qed.
Lemma keeps_flush b id : keeps (kes_cache_flush_extent (D := D) b id) idle.
Proof. apply keeps_with_entry. intros l. walk. Qed.
Lemma keeps_invalidate b id : keeps (kes_cache_invalidate (D := D) b id) idle.
Proof.
  apply keeps_with_entry. intros l. walk. eapply ordered_bind; [apply ordered_try_evict|].
  intros [] ? ->; cbn [negb]; unfold idle; walk.
Qed.
#[local] Hint Resolve keeps_get_extent keeps_put keeps_mark_dirty keeps_pin keeps_unpin keeps_flush
  keeps_invalidate : discipline.

Lemma exec_keeps op : keeps (exec (D := D) op) idle.
Proof.
  destruct op; cbn [exec]; unfold coded, kes_cache_sync, kes_cache_get_stats, kes_cache_reset_stats,
    kes_cache_set_io_callbacks; cbn [negb orb]; walk.
Qed.

Lemma exec_all_keeps ops : keeps (exec_all (D := D) ops) idle.
Proof.
  induction ops as [|op ops IH]; cbn [exec_all]; [done|].
  eapply keeps_bind; [apply exec_keeps|]. intros r. eapply keeps_bind; [exact IH|]. by intros rs.
Qed.

Lemma keeps_bg_rounds n : keeps (bg_rounds (D := D) n) (G (<[LCache := true]> ∅) ∅ ∅).
Proof.
  induction n as [|n IH]; cbn [bg_rounds]; [done|]. unfold cache_bg_round. walk.
Qed.

Lemma keeps_program (j : job D) : keeps (program j) idle.
Proof.
  destruct j as [ops|n]; cbn [program].
  - eapply keeps_bind; [apply exec_all_keeps|]. by intros _.
  - unfold cache_bg_thread_func, idle. walk. eapply keeps_bind; [apply keeps_bg_rounds|]. intros _. walk.
Qed.
End device.
