(* ===== verification/CacheAvoids.v ===== *)
(** * What a thread does not know, it leaves alone

    [avoids l m Q]: as long as no shared pointer leads to the entry [l], the
    program [m] neither changes that entry nor makes it known, and its result
    satisfies [Q] (which says that the result does not lead to [l] either).
    Every operation of the cache avoids every entry that it did not allocate
    itself; the rules follow the programs of [Cache]. *)
From S2P Require Import Prelude Types CacheTypes CacheState Cache CacheWf CacheSystem CacheThreads.

Section device.
Context {D : Type}.
Implicit Types (l y : loc) (p : option loc) (s : cstate D).

(** The entry is as it was, and still nobody's. *)
Record untouched l s s' : Prop := {
  ut_hidden : hidden s' l;
  ut_entry : cs_entries s' !! l = cs_entries s !! l;
  ut_list : cs_list s' !! l = cs_list s !! l;
  ut_hash : cs_hash s' !! l = cs_hash s !! l
}.
Definition new_at l s s' : Prop := (env_next (cs_env s) <= l < env_next (cs_env s'))%positive.

Fixpoint avoids {A} l (m : prog D A) (Q : A -> Prop) : Prop :=
  match m with
  | Ret a => Q a
  | Step f k => forall s x s', f s = Returns (x, s') -> hidden s l -> ~ new_at l s s' ->
      untouched l s s' /\ avoids l (k x) Q
  end.
(** Whatever it returns. *)
Definition shuns {A} l (m : prog D A) : Prop := avoids l m (fun _ => True).

Lemma avoids_mono {A} l (m : prog D A) (Q Q' : A -> Prop) :
  avoids l m Q -> (forall a, Q a -> Q' a) -> avoids l m Q'.
Proof.
  intros Hm HQ. induction m as [a|X f k IH]; cbn in *; [by apply HQ|].
  intros s x s' E Hs Hn. destruct (Hm s x s' E Hs Hn) as [Hu Hk]. split; [done|]. by apply IH.
Qed.

Lemma avoids_bind {A B} l (m : prog D A) (k : A -> prog D B) Q R :
  avoids l m Q -> (forall a, Q a -> avoids l (k a) R) -> avoids l (pbind m k) R.
Proof.
  intros Hm Hk. induction m as [a|X f h IH]; cbn in *; [by apply Hk|].
  intros s x s' E Hs Hn. destruct (Hm s x s' E Hs Hn) as [Hu Hx]. split; [done|]. by apply IH.
Qed.

Lemma shuns_bind {A B} l (m : prog D A) (k : A -> prog D B) R :
  shuns l m -> (forall a, avoids l (k a) R) -> avoids l (pbind m k) R.
Proof. intros Hm Hk. eapply avoids_bind; [exact Hm|]. by intros a _. Qed.

Lemma avoids_assoc {A B C} l (m : prog D A) (k : A -> prog D B) (c : B -> prog D C) Q :
  avoids l (pbind m (fun x => pbind (k x) c)) Q -> avoids l (pbind (pbind m k) c) Q.
Proof.
  induction m as [a|X f h IH]; cbn; [done|]. intros Hm s x s' E Hs Hn.
  destruct (Hm s x s' E Hs Hn) as [Hu Hx]. split; [done|]. by apply IH.
Qed.

Lemma shuns_last {A} l (m : prog D A) (Q : A -> Prop) : shuns l m -> (forall a, Q a) -> avoids l m Q.
Proof. intros Hm HQ. eapply avoids_mono; [exact Hm|]. by intros a _. Qed.

(** ** Steps *)

Lemma hidden_same l s s' :
  cs_list s' = cs_list s -> cs_hash s' = cs_hash s -> cs_cache s' = cs_cache s -> hidden s l -> hidden s' l.
Proof. intros Hl Hh Hc [? ? ?]. split; by rewrite ?Hl, ?Hh, ?Hc. Qed.

Lemma untouched_same l s s' :
  cs_entries s' = cs_entries s -> cs_list s' = cs_list s -> cs_hash s' = cs_hash s ->
  cs_cache s' = cs_cache s -> hidden s l -> untouched l s s'.
Proof. intros He Hl Hh Hc Hs. split; [by eapply hidden_same|by rewrite ?He, ?Hl, ?Hh..]. Qed.

Lemma avoids_act {X} l (f : cstate D -> outcome (X * cstate D)) (Q : X -> Prop) :
  (forall s x s', f s = Returns (x, s') -> hidden s l -> ~ new_at l s s' -> untouched l s s' /\ Q x) ->
  avoids l (act f) Q.
Proof. intros Hf s x s' E Hs Hn. by apply (Hf s x s'). Qed.

Lemma avoids_reads {X} l (f : cstate D -> option X) (Q : X -> Prop) :
  (forall s x, f s = Some x -> hidden s l -> Q x) -> avoids l (reads f) Q.
Proof.
  intros Hf. apply avoids_act. intros s x s'. destruct (f s) as [z|] eqn:E; [|done].
  intros [= -> <-] Hs _. split; [by apply untouched_same|by apply (Hf s)].
Qed.

Lemma shuns_writes l (f : cstate D -> option (cstate D)) :
  (forall s s', f s = Some s' -> hidden s l -> untouched l s s') -> shuns l (writes f).
Proof.
  intros Hf. apply avoids_act. intros s x s'. destruct (f s) as [z|] eqn:E; [|done].
  intros [= _ <-] Hs _. split; [by apply Hf|done].
Qed.

(** Unfolds an optional write. *)
Local Ltac written :=
  intros s s' E; cbn in E; repeat match type of E with
    | context [?o ≫= _] => destruct o eqn:?; cbn in E; [|done]
    | context [match ?o with _ => _ end] => destruct o eqn:?; [|done]
    end;
  injection E as <-; intros Hs.

(** *** What the shared pointers lead to *)

Definition away l p : Prop := p ≠ Some l.
Definition links_away l (k : links) : Prop := away l (lk_next k) /\ away l (lk_prev k).
Definition cache_away l (c : kes_cache D) : Prop :=
  away l (c_mru_head c) /\ away l (c_lru_tail c) /\ forall n, c_heads c !! n ≠ Some (Some l).

Lemma avoids_load_cache l : avoids l load_cache (cache_away l).
Proof. apply avoids_reads. intros s c E Hs. apply (hi_cache s l Hs c E). Qed.
Lemma avoids_load_list l y : avoids l (load_list y) (links_away l).
Proof. apply avoids_reads. intros s k E Hs. apply (hi_list s l Hs y k E). Qed.
Lemma avoids_load_hash l y : avoids l (load_hash y) (links_away l).
Proof. apply avoids_reads. intros s k E Hs. apply (hi_hash s l Hs y k E). Qed.
Lemma avoids_load_head l i : avoids l (load_head i) (away l).
Proof.
  apply avoids_reads. intros s p E Hs. destruct (cs_cache s) as [c|] eqn:Hc; [|done]. cbn in E.
  intros ->. by destruct (hi_cache s l Hs c Hc) as (_ & _ & Hh), (Hh (Z.to_nat i)).
Qed.
Lemma shuns_reads {X} l (f : cstate D -> option X) : shuns l (reads f).
Proof. by apply avoids_reads. Qed.

(** *** Changes elsewhere *)

Lemma hidden_set_cache l s c c' :
  cs_cache s = Some c -> (cache_away l c -> cache_away l c') -> hidden s l ->
  untouched l s (set_cache (Some c') s).
Proof.
  intros Hc Hf Hs. split; [|done..]. split; [exact (hi_list s l Hs)|exact (hi_hash s l Hs)|].
  cbn. intros ? [= <-]. apply Hf, (hi_cache s l Hs c Hc).
Qed.

Lemma shuns_modify_cache l h :
  (forall c, cache_away l c -> cache_away l (h c)) -> shuns l (modify_cache h).
Proof. intros Hh. apply shuns_writes. written. eapply hidden_set_cache; eauto. Qed.

Lemma shuns_set_head l i p : away l p -> shuns l (set_head i p).
Proof.
  intros Hp. apply shuns_writes. written. eapply hidden_set_cache; [done| |done].
  intros (Hm & Ht & Hh). split_and!; [done..|]. cbn. intros n.
  intros [(_ & ? & _)|[_ Hn]]%list_lookup_insert_Some; [done|by destruct (Hh n)].
Qed.

Lemma untouched_list l y k k' s :
  y ≠ l -> cs_list s !! y = Some k -> (links_away l k -> links_away l k') -> hidden s l ->
  untouched l s (set_list (<[y := k']> (cs_list s)) s).
Proof.
  intros Hy Hk Hf Hs. split; [|done|cbn; by rewrite lookup_insert_ne|done].
  split; [|exact (hi_hash s l Hs)|exact (hi_cache s l Hs)]. cbn.
  intros z kz [[<- <-]|[_ Hz]]%lookup_insert_Some; [|by apply (hi_list s l Hs z)].
  apply Hf, (hi_list s l Hs y k Hk).
Qed.
Lemma untouched_hash l y k k' s :
  y ≠ l -> cs_hash s !! y = Some k -> (links_away l k -> links_away l k') -> hidden s l ->
  untouched l s (set_hash (<[y := k']> (cs_hash s)) s).
Proof.
  intros Hy Hk Hf Hs. split; [|done|done|cbn; by rewrite lookup_insert_ne].
  split; [exact (hi_list s l Hs)| |exact (hi_cache s l Hs)]. cbn.
  intros z kz [[<- <-]|[_ Hz]]%lookup_insert_Some; [|by apply (hi_hash s l Hs z)].
  apply Hf, (hi_hash s l Hs y k Hk).
Qed.

Lemma shuns_set_list_next l y p : y ≠ l -> away l p -> shuns l (set_list_next y p).
Proof. intros ? ?. apply shuns_writes. written. eapply untouched_list; [done|done| |done]. by intros []; split. Qed.
Lemma shuns_set_list_prev l y p : y ≠ l -> away l p -> shuns l (set_list_prev y p).
Proof. intros ? ?. apply shuns_writes. written. eapply untouched_list; [done|done| |done]. by intros []; split. Qed.
Lemma shuns_set_hash_next l y p : y ≠ l -> away l p -> shuns l (set_hash_next y p).
Proof. intros ? ?. apply shuns_writes. written. eapply untouched_hash; [done|done| |done]. by intros []; split. Qed.
Lemma shuns_set_hash_prev l y p : y ≠ l -> away l p -> shuns l (set_hash_prev y p).
Proof. intros ? ?. apply shuns_writes. written. eapply untouched_hash; [done|done| |done]. by intros []; split. Qed.

Lemma shuns_modify_entry l y f : y ≠ l -> shuns l (modify_entry y f).
Proof.
  intros Hy. apply shuns_writes. written. split; [by apply (hidden_same l s)|cbn|done..].
  by rewrite lookup_insert_ne.
Qed.

(** Writes that leave entries, links and cache structure alone. *)
Lemma shuns_aside l (f : cstate D -> option (cstate D)) :
  (forall s s', f s = Some s' -> cs_entries s' = cs_entries s /\ cs_list s' = cs_list s /\
    cs_hash s' = cs_hash s /\ cs_cache s' = cs_cache s) -> shuns l (writes f).
Proof.
  intros Hf. apply shuns_writes. intros s s' E Hs. destruct (Hf s s' E) as (? & ? & ? & ?).
  by apply untouched_same.
Qed.
Lemma shuns_pins_add l y n : shuns l (pins_add y n).
Proof. apply shuns_aside. intros s s' E. cbn in E. destruct (cs_pins s !! y); by inversion E. Qed.
Lemma shuns_free_buffer l (b : loc) : shuns l (free_buffer b).
Proof. apply shuns_aside. intros s s' E. cbn in E. destruct (cs_bufs s !! b); by inversion E. Qed.
Lemma shuns_destroy_lock l y : shuns l (destroy_entry_lock y).
Proof. apply shuns_aside. intros s s' E. destruct (cs_held s !! LEntry y); by inversion E. Qed.
Lemma shuns_store l (b : loc) bytes : shuns l (client_store b bytes).
Proof.
  apply shuns_aside. intros s s' E. cbn in E. destruct (cs_bufs s !! b); [|done]. cbn in E.
  case_match; by inversion E.
Qed.
Lemma shuns_elapse l a b c : shuns l (elapse a b c).
Proof. apply shuns_aside. by intros s s' [= <-]. Qed.

Lemma shuns_act_aside {X} l (f : cstate D -> outcome (X * cstate D)) :
  (forall s x s', f s = Returns (x, s') -> cs_entries s' = cs_entries s /\ cs_list s' = cs_list s /\
    cs_hash s' = cs_hash s /\ cs_cache s' = cs_cache s) -> shuns l (act f).
Proof.
  intros Hf. apply avoids_act. intros s x s' E Hs _. split; [|done].
  destruct (Hf s x s' E) as (? & ? & ? & ?). by apply untouched_same.
Qed.
Lemma shuns_lock l x : shuns l (lock x).
Proof.
  apply shuns_act_aside. intros s a s'. case_decide; [|done].
  destruct (cs_held s !! x); [done|]. by intros [= _ <-].
Qed.
Lemma shuns_rdlock l x : shuns l (rdlock x).
Proof.
  apply shuns_act_aside. intros s a s'. case_decide; [|done].
  destruct (cs_held s !! x) as [[|n]|]; [done|..]; by intros [= _ <-].
Qed.
Lemma shuns_unlock l x : shuns l (unlock x).
Proof.
  apply shuns_act_aside. intros s a s'. case_decide; [|done].
  destruct (cs_held s !! x) as [[|[|n]]|]; [..|done]; by intros [= _ <-].
Qed.
Lemma shuns_wait l y : shuns l (cond_wait_loaded y).
Proof.
  eapply shuns_bind; [apply shuns_unlock|]. intros _. apply shuns_act_aside. intros s a s'.
  destruct (cs_entries s !! y); [|done]. destruct (cs_held s !! LEntry y); [done|].
  case_match; [done|]. by intros [= _ <-].
Qed.
Lemma shuns_call_read l f id p n : shuns l (call_read f id p n).
Proof.
  apply shuns_act_aside. intros s x s'. destruct (cs_cache s) eqn:Hc, p as [p|]; try done.
  destruct (cs_bufs s !! p); [|done]. case_match; [done|].
  destruct (f _ _ _ _) as [[r bytes] d]. by intros [= _ <-].
Qed.
Lemma shuns_call_write l f id p n : shuns l (call_write f id p n).
Proof.
  apply shuns_act_aside. intros s x s'. destruct (cs_cache s) eqn:Hc, p as [p|]; try done.
  destruct (cs_bufs s !! p); [|done]. case_match; [done|].
  destruct (f _ _ _ _) as [r d]. by intros [= _ <-].
Qed.
Lemma shuns_alloc_buffer l n : shuns l (alloc_buffer n).
Proof.
  apply shuns_act_aside. intros s x s'. destruct (next_failure (cs_env s)) as [[] v]; by intros [= _ <-].
Qed.
Lemma avoids_fuel {A} l (Q : A -> Prop) : avoids l out_of_fuel Q.
Proof. by apply avoids_act. Qed.

(** *** Allocation *)

Lemma avoids_calloc_entry l : avoids l calloc_entry (away l).
Proof.
  apply avoids_act. intros s r s'. unfold next_failure.
  assert (forall v, env_next v = env_next (cs_env s) -> hidden s l ->
    ~ (env_next v <= l < Pos.succ (env_next v))%positive ->
    let s1 := mkState (cs_cache s) (<[env_next v := zero_entry]> (cs_entries s))
      (<[env_next v := no_links]> (cs_list s)) (<[env_next v := no_links]> (cs_hash s))
      (<[env_next v := 0]> (cs_pins s)) (cs_bufs s) (cs_held s) (cs_threads s) (bump v) (cs_dev s) in
    untouched l s s1 /\ away l (Some (env_next v))) as Hnew.
  { intros v Hv Hs Hn. assert (env_next v ≠ l) as Hne by lia. split; [|unfold away; congruence].
    split; cbn; [|by rewrite lookup_insert_ne..]. split; [..|exact (hi_cache s l Hs)]; cbn.
    - intros y k [[_ <-]|[_ Hy]]%lookup_insert_Some; [done|by apply (hi_list s l Hs y)].
    - intros y k [[_ <-]|[_ Hy]]%lookup_insert_Some; [done|by apply (hi_hash s l Hs y)]. }
  destruct (env_script (cs_env s)) as [|[] bs]; intros [= <- <-] Hs Hn.
  - by apply Hnew.
  - split; [by apply untouched_same|done].
  - by apply (Hnew (env_set_script bs (cs_env s))).
Qed.

Lemma shuns_free_entry l y : y ≠ l -> shuns l (free_entry y).
Proof.
  intros Hy. apply shuns_writes. written. split; cbn; [|by rewrite lookup_delete_ne..].
  split; [..|exact (hi_cache s l Hs)]; cbn; intros z ? [_ Hz]%lookup_delete_Some;
    [by apply (hi_list s l Hs z)|by apply (hi_hash s l Hs z)].
Qed.
End device.

(** ** Automation *)

Create HintDb aloof.
#[export] Hint Resolve avoids_load_cache avoids_load_list avoids_load_hash avoids_load_head
  avoids_calloc_entry avoids_fuel : aloof.
#[export] Hint Resolve shuns_reads shuns_modify_cache shuns_set_head shuns_set_list_next
  shuns_set_list_prev shuns_set_hash_next shuns_set_hash_prev shuns_modify_entry shuns_pins_add
  shuns_free_buffer shuns_destroy_lock shuns_store shuns_elapse shuns_lock shuns_rdlock shuns_unlock
  shuns_wait shuns_call_read shuns_call_write shuns_alloc_buffer shuns_free_entry : aloof.

(** Pointers and entries known to be other ones. *)
Ltac elsewhere := unfold away in *; repeat case_match; try done; congruence.
#[export] Hint Extern 1 (away _ _) => elsewhere : aloof.
#[export] Hint Extern 1 (_ ≠ _) => elsewhere : aloof.
#[export] Hint Extern 1 (forall c, cache_away _ c -> cache_away _ _) =>
  by intros ? (? & ? & ?); split_and!; cbn; try assumption; elsewhere : aloof.

(** Walks through a program, keeping what is known of each result. *)
Ltac learn :=
  intros; repeat match goal with
    | H : links_away _ _ |- _ => destruct H
    | H : cache_away _ _ |- _ => destruct H as (? & ? & _)
    end.
Ltac steer :=
  repeat (cbv beta;
    lazymatch goal with
    | |- shuns _ _ => first [solve [eauto with aloof] | progress unfold shuns]
    | |- avoids _ (Ret _) _ => solve [cbn; eauto with aloof]
    | |- avoids _ (pbind (Ret _) _) _ => cbn [pbind]
    | |- avoids _ (pbind (pbind _ _) _) _ => apply avoids_assoc
    | |- avoids _ (pbind _ _) _ =>
        first [ eapply avoids_bind; [solve [eauto with aloof] | learn]
              | eapply shuns_bind; [solve [eauto with aloof] | intros ?]
              | eapply shuns_bind; [solve [unfold shuns; steer] | intros ?] ]
    | |- avoids _ (match ?o with _ => _ end) _ => destruct o eqn:?
    | |- avoids _ _ _ =>
        first [ solve [eauto with aloof]
              | apply shuns_last; [solve [eauto with aloof] | intros ?; done]
              | eapply avoids_mono; [solve [eauto with aloof] | learn; cbn; done]
              | progress cbn [pbind] ]
    end).
