(* ===== verification/CacheAloof.v ===== *)
(** * The operations leave other threads' new entries alone

    Each operation of [Cache] avoids every entry it did not allocate itself
    ([CacheAvoids]), as long as its arguments lead to other entries; so do the
    programs of clients and background threads. *)
From S2P Require Import Prelude Types CacheTypes CacheState Cache CacheWf CacheSystem CacheThreads.
From S2P Require Import CacheAvoids.

Section device.
Context {D : Type}.
Implicit Types (l y : loc) (p : option loc).

(** ** Lists, hash table, memory *)

Lemma shuns_load_entry l y : shuns l (load_entry (D := D) y).
Proof. apply shuns_reads. Qed.
Lemma shuns_pins_load l y : shuns l (pins_load (D := D) y).
Proof. apply shuns_reads. Qed.
Lemma shuns_walk_fuel l : shuns l (walk_fuel (D := D)).
Proof. apply shuns_reads. Qed.
Lemma shuns_get_timestamp l : shuns l (get_timestamp (D := D)).
Proof. apply shuns_reads. Qed.
Lemma shuns_modify_stats l h : shuns l (modify_stats (D := D) h).
Proof. by apply shuns_modify_cache. Qed.
#[local] Hint Resolve shuns_load_entry shuns_pins_load shuns_walk_fuel shuns_get_timestamp
  shuns_modify_stats : aloof.

Lemma shuns_lru_add_head l y : y ≠ l -> shuns l (lru_add_head (D := D) y).
Proof. intros Hy. unfold lru_add_head. steer. Qed.
Lemma shuns_lru_remove l y : y ≠ l -> shuns l (lru_remove (D := D) y).
Proof. intros Hy. unfold lru_remove. steer. Qed.
#[local] Hint Resolve shuns_lru_add_head shuns_lru_remove : aloof.
Lemma shuns_lru_touch l y : y ≠ l -> shuns l (lru_touch (D := D) y).
Proof. intros Hy. unfold lru_touch. steer. Qed.

Lemma avoids_find_in_chain l id fuel p :
  away l p -> avoids l (find_in_chain (D := D) id fuel p) (away l).
Proof.
  revert p. induction fuel as [|fuel IH]; intros [y|] Hp; cbn [find_in_chain]; steer.
Qed.
#[local] Hint Resolve shuns_lru_touch avoids_find_in_chain : aloof.
Lemma shuns_extent_free_data l p n : shuns l (extent_free_data (D := D) p n).
Proof. unfold extent_free_data. steer. Qed.
Lemma shuns_extent_alloc_data l n : shuns l (extent_alloc_data (D := D) n).
Proof. apply shuns_alloc_buffer. Qed.
Lemma shuns_pin_if_some l p : shuns l (pin_if_some (D := D) p).
Proof. unfold pin_if_some. steer. Qed.
Lemma shuns_read_entry l y id : shuns l (read_entry (D := D) y id).
Proof. unfold read_entry. steer. Qed.
#[local] Hint Resolve shuns_extent_free_data shuns_extent_alloc_data shuns_pin_if_some
  shuns_read_entry : aloof.

Lemma avoids_hash_find l id : avoids l (hash_find (D := D) id) (away l).
Proof. unfold hash_find. steer. Qed.
Lemma avoids_hash_find_or_insert l y : y ≠ l -> avoids l (hash_find_or_insert (D := D) y) (away l).
Proof. intros Hy. unfold hash_find_or_insert. steer. Qed.
Lemma shuns_leave_lookup l : shuns l (leave_lookup (D := D)).
Proof. unfold leave_lookup. steer. Qed.
#[local] Hint Resolve avoids_hash_find avoids_hash_find_or_insert shuns_leave_lookup : aloof.

(** ** Write-back and eviction *)

Lemma shuns_flush_done l y n : y ≠ l -> shuns l (flush_done (D := D) y n).
Proof. intros Hy. unfold flush_done. steer. Qed.
#[local] Hint Resolve shuns_flush_done : aloof.
Lemma shuns_write_back l y : y ≠ l -> shuns l (write_back (D := D) y).
Proof. intros Hy. unfold write_back. steer. Qed.
Lemma shuns_try_evict l y b : y ≠ l -> shuns l (try_evict_entry_locked (D := D) y b).
Proof. intros Hy. unfold try_evict_entry_locked. steer. Qed.
#[local] Hint Resolve shuns_write_back shuns_try_evict : aloof.
Lemma shuns_sweep_visit l y : y ≠ l -> shuns l (sweep_flush_and_maybe_evict (D := D) y).
Proof. intros Hy. unfold sweep_flush_and_maybe_evict. steer. Qed.

Lemma shuns_walk_list l visit fuel p :
  (forall y, y ≠ l -> shuns l (visit y)) -> away l p -> shuns l (walk_list (D := D) visit fuel p).
Proof.
  intros Hv. revert p. induction fuel as [|fuel IH]; intros [y|] Hp; cbn [walk_list]; steer.
Qed.
Lemma shuns_cache_sweep l : shuns l (cache_sweep (D := D)).
Proof.
  unfold cache_sweep. steer. apply shuns_last; [|done].
  apply shuns_walk_list; [apply shuns_sweep_visit|done].
Qed.
Lemma shuns_evict_loop l need fuel p fits :
  away l p -> shuns l (evict_loop (D := D) need fuel p fits).
Proof.
  revert p fits. induction fuel as [|fuel IH]; intros [y|] fits Hp; cbn [evict_loop]; steer.
Qed.
#[local] Hint Resolve shuns_cache_sweep shuns_evict_loop : aloof.
Lemma shuns_make_room l n : shuns l (make_room_for_new_entry (D := D) n).
Proof. unfold make_room_for_new_entry. steer. Qed.
#[local] Hint Resolve shuns_make_room : aloof.

(** ** Lookup *)

Lemma shuns_wait_loaded l y : y ≠ l -> shuns l (wait_loaded (D := D) y).
Proof. intros Hy. unfold wait_loaded. steer. Qed.
Lemma shuns_retry_load l y id : y ≠ l -> shuns l (retry_load (D := D) y id).
Proof. intros Hy. unfold retry_load. steer. Qed.
#[local] Hint Resolve shuns_wait_loaded shuns_retry_load : aloof.
Lemma shuns_attach_entry l y id : y ≠ l -> shuns l (attach_entry (D := D) y id).
Proof. intros Hy. unfold attach_entry. steer. Qed.
Lemma shuns_init_entry l y id : y ≠ l -> shuns l (init_extent_entry (D := D) y id).
Proof. intros Hy. unfold init_extent_entry. steer. Qed.
#[local] Hint Resolve shuns_attach_entry shuns_init_entry : aloof.
(** A new candidate is another entry. *)
Lemma avoids_make_candidate l id : avoids l (make_candidate (D := D) id) (away l).
Proof. unfold make_candidate. steer. Qed.
Lemma shuns_publish_entry l y : y ≠ l -> shuns l (publish_entry (D := D) y).
Proof. intros Hy. unfold publish_entry. steer. Qed.
Lemma shuns_finish_load l y r : y ≠ l -> shuns l (finish_load (D := D) y r).
Proof. intros Hy. unfold finish_load. steer. Qed.
#[local] Hint Resolve avoids_make_candidate shuns_publish_entry shuns_finish_load : aloof.
Lemma shuns_get_miss l id : shuns l (get_miss (D := D) id).
Proof. unfold get_miss. steer. Qed.
#[local] Hint Resolve shuns_get_miss : aloof.
Lemma shuns_get_extent l b id b' : shuns l (kes_cache_get_extent (D := D) b id b').
Proof. unfold kes_cache_get_extent. steer. Qed.

(** ** The other operations, and the programs of the threads *)

Lemma shuns_with_entry l b id k :
  (forall y, y ≠ l -> shuns l (k y)) -> shuns l (with_entry (D := D) b id k).
Proof. intros Hk. unfold with_entry. steer. Qed.

Lemma shuns_put l b id : shuns l (kes_cache_put_extent (D := D) b id).
Proof. apply shuns_with_entry. intros y Hy. steer. Qed.
Lemma shuns_mark_dirty l b id : shuns l (kes_cache_mark_dirty (D := D) b id).
Proof. apply shuns_with_entry. intros y Hy. steer. Qed.
Lemma shuns_pin l b id : shuns l (kes_cache_pin_extent (D := D) b id).
Proof. apply shuns_with_entry. intros y Hy. steer. Qed.
Lemma shuns_unpin l b id : shuns l (kes_cache_unpin_extent (D := D) b id).
Proof. apply shuns_with_entry. intros y Hy. steer. Qed.
Lemma shuns_flush l b id : shuns l (kes_cache_flush_extent (D := D) b id).
Proof. apply shuns_with_entry. intros y Hy. steer. Qed.
Lemma shuns_invalidate l b id : shuns l (kes_cache_invalidate (D := D) b id).
Proof. apply shuns_with_entry. intros y Hy. steer. Qed.
#[local] Hint Resolve shuns_get_extent shuns_put shuns_mark_dirty shuns_pin shuns_unpin shuns_flush
  shuns_invalidate : aloof.

Lemma shuns_exec l op : shuns l (exec (D := D) op).
Proof.
  destruct op; cbn [exec]; unfold coded, kes_cache_sync, kes_cache_get_stats, kes_cache_reset_stats,
    kes_cache_set_io_callbacks; cbn [negb orb]; steer.
Qed.
Lemma shuns_exec_all l ops : shuns l (exec_all (D := D) ops).
Proof.
  induction ops as [|op ops IH]; cbn [exec_all]; [done|].
  eapply shuns_bind; [apply shuns_exec|]. intros r. eapply shuns_bind; [exact IH|]. by intros rs.
Qed.
Lemma shuns_bg_rounds l n : shuns l (bg_rounds (D := D) n).
Proof. induction n as [|n IH]; cbn [bg_rounds]; [done|]. unfold cache_bg_round. steer. Qed.

Lemma shuns_program l (j : job D) : shuns l (program j).
Proof.
  destruct j as [ops|n]; cbn [program].
  - eapply shuns_bind; [apply shuns_exec_all|]. done.
  - unfold cache_bg_thread_func. eapply shuns_bind; [apply shuns_lock|]. intros _.
    eapply shuns_bind; [apply shuns_bg_rounds|]. intros _. apply shuns_unlock.
Qed.
End device.
