(* ===== verification/CacheConcurrent.v ===== *)
(** * The cache under concurrent clients

    What holds for every interleaving of any number of clients and background
    threads ([threads_finish]), and what does not: two schedules of calls
    that the interface allows, on the device of [CacheDemo], after which the
    cache has used freed memory or lost an update, and a call that hides a
    failed write. *)
From S2P Require Import Prelude Types CacheTypes CacheState Cache CacheWf CacheSystem CacheThreads.
From S2P Require Import CacheDiscipline CacheOrdered CacheDemo.

Section device.
Context {D : Type}.

(** ** Every run is finite *)

Definition thread_step (m' m : prog D ()) : Prop := exists s s', next m s = Returns (m', s').
Definition list_step (ts' ts : list (prog D ())) : Prop :=
  exists i m m', ts !! i = Some m /\ thread_step m' m /\ ts' = <[i := m']> ts.

Lemma thread_acc (m : prog D ()) : Acc thread_step m.
Proof.
  induction m as [a|X f k IH]; constructor; intros m' (s & s' & Hn); [done|]. cbn in Hn.
  destruct (f s) as [[x s1]| |]; [|done|done]. injection Hn as <- _. apply IH.
Qed.

Lemma list_acc ts : Acc list_step ts.
Proof.
  induction ts as [|m ts IH]; [constructor; by intros ts' (i & m & m' & Hi & _)|].
  revert m. induction IH as [ts _ IHts]. intros m. induction (thread_acc m) as [m _ IHm].
  constructor. intros ts' ([|i] & m0 & m' & Hi & Hs & ->); cbn in Hi.
  - injection Hi as ->. by apply IHm.
  - apply IHts. by exists i, m0, m'.
Qed.

Lemma pool_acc ts s : Acc (fun c' c => pool_step (D := D) c c') (ts, s).
Proof.
  revert s. induction (list_acc ts) as [ts _ IH]. intros s. constructor. intros [ts' s'] Hs.
  inversion Hs as [? ? i m m' ? Hi Hn]; subst. apply IH. exists i, m, m'. split_and!; [done| |done].
  by exists s, s'.
Qed.

Lemma pool_start (jobs : list (job D)) s :
  cs_held s = ∅ -> (forall l, ~ loading s l) ->
  pool_inv (program <$> jobs) s ((fun _ => idle) <$> jobs).
Proof.
  intros Hh Hl. split.
  - apply Forall2_fmap, Forall_Forall2_diag, Forall_true. apply keeps_program.
  - split; [|intros l H; by destruct (Hl l)]. intros x. rewrite Hh, lookup_empty.
    induction jobs as [|j jobs [IHw IHr]]; [done|]. by split.
Qed.

Lemma follow_steps order ts s ts' s' :
  follow order ts s = Returns (ts', s') -> rtc (pool_step (D := D)) (ts, s) (ts', s').
Proof.
  revert ts s. induction order as [|i order IH]; intros ts s; cbn.
  - intros [= -> ->]. constructor.
  - destruct (ts !! i) as [m|] eqn:Hi; [|done].
    destruct (next m s) as [[m' s1]| |] eqn:Hn; [|done|done]. intros Hf.
    eapply rtc_l; [by econstructor|]. by apply IH.
Qed.
End device.

(** ** Runs of the cache of [CacheDemo] *)

Definition kv_read_fails : read_fn kv := fun _ _ _ d => (KES_ERROR_IO, [], d).
(** The state after some calls, one at a time. *)
Definition after_calls (ops : list (cache_op kv)) : cstate kv := after (run (exec_all ops) demo_created).
(** One thread's turn of [n] steps. *)
Definition turn (i n : nat) : list nat := replicate n i.

(** What is left after a run: have all threads finished, the statistics' count
    of dirty extents, and the extents that are dirty. *)
Definition left_over (o : outcome (list (prog kv ()) * cstate kv)) : option (bool * Z * list bool) :=
  match o with
  | Returns (ts, s) =>
      c ← cs_cache s;
      Some (forallb ended ts, ks_entries_dirty (c_stats c), is_dirty <$> (map_to_list (cs_entries s)).*2)
  | _ => None
  end.

(** ** No deadlock *)


(** A reader and a client that marks the extent while it is being loaded. *)
Definition load_and_mark : list (prog kv ()) :=
  program <$> [Client [OpGet (Some (demo_id 0))]; Client [OpMarkDirty (Some (demo_id 0))]].
Definition load_and_mark_order : list nat := turn 0 45 ++ turn 1 15 ++ turn 0 11.
Definition ready_to_load : cstate kv := after_calls [OpSetCallbacks (Some kv_read) (Some kv_write) None].


(** ** Schedules that go wrong *)

(** The first load of an extent failed; the device works again. *)
Definition failed_load : list (cache_op kv) :=
  [OpSetCallbacks (Some kv_read_fails) (Some kv_write) None; OpGet (Some (demo_id 0));
   OpSetCallbacks (Some kv_read) (Some kv_write) None].



