(* ===== verification/CacheRaces.v ===== *)
(** * No write races

    The discipline of [CacheThreads] and the ignorance of [CacheAvoids]
    together: in every interleaving, two threads are never about to change the
    same entry, the same LRU links, the same bucket head or the fields that
    the cache lock guards ([no_write_races]); and what an extent's buffer,
    size and identifier are never changes once other threads can find it
    ([published_parts_fixed]).  [rest_quiet]: between calls of one client, the
    cache is in a state from which threads may start. *)
From S2P Require Import Prelude Types CacheTypes CacheState Cache CacheLinks CacheSpec CacheView CacheWf.
From S2P Require Import CacheFacts CacheSystem CacheThreads CacheDiscipline CacheOrdered CacheAvoids.
From S2P Require Import CacheAloof CacheInv CacheReach CacheDemo CacheConcurrent.

Section device.
Context {D : Type}.
Implicit Types (s : cstate D) (l : loc).

(** A state in which no thread is inside the cache. *)
Record calm s : Prop := {
  qu_locks : cs_held s = ∅;
  qu_loads : forall l, ~ loading s l;
  qu_sane : sane s;
  qu_new : forall l, (env_next (cs_env s) <= l)%positive -> hidden s l
}.

(** An entry that a thread has allocated and not published is known to no
    other thread; addresses still to be given out are known to none. *)
Record pool_safe (ts : list (prog D ())) s (gs : list ghost) : Prop := {
  ps_inv : pool_inv ts s gs;
  ps_sane : sane s;
  ps_own : forall i g l, gs !! i = Some g -> l ∈ g_own g ->
    hidden s l /\ (l < env_next (cs_env s))%positive /\
    forall j m, ts !! j = Some m -> j ≠ i -> shuns l m;
  ps_new : forall l, (env_next (cs_env s) <= l)%positive ->
    hidden s l /\ forall j m, ts !! j = Some m -> shuns l m
}.

(** What a step does to an entry the thread does not know. *)
Lemma next_shuns {A} l (m m' : prog D A) s s' :
  shuns l m -> next m s = Returns (m', s') -> hidden s l -> ~ new_at l s s' ->
  untouched l s s' /\ shuns l m'.
Proof.
  destruct m as [a|X f k]; [done|]. cbn. intros Hm Hn Hs Hno.
  destruct (f s) as [[x s1]| |] eqn:Ef; [|done|done]. injection Hn as <- <-.
  by apply (Hm s x).
Qed.

Lemma pool_safe_step ts s ts' s' gs :
  pool_step (ts, s) (ts', s') -> pool_safe ts s gs ->
  exists i g g', gs !! i = Some g /\ owns g g' s s' /\ protected g s s' /\
    pool_safe ts' s' (<[i := g']> gs).
Proof.
  intros Hst [[Ht Hag] Hs Ho Hw]. inversion Hst as [? ? i m m' ? Hi Hn]; subst.
  destruct (Forall2_lookup_l _ _ _ _ _ Ht Hi) as (g & Hg & Hm).
  destruct (agree_step m m' s s' g _ gs i Hg Hm Hn Hag) as (g' & Hm' & Hag' & Hos & Hsane).
  pose proof Hos as (Hle & _ & Hown).
  assert (forall j mj l, <[i := m']> ts !! j = Some mj ->
    (forall k mk, ts !! k = Some mk -> k = j -> shuns l mk) -> hidden s l -> ~ new_at l s s' ->
    shuns l mj) as Hrest.
  { intros j mj l [(-> & <- & _)|[_ Hj]]%list_lookup_insert_Some Hk Hh Hno; [|by eapply Hk].
    eapply next_shuns; [by eapply Hk|done..]. }
  exists i, g, g'. split_and!; [done|done|by eapply next_protected|].
  split; [split; [by apply Forall2_insert|done]|by apply Hsane|..].
  - intros j gj l [(-> & <- & _)|[Hne Hj]]%list_lookup_insert_Some Hl.
    + destruct (Hown l Hl) as [Hh Hwhere].
      assert (hidden s l /\ (l < env_next (cs_env s'))%positive /\
        forall k mk, ts !! k = Some mk -> k ≠ j -> shuns l mk) as (Hhid & Hlt & Hsh).
      { destruct Hwhere as [Hin|Hin].
        - destruct (Ho j g l Hg Hin) as (? & ? & ?). split_and!; [done|lia|done].
        - destruct (Hw l) as [? Hsh]; [lia|]. split_and!; [done|lia|]. intros k mk Hk _. by apply (Hsh k). }
      split_and!; [by apply Hh|done|]. intros k mk Hk Hkj.
      rewrite list_lookup_insert_ne in Hk by done. by apply (Hsh k).
    + destruct (Ho j gj l Hj Hl) as (Hhid & Hlt & Hsh).
      assert (~ new_at l s s') as Hno by (unfold new_at; lia).
      split_and!; [|lia|].
      * eapply ut_hidden, next_shuns; [by apply (Hsh i m)|done..].
      * intros k mk Hk Hkj. eapply Hrest; [done| |done|done]. intros k' mk' Hk' <-. by apply (Hsh k').
  - intros l Hl. destruct (Hw l) as [Hhid Hsh]; [lia|].
    assert (~ new_at l s s') as Hno by (unfold new_at; lia). split.
    + eapply ut_hidden, next_shuns; [by apply (Hsh i m)|done..].
    + intros j mj Hj. eapply Hrest; [done| |done|done]. intros k mk Hk _. by apply (Hsh k).
Qed.

Lemma pool_safe_steps ts s ts' s' gs :
  rtc pool_step (ts, s) (ts', s') -> pool_safe ts s gs -> exists gs', pool_safe ts' s' gs'.
Proof.
  intros Hr. remember (ts, s) as c eqn:Ec. remember (ts', s') as c' eqn:Ec'.
  revert ts s gs Ec. induction Hr as [c|c [ts1 s1] c' Hs Hr IH]; intros ts s gs ->.
  - injection Ec' as -> ->. by exists gs.
  - intros Hi. destruct (pool_safe_step _ _ _ _ _ Hs Hi) as (i & g & g' & _ & _ & _ & Hi1).
    by eapply IH.
Qed.

Lemma pool_safe_start (jobs : list (job D)) s :
  calm s -> pool_safe (program <$> jobs) s ((fun _ => idle) <$> jobs).
Proof.
  intros [Hk Hl Hs Hn]. split; [by apply pool_start|done|..].
  - intros i g l Hg. apply list_lookup_fmap_Some in Hg as (j & -> & _). set_solver.
  - intros l Hle. split; [by apply Hn|]. intros j m Hj.
    apply list_lookup_fmap_Some in Hj as (k & -> & _). apply shuns_program.
Qed.

(** At most one thread holds a lock exclusively. *)
Lemma sum_of_two f gs i j g g' :
  f idle = 0%nat -> i ≠ j -> gs !! i = Some g -> gs !! j = Some g' -> (f g + f g' <= sum_of f gs)%nat.
Proof.
  intros H0 Hne Hi Hj. pose proof (sum_of_insert f gs i g idle Hi) as H1.
  assert (<[i := idle]> gs !! j = Some g') as Hj' by by rewrite list_lookup_insert_ne.
  pose proof (sum_of_insert f (<[i := idle]> gs) j g' idle Hj') as H2. lia.
Qed.
Lemma held_by_one gs s i j g g' x :
  agree gs s -> i ≠ j -> gs !! i = Some g -> gs !! j = Some g' ->
  g_held g !! x = Some true -> g_held g' !! x = Some true -> False.
Proof.
  intros [Hl _] Hne Hi Hj Hx Hx'. destruct (Hl x) as [Hw _].
  pose proof (sum_of_two (writers x) gs i j g g' eq_refl Hne Hi Hj) as H2. unfold writers in H2.
  rewrite Hx, Hx' in H2. fold (writers x) in H2. destruct (cs_held s !! x) as [[]|]; lia.
Qed.

(** ** Where threads may start *)

Lemma seg_within m ls x k y :
  seg m None ls None -> x ∈ ls -> m !! x = Some k -> lk_next k = Some y \/ lk_prev k = Some y -> y ∈ ls.
Proof.
  intros Hs Hx Hk Hy. apply list_elem_of_split in Hx as (l1 & l2 & ->).
  rewrite (seg_links _ _ _ _ _ _ Hs) in Hk. injection Hk as <-. cbn in Hy.
  rewrite elem_of_app, elem_of_cons. destruct Hy as [Hy|Hy].
  - apply nxt_elem in Hy as [?|?]; [done|by right; right].
  - apply prv_elem in Hy as [?|?]; [done|by left].
Qed.

(** Between two calls of a single client no thread is inside. *)
Lemma rest_calm (l : lcache D) s : lwf l -> at_rest l s -> calm s.
Proof.
  intros Hw (ch & Hch & Hr). pose proof (rp_entries _ _ Hr) as He. pose proof (rp_env _ _ Hr) as Hv.
  pose proof (rp_list_dom _ _ Hr) as Hd. pose proof (rp_hash_dom _ _ Hr) as Hh. cbn in He, Hv, Hd, Hh.
  assert (forall y, y ∈ l_order l -> (y < env_next (cs_env s))%positive) as Hlt.
  { intros y Hy. rewrite Hv. apply (wf_fresh _ Hw). left. by apply (wf_dom _ Hw). }
  assert (forall y, (env_next (cs_env s) <= y)%positive -> y ∉ l_order l) as Hout.
  { intros y Hy Hin%Hlt. lia. }
  split; [apply (rp_held _ _ Hr)|..].
  - intros y (e & Hy & Hld). rewrite He in Hy. by rewrite (en_loading _ _ (wf_entry _ Hw y e Hy)) in Hld.
  - intros y Hy. rewrite He, Hd in Hy. apply Hlt, (wf_dom _ Hw). tauto.
  - intros y Hy%Hout. split.
    + intros x k Hk. pose proof (seg_within _ _ x k y (rp_order _ _ Hr)) as Hin. cbn in Hin.
      assert (x ∈ l_order l) as Hx by (apply (wf_dom _ Hw), Hd; by eexists).
      split; intros E; apply Hy, Hin; auto.
    + intros x k Hk. assert (x ∈ l_order l) as Hx by (apply (wf_dom _ Hw), Hh; by eexists).
      destruct (proj1 (wf_dom _ Hw x) Hx) as [e Hxe].
      destruct (ck_all _ _ Hch x e Hx Hxe) as (ls & Hls & Hin).
      pose proof (seg_within _ _ x k y (rp_chains _ _ Hr _ _ Hls) Hin Hk) as Hwi.
      split; intros E; apply Hy, (ck_in _ _ Hch _ _ _ Hls), Hwi; auto.
    + intros c Hc. rewrite (rp_cache _ _ Hr) in Hc. injection Hc as <-. cbn. split_and!.
      * intros E. apply Hy, head_Some_elem_of, E.
      * intros E. apply Hy, last_Some_elem_of, E.
      * intros n E. apply list_lookup_fmap_Some in E as (ls & E & Hls).
        apply Hy, (ck_in _ _ Hch _ _ _ Hls), head_Some_elem_of. done.
Qed.

(** ** Two threads about to move *)

(** No part of the memory is changed on the way to both states. *)
Record apart s s1 s2 : Prop := {
  ap_entry : forall l e e1 e2,
    cs_entries s !! l = Some e -> cs_entries s1 !! l = Some e1 -> cs_entries s2 !! l = Some e2 ->
    e1 = e \/ e2 = e;
  ap_list : forall l k k1 k2,
    cs_list s !! l = Some k -> cs_list s1 !! l = Some k1 -> cs_list s2 !! l = Some k2 -> k1 = k \/ k2 = k;
  ap_cache : forall c c1 c2,
    cs_cache s = Some c -> cs_cache s1 = Some c1 -> cs_cache s2 = Some c2 ->
    guarded c1 = guarded c \/ guarded c2 = guarded c;
  ap_heads : forall c c1 c2 n,
    cs_cache s = Some c -> cs_cache s1 = Some c1 -> cs_cache s2 = Some c2 ->
    c_heads c1 !! n = c_heads c !! n \/ c_heads c2 !! n = c_heads c !! n
}.

(** An entry that one thread keeps to itself is left alone by another's step. *)
Lemma own_untouched ts s gs i j g m m' s' l :
  pool_safe ts s gs -> i ≠ j -> gs !! i = Some g -> l ∈ g_own g ->
  ts !! j = Some m -> next m s = Returns (m', s') -> untouched l s s'.
Proof.
  intros Hp Hne Hg Hl Hj Hn. destruct (ps_own _ _ _ Hp i g l Hg Hl) as (Hh & Hlt & Hsh).
  eapply next_shuns; [by apply (Hsh j m); [|congruence]|done|done|]. unfold new_at. lia.
Qed.

Lemma steps_apart ts s gs i j mi mj mi' mj' si sj :
  pool_safe ts s gs -> i ≠ j -> ts !! i = Some mi -> ts !! j = Some mj ->
  next mi s = Returns (mi', si) -> next mj s = Returns (mj', sj) -> apart s si sj.
Proof.
  intros Hp Hne Hi Hj Hni Hnj. destruct (ps_inv _ _ _ Hp) as [Ht Hag].
  destruct (Forall2_lookup_l _ _ _ _ _ Ht Hi) as (gi & Hgi & Hmi).
  destruct (Forall2_lookup_l _ _ _ _ _ Ht Hj) as (gj & Hgj & Hmj).
  pose proof (next_protected mi mi' s si gi _ Hmi Hni (ps_sane _ _ _ Hp)) as [Ei Li Ci Bi].
  pose proof (next_protected mj mj' s sj gj _ Hmj Hnj (ps_sane _ _ _ Hp)) as [Ej Lj Cj Bj].
  assert (forall x, g_held gi !! x = Some true -> g_held gj !! x = Some true -> False) as Hone
    by (intros x; by eapply held_by_one).
  assert (forall l, l ∈ g_own gi -> untouched l s sj) as Oi by (intros l Hl; by eapply own_untouched).
  assert (forall l, l ∈ g_own gj -> untouched l s si) as Oj
    by (intros l Hl; eapply (own_untouched ts s gs j i); done || by apply not_eq_sym).
  split.
  - intros l e e1 e2 H H1 H2. destruct (decide (l ∈ g_own gi)) as [Hl|Hl].
    { right. rewrite (ut_entry _ _ _ (Oi l Hl)) in H2. congruence. }
    destruct (decide (l ∈ g_own gj)) as [Hl'|Hl'].
    { left. rewrite (ut_entry _ _ _ (Oj l Hl')) in H1. congruence. }
    destruct (Ei l e e1 H H1 Hl) as [[?|Hx] _]; [by left|].
    destruct (Ej l e e2 H H2 Hl') as [[?|Hy] _]; [by right|]. by destruct (Hone _ Hx Hy).
  - intros l k k1 k2 H H1 H2. destruct (decide (l ∈ g_own gi)) as [Hl|Hl].
    { right. rewrite (ut_list _ _ _ (Oi l Hl)) in H2. congruence. }
    destruct (decide (l ∈ g_own gj)) as [Hl'|Hl'].
    { left. rewrite (ut_list _ _ _ (Oj l Hl')) in H1. congruence. }
    destruct (Li l k k1 H H1 Hl) as [?|Hx]; [by left|].
    destruct (Lj l k k2 H H2 Hl') as [?|Hy]; [by right|]. by destruct (Hone _ Hx Hy).
  - intros c c1 c2 H H1 H2. destruct (Ci c c1 H H1) as [?|Hx]; [by left|].
    destruct (Cj c c2 H H2) as [?|Hy]; [by right|]. by destruct (Hone _ Hx Hy).
  - intros c c1 c2 n H H1 H2. destruct (Bi c c1 n H H1) as [?|(a & Ha & -> & Hx)]; [by left|].
    destruct (Bj c c2 (Z.to_nat a) H H2) as [?|(b & Hb & Hn & Hy)]; [by right|].
    assert (a = b) as -> by lia. by destruct (Hone _ Hx Hy).
Qed.

(** ** What is published is fixed *)

Definition nobodys l (gs : list ghost) : Prop := forall i g, gs !! i = Some g -> l ∉ g_own g.

Lemma step_same_parts l ts s ts' s' gs :
  pool_step (ts, s) (ts', s') -> pool_safe ts s gs -> nobodys l gs ->
  (l < env_next (cs_env s))%positive ->
  (exists gs', pool_safe ts' s' gs' /\ nobodys l gs') /\ (l < env_next (cs_env s'))%positive /\
  forall e', cs_entries s' !! l = Some e' -> exists e, cs_entries s !! l = Some e /\ same_parts e e'.
Proof.
  intros Hst Hp Hno Hlt.
  destruct (pool_safe_step _ _ _ _ _ Hst Hp) as (i & g & g' & Hg & (Hle & Hback & Hown) & Hpr & Hp').
  split_and!; [|lia|].
  - exists (<[i := g']> gs). split; [done|]. intros j gj.
    intros [(-> & <- & _)|[_ Hj]]%list_lookup_insert_Some Hl; [|by apply (Hno j gj)].
    destruct (Hown l Hl) as [_ [Hin|Hin]]; [by apply (Hno j g)|lia].
  - intros e' He'. destruct (Hback l) as [[e He]|Hin]; [by eexists| |lia].
    exists e. split; [done|]. destruct (pr_entry _ _ _ Hpr l e e' He He') as [_ ?]; [|done].
    by apply (Hno i g).
Qed.

Lemma steps_same_parts l ts s ts' s' gs e' :
  rtc pool_step (ts, s) (ts', s') -> pool_safe ts s gs -> nobodys l gs ->
  (l < env_next (cs_env s))%positive -> cs_entries s' !! l = Some e' ->
  exists e, cs_entries s !! l = Some e /\ same_parts e e'.
Proof.
  intros Hr. remember (ts, s) as c eqn:Ec. remember (ts', s') as c' eqn:Ec'.
  revert ts s gs Ec. induction Hr as [c|c [ts1 s1] c' Hs Hr IH]; intros ts s gs ->.
  - injection Ec' as -> ->. intros _ _ _ He. by exists e'.
  - intros Hp Hno Hlt He'.
    destruct (step_same_parts l _ _ _ _ _ Hs Hp Hno Hlt) as ((gs' & Hp' & Hno') & Hlt' & Hback).
    destruct (IH Ec' ts1 s1 gs' eq_refl Hp' Hno' Hlt' He') as (e1 & He1 & Hid1 & Hda1 & Hsz1).
    destruct (Hback e1 He1) as (e & He & Hid & Hda & Hsz). exists e. split; [done|].
    split_and!; congruence.
Qed.
End device.

(** C15: the locks protect what they are for.  Whatever the interleaving of
    clients and background threads, two threads are never about to change the
    same entry, the LRU links of the same entry, the head of the same bucket,
    or the fields the cache lock guards (statistics, ends of the LRU list,
    count of lookups under way): each such change is made under the one lock
    for it, or to an entry that its creator has not shown to any other thread
    yet. *)
Theorem no_write_races {D} (jobs : list (job D)) (s0 s : cstate D) ts i j mi mj mi' mj' si sj :
  calm s0 -> rtc pool_step (program <$> jobs, s0) (ts, s) ->
  i ≠ j -> ts !! i = Some mi -> ts !! j = Some mj ->
  next mi s = Returns (mi', si) -> next mj s = Returns (mj', sj) ->
  apart s si sj.
Proof.
  intros Hq Hr. destruct (pool_safe_steps _ _ _ _ _ Hr (pool_safe_start jobs s0 Hq)) as [gs Hp].
  by apply (steps_apart ts s gs).
Qed.

(** Two readers on the cache of [CacheDemo]: the first has just allocated an
    entry and is about to fill it in, the second holds the cache lock and is
    about to count its lookup. *)
Definition both_load : list (prog kv ()) :=
  program <$> [Client [OpGet (Some (demo_id 0))]; Client [OpGet (Some (demo_id 1))]].
Definition both_load_order : list nat := turn 0 15 ++ turn 1 2.
Definition both_move (o : outcome (list (prog kv ()) * cstate kv)) : bool :=
  match o with
  | Returns ([m0; m1], s) =>
      match next m0 s, next m1 s with Returns _, Returns _ => true | _, _ => false end
  | _ => false
  end.

Lemma ready_calm : calm ready_to_load.
Proof.
  destruct (reached demo_config demo_start demo_created
    [OpSetCallbacks (Some kv_read) (Some kv_write) None] demo_no_cache demo_creates) as (s1 & Hr & Hrest & Hrd & _);
    [done|].
  unfold ready_to_load, after_calls. rewrite Hr. by apply (rest_calm _ _ (rd_wf _ Hrd)).
Qed.

Lemma both_moves o :
  both_move o = true -> exists m0 m1 s m0' s0 m1' s1, o = Returns ([m0; m1], s) /\
    next m0 s = Returns (m0', s0) /\ next m1 s = Returns (m1', s1).
Proof.
  destruct o as [[[|m0 [|m1 [|m2 ts]]] s]| |]; try done. cbn.
  destruct (next m0 s) as [[m0' s0]| |] eqn:E0; try done.
  destruct (next m1 s) as [[m1' s1]| |] eqn:E1; try done. intros _. by exists m0, m1, s, m0', s0, m1', s1.
Qed.

Lemma no_write_races_witness :
  exists ts s m0 m1 m0' m1' s0 s1, follow both_load_order both_load ready_to_load = Returns (ts, s) /\
    ts !! 0%nat = Some m0 /\ ts !! 1%nat = Some m1 /\ next m0 s = Returns (m0', s0) /\
    next m1 s = Returns (m1', s1) /\ apart s s0 s1.
Proof.
  destruct (both_moves (follow both_load_order both_load ready_to_load)) as (m0 & m1 & s & m0' & s0 & m1' & s1 & E & E0 & E1).
  { vm_compute. reflexivity. }
  exists [m0; m1], s, m0, m1, m0', m1', s0, s1. split_and!; [exact E|reflexivity|reflexivity|exact E0|exact E1|].
  apply (no_write_races [Client [OpGet (Some (demo_id 0))]; Client [OpGet (Some (demo_id 1))]]
    ready_to_load s [m0; m1] 0 1 m0 m1 m0' m1' s0 s1).
  - apply ready_calm.
  - apply follow_steps with both_load_order, E.
  - discriminate.
  - reflexivity.
  - reflexivity.
  - exact E0.
  - exact E1.
Defined.

(** C16: what other threads can know of an extent is settled.  Once some shared
    pointer leads to an entry, its identifier, its buffer and its size stay
    what they are for as long as it exists, in every interleaving: the buffer
    that [kes_cache_get_extent] handed out remains the extent's buffer. *)
Theorem published_parts_fixed {D} (jobs : list (job D)) (s0 s s' : cstate D) ts ts' l e e' :
  calm s0 -> rtc pool_step (program <$> jobs, s0) (ts, s) -> ~ hidden s l ->
  rtc pool_step (ts, s) (ts', s') ->
  cs_entries s !! l = Some e -> cs_entries s' !! l = Some e' -> same_parts e e'.
Proof.
  intros Hq Hr Hl Hr' He He'.
  destruct (pool_safe_steps _ _ _ _ _ Hr (pool_safe_start jobs s0 Hq)) as [gs Hp].
  destruct (steps_same_parts l ts s ts' s' gs e' Hr' Hp) as (e0 & He0 & Hsame).
  - intros i g Hg Hin. by destruct (ps_own _ _ _ Hp i g l Hg Hin).
  - apply (ps_sane _ _ _ Hp). left. by eexists.
  - done.
  - congruence.
Qed.

(** One client loads an extent, another one then marks it and syncs. *)
Definition load_then_sync : list (prog kv ()) :=
  program <$> [Client [OpGet (Some (demo_id 0))]; Client [OpMarkDirty (Some (demo_id 0)); OpSync]].
Definition newest {D} (s : cstate D) : option (loc * kes_extent_entry) :=
  c ← cs_cache s; l ← c_mru_head c; e ← cs_entries s !! l; Some (l, e).
Definition still_there (o : outcome (list (prog kv ()) * cstate kv)) (order : list nat) : bool :=
  match o with
  | Returns (ts, s) =>
      match newest s, follow order ts s with
      | Some (l, e), Returns (_, s') => bool_decide (is_Some (cs_entries s' !! l))
      | _, _ => false
      end
  | _ => false
  end.

Lemma newest_known {D} (s : cstate D) l e : newest s = Some (l, e) -> cs_entries s !! l = Some e /\ ~ hidden s l.
Proof.
  unfold newest. destruct (cs_cache s) as [c|] eqn:Hc; [|done]. cbn.
  destruct (c_mru_head c) as [y|] eqn:Hm; [|done]. cbn.
  destruct (cs_entries s !! y) as [f|] eqn:He; [|done]. intros [= -> ->]. split; [done|].
  intros [_ _ Hh]. by destruct (Hh c Hc).
Qed.

Lemma still_there_parts o order :
  still_there o order = true -> exists ts s l e ts' s' e', o = Returns (ts, s) /\
    newest s = Some (l, e) /\ follow order ts s = Returns (ts', s') /\ cs_entries s' !! l = Some e'.
Proof.
  destruct o as [[ts s]| |]; try done. cbn. destruct (newest s) as [[l e]|] eqn:En; [|done].
  destruct (follow order ts s) as [[ts' s']| |] eqn:E'; try done.
  intros [e' He']%bool_decide_eq_true. by exists ts, s, l, e, ts', s', e'.
Qed.

Lemma published_parts_fixed_witness :
  exists ts s ts' s' l e e', follow (turn 0 56) load_then_sync ready_to_load = Returns (ts, s) /\
    follow (turn 1 30) ts s = Returns (ts', s') /\ cs_entries s !! l = Some e /\
    cs_entries s' !! l = Some e' /\ same_parts e e'.
Proof.
  destruct (still_there_parts (follow (turn 0 56) load_then_sync ready_to_load) (turn 1 30))
    as (ts & s & l & e & ts' & s' & e' & E & En & E' & He').
  { vm_compute. reflexivity. }
  destruct (newest_known s l e En) as [He Hl].
  exists ts, s, ts', s', l, e, e'. split_and!; [exact E|exact E'|exact He|exact He'|].
  apply (published_parts_fixed
    [Client [OpGet (Some (demo_id 0))]; Client [OpMarkDirty (Some (demo_id 0)); OpSync]]
    ready_to_load s s' ts ts' l e e').
  - apply ready_calm.
  - apply follow_steps with (turn 0 56), E.
  - exact Hl.
  - apply follow_steps with (turn 1 30), E'.
  - exact He.
  - exact He'.
Defined.
