(* ===== verification/CacheClients.v ===== *)
(** * Clients of a shared cache

    Adaptive clients, that decide on each call by the results of the earlier
    ones, and what makes them [careful]: they give back only references they
    hold, write only into buffers of extents they hold, hold a bounded number
    of references at a time, and provide a device whose reads succeed. *)
From S2P Require Import Prelude Types CacheTypes CacheState Cache CacheLinks CacheWf CacheFacts CacheSpec CacheGet.
From S2P Require Import CacheSystem CacheLifecycle CacheThreads CacheDiscipline CacheOrdered.

(** A device whose reads never fail. *)
Definition reads_succeed {D} (f : read_fn D) : Prop := forall h id n d, (f h id n d).1.1 = KES_SUCCESS.

(** ** Clients *)

(** A client decides on each call by the results of the earlier ones. *)
Inductive client (D : Type) :=
  | Done
  | Call (op : cache_op D) (k : cache_result -> client D).
Arguments Done {D}.
Arguments Call {D} op k.

(** A thread: a client that holds at most [most] references at a time, or a
    background thread. *)
Inductive task (D : Type) :=
  | Caller (most : nat) (c : client D)
  | Sweeper (rounds : nat).
Arguments Caller {D} most c.
Arguments Sweeper {D} rounds.

(** The extents a client holds, with their buffers. *)
Abbreviation holding := (list (kes_extent_id * loc)).

Section clients.
Context {D : Type}.
Implicit Types (held : holding).

Fixpoint client_prog (c : client D) : prog D () :=
  match c with
  | Done => Ret tt
  | Call op k => let* r := exec op in client_prog (k r)
  end.
Definition task_prog (t : task D) : prog D () :=
  match t with Caller _ c => client_prog c | Sweeper rounds => cache_bg_thread_func rounds end.

Definition is_for (id : kes_extent_id) (x : kes_extent_id * loc) : bool := kes_extent_equal x.1 id.
Fixpoint drop_one (id : kes_extent_id) held : holding :=
  match held with
  | [] => []
  | x :: held' => if is_for id x then held' else x :: drop_one id held'
  end.

(** What a client may do, and what it holds afterwards. *)
Definition may_call (most : nat) held (op : cache_op D) : Prop :=
  match op with
  | OpGet (Some id) => id_ok id /\ (length held < most)%nat
  | OpPut (Some id) => existsb (is_for id) held = true
  | OpSetCallbacks r _ _ => exists f, r = Some f /\ reads_succeed f
  | OpStore p bytes => exists id, (id, p) ∈ held /\ Z.of_nat (length bytes) <= extent_data_size id
  | _ => True
  end.
Definition holding_after held (op : cache_op D) (r : cache_result) : holding :=
  match op, r with
  | OpGet (Some id), RBuffer code (Some (Some p)) => if code =? KES_SUCCESS then (id, p) :: held else held
  | OpPut (Some id), _ => drop_one id held
  | _, _ => held
  end.
Fixpoint careful (most : nat) held (c : client D) : Prop :=
  match c with
  | Done => True
  | Call op k => may_call most held op /\ forall r, careful most (holding_after held op r) (k r)
  end.

(** The rights to claims a thread needs: for its references, and two for pins. *)
Definition task_need (t : task D) : nat := match t with Caller most _ => most + 2 | Sweeper _ => 2 end.
Definition task_ok (t : task D) : Prop := match t with Caller most c => careful most [] c | Sweeper _ => True end.

(** The whole population: every thread behaves, and the references and pins it
    may have at a time fit into the counters. *)
Record population_ok (tasks : list (task D)) : Prop := {
  po_tasks : Forall task_ok tasks;
  po_fits : Z.of_nat (sum_list (task_need <$> tasks)) < 2 ^ 32
}.

(** A cache that has just been created and given its callbacks. *)
Definition opened (cfg : kes_cache_config) (rd : read_fn D) (s1 : cstate D) : Prop :=
  exists s s0 wr sy r, no_cache s /\ run (kes_cache_create (Some cfg)) s = Returns (true, s0) /\
    run (kes_cache_set_io_callbacks true (Some rd) wr sy) s0 = Returns (r, s1) /\ reads_succeed rd.

(** What it looks like. *)
Record blank (s : cstate D) (c : kes_cache D) : Prop := {
  bl_cache : cs_cache s = Some c;
  bl_mask : c_bucket_mask c = 1023;
  bl_heads : c_heads c = replicate (Z.to_nat 1024) None;
  bl_mru : c_mru_head c = None;
  bl_tail : c_lru_tail c = None;
  bl_read : exists f, c_read_extent c = Some f /\ reads_succeed f;
  bl_entries : cs_entries s = ∅;
  bl_list : cs_list s = ∅;
  bl_hash : cs_hash s = ∅;
  bl_pins : cs_pins s = ∅;
  bl_bufs : cs_bufs s = ∅;
  bl_held : cs_held s = ∅
}.

Lemma opened_blank cfg rd s : opened cfg rd s -> exists c, blank s c.
Proof.
  intros (s1 & s0 & wr & sy & r & [] & Hc & Hs & Hrd). unfold kes_cache_create in Hc.
  destruct (_ || _); [done|]. destruct (decide _); [|done]. cbn in Hc.
  destruct (next_failure (cs_env s1)) as [[] v]; [done|]. cbn in Hc.
  destruct (next_failure v) as [[] v']; [done|]. injection Hc as <-. cbn in Hs. injection Hs as _ <-.
  eexists. by split; cbn; eauto.
Qed.

(** ** Intact lists *)

(** With this order of the LRU list and these chains, the pointers in memory
    are lists without repetition; every entry on them exists, is in the chain
    of its bucket (on the LRU list too unless it is still being loaded), is
    the only one for its extent, and has a buffer as large as the extent. *)
Record intact (s : cstate D) (order : list loc) (chain : Z -> list loc) : Prop := {
  in_ends : forall c, cs_cache s = Some c -> c_mru_head c = head order /\ c_lru_tail c = last order;
  in_lru : seg (cs_list s) None order None /\ NoDup order;
  in_heads : forall c i, cs_cache s = Some c -> 0 <= i < 1024 ->
    c_heads c !! Z.to_nat i = Some (head (chain i));
  in_hash : forall i, 0 <= i < 1024 -> seg (cs_hash s) None (chain i) None /\ NoDup (chain i);
  in_order : forall l, l ∈ order -> exists e, cs_entries s !! l = Some e /\ l ∈ chain (bucket (e_id e));
  in_chain : forall i l, 0 <= i < 1024 -> l ∈ chain i ->
    exists e, cs_entries s !! l = Some e /\ bucket (e_id e) = i /\ (l ∈ order \/ is_loading e = true) /\
      exists p b, e_data e = Some p /\ cs_bufs s !! p = Some b /\ e_data_size e <= Z.of_nat (length b);
  in_unique : forall i x y e e', 0 <= i < 1024 -> x ∈ chain i -> y ∈ chain i ->
    cs_entries s !! x = Some e -> cs_entries s !! y = Some e' ->
    kes_extent_equal (e_id e) (e_id e') = true -> x = y
}.

(** ** The threads follow the discipline *)

Lemma keeps_client (c : client D) : keeps (client_prog c) idle.
Proof.
  induction c as [|op k IH]; cbn [client_prog]; [done|]. eapply keeps_bind; [apply exec_keeps|done].
Qed.
Lemma keeps_task (t : task D) : keeps (task_prog t) idle.
Proof. destruct t as [most c|n]; [apply keeps_client|apply (keeps_program (Background n))]. Qed.

Lemma pool_start_tasks (tasks : list (task D)) s c :
  blank s c -> pool_inv (task_prog <$> tasks) s ((fun _ => idle) <$> tasks).
Proof.
  intros Hb. split.
  - apply Forall2_fmap, Forall_Forall2_diag, Forall_true. apply keeps_task.
  - split; [|intros l (e & He & _); by rewrite (bl_entries _ _ Hb), lookup_empty in He].
    intros x. rewrite (bl_held _ _ Hb), lookup_empty.
    induction tasks as [|t tasks [IHw IHr]]; [done|]. by split.
Qed.
End clients.
