(* ===== verification/CacheWp.v ===== *)
(** * Weakest preconditions for threads

    A program logic for the programs of [CacheState], in the separation logic
    of Iris: [wp I m Q] says that the thread [m], interleaved with others that
    respect the interpretation [I] of the shared state, never takes an
    undefined step, re-establishes [I] with every step, and ends with [Q].
    Programs are finite trees, so that [wp] is a recursive function and needs
    no step indexing.  [wp_adequate] turns proofs of all threads into a fact
    about every interleaving. *)
From iris.proofmode Require Import proofmode.
From iris.base_logic Require Import base_logic.
From iris.base_logic.lib Require Import own iprop.
From S2P Require Import Prelude Types CacheTypes CacheState Cache CacheWf CacheSystem CacheThreads.

Section wp.
Context {D : Type} {Σ : gFunctors} (I : cstate D -> iProp Σ).

(** What a step owes: no undefined behaviour now, and the interpretation with
    [R] afterwards. *)
Definition step_ok {X} (f : cstate D -> outcome (X * cstate D)) (R : X -> iProp Σ) : iProp Σ :=
  ∀ s, I s ==∗ ⌜f s ≠ Undef⌝ ∗ ∀ x s', ⌜f s = Returns (x, s')⌝ ==∗ I s' ∗ R x.

Fixpoint wp {A} (m : prog D A) (Q : A -> iProp Σ) : iProp Σ :=
  match m with
  | Ret a => Q a
  | Step f k => step_ok f (fun x => wp (k x) Q)
  end.

Lemma step_ok_wand {X} f (R R' : X -> iProp Σ) :
  step_ok f R -∗ (∀ x, R x -∗ R' x) -∗ step_ok f R'.
Proof.
  iIntros "Hf HR" (s) "Hs". iMod ("Hf" with "Hs") as "[$ Hf]". iIntros "!>" (x s') "E".
  iMod ("Hf" with "E") as "[$ HRx]". by iApply "HR".
Qed.

Lemma wp_wand {A} (m : prog D A) (Q Q' : A -> iProp Σ) :
  wp m Q -∗ (∀ a, Q a -∗ Q' a) -∗ wp m Q'.
Proof.
  iIntros "Hm HQ". iInduction m as [a|X f k] "IH"; cbn; [by iApply "HQ"|].
  iApply (step_ok_wand with "Hm"). iIntros (x) "Hx". by iApply ("IH" with "Hx").
Qed.

Lemma wp_seq {A B} (m : prog D A) (k : A -> prog D B) Q :
  wp m (fun a => wp (k a) Q) -∗ wp (pbind m k) Q.
Proof.
  iIntros "Hm". iInduction m as [a|X f g] "IH"; cbn; [done|].
  iApply (step_ok_wand with "Hm"). iIntros (x) "Hx". by iApply "IH".
Qed.

(** One step. *)
Lemma wp_act {X} f (Q : X -> iProp Σ) : step_ok f Q -∗ wp (act f) Q.
Proof. iIntros "Hf". iApply "Hf". Qed.

Lemma wp_reads {X} (f : cstate D -> option X) (Q : X -> iProp Σ) :
  (∀ s, I s ==∗ ∃ x, ⌜f s = Some x⌝ ∗ I s ∗ Q x) -∗ wp (reads f) Q.
Proof.
  iIntros "Hf". iApply wp_act. iIntros (s) "Hs". iMod ("Hf" with "Hs") as (x E) "[Hs HQ]". rw E.
  iSplitR; [done|]. iIntros "!>" (y s') "%E'". injection E' as <- <-. by iFrame.
Qed.

Lemma wp_writes (f : cstate D -> option (cstate D)) (Q : () -> iProp Σ) :
  (∀ s, I s ==∗ ∃ s', ⌜f s = Some s'⌝ ∗ I s' ∗ Q tt) -∗ wp (writes f) Q.
Proof.
  iIntros "Hf". iApply wp_act. iIntros (s) "Hs". iMod ("Hf" with "Hs") as (s1 E) "[Hs HQ]". rw E.
  iSplitR; [done|]. iIntros "!>" (y s') "%E'". injection E' as <- <-. by iFrame.
Qed.

(** A change of the ghost state along with the next step. *)
Lemma wp_ghost {A} (m : prog D A) (Q : A -> iProp Σ) :
  ended m = false -> (∀ s, I s ==∗ I s ∗ wp m Q) -∗ wp m Q.
Proof.
  intros Hm. destruct m as [a|X f k]; [done|]. iIntros "H" (s) "Hs".
  iMod ("H" with "Hs") as "[Hs Hw]". by iApply ("Hw" with "Hs").
Qed.

(** ** All threads *)

Definition threads_ok (ts : list (prog D ())) : iProp Σ := [∗ list] m ∈ ts, wp m (fun _ => True).

Lemma threads_step ts s ts' s' :
  pool_step (ts, s) (ts', s') -> I s -∗ threads_ok ts ==∗ I s' ∗ threads_ok ts'.
Proof.
  intros Hs. inversion Hs as [? ? i m m' ? Hi Hn]; subst. iIntros "Hs Hts".
  iDestruct (big_sepL_insert_acc with "Hts") as "[Hm Hts]"; [exact Hi|].
  destruct m as [a|X f k]; [done|]. cbn in Hn. cbn [wp].
  destruct (f s) as [[x s1]| |] eqn:E; [|done|done]. injection Hn as <- <-.
  iMod ("Hm" with "Hs") as "[_ Hm]". iMod ("Hm" with "[//]") as "[$ Hm]". iModIntro.
  iApply ("Hts" with "Hm").
Qed.

Lemma threads_steps ts s ts' s' :
  rtc pool_step (ts, s) (ts', s') -> I s -∗ threads_ok ts ==∗ I s' ∗ threads_ok ts'.
Proof.
  intros Hr. remember (ts, s) as c eqn:Ec. remember (ts', s') as c' eqn:Ec'.
  revert ts s Ec. induction Hr as [c|c [ts1 s1] c' Hs Hr IH]; intros ts s ->.
  - injection Ec' as -> ->. iIntros "$ $". done.
  - iIntros "Hs Hts". iMod (threads_step with "Hs Hts") as "[Hs Hts]"; [exact Hs|].
    by iApply (IH with "Hs Hts").
Qed.

Lemma threads_defined ts s : undefined ts s -> I s -∗ threads_ok ts ==∗ False.
Proof.
  iIntros ((i & m & Hi & Hm)) "Hs Hts".
  iDestruct (big_sepL_lookup with "Hts") as "Hw"; [exact Hi|].
  destruct m as [a|X f k]; [done|]. cbn in Hm. iMod ("Hw" with "Hs") as "[%Hf _]".
  by destruct (f s) as [[x s1]| |].
Qed.
End wp.

(** What the interpretation implies holds in every reachable state, where
    moreover no thread is about to do something undefined. *)
Theorem wp_adequate {D : Type} {Σ : gFunctors} (P : cstate D -> Prop) ts s ts' s' :
  (⊢ |==> ∃ I : cstate D -> iProp Σ, I s ∗ threads_ok I ts ∗ □ (∀ s1, I s1 -∗ ⌜P s1⌝)) ->
  rtc pool_step (ts, s) (ts', s') -> P s' /\ ~ undefined ts' s'.
Proof.
  intros Hstart Hr. split; [|intros Hu]; apply (pure_soundness (PROP := iPropI Σ)), uPred.bupd_soundness;
    try apply _; iMod Hstart as (I) "(Hs & Hts & #HP)";
    (iMod (threads_steps with "Hs Hts") as "[Hs Hts]"; [exact Hr|]).
  - by iApply "HP".
  - iMod (threads_defined with "Hs Hts") as "[]". exact Hu.
Qed.
