(* ===== verification/CacheGhost.v ===== *)
(** * What the threads of a cache own

    The ghost state with which [CacheWp] verifies the cache: who owns which
    memory, and the interpretation [shared] of the state.  The pointers proper
    -- LRU links, hash links, bucket heads, the ends of the LRU list -- belong
    to whoever holds the lock that protects them, and to the lock while it is
    free; the fields of an entry to its lock.  That an entry exists follows
    from a claim on it: a pin ([lookup_pins]), a reference ([ref_count]) or a
    wait ([cond_waiters]).  The counters in memory are exactly the claims
    threads own. *)
From iris.proofmode Require Import proofmode.
From iris.algebra Require Import auth gmultiset.
From iris.base_logic Require Import base_logic.
From iris.base_logic.lib Require Import own iprop ghost_map.
From S2P Require Import Prelude Types CacheTypes CacheState Cache CacheLinks CacheWf CacheFacts CacheClients.

(** ** Claims, statuses, identities *)

(** [CFree] is the right to one claim: there are fewer than [2^32] of them, so
    that no counter overflows. *)
Inductive claim := CFree | CPin (l : loc) | CRef (l : loc) | CWait (l : loc).
#[export] Instance claim_eq_dec : EqDecision claim.
Proof. solve_decision. Defined.
#[export] Instance claim_countable : Countable claim.
Proof.
  apply (inj_countable' (fun x => match x with
      | CFree => inl (inl tt) | CPin l => inl (inr l) | CRef l => inr (inl l) | CWait l => inr (inr l) end)
    (fun y => match y with
      | inl (inl _) => CFree | inl (inr l) => CPin l | inr (inl l) => CRef l | inr (inr l) => CWait l end)).
  by intros [].
Defined.

(** The entry a claim is on. *)
Definition claim_on (x : claim) : option loc :=
  match x with CFree => None | CPin l | CRef l | CWait l => Some l end.

(** [Private]: only one thread knows the entry (before it is published, and
    again before it is freed).  [Closed]: being evicted, its lock still held. *)
Inductive status := Private | Public | Closed.

(** What never changes in a published entry. *)
Record info := mkInfo { in_id : kes_extent_id; in_data : option loc; in_size : Z }.
Definition info_of (e : kes_extent_entry) : info := mkInfo (e_id e) (e_data e) (e_data_size e).

(** ** Facts about the state and the ghost state *)

Section pure.
Context {D : Type}.

Record cache_ok (c : option (kes_cache D)) (heads : gmap Z (option loc)) (ends : option loc * option loc)
    : Prop := {
  co_mask : forall k, c = Some k -> c_bucket_mask k = 1023;
  co_read : forall k, c = Some k -> exists f, c_read_extent k = Some f /\ reads_succeed f;
  co_ends : (fun k => (c_mru_head k, c_lru_tail k)) <$> c = Some ends;
  co_dom : forall i, is_Some (heads !! i) <-> 0 <= i < 1024;
  co_heads : forall k i p, c = Some k -> heads !! i = Some p -> c_heads k !! Z.to_nat i = Some p
}.

(** Exclusive holders ([locks]), and readers of buckets with the chain they
    are reading. *)
Record locks_ok (h : held) (locks : gmap lock_name ()) (readers : gmultiset (Z * list loc))
    (chains : gmap Z (list loc)) (st : gmap loc status) : Prop := {
  lo_excl : forall x, is_Some (locks !! x) <-> h !! x = Some 0%nat;
  lo_readers : forall i ch, (i, ch) ∈ readers -> chains !! i = Some ch;
  lo_count : forall i ch, chains !! i = Some ch ->
    multiplicity (i, ch) readers = match h !! LBucket i with Some (S n) => S n | _ => 0%nat end;
  lo_shared : forall x n, h !! x = Some (S n) -> exists i, x = LBucket i /\ is_Some (chains !! i);
  lo_entry : forall l, is_Some (h !! LEntry l) -> st !! l = Some Public \/ st !! l = Some Closed
}.

Record claims_ok (X : gmultiset claim) (st : gmap loc status) : Prop := {
  cl_few : Z.of_nat (size X) < 2 ^ 32;
  cl_public : forall x l, x ∈ X -> claim_on x = Some l -> st !! l = Some Public
}.

Definition pins_ok (pins : gmap loc Z) (es : gmap loc kes_extent_entry) (X : gmultiset claim) : Prop :=
  forall l, pins !! l = (fun _ => Z.of_nat (multiplicity (CPin l) X)) <$> es !! l.

Record entries_ok (es : gmap loc kes_extent_entry) (st : gmap loc status) (infos : gmap loc info)
    (listed : gmap loc ()) (X : gmultiset claim) : Prop := {
  eo_dom : forall l, is_Some (st !! l) <-> is_Some (es !! l);
  eo_ref : forall l e, es !! l = Some e -> st !! l = Some Public ->
    e_ref_count e = Z.of_nat (multiplicity (CRef l) X);
  eo_wait : forall l e, es !! l = Some e -> st !! l = Some Public ->
    e_cond_waiters e = Z.of_nat (multiplicity (CWait l) X);
  eo_info : forall l e, es !! l = Some e -> st !! l = Some Public -> infos !! l = Some (info_of e);
  eo_loading : forall l e, es !! l = Some e -> st !! l = Some Public -> listed !! l = None ->
    is_loading e = true /\ CRef l ∈ X
}.

(** The chains and the LRU order, as lists. *)
Record index_ok (chains : gmap Z (list loc)) (order : list loc) (st : gmap loc status)
    (infos : gmap loc info) (listed : gmap loc ()) : Prop := {
  io_dom : forall i, is_Some (chains !! i) <-> 0 <= i < 1024;
  io_chain : forall i ch l, chains !! i = Some ch -> l ∈ ch ->
    st !! l = Some Public /\ exists inf, infos !! l = Some inf /\ bucket (in_id inf) = i;
  io_nodup : forall i ch, chains !! i = Some ch -> NoDup ch;
  io_unique : forall i ch x y ix iy, chains !! i = Some ch -> x ∈ ch -> y ∈ ch ->
    infos !! x = Some ix -> infos !! y = Some iy -> kes_extent_equal (in_id ix) (in_id iy) = true -> x = y;
  io_public : forall l inf, st !! l = Some Public -> infos !! l = Some inf ->
    exists ch, chains !! bucket (in_id inf) = Some ch /\ l ∈ ch;
  io_order : forall l, l ∈ order <-> st !! l = Some Public /\ is_Some (listed !! l);
  io_order_nodup : NoDup order
}.

Definition fresh_ok (next : loc) (st : gmap loc status) (infos : gmap loc info) (listed : gmap loc ())
    (ls hs : gmap loc links) (bufs : gmap loc (list Z)) : Prop :=
  forall l, (next <= l)%positive -> st !! l = None /\ infos !! l = None /\ listed !! l = None /\
    ls !! l = None /\ hs !! l = None /\ bufs !! l = None.
End pure.

(** ** Ghost state *)

Class cacheG Σ := CacheG {
  #[export] cacheG_claims :: inG Σ (authR (gmultisetUR claim));
  #[export] cacheG_readers :: inG Σ (authR (gmultisetUR (Z * list loc)));
  #[export] cacheG_entries :: ghost_mapG Σ loc kes_extent_entry;
  #[export] cacheG_links :: ghost_mapG Σ loc links;
  #[export] cacheG_heads :: ghost_mapG Σ Z (option loc);
  #[export] cacheG_bufs :: ghost_mapG Σ loc nat;
  #[export] cacheG_status :: ghost_mapG Σ loc status;
  #[export] cacheG_chains :: ghost_mapG Σ Z (list loc);
  #[export] cacheG_infos :: ghost_mapG Σ loc info;
  #[export] cacheG_listed :: ghost_mapG Σ loc ();
  #[export] cacheG_locks :: ghost_mapG Σ lock_name ();
  #[export] cacheG_order :: ghost_mapG Σ () (list loc);
  #[export] cacheG_ends :: ghost_mapG Σ () (option loc * option loc)
}.

Record names := mkNames {
  n_claims : gname; n_readers : gname; n_entries : gname; n_list : gname; n_hash : gname;
  n_heads : gname; n_bufs : gname; n_status : gname; n_chains : gname; n_infos : gname;
  n_listed : gname; n_locks : gname; n_order : gname; n_ends : gname
}.

Section ghost.
Context {D : Type} `{!cacheG Σ} (γ : names).

(** What a thread can own: a claim, the right to read a chain, a lock; the
    identity and the presence in the LRU list of an entry are for everybody
    to know. *)
Definition claims (x : claim) : iProp Σ := own (n_claims γ) (◯ {[+ x +]}).
Definition credits (n : nat) : iProp Σ := [∗] replicate n (claims CFree).
Definition reading (i : Z) (ch : list loc) : iProp Σ := own (n_readers γ) (◯ {[+ (i, ch) +]}).
Definition locked (x : lock_name) : iProp Σ := x ↪[n_locks γ] tt.
Definition known (l : loc) (inf : info) : iProp Σ := l ↪[n_infos γ]□ inf.
Definition listed (l : loc) : iProp Σ := l ↪[n_listed γ]□ tt.

(** The fields of an entry, under its lock. *)
Definition entry_at (l : loc) (e : kes_extent_entry) : iProp Σ :=
  l ↪[n_entries γ] e ∗ l ↪[n_status γ] Public ∗ ⌜is_error e = true -> is_dirty e = true⌝.
(** A chain, under the lock of its bucket. *)
Definition nodes (γl : gname) (ls : list loc) : iProp Σ :=
  ∃ m, ([∗ map] l ↦ k ∈ m, l ↪[γl] k) ∗ ⌜seg m None ls None⌝ ∗ ⌜forall l, is_Some (m !! l) <-> l ∈ ls⌝.
Definition chain_at (i : Z) (ch : list loc) : iProp Σ :=
  i ↪[n_chains γ] ch ∗ i ↪[n_heads γ] head ch ∗ nodes (n_hash γ) ch.
(** The LRU list, under the cache lock. *)
Definition lru_at (order : list loc) : iProp Σ :=
  tt ↪[n_order γ] order ∗ tt ↪[n_ends γ] (head order, last order) ∗ nodes (n_list γ) order.
(** The buffer of an entry. *)
Definition buffer_at (inf : info) : iProp Σ :=
  ∃ p n, ⌜in_data inf = Some p⌝ ∗ ⌜in_size inf = extent_data_size (in_id inf)⌝ ∗
    ⌜in_size inf <= Z.of_nat n⌝ ∗ p ↪[n_bufs γ] n.

(** What the locks keep while nobody holds them. *)
Definition lru_kept (h : option nat) : iProp Σ :=
  match h with None => ∃ order, lru_at order | _ => True end.
Definition chain_kept (h : option nat) (i : Z) (ch : list loc) : iProp Σ :=
  match h with Some O => True | _ => chain_at i ch end.
Definition entry_kept (h : option nat) (l : loc) (b : status) : iProp Σ :=
  match b with
  | Public => (∃ inf, known l inf ∗ buffer_at inf) ∗
      match h with None => ∃ e, entry_at l e | _ => True end
  | _ => True
  end.

Definition shared_with (s : cstate D) X Y heads ends locks chains order st infos lsd : iProp Σ :=
  ⌜cache_ok (cs_cache s) heads ends⌝ ∗ ⌜locks_ok (cs_held s) locks Y chains st⌝ ∗
  ⌜claims_ok X st⌝ ∗ ⌜pins_ok (cs_pins s) (cs_entries s) X⌝ ∗
  ⌜entries_ok (cs_entries s) st infos lsd X⌝ ∗ ⌜index_ok chains order st infos lsd⌝ ∗
  ⌜fresh_ok (env_next (cs_env s)) st infos lsd (cs_list s) (cs_hash s) (cs_bufs s)⌝ ∗
  own (n_claims γ) (● X) ∗ own (n_readers γ) (● Y) ∗
  ghost_map_auth (n_entries γ) 1 (cs_entries s) ∗ ghost_map_auth (n_list γ) 1 (cs_list s) ∗
  ghost_map_auth (n_hash γ) 1 (cs_hash s) ∗ ghost_map_auth (n_heads γ) 1 heads ∗
  ghost_map_auth (n_bufs γ) 1 ((fun b : list Z => length b) <$> cs_bufs s) ∗
  ghost_map_auth (n_status γ) 1 st ∗ ghost_map_auth (n_chains γ) 1 chains ∗
  ghost_map_auth (n_infos γ) 1 infos ∗ ghost_map_auth (n_listed γ) 1 lsd ∗
  ghost_map_auth (n_locks γ) 1 locks ∗ ghost_map_auth (n_order γ) 1 {[ tt := order ]} ∗
  ghost_map_auth (n_ends γ) 1 {[ tt := ends ]} ∗
  lru_kept (cs_held s !! LCache) ∗
  ([∗ map] i ↦ ch ∈ chains, chain_kept (cs_held s !! LBucket i) i ch) ∗
  ([∗ map] l ↦ b ∈ st, entry_kept (cs_held s !! LEntry l) l b) ∗
  [∗ map] l ↦ _ ∈ lsd, listed l ∗ ∃ inf, known l inf.

Definition shared (s : cstate D) : iProp Σ :=
  ∃ X Y heads ends locks chains order st infos lsd,
    shared_with s X Y heads ends locks chains order st infos lsd.
End ghost.
