(* ===== verification/CacheRules.v ===== *)
(** * Rules for the steps of the cache

    Claims, what shows that an entry is published, and one rule per access to
    the cache structure, to links, to entries and to pins, for the
    interpretation of [CacheGhost]. *)
From iris.proofmode Require Import proofmode.
From iris.algebra Require Import auth gmultiset.
From iris.base_logic Require Import base_logic.
From iris.base_logic.lib Require Import own iprop ghost_map.
From S2P Require Import Prelude Types CacheTypes CacheState Cache CacheLinks CacheWf CacheFacts.
From S2P Require Import CacheSystem CacheClients CacheWp CacheGhost.

(** Opens and closes the interpretation. *)
Ltac open_with :=
  iDestruct "S" as "(%Hc & %Hl & %Hcl & %Hp & %He & %Hi & %Hf & SX & SY & Sent & Slist & Shash & Sheads & Sbufs & Sst & Sch & Sinf & Slsd & Slk & Sord & Send & Klru & Kch & Kent & Klsd)".
Ltac open_shared :=
  iDestruct "S" as (X Y heads ends locks chains order st infos lsd) "S"; open_with.
(** With the ghost state as given. *)
Ltac close_with X Y heads ends locks chains order st infos lsd :=
  iExists X, Y, heads, ends, locks, chains, order, st, infos, lsd; unfold shared_with;
  cbn [cs_cache cs_entries cs_list cs_hash cs_pins cs_bufs cs_held cs_threads cs_env cs_dev
       set_cache set_entries set_list set_hash set_pins set_bufs set_locks set_threads set_env set_dev].

Section rules.
Context {D : Type} `{!cacheG Σ} (γ : names).
Implicit Types (s : cstate D) (l : loc) (e : kes_extent_entry) (ch : list loc)
  (chains : gmap Z (list loc)) (st : gmap loc status).
Local Abbreviation W := (wp (shared (D := D) γ)).

(** ** Ghost state *)

Lemma claim_in X x : own (n_claims γ) (● X) -∗ claims γ x -∗ ⌜exists X', X = {[+ x +]} ⊎ X'⌝.
Proof.
  iIntros "HX Hx". iCombine "HX Hx" gives %[Hin _]%auth_both_valid_discrete. iPureIntro.
  apply gmultiset_included, gmultiset_disj_union_difference in Hin. by eexists.
Qed.
Lemma claim_swap X x y :
  own (n_claims γ) (● ({[+ x +]} ⊎ X)) -∗ claims γ x ==∗ own (n_claims γ) (● ({[+ y +]} ⊎ X)) ∗ claims γ y.
Proof.
  iIntros "HX Hx". rw -own_op. iApply (own_update_2 with "HX Hx").
  apply auth_update, gmultiset_local_update. multiset_solver.
Qed.
Lemma reading_in Y i ch : own (n_readers γ) (● Y) -∗ reading γ i ch -∗ ⌜(i, ch) ∈ Y⌝.
Proof.
  iIntros "HY Hr". iCombine "HY Hr" gives %[Hin _]%auth_both_valid_discrete. iPureIntro.
  apply gmultiset_included in Hin. multiset_solver.
Qed.
Lemma reading_new Y i ch :
  own (n_readers γ) (● Y) ==∗ own (n_readers γ) (● ({[+ (i, ch) +]} ⊎ Y)) ∗ reading γ i ch.
Proof.
  iIntros "HY". rw -own_op. iApply (own_update with "HY").
  apply auth_update_alloc, gmultiset_local_update. multiset_solver.
Qed.
Lemma reading_end Y i ch :
  own (n_readers γ) (● ({[+ (i, ch) +]} ⊎ Y)) -∗ reading γ i ch ==∗ own (n_readers γ) (● Y).
Proof.
  iIntros "HY Hr". iApply (own_update_2 with "HY Hr").
  apply auth_update_dealloc, gmultiset_local_update. multiset_solver.
Qed.

(** ** Evidence that an entry is published *)

Class Shows (P : iProp Σ) (l : loc) : Prop :=
  shows s X Y heads ends locks chains order st infos lsd :
    shared_with γ s X Y heads ends locks chains order st infos lsd -∗ P -∗ ⌜st !! l = Some Public⌝.

#[export] Instance shows_claim x l : TCEq (claim_on x) (Some l) -> Shows (claims γ x) l.
Proof.
  rw TCEq_eq. iIntros (Hx s X Y heads ends locks chains order st infos lsd)
    "(% & % & %Hcl & % & % & % & % & SX & _) Hx".
  iDestruct (claim_in with "SX Hx") as %[X' ->]. iPureIntro.
  apply (cl_public _ _ Hcl x); [multiset_solver|done].
Qed.
#[export] Instance shows_status l : Shows (l ↪[n_status γ] Public) l.
Proof.
  iIntros (s X Y heads ends locks chains order st infos lsd)
    "(% & % & % & % & % & % & % & _ & _ & _ & _ & _ & _ & _ & Sst & _) Hx".
  by iApply (ghost_map_lookup with "Sst Hx").
Qed.
#[export] Instance shows_entry l e : Shows (entry_at γ l e) l.
Proof.
  iIntros (s X Y heads ends locks chains order st infos lsd) "S (_ & Hst & _)".
  by iApply (shows with "S Hst").
Qed.
Lemma shows_reading i ch l : l ∈ ch -> Shows (reading γ i ch) l.
Proof.
  intros Hin. iIntros (s X Y heads ends locks chains order st infos lsd)
    "(% & %Hl & % & % & % & %Hi & % & _ & SY & _) Hr".
  iDestruct (reading_in with "SY Hr") as %Hr. iPureIntro.
  apply (io_chain _ _ _ _ _ Hi i ch l); [by apply (lo_readers _ _ _ _ _ Hl)|done].
Qed.
Lemma shows_chain i ch l : l ∈ ch -> Shows (chain_at γ i ch) l.
Proof.
  intros Hin. iIntros (s X Y heads ends locks chains order st infos lsd)
    "(% & % & % & % & % & %Hi & % & _ & _ & _ & _ & _ & _ & _ & _ & Sch & _) (Hch & _)".
  iDestruct (ghost_map_lookup with "Sch Hch") as %E. iPureIntro. by apply (io_chain _ _ _ _ _ Hi i ch).
Qed.
Lemma shows_lru order0 l : l ∈ order0 -> Shows (lru_at γ order0) l.
Proof.
  intros Hin. iIntros (s X Y heads ends locks chains order st infos lsd)
    "(% & % & % & % & % & %Hi & % & _ & _ & _ & _ & _ & _ & _ & _ & _ & _ & _ & _ & Sord & _) (Ho & _)".
  iDestruct (ghost_map_lookup with "Sord Ho") as %E. rw lookup_singleton_eq in E. injection E as ->.
  iPureIntro. by apply (io_order _ _ _ _ _ Hi).
Qed.

(** A published entry exists, and its parts are known. *)
Lemma public_entry P l s :
  Shows P l -> shared γ s -∗ P -∗
  ∃ e, ⌜cs_entries s !! l = Some e⌝ ∗ known γ l (info_of e).
Proof.
  intros HP. iIntros "S HP". open_shared.
  iAssert ⌜st !! l = Some Public⌝%I as %Hst.
  { iApply (HP s with "[-HP] HP"). unfold shared_with. iFrame "∗%". }
  destruct (proj1 (eo_dom _ _ _ _ _ He l)) as [e Hle]; [by eexists|]. iExists e. iSplit; [done|].
  iDestruct (big_sepM_lookup _ st l Public with "Kent") as "[(%inf & #Hinf & _) _]"; [exact Hst|].
  iDestruct (ghost_map_lookup with "Sinf Hinf") as %E.
  rw (eo_info _ _ _ _ _ He l e Hle Hst) in E. injection E as ->. done.
Qed.

(** ** The cache structure *)

Definition usual (c : kes_cache D) : Prop :=
  c_bucket_mask c = 1023 /\ exists f, c_read_extent c = Some f /\ reads_succeed f.

Lemma cache_there c heads ends :
  cache_ok c heads ends -> exists k, c = Some k /\ usual k /\ ends = (c_mru_head k, c_lru_tail k).
Proof.
  intros [H1 H2 H3 _ _]. apply fmap_Some in H3 as (k & -> & Hk). exists k.
  split; [done|]. split; [split; [by apply H1|by apply H2]|done].
Qed.

Lemma wp_load_cache Q : (∀ c, ⌜usual c⌝ -∗ Q c) -∗ W load_cache Q.
Proof.
  iIntros "HQ". iApply wp_reads. iIntros (s) "S".
  iAssert ⌜exists c, cs_cache s = Some c /\ usual c⌝%I as %(c & E & Hu).
  { open_shared. iPureIntro. destruct (cache_there _ _ _ Hc) as (c & E & Hu & _). by exists c. }
  iExists c. iFrame "S". iSplitR; [done|]. by iApply "HQ".
Qed.

(** With its ends, for the holder of the cache lock. *)
Lemma wp_load_cache_ends h t Q :
  tt ↪[n_ends γ] (h, t) -∗
  (∀ c, ⌜usual c /\ c_mru_head c = h /\ c_lru_tail c = t⌝ -∗ tt ↪[n_ends γ] (h, t) -∗ Q c) -∗
  W load_cache Q.
Proof.
  iIntros "He HQ". iApply wp_reads. iIntros (s) "S".
  iAssert ⌜exists c, cs_cache s = Some c /\ usual c /\ c_mru_head c = h /\ c_lru_tail c = t⌝%I
    as %(c & E & Hu).
  { open_shared. iDestruct (ghost_map_lookup with "Send He") as %E1. iPureIntro.
    rw lookup_singleton_eq in E1. injection E1 as ->.
    destruct (cache_there _ _ _ Hc) as (c & E & Hu & Heq). injection Heq as -> ->. by exists c. }
  iExists c. iFrame "S". iSplitR; [done|]. iApply ("HQ" with "[//] He").
Qed.
Lemma wp_load_cache_lru order0 Q :
  lru_at γ order0 -∗
  (∀ c, ⌜usual c /\ c_mru_head c = head order0 /\ c_lru_tail c = last order0⌝ -∗ lru_at γ order0 -∗ Q c) -∗
  W load_cache Q.
Proof.
  iIntros "(Ho & He & Hn) HQ". iApply (wp_load_cache_ends with "He"). iIntros (c) "% He".
  iApply ("HQ" with "[//]"). iFrame.
Qed.

(** Changes of fields that are not pointers. *)
Definition plain (h : kes_cache D -> kes_cache D) : Prop :=
  forall c, c_bucket_mask (h c) = c_bucket_mask c /\ c_heads (h c) = c_heads c /\
    c_mru_head (h c) = c_mru_head c /\ c_lru_tail (h c) = c_lru_tail c /\
    (c_read_extent (h c) = c_read_extent c \/
     exists f, c_read_extent (h c) = Some f /\ reads_succeed f).

Lemma wp_modify_cache h Q : plain h -> Q tt -∗ W (modify_cache h) Q.
Proof.
  intros Hh. iIntros "HQ". iApply wp_writes. iIntros (s) "S". open_shared.
  destruct (cache_there _ _ _ Hc) as (c & E & _). rw E in Hc. rw E. cbn. iExists _. iSplitR; [done|].
  iFrame "HQ". iModIntro. close_with X Y heads ends locks chains order st infos lsd. iFrame "∗%".
  iPureIntro. destruct Hc as [H1 H2 H3 H4 H5]. destruct (Hh c) as (M & Hd & Mr & Lt & Rd).
  split; [..|done|].
  - intros k [= <-]. rw M. by apply H1.
  - intros k [= <-]. destruct Rd as [->|Rd]; [by apply H2|done].
  - cbn in *. by rw Mr Lt.
  - intros k i p [= <-]. rw Hd. by apply H5.
Qed.

Lemma wp_set_ends h p p' Q :
  (forall c, c_bucket_mask (h c) = c_bucket_mask c /\ c_heads (h c) = c_heads c /\
    c_read_extent (h c) = c_read_extent c /\
    ((c_mru_head c, c_lru_tail c) = p -> (c_mru_head (h c), c_lru_tail (h c)) = p')) ->
  tt ↪[n_ends γ] p -∗ (tt ↪[n_ends γ] p' -∗ Q tt) -∗ W (modify_cache h) Q.
Proof.
  intros Hh. iIntros "Hend HQ". iApply wp_writes. iIntros (s) "S". open_shared.
  iDestruct (ghost_map_lookup with "Send Hend") as %E1. rw lookup_singleton_eq in E1. injection E1 as ->.
  iMod (ghost_map_update p' with "Send Hend") as "[Send Hend]". rw insert_singleton_eq.
  destruct (cache_there _ _ _ Hc) as (c & E & _ & Hends). rw E in Hc. rw E. cbn. iExists _. iSplitR; [done|].
  iSplitR "HQ Hend"; [|by iApply "HQ"]. iModIntro.
  close_with X Y heads p' locks chains order st infos lsd. iFrame "∗%".
  iPureIntro. destruct Hc as [H1 H2 H3 H4 H5]. destruct (Hh c) as (M & Hd & Rd & Hp'). split; [..|done|].
  - intros k [= <-]. rw M. by apply H1.
  - intros k [= <-]. rw Rd. by apply H2.
  - cbn. rw Hp'; done.
  - intros k i q [= <-]. rw Hd. by apply H5.
Qed.
Lemma wp_set_mru p h t Q :
  tt ↪[n_ends γ] (h, t) -∗ (tt ↪[n_ends γ] (p, t) -∗ Q tt) -∗ W (modify_cache (cache_set_mru p)) Q.
Proof. apply wp_set_ends. intros c. cbn. split_and!; [done..|]. by intros [= <- <-]. Qed.
Lemma wp_set_tail p h t Q :
  tt ↪[n_ends γ] (h, t) -∗ (tt ↪[n_ends γ] (h, p) -∗ Q tt) -∗ W (modify_cache (cache_set_tail p)) Q.
Proof. apply wp_set_ends. intros c. cbn. split_and!; [done..|]. by intros [= <- <-]. Qed.

(** ** Links and bucket heads, by their owner *)

Lemma wp_load_list l k Q : l ↪[n_list γ] k -∗ (l ↪[n_list γ] k -∗ Q k) -∗ W (load_list l) Q.
Proof.
  iIntros "Hk HQ". iApply wp_reads. iIntros (s) "S".
  iAssert ⌜cs_list s !! l = Some k⌝%I as %E.
  { open_shared. by iApply (ghost_map_lookup with "Slist Hk"). }
  iExists k. iFrame "S". iSplitR; [done|]. by iApply "HQ".
Qed.
Lemma wp_load_hash l k Q : l ↪[n_hash γ] k -∗ (l ↪[n_hash γ] k -∗ Q k) -∗ W (load_hash l) Q.
Proof.
  iIntros "Hk HQ". iApply wp_reads. iIntros (s) "S".
  iAssert ⌜cs_hash s !! l = Some k⌝%I as %E.
  { open_shared. by iApply (ghost_map_lookup with "Shash Hk"). }
  iExists k. iFrame "S". iSplitR; [done|]. by iApply "HQ".
Qed.

Lemma fresh_links next st infos lsd ls hs bufs l k :
  fresh_ok next st infos lsd ls hs bufs -> is_Some (ls !! l) ->
  fresh_ok next st infos lsd (<[l := k]> ls) hs bufs.
Proof.
  intros H [k0 Hl] y Hy. destruct (H y Hy) as (? & ? & ? & Hn & ? & ?). split_and!; try done.
  rw lookup_insert_ne; [done|]. intros ->. congruence.
Qed.
Lemma fresh_hash next st infos lsd ls hs bufs l k :
  fresh_ok next st infos lsd ls hs bufs -> is_Some (hs !! l) ->
  fresh_ok next st infos lsd ls (<[l := k]> hs) bufs.
Proof.
  intros H [k0 Hl] y Hy. destruct (H y Hy) as (? & ? & ? & ? & Hn & ?). split_and!; try done.
  rw lookup_insert_ne; [done|]. intros ->. congruence.
Qed.

Lemma wp_change_list l f k Q :
  l ↪[n_list γ] k -∗ (l ↪[n_list γ] (f k) -∗ Q tt) -∗
  W (writes (fun s => k ← cs_list s !! l; Some (set_list (<[l := f k]> (cs_list s)) s))) Q.
Proof.
  iIntros "Hk HQ". iApply wp_writes. iIntros (s) "S". open_shared.
  iDestruct (ghost_map_lookup with "Slist Hk") as %E. rw E. cbn. iExists _. iSplitR; [done|].
  iMod (ghost_map_update (f k) with "Slist Hk") as "[Slist Hk]".
  iSplitR "HQ Hk"; [|by iApply "HQ"]. iModIntro.
  close_with X Y heads ends locks chains order st infos lsd. iFrame "∗%".
  iPureIntro. apply fresh_links; [done|by eexists].
Qed.
Lemma wp_change_hash l f k Q :
  l ↪[n_hash γ] k -∗ (l ↪[n_hash γ] (f k) -∗ Q tt) -∗
  W (writes (fun s => k ← cs_hash s !! l; Some (set_hash (<[l := f k]> (cs_hash s)) s))) Q.
Proof.
  iIntros "Hk HQ". iApply wp_writes. iIntros (s) "S". open_shared.
  iDestruct (ghost_map_lookup with "Shash Hk") as %E. rw E. cbn. iExists _. iSplitR; [done|].
  iMod (ghost_map_update (f k) with "Shash Hk") as "[Shash Hk]".
  iSplitR "HQ Hk"; [|by iApply "HQ"]. iModIntro.
  close_with X Y heads ends locks chains order st infos lsd. iFrame "∗%".
  iPureIntro. apply fresh_hash; [done|by eexists].
Qed.
Lemma wp_set_list_next l p k Q :
  l ↪[n_list γ] k -∗ (l ↪[n_list γ] (with_next p k) -∗ Q tt) -∗ W (set_list_next l p) Q.
Proof. apply (wp_change_list l (with_next p)). Qed.
Lemma wp_set_list_prev l p k Q :
  l ↪[n_list γ] k -∗ (l ↪[n_list γ] (with_prev p k) -∗ Q tt) -∗ W (set_list_prev l p) Q.
Proof. apply (wp_change_list l (with_prev p)). Qed.
Lemma wp_set_hash_next l p k Q :
  l ↪[n_hash γ] k -∗ (l ↪[n_hash γ] (with_next p k) -∗ Q tt) -∗ W (set_hash_next l p) Q.
Proof. apply (wp_change_hash l (with_next p)). Qed.
Lemma wp_set_hash_prev l p k Q :
  l ↪[n_hash γ] k -∗ (l ↪[n_hash γ] (with_prev p k) -∗ Q tt) -∗ W (set_hash_prev l p) Q.
Proof. apply (wp_change_hash l (with_prev p)). Qed.

Lemma wp_load_head i p Q :
  i ↪[n_heads γ] p -∗ (i ↪[n_heads γ] p -∗ Q p) -∗ W (load_head i) Q.
Proof.
  iIntros "Hp HQ". iApply wp_reads. iIntros (s) "S".
  iAssert ⌜(c ← cs_cache s; c_heads c !! Z.to_nat i) = Some p⌝%I as %E.
  { open_shared. iDestruct (ghost_map_lookup with "Sheads Hp") as %E. iPureIntro.
    destruct (cache_there _ _ _ Hc) as (c & Hcs & _). rw Hcs. cbn.
    by apply (co_heads _ _ _ Hc c i p). }
  iExists p. iFrame "S". iSplitR; [done|]. by iApply "HQ".
Qed.
Lemma wp_set_head i p (q : option loc) Q :
  i ↪[n_heads γ] q -∗ (i ↪[n_heads γ] p -∗ Q tt) -∗ W (set_head i p) Q.
Proof.
  iIntros "Hq HQ". iApply wp_writes. iIntros (s) "S". open_shared.
  iDestruct (ghost_map_lookup with "Sheads Hq") as %E.
  iMod (ghost_map_update p with "Sheads Hq") as "[Sheads Hq]".
  destruct (cache_there _ _ _ Hc) as (c & Hcs & _). rw Hcs in Hc. rw Hcs. cbn.
  pose proof (co_heads _ _ _ Hc c i q eq_refl E) as Hh. rw Hh. cbn. iExists _. iSplitR; [done|].
  iSplitR "HQ Hq"; [|by iApply "HQ"]. iModIntro.
  close_with X Y (<[i := p]> heads) ends locks chains order st infos lsd. iFrame "∗%".
  iPureIntro. destruct Hc as [H1 H2 H3 H4 H5]. split.
  - intros k [= <-]. exact (H1 c eq_refl).
  - intros k [= <-]. exact (H2 c eq_refl).
  - done.
  - intros j. rw lookup_insert_is_Some'. split; [intros [<-|Hj]; apply H4; [by eexists|done]|].
    intros Hj. right. by apply H4.
  - intros k j r [= <-]. cbn. assert (0 <= i < 1024) as Hir by (apply H4; by eexists).
    intros [[<- <-]|[Hne Hj]]%lookup_insert_Some.
    + by apply list_lookup_insert_eq, lookup_lt_Some with q.
    + assert (0 <= j < 1024) as Hjr by (apply H4; by eexists).
      rw list_lookup_insert_ne; [by apply (H5 c)|lia].
Qed.

(** ** Entries *)

Lemma wp_load_entry_own l e Q : l ↪[n_entries γ] e -∗ (l ↪[n_entries γ] e -∗ Q e) -∗ W (load_entry l) Q.
Proof.
  iIntros "He HQ". iApply wp_reads. iIntros (s) "S".
  iAssert ⌜cs_entries s !! l = Some e⌝%I as %E.
  { open_shared. by iApply (ghost_map_lookup with "Sent He"). }
  iExists e. iFrame "S". iSplitR; [done|]. by iApply "HQ".
Qed.
Lemma wp_load_entry_at l e Q : entry_at γ l e -∗ (entry_at γ l e -∗ Q e) -∗ W (load_entry l) Q.
Proof.
  iIntros "(He & Hst & Hok) HQ". iApply (wp_load_entry_own with "He"). iIntros "He". iApply "HQ". iFrame.
Qed.
(** Without the entry's lock: only what never changes. *)
Lemma wp_load_entry_public P l Q :
  Shows P l -> P -∗ (∀ e, known γ l (info_of e) -∗ P -∗ Q e) -∗ W (load_entry l) Q.
Proof.
  intros HP. iIntros "HP HQ". iApply wp_reads. iIntros (s) "S".
  iDestruct (public_entry with "S HP") as "#(%e & %E & K)". iExists e. iFrame "S".
  iSplitR; [done|]. by iApply ("HQ" with "K HP").
Qed.

Lemma wp_modify_private l f e Q :
  l ↪[n_entries γ] e -∗ l ↪[n_status γ] Private -∗
  (l ↪[n_entries γ] f e -∗ l ↪[n_status γ] Private -∗ Q tt) -∗ W (modify_entry l f) Q.
Proof.
  iIntros "Hent Hst HQ". iApply wp_writes. iIntros (s) "S". open_shared.
  iDestruct (ghost_map_lookup with "Sent Hent") as %E. rw E. cbn. iExists _. iSplitR; [done|].
  iDestruct (ghost_map_lookup with "Sst Hst") as %Est.
  iMod (ghost_map_update (f e) with "Sent Hent") as "[Sent Hent]".
  iSplitR "HQ Hent Hst"; [|by iApply ("HQ" with "Hent Hst")]. iModIntro.
  close_with X Y heads ends locks chains order st infos lsd. iFrame "∗%". iPureIntro. split.
  - intros y. rw (Hp y). destruct (decide (l = y)) as [<-|Hne].
    + by rw lookup_insert_eq E.
    + by rw lookup_insert_ne.
  - destruct He as [H1 H2 H3 H4 H5]. split; [|intros y e' [[<- <-]|[_ Hy]]%lookup_insert_Some Hpub;
      [congruence|eauto]..].
    intros y. rw H1 lookup_insert_is_Some'. split; [by right|]. intros [<-|Hy]; [by eexists|done].
Qed.

(** Under the entry's lock, one claim at most being exchanged for another. *)
Record allowed (e e' : kes_extent_entry) (ref wait : Z) (seen : bool) : Prop := {
  al_info : info_of e' = info_of e;
  al_flags : is_error e' = true -> is_dirty e' = true;
  al_ref : e_ref_count e' = ref;
  al_wait : e_cond_waiters e' = wait;
  al_loading : seen = false -> is_loading e = true -> is_loading e' = true
}.
Definition seen_in (seen : bool) l : iProp Σ := (if seen then listed γ l else True)%I.
#[export] Instance seen_in_persistent seen l : Persistent (seen_in seen l).
Proof. destruct seen; apply _. Qed.

Lemma entries_modify es st infos lsd X X' l e e' seen :
  entries_ok es st infos lsd X -> es !! l = Some e -> st !! l = Some Public ->
  allowed e e' (Z.of_nat (multiplicity (CRef l) X')) (Z.of_nat (multiplicity (CWait l) X')) seen ->
  (seen = true -> is_Some (lsd !! l)) -> (seen = false -> CRef l ∈ X -> CRef l ∈ X') ->
  (forall y, y ≠ l -> multiplicity (CRef y) X' = multiplicity (CRef y) X /\
    multiplicity (CWait y) X' = multiplicity (CWait y) X) ->
  entries_ok (<[l := e']> es) st infos lsd X'.
Proof.
  intros [H1 H2 H3 H4 H5] Hl Hst [A1 A2 A3 A4 A5] Hseen Href Hother. split.
  - intros y. rw H1 lookup_insert_is_Some'. split; [by right|]. intros [<-|Hy]; [by eexists|done].
  - intros y d [[<- <-]|[Hne Hy]]%lookup_insert_Some Hp; [done|].
    destruct (Hother y) as [-> _]; [done|]. by apply H2.
  - intros y d [[<- <-]|[Hne Hy]]%lookup_insert_Some Hp; [done|].
    destruct (Hother y) as [_ ->]; [done|]. by apply H3.
  - intros y d [[<- <-]|[Hne Hy]]%lookup_insert_Some Hp; [rw A1|]; by apply H4.
  - intros y d [[<- <-]|[Hne Hy]]%lookup_insert_Some Hp Hu.
    + destruct seen; [destruct (Hseen eq_refl); congruence|].
      destruct (H5 l e Hl Hp Hu). split; [by apply A5|by apply Href].
    + destruct (H5 y d Hy Hp Hu) as [? Hin]. split; [done|].
      apply elem_of_multiplicity. destruct (Hother y) as [-> _]; [done|]. by apply elem_of_multiplicity.
Qed.
Lemma pins_modify pins es X X' l e e' :
  pins_ok pins es X -> es !! l = Some e ->
  (forall y, multiplicity (CPin y) X' = multiplicity (CPin y) X) -> pins_ok pins (<[l := e']> es) X'.
Proof.
  intros Hp Hl Hx y. rw (Hp y) (Hx y). destruct (decide (l = y)) as [<-|Hne].
  - by rw lookup_insert_eq Hl.
  - by rw lookup_insert_ne.
Qed.

Lemma wp_modify_at l f e seen Q :
  allowed e (f e) (e_ref_count e) (e_cond_waiters e) seen ->
  entry_at γ l e -∗ seen_in seen l -∗ (entry_at γ l (f e) -∗ Q tt) -∗ W (modify_entry l f) Q.
Proof.
  intros Ha. iIntros "(Hent & Hst & %Hfl) #Hseen HQ". iApply wp_writes. iIntros (s) "S". open_shared.
  iDestruct (ghost_map_lookup with "Sent Hent") as %E. rw E. cbn. iExists _. iSplitR; [done|].
  iDestruct (ghost_map_lookup with "Sst Hst") as %Est.
  iAssert ⌜seen = true -> is_Some (lsd !! l)⌝%I as %Hsn.
  { iIntros (->). iDestruct (ghost_map_lookup with "Slsd Hseen") as %El. iPureIntro. by eexists. }
  iMod (ghost_map_update (f e) with "Sent Hent") as "[Sent Hent]".
  iSplitR "HQ Hent Hst"; [|iApply "HQ"; iFrame; iPureIntro; by apply (al_flags _ _ _ _ _ Ha)]. iModIntro.
  close_with X Y heads ends locks chains order st infos lsd. iFrame "∗%". iPureIntro. split.
  - by eapply pins_modify.
  - eapply entries_modify; [done..| |done|done|done].
    by rw -(eo_ref _ _ _ _ _ He l e E Est) -(eo_wait _ _ _ _ _ He l e E Est).
Qed.

(** Exchanging a claim. *)
Definition one_if (x y : claim) : Z := if decide (x = y) then 1 else 0.

Lemma mult_plus x y X : Z.of_nat (multiplicity y ({[+ x +]} ⊎ X)) = one_if x y + Z.of_nat (multiplicity y X).
Proof.
  unfold one_if. rw multiplicity_disj_union. case_decide as Hxy.
  - subst. rw multiplicity_singleton_eq. lia.
  - rw multiplicity_singleton_ne; [lia|by intros ->].
Qed.
Lemma mult_swap x y z X :
  one_if x z = one_if y z -> multiplicity z ({[+ y +]} ⊎ X) = multiplicity z ({[+ x +]} ⊎ X).
Proof. intros H. apply Nat2Z.inj. rw !mult_plus. by rw H. Qed.
Lemma mult_le_size (y : claim) X : Z.of_nat (multiplicity y X) <= Z.of_nat (size X).
Proof.
  induction X as [|x X IH] using gmultiset_ind; [by rw multiplicity_empty|].
  rw mult_plus gmultiset_size_disj_union gmultiset_size_singleton. unfold one_if. case_decide; lia.
Qed.
(** No counter is about to overflow, or to drop below zero. *)
Lemma mult_range x y X st :
  claims_ok ({[+ x +]} ⊎ X) st ->
  one_if x y <= Z.of_nat (multiplicity y ({[+ x +]} ⊎ X)) < 2 ^ 32 - (1 - one_if x y).
Proof.
  intros [Hf _]. rw mult_plus. pose proof (mult_le_size y X).
  rw gmultiset_size_disj_union gmultiset_size_singleton in Hf. unfold one_if in *. case_decide; lia.
Qed.
Lemma claims_swap_ok x y X st :
  claims_ok ({[+ x +]} ⊎ X) st -> (forall l, claim_on y = Some l -> st !! l = Some Public) ->
  claims_ok ({[+ y +]} ⊎ X) st.
Proof.
  intros [H1 H2] Hy. split.
  - rw gmultiset_size_disj_union gmultiset_size_singleton.
    rw gmultiset_size_disj_union gmultiset_size_singleton in H1. done.
  - intros z l [->%gmultiset_elem_of_singleton|Hz]%gmultiset_elem_of_disj_union Hl; [by apply Hy|].
    apply (H2 z); [|done]. multiset_solver.
Qed.
Lemma pins_swap pins es x y X :
  pins_ok pins es ({[+ x +]} ⊎ X) -> (forall l, one_if x (CPin l) = one_if y (CPin l)) ->
  pins_ok pins es ({[+ y +]} ⊎ X).
Proof.
  intros Hp Hxy l. rw (Hp l). destruct (es !! l); [|done]. cbn. f_equal. rw !mult_plus. by rw (Hxy l).
Qed.

(** What may be exchanged under the lock of [l]: anything but pins. *)
Definition for_lock (l : loc) (x : claim) : Prop := x = CFree \/ x = CRef l \/ x = CWait l.
Lemma for_lock_other l x z k :
  for_lock l x -> z = CPin k \/ (claim_on z = Some k /\ k ≠ l) -> one_if x z = 0.
Proof.
  intros Hx Hz. unfold one_if. case_decide as E; [|done]. subst z.
  destruct Hx as [->|[->| ->]], Hz as [Hz|[Hz Hne]]; try done; injection Hz; intros; congruence.
Qed.

Lemma wp_exchange l f e x y seen Q :
  for_lock l x -> for_lock l y -> (x = CRef l -> seen = true) ->
  (one_if x (CRef l) <= e_ref_count e < 2 ^ 32 - (1 - one_if x (CRef l)) ->
   one_if x (CWait l) <= e_cond_waiters e < 2 ^ 32 - (1 - one_if x (CWait l)) ->
   allowed e (f e) (e_ref_count e - one_if x (CRef l) + one_if y (CRef l))
     (e_cond_waiters e - one_if x (CWait l) + one_if y (CWait l)) seen) ->
  entry_at γ l e -∗ claims γ x -∗ seen_in seen l -∗
  (entry_at γ l (f e) -∗ claims γ y -∗ Q tt) -∗ W (modify_entry l f) Q.
Proof.
  intros Hx Hy Hsx Ha. iIntros "(Hent & Hst & %Hfl) Hx #Hseen HQ". iApply wp_writes. iIntros (s) "S". open_shared.
  iDestruct (ghost_map_lookup with "Sent Hent") as %E. rw E. cbn. iExists _. iSplitR; [done|].
  iDestruct (ghost_map_lookup with "Sst Hst") as %Est.
  iAssert ⌜seen = true -> is_Some (lsd !! l)⌝%I as %Hsn.
  { iIntros (->). iDestruct (ghost_map_lookup with "Slsd Hseen") as %El. iPureIntro. by eexists. }
  iDestruct (claim_in with "SX Hx") as %[X' ->].
  pose proof (eo_ref _ _ _ _ _ He l e E Est) as Er. pose proof (eo_wait _ _ _ _ _ He l e E Est) as Ew.
  pose proof (mult_range x (CRef l) _ _ Hcl) as Rr. pose proof (mult_range x (CWait l) _ _ Hcl) as Rw.
  rw -Er in Rr. rw -Ew in Rw. specialize (Ha Rr Rw). rw mult_plus in Er. rw mult_plus in Ew.
  iMod (claim_swap _ x y with "SX Hx") as "[SX Hx]".
  iMod (ghost_map_update (f e) with "Sent Hent") as "[Sent Hent]".
  iSplitR "HQ Hent Hst Hx"; [|iApply ("HQ" with "[Hent Hst] Hx"); iFrame; iPureIntro; by apply (al_flags _ _ _ _ _ Ha)].
  iModIntro. close_with ({[+ y +]} ⊎ X') Y heads ends locks chains order st infos lsd. iFrame "∗%".
  assert (forall z, z ≠ l -> multiplicity (CRef z) ({[+ y +]} ⊎ X') = multiplicity (CRef z) ({[+ x +]} ⊎ X') /\
    multiplicity (CWait z) ({[+ y +]} ⊎ X') = multiplicity (CWait z) ({[+ x +]} ⊎ X')) as Hother.
  { intros z Hz. split; apply mult_swap; rw !(for_lock_other l _ _ z); try done; by right. }
  iPureIntro. split_and!.
  - eapply claims_swap_ok; [done|]. intros z Hz. destruct Hy as [->|[->| ->]]; [done|by injection Hz as ->..].
  - eapply pins_modify; [done..|]. intros z. apply mult_swap. rw !(for_lock_other l _ _ z); try done; by left.
  - eapply entries_modify; [done..| |done| |done].
    + rw !mult_plus. replace (one_if y (CRef l) + Z.of_nat (multiplicity (CRef l) X')) with
        (e_ref_count e - one_if x (CRef l) + one_if y (CRef l)) by lia.
      replace (one_if y (CWait l) + Z.of_nat (multiplicity (CWait l) X')) with
        (e_cond_waiters e - one_if x (CWait l) + one_if y (CWait l)) by lia. done.
    + intros -> [Hin|Hin]%gmultiset_elem_of_disj_union; apply gmultiset_elem_of_disj_union; [|by right].
      apply gmultiset_elem_of_singleton in Hin. discriminate (Hsx (eq_sym Hin)).
Qed.

(** ** Pins *)


Lemma pins_exchange pins es l e x y d X st :
  pins_ok pins es ({[+ x +]} ⊎ X) -> claims_ok ({[+ x +]} ⊎ X) st -> es !! l = Some e ->
  d = one_if y (CPin l) - one_if x (CPin l) -> (forall z, z ≠ l -> one_if x (CPin z) = one_if y (CPin z)) ->
  exists p, pins !! l = Some p /\ pins_ok (<[l := u32 (p + d)]> pins) es ({[+ y +]} ⊎ X).
Proof.
  intros Hp Hcl Hl Hd Hother. pose proof (Hp l) as E. rw Hl in E. cbn in E. eexists. split; [exact E|].
  pose proof (mult_range x (CPin l) _ _ Hcl) as R. intros z. destruct (decide (l = z)) as [<-|Hne].
  - rw lookup_insert_eq Hl. cbn. f_equal. rw u32_small; rw !mult_plus; rw mult_plus in R; subst d;
      unfold one_if in *; repeat case_decide; lia.
  - rw lookup_insert_ne; [|done]. rw (Hp z). destruct (es !! z); [|done]. cbn. f_equal.
    rw !mult_plus. rw Hother; congruence.
Qed.
Lemma entries_swap es st infos lsd x y X :
  entries_ok es st infos lsd ({[+ x +]} ⊎ X) ->
  (forall l, one_if x (CRef l) = one_if y (CRef l) /\ one_if x (CWait l) = one_if y (CWait l)) ->
  entries_ok es st infos lsd ({[+ y +]} ⊎ X).
Proof.
  intros [H1 H2 H3 H4 H5] Hxy. split; [done|..|done|]; intros l e Hl Hp; try intros Hu.
  - rw (mult_swap x y); [by apply H2|apply Hxy].
  - rw (mult_swap x y); [by apply H3|apply Hxy].
  - destruct (H5 l e Hl Hp Hu) as [? Hin]. split; [done|]. apply elem_of_multiplicity.
    rw (mult_swap x y); [by apply elem_of_multiplicity|apply Hxy].
Qed.

Lemma wp_pin P l Q :
  Shows P l -> P -∗ claims γ CFree -∗ (P -∗ claims γ (CPin l) -∗ Q tt) -∗ W (pins_add l 1) Q.
Proof.
  intros HP. iIntros "HP Hx HQ". iApply wp_writes. iIntros (s) "S".
  iDestruct (public_entry with "S HP") as "#(%e & %E & _)". open_shared.
  iAssert ⌜st !! l = Some Public⌝%I as %Hst.
  { iApply (HP s with "[-HP] HP"). unfold shared_with. iFrame "∗%". }
  iDestruct (claim_in with "SX Hx") as %[X' ->]. iMod (claim_swap _ _ (CPin l) with "SX Hx") as "[SX Hx]".
  destruct (pins_exchange _ _ l e CFree (CPin l) 1 X' st Hp Hcl E) as (p & Epin & Hp').
  { unfold one_if. by rw decide_True. }
  { intros z Hz. unfold one_if. case_decide; [done|]. case_decide; congruence. }
  rw Epin. cbn. iExists _. iSplitR; [done|]. iSplitR "HQ HP Hx"; [|iApply ("HQ" with "HP Hx")]. iModIntro.
  close_with ({[+ CPin l +]} ⊎ X') Y heads ends locks chains order st infos lsd. iFrame "∗%". iPureIntro. split.
  - eapply claims_swap_ok; [done|]. by intros z [= <-].
  - by apply (entries_swap _ _ _ _ CFree).
Qed.
Lemma wp_unpin l Q :
  claims γ (CPin l) -∗ (claims γ CFree -∗ Q tt) -∗ W (pins_add l (-1)) Q.
Proof.
  iIntros "Hx HQ". iApply wp_writes. iIntros (s) "S".
  iDestruct (public_entry with "S Hx") as "#(%e & %E & _)". open_shared.
  iDestruct (claim_in with "SX Hx") as %[X' ->]. iMod (claim_swap _ _ CFree with "SX Hx") as "[SX Hx]".
  destruct (pins_exchange _ _ l e (CPin l) CFree (-1) X' st Hp Hcl E) as (p & Epin & Hp').
  { unfold one_if. by rw (decide_True (P := CPin l = CPin l)). }
  { intros z Hz. unfold one_if. case_decide; [congruence|]. by case_decide. }
  rw Epin. cbn. iExists _. iSplitR; [done|]. iSplitR "HQ Hx"; [|iApply ("HQ" with "Hx")]. iModIntro.
  close_with ({[+ CFree +]} ⊎ X') Y heads ends locks chains order st infos lsd. iFrame "∗%". iPureIntro. split.
  - by eapply claims_swap_ok.
  - by apply (entries_swap _ _ _ _ (CPin l)).
Qed.
End rules.
