(* ===== verification/CacheLocking.v ===== *)
(** * Rules for locks

    Taking a lock gives what it protects -- the LRU list, a chain, an entry's
    fields -- and releasing it takes them back; readers of a bucket share the
    right to read its chain. *)
From iris.proofmode Require Import proofmode.
From iris.algebra Require Import auth gmultiset.
From iris.base_logic Require Import base_logic.
From iris.base_logic.lib Require Import own iprop ghost_map.
From S2P Require Import Prelude Types CacheTypes CacheState Cache CacheLinks CacheWf CacheFacts.
From S2P Require Import CacheSystem CacheClients CacheWp CacheGhost CacheRules.

Section locking.
Context {D : Type} `{!cacheG Σ} (γ : names).
Implicit Types (s : cstate D) (l : loc) (e : kes_extent_entry) (ch : list loc)
  (chains : gmap Z (list loc)) (st : gmap loc status).
Local Abbreviation W := (wp (shared (D := D) γ)).

(** ** Locks *)

Lemma locks_acquire (h : held) locks Y chains st x :
  locks_ok h locks Y chains st -> h !! x = None ->
  (forall l, x = LEntry l -> st !! l = Some Public \/ st !! l = Some Closed) ->
  locks_ok (<[x := 0%nat]> h) (<[x := tt]> locks) Y chains st.
Proof.
  intros [H1 H2 H3 H4 H5] Hx Hst. split.
  - intros y. rw lookup_insert_is_Some' lookup_insert_Some H1. split.
    + intros [<-|Hy]; [by left|]. right. split; [|done]. intros <-. congruence.
    + intros [[<- _]|[_ Hy]]; [by left|by right].
  - done.
  - intros i ch Hi. rw (H3 i ch Hi). destruct (decide (x = LBucket i)) as [->|Hne].
    + by rw lookup_insert_eq Hx.
    + by rw lookup_insert_ne.
  - intros y n [[_ ?]|[_ Hy]]%lookup_insert_Some; [done|by apply (H4 y n)].
  - intros l [n Hn]. apply lookup_insert_Some in Hn as [[-> _]|[_ Hn]]; [by apply Hst|apply H5; by eexists].
Qed.
Lemma locks_release (h : held) locks Y chains st x :
  locks_ok h locks Y chains st -> h !! x = Some 0%nat ->
  locks_ok (delete x h) (delete x locks) Y chains st.
Proof.
  intros [H1 H2 H3 H4 H5] Hx. split.
  - intros y. rw lookup_delete_is_Some lookup_delete_Some H1. done.
  - done.
  - intros i ch Hi. rw (H3 i ch Hi). destruct (decide (x = LBucket i)) as [->|Hne].
    + by rw lookup_delete_eq Hx.
    + by rw lookup_delete_ne.
  - intros y n [_ Hy]%lookup_delete_Some. by apply (H4 y n).
  - intros l [n Hn]. apply lookup_delete_Some in Hn as [_ Hn]. apply H5. by eexists.
Qed.

(** What the other locks keep stays where it is. *)
Lemma chains_frame (h h' : held) chains :
  (forall i, h' !! LBucket i = h !! LBucket i) ->
  ([∗ map] i ↦ ch ∈ chains, chain_kept γ (h !! LBucket i) i ch) -∗
  [∗ map] i ↦ ch ∈ chains, chain_kept γ (h' !! LBucket i) i ch.
Proof. iIntros (Hh) "K". iApply (big_sepM_mono with "K"). intros i ch _. cbn. by rw Hh. Qed.
Lemma entries_frame (h h' : held) st :
  (forall l, h' !! LEntry l = h !! LEntry l) ->
  ([∗ map] l ↦ b ∈ st, entry_kept γ (h !! LEntry l) l b) -∗
  [∗ map] l ↦ b ∈ st, entry_kept γ (h' !! LEntry l) l b.
Proof. iIntros (Hh) "K". iApply (big_sepM_mono with "K"). intros l b _. cbn. by rw Hh. Qed.
Lemma chains_take (h : held) chains i ch :
  chains !! i = Some ch ->
  ([∗ map] i ↦ ch ∈ chains, chain_kept γ (h !! LBucket i) i ch) -∗
  chain_kept γ (h !! LBucket i) i ch ∗
  ∀ (h' : held) ch', ⌜forall j, j ≠ i -> h' !! LBucket j = h !! LBucket j⌝ -∗ chain_kept γ (h' !! LBucket i) i ch' -∗
    [∗ map] i ↦ ch ∈ <[i := ch']> chains, chain_kept γ (h' !! LBucket i) i ch.
Proof.
  iIntros (Hi) "K". iDestruct (big_sepM_delete with "K") as "[$ K]"; [exact Hi|].
  iIntros (h' ch' Hh) "Ki". rw -insert_delete_eq. iApply big_sepM_insert; [apply lookup_delete_eq|].
  iFrame "Ki". iApply (big_sepM_mono with "K"). intros j cj [Hne _]%lookup_delete_Some. cbn. by rw Hh.
Qed.
Lemma entries_take (h : held) st l b :
  st !! l = Some b ->
  ([∗ map] l ↦ b ∈ st, entry_kept γ (h !! LEntry l) l b) -∗
  entry_kept γ (h !! LEntry l) l b ∗
  ∀ (h' : held) b', ⌜forall y, y ≠ l -> h' !! LEntry y = h !! LEntry y⌝ -∗ entry_kept γ (h' !! LEntry l) l b' -∗
    [∗ map] l ↦ b ∈ <[l := b']> st, entry_kept γ (h' !! LEntry l) l b.
Proof.
  iIntros (Hl) "K". iDestruct (big_sepM_delete with "K") as "[$ K]"; [exact Hl|].
  iIntros (h' b' Hh) "Kl". rw -insert_delete_eq. iApply big_sepM_insert; [apply lookup_delete_eq|].
  iFrame "Kl". iApply (big_sepM_mono with "K"). intros y c [Hne _]%lookup_delete_Some. cbn. by rw Hh.
Qed.

Lemma wp_lock x (R : iProp Σ) Q :
  (forall s, shared γ s -∗ R -∗ ⌜lock_exists s x⌝) ->
  (forall s, cs_held s !! x = None ->
    shared γ s -∗ R ==∗ shared γ (set_locks (<[x := 0%nat]> (cs_held s)) s) ∗ Q tt) ->
  R -∗ W (lock x) Q.
Proof.
  intros Hex Hgo. iIntros "HR". iApply wp_act. iIntros (s) "S". iDestruct (Hex with "S HR") as %Hx.
  rw decide_True; [|done]. destruct (cs_held s !! x) eqn:E.
  - iModIntro. iSplitR; [done|]. iIntros (y s' [=]).
  - iSplitR; [done|]. iIntros "!>" (y s' [= <- <-]). by iApply (Hgo with "S HR").
Qed.
Lemma wp_unlock x (R : iProp Σ) Q :
  (forall s, shared γ s -∗ locked γ x -∗ R -∗ ⌜lock_exists s x⌝) ->
  (forall s, cs_held s !! x = Some 0%nat ->
    shared γ s -∗ locked γ x -∗ R ==∗ shared γ (set_locks (delete x (cs_held s)) s) ∗ Q tt) ->
  locked γ x -∗ R -∗ W (unlock x) Q.
Proof.
  intros Hex Hgo. iIntros "Hx HR". iApply wp_act. iIntros (s) "S".
  iDestruct (Hex with "S Hx HR") as %Hxs. rw decide_True; [|done].
  iAssert ⌜cs_held s !! x = Some 0%nat⌝%I as %E.
  { open_shared. iDestruct (ghost_map_lookup with "Slk Hx") as %E. iPureIntro.
    apply (lo_excl _ _ _ _ _ Hl). by eexists. }
  rw E. iSplitR; [done|]. iIntros "!>" (y s' [= <- <-]). by iApply (Hgo with "S Hx HR").
Qed.

Lemma cache_exists s x : x = LCache \/ (exists i, x = LBucket i) -> shared γ s -∗ ⌜lock_exists s x⌝.
Proof.
  iIntros (Hx) "S". open_shared. iPureIntro. destruct (cache_there _ _ _ Hc) as (c & E & _).
  destruct Hx as [->|[i ->]]; by exists c.
Qed.

Lemma wp_lock_cache Q :
  (∀ order0, locked γ LCache -∗ lru_at γ order0 -∗ Q tt) -∗ W (lock LCache) Q.
Proof.
  iIntros "HQ". iApply (wp_lock with "HQ").
  - iIntros (s) "S _". iApply (cache_exists with "S"). by left.
  - iIntros (s E) "S HQ". open_shared. rw E. iDestruct "Klru" as (order0) "Klru".
    assert (locks !! LCache = None) as Hno.
    { apply eq_None_not_Some. rw (lo_excl _ _ _ _ _ Hl). congruence. }
    iMod (ghost_map_insert LCache tt with "Slk") as "[Slk Hx]"; [exact Hno|].
    iModIntro. iSplitR "HQ Hx Klru"; [|iApply ("HQ" with "Hx Klru")].
    close_with X Y heads ends (<[LCache := tt]> locks) chains order st infos lsd. rw lookup_insert_eq.
    iDestruct (chains_frame _ (<[LCache := 0%nat]> (cs_held s)) with "Kch") as "$".
    { intros i. by rw lookup_insert_ne. }
    iDestruct (entries_frame _ (<[LCache := 0%nat]> (cs_held s)) with "Kent") as "$".
    { intros i. by rw lookup_insert_ne. }
    iFrame "∗%". iPureIntro. by apply locks_acquire.
Qed.
Lemma wp_unlock_cache order0 Q :
  locked γ LCache -∗ lru_at γ order0 -∗ Q tt -∗ W (unlock LCache) Q.
Proof.
  iIntros "Hx Hlru HQ". iApply (wp_unlock _ (lru_at γ order0 ∗ Q tt) with "Hx [$Hlru $HQ]").
  - iIntros (s) "S _ _". iApply (cache_exists with "S"). by left.
  - iIntros (s E) "S Hx [Hlru $]". open_shared.
    iMod (ghost_map_delete with "Slk Hx") as "Slk". iModIntro.
    close_with X Y heads ends (delete LCache locks) chains order st infos lsd. rw lookup_delete_eq.
    iDestruct (chains_frame _ (delete LCache (cs_held s)) with "Kch") as "$".
    { intros i. by rw lookup_delete_ne. }
    iDestruct (entries_frame _ (delete LCache (cs_held s)) with "Kent") as "$".
    { intros i. by rw lookup_delete_ne. }
    iFrame "∗%". iPureIntro. by apply locks_release.
Qed.

Lemma wp_lock_bucket i Q :
  0 <= i < 1024 -> (∀ ch, locked γ (LBucket i) -∗ chain_at γ i ch -∗ Q tt) -∗ W (lock (LBucket i)) Q.
Proof.
  iIntros (Hir) "HQ". iApply (wp_lock with "HQ").
  - iIntros (s) "S _". iApply (cache_exists with "S"). right. by eexists.
  - iIntros (s E) "S HQ". open_shared. destruct (proj2 (io_dom _ _ _ _ _ Hi i) Hir) as [ch Hch].
    iDestruct (chains_take with "Kch") as "[Kc Kch]"; [exact Hch|]. rw E. cbn [chain_kept].
    assert (locks !! LBucket i = None) as Hno.
    { apply eq_None_not_Some. rw (lo_excl _ _ _ _ _ Hl). congruence. }
    iMod (ghost_map_insert (LBucket i) tt with "Slk") as "[Slk Hx]"; [exact Hno|].
    iModIntro. iSplitR "HQ Hx Kc"; [|iApply ("HQ" with "Hx Kc")].
    close_with X Y heads ends (<[LBucket i := tt]> locks) chains order st infos lsd.
    rw (lookup_insert_ne _ _ LCache); [|done].
    iSpecialize ("Kch" $! (<[LBucket i := 0%nat]> (cs_held s)) ch with "[] []").
    { iPureIntro. intros j Hj. by rw lookup_insert_ne; [|congruence]. }
    { by rw lookup_insert_eq. }
    rw (insert_id chains); [|done].
    iDestruct (entries_frame _ (<[LBucket i := 0%nat]> (cs_held s)) with "Kent") as "$".
    { intros j. by rw lookup_insert_ne. }
    iFrame "∗%". iPureIntro. by apply locks_acquire.
Qed.
Lemma wp_unlock_bucket i ch Q :
  locked γ (LBucket i) -∗ chain_at γ i ch -∗ Q tt -∗ W (unlock (LBucket i)) Q.
Proof.
  iIntros "Hx Hc HQ". iApply (wp_unlock _ (chain_at γ i ch ∗ Q tt) with "Hx [$Hc $HQ]").
  - iIntros (s) "S _ _". iApply (cache_exists with "S"). right. by eexists.
  - iIntros (s E) "S Hx [Hc $]". open_shared.
    iAssert ⌜chains !! i = Some ch⌝%I as %Hch.
    { iDestruct "Hc" as "[Hc _]". by iApply (ghost_map_lookup with "Sch Hc"). }
    iMod (ghost_map_delete with "Slk Hx") as "Slk". iModIntro.
    iDestruct (chains_take with "Kch") as "[_ Kch]"; [exact Hch|].
    close_with X Y heads ends (delete (LBucket i) locks) chains order st infos lsd.
    rw (lookup_delete_ne _ _ LCache); [|done].
    iSpecialize ("Kch" $! (delete (LBucket i) (cs_held s)) ch with "[] [Hc]").
    { iPureIntro. intros j Hj. by rw lookup_delete_ne; [|congruence]. }
    { by rw lookup_delete_eq. }
    rw (insert_id chains); [|done].
    iDestruct (entries_frame _ (delete (LBucket i) (cs_held s)) with "Kent") as "$".
    { intros j. by rw lookup_delete_ne. }
    iFrame "∗%". iPureIntro. by apply locks_release.
Qed.

(** *** Readers of a chain *)

Definition shared_by (n : nat) : option nat := match n with O => None | S _ => Some n end.

Lemma locks_readers (h : held) locks Y Y' chains st i ch n n' :
  locks_ok h locks Y chains st -> chains !! i = Some ch -> h !! LBucket i = shared_by n ->
  (forall j cj, (j, cj) ∈ Y' -> (j, cj) ∈ Y \/ (j, cj) = (i, ch)) ->
  (forall j cj, multiplicity (j, cj) Y' =
    if decide ((j, cj) = (i, ch)) then n' else multiplicity (j, cj) Y) ->
  locks_ok (partial_alter (fun _ => shared_by n') (LBucket i) h) locks Y' chains st.
Proof.
  intros [H1 H2 H3 H4 H5] Hi Hn Hin Hmult. split.
  - intros y. rw H1. destruct (decide (y = LBucket i)) as [->|Hne].
    + rw lookup_partial_alter_eq Hn. by destruct n, n'.
    + by rw lookup_partial_alter_ne.
  - intros j cj [Hj|[= -> ->]]%Hin; [by apply H2|done].
  - intros j cj Hj. rw Hmult. case_decide as E.
    + injection E as -> ->. rw lookup_partial_alter_eq. by destruct n'.
    + rw (H3 j cj Hj) lookup_partial_alter_ne; [done|]. intros [= <-]. by rw Hj in Hi; simplify_eq.
  - intros y m. destruct (decide (y = LBucket i)) as [->|Hne].
    + intros _. exists i. split; [done|by eexists].
    + rw lookup_partial_alter_ne; [|done]. apply H4.
  - intros l. rw lookup_partial_alter_ne; [|done]. apply H5.
Qed.

(** A change in the number of readers moves nothing. *)
Lemma readers_frame (h : held) chains st i n n' :
  h !! LBucket i = shared_by n ->
  let h' := partial_alter (fun _ => shared_by n') (LBucket i) h in
  lru_kept γ (h !! LCache) -∗
  ([∗ map] i ↦ ch ∈ chains, chain_kept γ (h !! LBucket i) i ch) -∗
  ([∗ map] l ↦ b ∈ st, entry_kept γ (h !! LEntry l) l b) -∗
  lru_kept γ (h' !! LCache) ∗
  ([∗ map] i ↦ ch ∈ chains, chain_kept γ (h' !! LBucket i) i ch) ∗
  ([∗ map] l ↦ b ∈ st, entry_kept γ (h' !! LEntry l) l b).
Proof.
  intros Hn h'. iIntros "Kl Kc Ke". unfold h'. rw lookup_partial_alter_ne; [|done]. iFrame "Kl".
  iSplitL "Kc".
  - iApply (big_sepM_mono with "Kc"). intros j cj _. cbn. destruct (decide (j = i)) as [->|Hne].
    + rw lookup_partial_alter_eq Hn. by destruct n, n'.
    + rw lookup_partial_alter_ne; [done|congruence].
  - iApply (entries_frame with "Ke"). intros l. by rw lookup_partial_alter_ne.
Qed.

Lemma wp_rdlock_bucket i Q :
  0 <= i < 1024 -> (∀ ch, reading γ i ch -∗ Q tt) -∗ W (rdlock (LBucket i)) Q.
Proof.
  iIntros (Hir) "HQ". iApply wp_act. iIntros (s) "S".
  iDestruct (cache_exists s (LBucket i) with "S") as %Hx; [right; by eexists|]. rw decide_True; [|done].
  destruct (decide (cs_held s !! LBucket i = Some 0%nat)) as [E|E].
  { rw E. iModIntro. iSplitR; [done|]. iIntros (y s' [=]). }
  assert (exists n, cs_held s !! LBucket i = shared_by n /\
    (match cs_held s !! LBucket i with
     | None => Returns (tt, set_locks (<[LBucket i := 1%nat]> (cs_held s)) s)
     | Some (S n) => Returns (tt, set_locks (<[LBucket i := S (S n)]> (cs_held s)) s)
     | Some O => Stuck end) =
    Returns (tt, set_locks (partial_alter (fun _ => shared_by (S n)) (LBucket i) (cs_held s)) s)) as (n & Hn & ->).
  { destruct (cs_held s !! LBucket i) as [[|n]|]; [done|by exists (S n)|by exists 0%nat]. }
  iSplitR; [done|]. iIntros "!>" (y s' [= <- <-]). open_shared.
  destruct (proj2 (io_dom _ _ _ _ _ Hi i) Hir) as [ch Hch].
  iMod (reading_new γ _ i ch with "SY") as "[SY Hr]". iModIntro. iSplitR "HQ Hr"; [|iApply ("HQ" with "Hr")].
  close_with X ({[+ (i, ch) +]} ⊎ Y) heads ends locks chains order st infos lsd.
  iDestruct (readers_frame _ _ _ i n (S n) with "Klru Kch Kent") as "($ & $ & $)"; [done|].
  iFrame "∗%". iPureIntro. apply (locks_readers _ _ Y _ _ _ i ch n (S n)); [done..| |].
  - intros j cj [->%gmultiset_elem_of_singleton|Hj]%gmultiset_elem_of_disj_union; [by right|by left].
  - intros j cj. rw multiplicity_disj_union. case_decide as Hj.
    + rw Hj multiplicity_singleton_eq (lo_count _ _ _ _ _ Hl i ch Hch) Hn. by destruct n.
    + by rw multiplicity_singleton_ne.
Qed.

Lemma wp_runlock_bucket i ch Q : reading γ i ch -∗ Q tt -∗ W (unlock (LBucket i)) Q.
Proof.
  iIntros "Hr HQ". iApply wp_act. iIntros (s) "S".
  iDestruct (cache_exists s (LBucket i) with "S") as %Hx; [right; by eexists|]. rw decide_True; [|done].
  iAssert ⌜exists n, cs_held s !! LBucket i = Some (S n)⌝%I as %[n Hn].
  { open_shared. iDestruct (reading_in with "SY Hr") as %Hin. iPureIntro.
    pose proof (lo_readers _ _ _ _ _ Hl i ch Hin) as Hch. pose proof (lo_count _ _ _ _ _ Hl i ch Hch) as Hm.
    pose proof (proj1 (elem_of_multiplicity _ _) Hin) as Hpos. rw Hm in Hpos.
    destruct (cs_held s !! LBucket i) as [[|n]|]; [lia|by exists n|lia]. }
  assert ((match cs_held s !! LBucket i with
     | None => Undef
     | Some (S (S n)) => Returns (tt, set_locks (<[LBucket i := S n]> (cs_held s)) s)
     | Some _ => Returns (tt, set_locks (delete (LBucket i) (cs_held s)) s) end) =
    Returns (tt, set_locks (partial_alter (fun _ => shared_by n) (LBucket i) (cs_held s)) s)) as ->.
  { rw Hn. by destruct n. }
  iSplitR; [done|]. iIntros "!>" (y s' [= <- <-]). open_shared.
  iDestruct (reading_in with "SY Hr") as %Hin. pose proof (lo_readers _ _ _ _ _ Hl i ch Hin) as Hch.
  apply gmultiset_disj_union_difference' in Hin. set (Y' := Y ∖ {[+ (i, ch) +]}) in Hin. rw Hin in Hl. rw Hin.
  iMod (reading_end with "SY Hr") as "SY". iModIntro. iFrame "HQ".
  close_with X Y' heads ends locks chains order st infos lsd.
  iDestruct (readers_frame _ _ _ i (S n) n with "Klru Kch Kent") as "($ & $ & $)"; [done|].
  iFrame "∗%". iPureIntro. apply (locks_readers _ _ ({[+ (i, ch) +]} ⊎ Y') _ _ _ i ch (S n) n); [done..| |].
  - intros j cj Hj. left. apply gmultiset_elem_of_disj_union. by right.
  - intros j cj. rw multiplicity_disj_union. case_decide as Hj.
    + rw Hj. pose proof (lo_count _ _ _ _ _ Hl i ch Hch) as Hm.
      rw multiplicity_disj_union multiplicity_singleton_eq Hn in Hm. lia.
    + by rw multiplicity_singleton_ne.
Qed.

(** *** The lock of an entry *)

Lemma entry_lock_frame (h h' : held) chains :
  (forall x, (forall l, x ≠ LEntry l) -> h' !! x = h !! x) ->
  lru_kept γ (h !! LCache) -∗ ([∗ map] i ↦ ch ∈ chains, chain_kept γ (h !! LBucket i) i ch) -∗
  lru_kept γ (h' !! LCache) ∗ ([∗ map] i ↦ ch ∈ chains, chain_kept γ (h' !! LBucket i) i ch).
Proof.
  iIntros (Hh) "Kl Kc". rw Hh; [|done]. iFrame "Kl".
  iApply (chains_frame with "Kc"). intros i. by apply Hh.
Qed.

(** From outside the interpretation: the state in which the lock was taken. *)
Lemma take_entry_lock s l (P : iProp Σ) :
  Shows (D := D) γ P l -> cs_held s !! LEntry l = None -> shared γ s -∗ P ==∗
  shared γ (set_locks (<[LEntry l := 0%nat]> (cs_held s)) s) ∗ P ∗
  ∃ e, ⌜cs_entries s !! l = Some e⌝ ∗ locked γ (LEntry l) ∗ entry_at γ l e.
Proof.
  intros HP E. iIntros "S HP". open_shared.
  iAssert ⌜st !! l = Some Public⌝%I as %Hst.
  { iApply (HP s with "[-HP] HP"). unfold shared_with. iFrame "∗%". }
  iDestruct (entries_take with "Kent") as "[Kl Kent]"; [exact Hst|]. rw E. cbn [entry_kept].
  iDestruct "Kl" as "[Kb (%e & Hent & Hrest)]".
  iDestruct (ghost_map_lookup with "Sent Hent") as %Ee.
  assert (locks !! LEntry l = None) as Hno.
  { apply eq_None_not_Some. rw (lo_excl _ _ _ _ _ Hl). congruence. }
  iMod (ghost_map_insert (LEntry l) tt with "Slk") as "[Slk Hx]"; [exact Hno|].
  iModIntro. iFrame "HP Hx". iSplitR "Hent Hrest"; [|iExists e; by iFrame].
  close_with X Y heads ends (<[LEntry l := tt]> locks) chains order st infos lsd.
  iDestruct (entry_lock_frame _ (<[LEntry l := 0%nat]> (cs_held s)) with "Klru Kch") as "[$ $]".
  { intros x Hx. rw lookup_insert_ne; [done|]. intros <-. by destruct (Hx l). }
  iSpecialize ("Kent" $! (<[LEntry l := 0%nat]> (cs_held s)) Public with "[] [Kb]").
  { iPureIntro. intros j Hj. by rw lookup_insert_ne; [|congruence]. }
  { rw lookup_insert_eq. cbn. by iFrame. }
  rw (insert_id st); [|done]. iFrame "∗%". iPureIntro. apply locks_acquire; [done..|].
  intros l' [= <-]. by left.
Qed.

Lemma wp_lock_entry P l Q :
  Shows (D := D) γ P l -> P -∗ (∀ e, locked γ (LEntry l) -∗ entry_at γ l e -∗ P -∗ Q tt) -∗ W (lock (LEntry l)) Q.
Proof.
  intros HP. iIntros "HP HQ".
  iApply (wp_lock _ (P ∗ ∀ e, locked γ (LEntry l) -∗ entry_at γ l e -∗ P -∗ Q tt) with "[$HP $HQ]").
  - iIntros (s) "S [HP _]". iDestruct (public_entry with "S HP") as "#(%e & %E & _)". by iExists e.
  - iIntros (s E) "S [HP HQ]". iMod (take_entry_lock s l P with "S HP") as "($ & HP & %e & _ & Hx & He)"; [exact E|].
    iApply ("HQ" with "Hx He HP").
Qed.

Lemma wp_unlock_entry l e Q :
  locked γ (LEntry l) -∗ entry_at γ l e -∗ Q tt -∗ W (unlock (LEntry l)) Q.
Proof.
  iIntros "Hx He HQ". iApply (wp_unlock _ (entry_at γ l e ∗ Q tt) with "Hx [$He $HQ]").
  - iIntros (s) "S _ [He _]". iDestruct (public_entry with "S He") as "#(%e1 & %E & _)". by iExists e1.
  - iIntros (s E) "S Hx [(Hent & Hst & %Hfl) $]". open_shared.
    iDestruct (ghost_map_lookup with "Sst Hst") as %Hst.
    iMod (ghost_map_delete with "Slk Hx") as "Slk". iModIntro.
    iDestruct (entries_take _ st l Public with "Kent") as "[[Kb _] Kent]"; [exact Hst|].
    close_with X Y heads ends (delete (LEntry l) locks) chains order st infos lsd.
    iDestruct (entry_lock_frame _ (delete (LEntry l) (cs_held s)) with "Klru Kch") as "[$ $]".
    { intros x Hx. rw lookup_delete_ne; [done|]. intros <-. by destruct (Hx l). }
    iSpecialize ("Kent" $! (delete (LEntry l) (cs_held s)) Public with "[] [Kb Hent Hst]").
    { iPureIntro. intros j Hj. by rw lookup_delete_ne; [|congruence]. }
    { rw lookup_delete_eq. cbn. iFrame. done. }
    rw (insert_id st); [|done]. iFrame "∗%". iPureIntro. by apply locks_release.
Qed.

(** The end of a load is awaited with a claim of its own. *)
Lemma wp_await l Q :
  claims γ (CWait l) -∗
  (∀ e, ⌜is_loading e = false⌝ -∗ locked γ (LEntry l) -∗ entry_at γ l e -∗ claims γ (CWait l) -∗ Q tt) -∗
  W (act (fun s => match cs_entries s !! l with
    | None => Undef
    | Some e => match cs_held s !! LEntry l with
        | None => if has_flag (e_state e) KES_EXTENT_LOADING then Stuck
                  else Returns (tt, set_locks (<[LEntry l := 0%nat]> (cs_held s)) s)
        | Some _ => Stuck end
    end)) Q.
Proof.
  iIntros "Hw HQ". iApply wp_act. iIntros (s) "S".
  iDestruct (public_entry with "S Hw") as "#(%e & %E & _)". rw E.
  destruct (cs_held s !! LEntry l) eqn:Eh.
  { iModIntro. iSplitR; [done|]. iIntros (y s' [=]). }
  destruct (has_flag (e_state e) KES_EXTENT_LOADING) eqn:Hld.
  { iModIntro. iSplitR; [done|]. iIntros (y s' [=]). }
  iSplitR; [done|]. iIntros "!>" (y s' [= <- <-]).
  iMod (take_entry_lock s l _ with "S Hw") as "($ & Hw & %e1 & %E1 & Hx & He)"; [exact Eh|].
  rw E in E1. injection E1 as <-. by iApply ("HQ" with "[//] Hx He Hw").
Qed.
End locking.
