(* ===== verification/CacheOwned.v ===== *)
(** * Entries from allocation to release

    Entries that only one thread knows, how they are published in a chain and
    in the LRU list, and how they are taken out again.  Buffers and callbacks. *)
From iris.proofmode Require Import proofmode.
From iris.algebra Require Import auth gmultiset.
From iris.base_logic Require Import base_logic.
From iris.base_logic.lib Require Import own iprop ghost_map.
From S2P Require Import Prelude Types CacheTypes CacheState Cache CacheLinks CacheWf CacheFacts.
From S2P Require Import CacheSystem CacheClients CacheWp CacheGhost CacheRules CacheLocking.

Section owned.
Context {D : Type} `{!cacheG Σ} (γ : names).
Implicit Types (s : cstate D) (l : loc) (e : kes_extent_entry) (ch : list loc)
  (chains : gmap Z (list loc)) (st : gmap loc status).
Local Abbreviation W := (wp (shared (D := D) γ)).

(** ** Entries that only one thread knows *)

(** Statuses that agree on what is public. *)
Definition same_public st st' : Prop := forall l, st !! l = Some Public <-> st' !! l = Some Public.
Lemma same_public_insert st l b : st !! l ≠ Some Public -> b ≠ Public -> same_public st (<[l := b]> st).
Proof.
  intros Hl Hb y. rw lookup_insert_Some. split; [intros Hy; right; split; [congruence|done]|].
  intros [[_ Hy]|[_ Hy]]; congruence.
Qed.
Lemma same_public_delete st l : st !! l ≠ Some Public -> same_public st (delete l st).
Proof.
  intros Hl y. rw lookup_delete_Some. split; [intros Hy; split; congruence|by intros [_ ?]].
Qed.

Lemma claims_public X st st' : same_public st st' -> claims_ok X st -> claims_ok X st'.
Proof. intros Hs [H1 H2]. split; [done|]. intros x l Hx Hl. apply Hs. by apply (H2 x). Qed.
Lemma index_public chains order st st' infos infos' lsd :
  same_public st st' -> (forall l, st !! l = Some Public -> infos' !! l = infos !! l) ->
  index_ok chains order st infos lsd -> index_ok chains order st' infos' lsd.
Proof.
  intros Hs Hn [H1 H2 H3 H4 H5 H6 H7]. split; [done| |done| | | |done].
  - intros i ch l Hi Hl. rw -(Hs l). destruct (H2 i ch l Hi Hl) as [Hp Hx]. by rw Hn.
  - intros i ch x y ix iy Hi Hx Hy. destruct (H2 i ch x Hi Hx) as [Px _].
    destruct (H2 i ch y Hi Hy) as [Py _]. rw !Hn; [by apply H4 with i ch|done..].
  - intros l inf Hl%Hs. rw Hn; [by apply H5|done].
  - intros l. rw H6. by rw (Hs l).
Qed.
Lemma unclaimed X st l x :
  claims_ok X st -> st !! l ≠ Some Public -> claim_on x = Some l -> multiplicity x X = 0%nat.
Proof.
  intros [_ H] Hl Hx. destruct (decide (multiplicity x X = 0%nat)) as [|Hne]; [done|]. exfalso.
  apply Hl, (H x); [|done]. apply elem_of_multiplicity. lia.
Qed.
Lemma entries_public es es' st st' infos infos' lsd X :
  same_public st st' -> (forall l, is_Some (st' !! l) <-> is_Some (es' !! l)) ->
  (forall l, st !! l = Some Public -> es' !! l = es !! l /\ infos' !! l = infos !! l) ->
  entries_ok es st infos lsd X -> entries_ok es' st' infos' lsd X.
Proof.
  intros Hs Hd Hes [H1 H2 H3 H4 H5]. split; [done|..]; intros l e He Hp%Hs;
    destruct (Hes l Hp) as [E1 E2]; rw E1 in He; rw ?E2; eauto.
Qed.

Lemma big_insert_private (h : held) st l b :
  st !! l ≠ Some Public -> b ≠ Public ->
  ([∗ map] l ↦ b ∈ st, entry_kept γ (h !! LEntry l) l b) -∗
  [∗ map] l ↦ b ∈ <[l := b]> st, entry_kept γ (h !! LEntry l) l b.
Proof.
  iIntros (Hl Hb) "K". rw -insert_delete_eq. iApply big_sepM_insert; [apply lookup_delete_eq|].
  iSplitR; [by destruct b|]. iApply (big_sepM_subseteq with "K"). apply delete_subseteq.
Qed.

(** An entry with all its links, known to its owner only. *)
Definition private_at l e : iProp Σ :=
  l ↪[n_entries γ] e ∗ l ↪[n_status γ] Private ∗
  (∃ k : links, l ↪[n_list γ] k) ∗ ∃ k : links, l ↪[n_hash γ] k.

Lemma wp_calloc_entry Q :
  (∀ r, match r with
    | Some l => private_at l zero_entry ∗ l ↪[n_infos γ] info_of zero_entry
    | None => True
    end -∗ Q r) -∗ W calloc_entry Q.
Proof.
  iIntros "HQ". iApply wp_act. iIntros (s) "S".
  destruct (next_failure (cs_env s)) as [[] v] eqn:Ev; cbn -[bump].
  { iSplitR; [done|]. iIntros "!>" (y s' [= <- <-]). iSplitR "HQ"; [|by iApply "HQ"].
    open_shared. close_with X Y heads ends locks chains order st infos lsd. iFrame "∗%". iPureIntro.
    unfold next_failure in Ev. destruct (env_script (cs_env s)); by simplify_eq/=. }
  iModIntro. iSplitR; [done|]. iIntros (y s' [= <- <-]). set (l := env_next v). open_shared.
  assert (l = env_next (cs_env s)) as El.
  { unfold next_failure, l in *. destruct (env_script (cs_env s)); by simplify_eq/=. }
  destruct (Hf l) as (F1 & F2 & F3 & F4 & F5 & F6); [lia|].
  assert (cs_entries s !! l = None) as F0.
  { apply eq_None_not_Some. rw -(eo_dom _ _ _ _ _ He l) F1. by intros []. }
  assert (st !! l ≠ Some Public) as Hnp by congruence.
  iMod (ghost_map_insert l zero_entry with "Sent") as "[Sent H1]"; [done|].
  iMod (ghost_map_insert l no_links with "Slist") as "[Slist H2]"; [done|].
  iMod (ghost_map_insert l no_links with "Shash") as "[Shash H3]"; [done|].
  iMod (ghost_map_insert l Private with "Sst") as "[Sst H4]"; [done|].
  iMod (ghost_map_insert l (info_of zero_entry) with "Sinf") as "[Sinf H5]"; [done|].
  iDestruct (big_insert_private _ _ l Private with "Kent") as "Kent"; [done..|].
  iModIntro. iSplitR "HQ H1 H2 H3 H4 H5"; [|iApply "HQ"; unfold private_at; iFrame].
  set (infos' := <[l := info_of zero_entry]> infos).
  assert (forall z, st !! z = Some Public -> infos' !! z = infos !! z) as Hinf.
  { intros z Hz. unfold infos'. rw lookup_insert_ne; [done|]. intros <-. congruence. }
  close_with X Y heads ends locks chains order (<[l := Private]> st) infos' lsd. iFrame "∗%".
  pose proof (same_public_insert st l Private Hnp ltac:(done)) as Hsp. iPureIntro. split_and!.
  - destruct Hl as [L1 L2 L3 L4 L5]. split; [done..|]. intros z Hz. rw lookup_insert_ne; [by apply L5|].
    intros <-. destruct (L5 _ Hz); congruence.
  - by eapply claims_public.
  - intros z. destruct (decide (l = z)) as [<-|Hne].
    + rw !lookup_insert_eq. cbn. by rw (unclaimed X st l _ Hcl Hnp).
    + rw !lookup_insert_ne; done.
  - eapply entries_public; [done|..|done].
    + intros z. rw !lookup_insert_is_Some' (eo_dom _ _ _ _ _ He z). done.
    + intros z Hz. split; [|by apply Hinf]. rw lookup_insert_ne; [done|]. intros <-. congruence.
  - by eapply index_public.
  - intros z Hz. cbn in Hz. assert (l ≠ z) by lia. destruct (Hf z) as (? & ? & ? & ? & ? & ?); [lia|].
    unfold infos'. rw !lookup_insert_ne; done.
Qed.

Lemma wp_free_entry l e Q : private_at l e -∗ Q tt -∗ W (free_entry l) Q.
Proof.
  iIntros "(H1 & H2 & (%kl & H3) & %kh & H4) HQ". iApply wp_writes. iIntros (s) "S". open_shared.
  iDestruct (ghost_map_lookup with "Sent H1") as %E. iDestruct (ghost_map_lookup with "Sst H2") as %Est.
  rw E. cbn. iExists _. iSplitR; [done|].
  assert (st !! l ≠ Some Public) as Hnp by congruence.
  iMod (ghost_map_delete with "Sent H1") as "Sent". iMod (ghost_map_delete with "Sst H2") as "Sst".
  iMod (ghost_map_delete with "Slist H3") as "Slist". iMod (ghost_map_delete with "Shash H4") as "Shash".
  iModIntro. iFrame "HQ". pose proof (same_public_delete st l Hnp) as Hsp.
  close_with X Y heads ends locks chains order (delete l st) infos lsd. iFrame "∗%".
  iDestruct (big_sepM_subseteq _ _ (delete l st) with "Kent") as "$"; [apply delete_subseteq|].
  iPureIntro. split_and!.
  - destruct Hl as [L1 L2 L3 L4 L5]. split; [done..|]. intros z Hz. rw lookup_delete_ne; [by apply L5|].
    intros <-. destruct (L5 _ Hz); congruence.
  - by eapply claims_public.
  - intros z. destruct (decide (l = z)) as [<-|Hne]; [by rw !lookup_delete_eq|].
    rw !lookup_delete_ne; done.
  - eapply entries_public; [done|..|done].
    + intros z. rw !lookup_delete_is_Some (eo_dom _ _ _ _ _ He z). done.
    + intros z Hz. rw lookup_delete_ne; [done|]. intros <-. congruence.
  - by eapply index_public; [done..|].
  - intros z Hz. destruct (Hf z Hz) as (? & ? & ? & ? & ? & ?). rw !lookup_delete_None. tauto.
Qed.

Lemma wp_destroy_lock l Q :
  l ↪[n_status γ] Private -∗ (l ↪[n_status γ] Private -∗ Q tt) -∗ W (destroy_entry_lock l) Q.
Proof.
  iIntros "Hst HQ". iApply wp_writes. iIntros (s) "S".
  iAssert ⌜cs_held s !! LEntry l = None⌝%I as %E.
  { open_shared. iDestruct (ghost_map_lookup with "Sst Hst") as %Est. iPureIntro.
    apply eq_None_not_Some. intros Hh. destruct (lo_entry _ _ _ _ _ Hl l Hh); congruence. }
  rw E. iExists s. iFrame "S". iSplitR; [done|]. by iApply "HQ".
Qed.

(** The evictor lets go of the lock of the entry it has taken out. *)
Lemma wp_unlock_closed l e Q :
  locked γ (LEntry l) -∗ l ↪[n_entries γ] e -∗ l ↪[n_status γ] Closed -∗
  (l ↪[n_entries γ] e -∗ l ↪[n_status γ] Private -∗ Q tt) -∗ W (unlock (LEntry l)) Q.
Proof.
  iIntros "Hx He Hst HQ". set (R := (l ↪[n_entries γ] e ∗ l ↪[n_status γ] Closed ∗
    (l ↪[n_entries γ] e -∗ l ↪[n_status γ] Private -∗ Q tt))%I).
  iApply (wp_unlock γ _ R with "Hx [$He $Hst $HQ]").
  - iIntros (s) "S _ (He & _)". open_shared. iDestruct (ghost_map_lookup with "Sent He") as %E. by iExists e.
  - iIntros (s E) "S Hx (He & Hst & HQ)". open_shared.
    iDestruct (ghost_map_lookup with "Sst Hst") as %Hst.
    iMod (ghost_map_delete with "Slk Hx") as "Slk".
    iMod (ghost_map_update Private with "Sst Hst") as "[Sst Hst]".
    assert (st !! l ≠ Some Public) as Hnp by congruence.
    pose proof (same_public_insert st l Private Hnp ltac:(done)) as Hsp.
    iDestruct (big_insert_private _ _ l Private with "Kent") as "Kent"; [done..|].
    iModIntro. iSplitR "HQ He Hst"; [|iApply ("HQ" with "He Hst")].
    close_with X Y heads ends (delete (LEntry l) locks) chains order (<[l := Private]> st) infos lsd.
    iDestruct (entry_lock_frame γ _ (delete (LEntry l) (cs_held s)) with "Klru Kch") as "[$ $]".
    { intros x Hx. rw lookup_delete_ne; [done|]. intros <-. by destruct (Hx l). }
    iSplitR; [done|]. iSplitR.
    { iPureIntro. destruct (locks_release _ _ _ _ _ _ Hl E) as [L1 L2 L3 L4 L5].
      split; [done..|]. intros z Hz. rw lookup_insert_ne; [by apply L5|].
      intros <-. rw lookup_delete_eq in Hz. by destruct Hz. }
    iSplitR; [iPureIntro; by eapply claims_public|]. iSplitR; [done|]. iSplitR.
    { iPureIntro. eapply entries_public; [done| |done|done]. intros z.
      rw lookup_insert_is_Some' -(eo_dom _ _ _ _ _ He z). split; [|by right].
      intros [<-|]; [by eexists|done]. }
    iSplitR; [iPureIntro; by eapply index_public|]. iSplitR.
    { iPureIntro. intros z Hz. destruct (Hf z Hz) as (? & ? & ? & ? & ? & ?).
      rw lookup_insert_ne; [done|]. intros <-. congruence. }
    iFrame. iApply (big_sepM_mono with "Kent"). intros z b Hz. cbn. destruct (decide (l = z)) as [<-|Hne].
    + rw lookup_insert_eq in Hz. injection Hz as <-. done.
    + by rw lookup_delete_ne; [|congruence].
Qed.
End owned.
