(* ===== verification/CacheShifts.v ===== *)
(** * Publication, reordering and removal

    The moments at which entries change hands: a new entry enters a chain and
    the LRU list, entries change places there, an entry is taken out.  In each
    the memory is already as it should be; only the ghost state moves. *)
From iris.proofmode Require Import proofmode.
From iris.algebra Require Import auth gmultiset.
From iris.base_logic Require Import base_logic.
From iris.base_logic.lib Require Import own iprop ghost_map.
From S2P Require Import Prelude Types CacheTypes CacheState Cache CacheLinks CacheWf CacheFacts.
From S2P Require Import CacheSystem CacheClients CacheThreads CacheWp CacheGhost CacheRules CacheLocking CacheOwned.

Section shifts.
Context {D : Type} `{!cacheG Σ} (γ : names).
Implicit Types (s : cstate D) (l : loc) (e : kes_extent_entry) (ch : list loc)
  (chains : gmap Z (list loc)) (st : gmap loc status).
Local Abbreviation W := (wp (shared (D := D) γ)).

(** ** What can be learnt between two steps *)

Lemma wp_know {A} (m : prog D A) (P φ : iProp Σ) Q :
  Persistent φ -> ended m = false -> (forall s, shared γ s -∗ P -∗ φ) ->
  P -∗ (P -∗ φ -∗ W m Q) -∗ W m Q.
Proof.
  intros Hφ Hm Hk. iIntros "HP HQ". iApply wp_ghost; [done|]. iIntros (s) "S".
  iDestruct (Hk with "S HP") as "#H". iModIntro. iFrame "S". by iApply ("HQ" with "HP").
Qed.

(** An entry that is not being loaded is on the LRU list. *)
Lemma loaded_listed s l e :
  is_loading e = false -> shared γ s -∗ entry_at γ l e -∗ listed γ l.
Proof.
  iIntros (Hld) "S (Hent & Hst & _)". open_shared.
  iDestruct (ghost_map_lookup with "Sent Hent") as %E. iDestruct (ghost_map_lookup with "Sst Hst") as %Est.
  destruct (lsd !! l) as [[]|] eqn:El.
  - by iDestruct (big_sepM_lookup _ lsd l tt with "Klsd") as "[$ _]".
  - destruct (eo_loading _ _ _ _ _ He l e E Est El). congruence.
Qed.

Lemma lru_listed s order0 l : l ∈ order0 -> shared γ s -∗ lru_at γ order0 -∗ listed γ l.
Proof.
  iIntros (Hin) "S (Ho & _)". open_shared. iDestruct (ghost_map_lookup with "Sord Ho") as %E.
  rw lookup_singleton_eq in E. injection E as ->.
  destruct (proj1 (io_order _ _ _ _ _ Hi l) Hin) as [_ [[] Hls]].
  by iDestruct (big_sepM_lookup _ lsd l tt with "Klsd") as "[$ _]".
Qed.
Lemma lru_nodup s order0 : shared γ s -∗ lru_at γ order0 -∗ ⌜NoDup order0⌝.
Proof.
  iIntros "S (Ho & _)". open_shared. iDestruct (ghost_map_lookup with "Sord Ho") as %E.
  rw lookup_singleton_eq in E. injection E as ->. iPureIntro. by apply (io_order_nodup _ _ _ _ _ Hi).
Qed.
Lemma lru_member P s order0 l :
  Shows (D := D) γ P l -> shared γ s -∗ (lru_at γ order0 ∗ P ∗ listed γ l) -∗ ⌜l ∈ order0⌝.
Proof.
  intros HP. iIntros "S ((Ho & _) & HP & Hls)". open_shared.
  iDestruct (ghost_map_lookup with "Sord Ho") as %E. rw lookup_singleton_eq in E. injection E as ->.
  iDestruct (ghost_map_lookup with "Slsd Hls") as %El.
  iAssert ⌜st !! l = Some Public⌝%I as %Hst.
  { iApply (HP s with "[-HP] HP"). unfold shared_with. iFrame "∗%". }
  iPureIntro. apply (io_order _ _ _ _ _ Hi). split; [done|by eexists].
Qed.

Lemma chain_nodup s i ch : shared γ s -∗ chain_at γ i ch -∗ ⌜NoDup ch⌝.
Proof.
  iIntros "S (Hc & _)". open_shared. iDestruct (ghost_map_lookup with "Sch Hc") as %E. iPureIntro.
  by apply (io_nodup _ _ _ _ _ Hi i).
Qed.

(** The chain of a bucket holds every published entry that belongs there, for
    those who read it and for those who change it. *)
Class Sees (R : iProp Σ) (i : Z) (ch : list loc) : Prop :=
  sees s X Y heads ends locks chains order st infos lsd :
    shared_with γ s X Y heads ends locks chains order st infos lsd -∗ R -∗ ⌜chains !! i = Some ch⌝.
#[export] Instance sees_reading i ch : Sees (reading γ i ch) i ch.
Proof.
  iIntros (s X Y heads ends locks chains order st infos lsd) "(% & %Hl & % & % & % & % & % & _ & SY & _) Hr".
  iDestruct (reading_in with "SY Hr") as %Hr. iPureIntro. by apply (lo_readers _ _ _ _ _ Hl).
Qed.
#[export] Instance sees_chain i ch : Sees (chain_at γ i ch) i ch.
Proof.
  iIntros (s X Y heads ends locks chains order st infos lsd)
    "(% & % & % & % & % & % & % & _ & _ & _ & _ & _ & _ & _ & _ & Sch & _) (Hch & _)".
  iApply (ghost_map_lookup with "Sch Hch").
Qed.

Lemma sees_shows R i ch l : Sees R i ch -> l ∈ ch -> Shows (D := D) γ R l.
Proof.
  intros HR Hin. iIntros (s X Y heads ends locks chains order st infos lsd) "S HR".
  iDestruct (HR with "S HR") as %Hch. iDestruct "S" as "(_ & _ & _ & _ & _ & %Hi & _)".
  iPureIntro. by apply (io_chain _ _ _ _ _ Hi i ch l).
Qed.
(** Every entry in the chain belongs to the bucket. *)
Lemma sees_known R s i ch l :
  Sees R i ch -> l ∈ ch -> shared γ s -∗ R -∗ ∃ inf, known γ l inf ∗ ⌜bucket (in_id inf) = i⌝.
Proof.
  intros HR Hin. iIntros "S HR". open_shared.
  iAssert ⌜chains !! i = Some ch⌝%I as %Hch.
  { iApply (HR s with "[-HR] HR"). unfold shared_with. iFrame "∗%". }
  destruct (io_chain _ _ _ _ _ Hi i ch l Hch Hin) as (Hst & inf & Hinf & Hb).
  iDestruct (big_sepM_lookup _ st l Public with "Kent") as "[(%inf' & #Hk & _) _]"; [exact Hst|].
  iDestruct (ghost_map_lookup with "Sinf Hk") as %E. rw Hinf in E. injection E as <-. by iFrame "Hk".
Qed.
Lemma sees_member R P s i ch l inf :
  Sees R i ch -> Shows (D := D) γ P l -> bucket (in_id inf) = i ->
  shared γ s -∗ (R ∗ P ∗ known γ l inf) -∗ ⌜l ∈ ch⌝.
Proof.
  intros HR HP Hb. iIntros "S (HR & HP & Hk)". open_shared.
  iDestruct (ghost_map_lookup with "Sinf Hk") as %Hinf.
  iAssert ⌜chains !! i = Some ch /\ st !! l = Some Public⌝%I as %[Hch Hst].
  { iAssert (shared_with γ s X Y heads ends locks chains order st infos lsd) with "[-HR HP]" as "S".
    { unfold shared_with. iFrame "∗%". }
    iDestruct (HR with "S HR") as %?. by iDestruct (HP with "S HP") as %?. }
  iPureIntro. destruct (io_public _ _ _ _ _ Hi l inf Hst Hinf) as (c & Hchain & Hin). congruence.
Qed.
(** No two entries of a chain are for the same extent. *)
Lemma sees_unique R s i ch x y ix iy :
  Sees R i ch -> x ∈ ch -> y ∈ ch -> kes_extent_equal (in_id ix) (in_id iy) = true ->
  shared γ s -∗ (R ∗ known γ x ix ∗ known γ y iy) -∗ ⌜x = y⌝.
Proof.
  intros HR Hx Hy Heq. iIntros "S (HR & Hkx & Hky)". open_shared.
  iDestruct (ghost_map_lookup with "Sinf Hkx") as %E1. iDestruct (ghost_map_lookup with "Sinf Hky") as %E2.
  iAssert ⌜chains !! i = Some ch⌝%I as %Hch.
  { iApply (HR s with "[-HR] HR"). unfold shared_with. iFrame "∗%". }
  iPureIntro. by apply (io_unique _ _ _ _ _ Hi i ch x y ix iy).
Qed.

(** ** The LRU list *)

Lemma lru_permute s (order0 order1 : list loc) :
  order1 ≡ₚ order0 -> shared γ s -∗ tt ↪[n_order γ] order0 ==∗ shared γ s ∗ tt ↪[n_order γ] order1.
Proof.
  iIntros (Hperm) "S Ho". open_shared. iDestruct (ghost_map_lookup with "Sord Ho") as %E.
  rw lookup_singleton_eq in E. injection E as ->.
  iMod (ghost_map_update order1 with "Sord Ho") as "[Sord $]". rw insert_singleton_eq. iModIntro.
  close_with X Y heads ends locks chains order1 st infos lsd. iFrame "∗%". iPureIntro.
  destruct Hi as [I1 I2 I3 I4 I5 I6 I7]. split; [done..| |by rw Hperm]. intros l. by rw Hperm.
Qed.

Lemma lru_publish P s l (order0 : list loc) :
  Shows (D := D) γ P l -> l ∉ order0 ->
  shared γ s -∗ P -∗ tt ↪[n_order γ] order0 ==∗
  shared γ s ∗ P ∗ tt ↪[n_order γ] (l :: order0) ∗ listed γ l.
Proof.
  iIntros (HP Hin) "S HP Ho". open_shared. iDestruct (ghost_map_lookup with "Sord Ho") as %E.
  rw lookup_singleton_eq in E. injection E as ->.
  iAssert ⌜st !! l = Some Public⌝%I as %Hst.
  { iApply (HP s with "[-HP] HP"). unfold shared_with. iFrame "∗%". }
  assert (lsd !! l = None) as Hno.
  { apply eq_None_not_Some. intros Hl'. by apply Hin, (io_order _ _ _ _ _ Hi). }
  iDestruct (big_sepM_lookup_acc _ st l Public with "Kent") as "[[(%inf & #Hk & Kb) Kl] Kent]"; [exact Hst|].
  iDestruct ("Kent" with "[$Kl $Kb $Hk]") as "Kent".
  iMod (ghost_map_update (l :: order0) with "Sord Ho") as "[Sord $]". rw insert_singleton_eq.
  iMod (ghost_map_insert_persist l tt with "Slsd") as "[Slsd #Hls]"; [exact Hno|].
  iModIntro. iFrame "HP Hls". close_with X Y heads ends locks chains (l :: order0) st infos (<[l := tt]> lsd).
  iFrame "∗%". rw big_sepM_insert; [|done]. iFrame "Klsd Hls Hk". iPureIntro. split_and!.
  - destruct He as [E1 E2 E3 E4 E5]. split; [done..|]. intros y e Hy Hp'. rw lookup_insert_None.
    intros [Hn _]. by apply E5.
  - destruct Hi as [I1 I2 I3 I4 I5 I6 I7]. split; [done..| |by constructor]. intros y.
    rw elem_of_cons I6 lookup_insert_is_Some'. split; [intros [->|[? ?]]; tauto|].
    intros [? [->|?]]; [by left|by right].
  - intros y Hy. destruct (Hf y Hy) as (F1 & F2 & F3 & ? & ? & ?). split_and!; try done.
    rw lookup_insert_ne; [done|]. intros ->. congruence.
Qed.

(** ** Chains *)

(** While a bucket is held exclusively its chain has no reader, and nothing is
    kept for it. *)
Lemma chains_update (h : held) locks Y chains st i ch ch' :
  locks_ok h locks Y chains st -> h !! LBucket i = Some 0%nat -> chains !! i = Some ch ->
  locks_ok h locks Y (<[i := ch']> chains) st.
Proof.
  intros [L1 L2 L3 L4 L5] Hh Hch.
  assert (forall c, (i, c) ∉ Y) as Hnone.
  { intros c Hin. pose proof (L3 i c (L2 _ _ Hin)) as Hm. rw Hh in Hm.
    pose proof (proj1 (elem_of_multiplicity _ _) Hin) as Hpos. rw Hm in Hpos. lia. }
  split; [done| | | |done].
  - intros j c Hin. destruct (decide (i = j)) as [<-|Hne]; [by destruct (Hnone c)|].
    rw lookup_insert_ne; [|done]. by apply L2.
  - intros j c [[<- <-]|[Hne Hj]]%lookup_insert_Some; [|by apply L3]. rw Hh.
    pose proof (Hnone ch') as Hn. rw elem_of_multiplicity in Hn. cbn in *. lia.
  - intros x n Hx. destruct (L4 x n Hx) as (j & -> & Hj). exists j. split; [done|].
    rw lookup_insert_is_Some'. by right.
Qed.
Lemma kept_update (h : held) chains i ch ch' :
  h !! LBucket i = Some 0%nat -> chains !! i = Some ch ->
  ([∗ map] i ↦ ch ∈ chains, chain_kept γ (h !! LBucket i) i ch) -∗
  [∗ map] i ↦ ch ∈ <[i := ch']> chains, chain_kept γ (h !! LBucket i) i ch.
Proof.
  iIntros (Hh Hch) "K". iDestruct (chains_take γ h with "K") as "[_ K]"; [exact Hch|].
  iApply ("K" $! h with "[//]"). by rw Hh.
Qed.
Lemma locked_held s x : shared γ s -∗ locked γ x -∗ ⌜cs_held s !! x = Some 0%nat⌝.
Proof.
  iIntros "S Hx". open_shared. iDestruct (ghost_map_lookup with "Slk Hx") as %E. iPureIntro.
  apply (lo_excl _ _ _ _ _ Hl). by eexists.
Qed.

(** The right to publish: the identity of the entry is still open. *)
Lemma unlisted s l (inf : info) : shared γ s -∗ l ↪[n_infos γ] inf -∗
  ∃ X Y heads ends locks chains order st infos lsd,
    ⌜lsd !! l = None⌝ ∗ shared_with γ s X Y heads ends locks chains order st infos lsd ∗ l ↪[n_infos γ] inf.
Proof.
  iIntros "S Hinf". open_shared. iExists X, Y, heads, ends, locks, chains, order, st, infos, lsd.
  destruct (lsd !! l) as [[]|] eqn:El; [|unfold shared_with; by iFrame "∗%"].
  iDestruct (big_sepM_lookup _ lsd l tt with "Klsd") as "[_ (%inf' & Hk)]"; [exact El|].
  unfold known. by iDestruct (ghost_map_elem_ne with "Hinf Hk") as %[].
Qed.

(** What a new entry looks like when it is published. *)
Record newborn e : Prop := {
  nb_ref : e_ref_count e = 1;
  nb_wait : e_cond_waiters e = 0;
  nb_loading : is_loading e = true;
  nb_error : is_error e = false
}.
Definition absent (id : kes_extent_id) ch : iProp Σ :=
  [∗ list] x ∈ ch, ∃ inf, known γ x inf ∗ ⌜kes_extent_equal (in_id inf) id = false⌝.

(** The entry stops being private: ghost state and memory ... *)
Lemma entries_publish es st infos lsd X l e :
  newborn e -> es !! l = Some e -> st !! l ≠ Some Public -> claims_ok ({[+ CFree +]} ⊎ X) st ->
  entries_ok es st infos lsd ({[+ CFree +]} ⊎ X) ->
  entries_ok es (<[l := Public]> st) (<[l := info_of e]> infos) lsd ({[+ CRef l +]} ⊎ X).
Proof.
  intros [N1 N2 N3 N4] Hle Hst Hcl [E1 E2 E3 E4 E5].
  assert (forall y c, st !! l ≠ Some Public -> claim_on c = Some y ->
    multiplicity c ({[+ CRef l +]} ⊎ X) =
      ((if decide (c = CRef l) then 1 else 0) + if decide (y = l) then 0 else multiplicity c ({[+ CFree +]} ⊎ X))%nat) as Hm.
  { intros y c _ Hy. assert (c ≠ CFree) as Hc by (by intros ->). apply Nat2Z.inj. rw mult_plus Nat2Z.inj_add.
    destruct (decide (y = l)) as [->|Hyl].
    - pose proof (unclaimed _ _ _ c Hcl Hst Hy) as Hu. apply (f_equal Z.of_nat) in Hu. rw mult_plus in Hu.
      unfold one_if in *. repeat case_decide; try congruence; lia.
    - rw mult_plus. assert (c ≠ CRef l) by (intros ->; cbn in Hy; congruence).
      unfold one_if in *. repeat case_decide; try congruence; lia. }
  split.
  - intros y. rw lookup_insert_is_Some' E1. split; [intros [<-|?]; [by eexists|done]|by right].
  - intros y d Hy [[<- _]|[Hne Hp]]%lookup_insert_Some.
    + assert (d = e) as -> by congruence. rw (Hm l (CRef l)); [|done..]. repeat case_decide; try congruence; lia.
    + rw (Hm y (CRef y)); [|done..]. rw (E2 y d Hy Hp). repeat case_decide; try congruence; lia.
  - intros y d Hy [[<- _]|[Hne Hp]]%lookup_insert_Some.
    + assert (d = e) as -> by congruence. rw (Hm l (CWait l)); [|done..]. repeat case_decide; try congruence; lia.
    + rw (Hm y (CWait y)); [|done..]. rw (E3 y d Hy Hp). repeat case_decide; try congruence; lia.
  - intros y d Hy [[<- _]|[Hne Hp]]%lookup_insert_Some.
    + rw lookup_insert_eq. congruence.
    + rw lookup_insert_ne; [by apply E4|done].
  - intros y d Hy [[<- _]|[Hne Hp]]%lookup_insert_Some Hu.
    + split; [congruence|]. apply gmultiset_elem_of_disj_union. left. by apply gmultiset_elem_of_singleton.
    + destruct (E5 y d Hy Hp Hu) as [? Hin]. split; [done|]. apply gmultiset_elem_of_disj_union. right.
      by apply gmultiset_elem_of_disj_union in Hin as [?%gmultiset_elem_of_singleton|?].
Qed.
(** ... and the chain. *)
Lemma index_publish chains order st infos lsd i ch l e :
  chains !! i = Some ch -> bucket (e_id e) = i -> st !! l ≠ Some Public -> lsd !! l = None ->
  (forall x, x ∈ ch -> exists inf, infos !! x = Some inf /\ kes_extent_equal (in_id inf) (e_id e) = false) ->
  index_ok chains order st infos lsd ->
  index_ok (<[i := l :: ch]> chains) order (<[l := Public]> st) (<[l := info_of e]> infos) lsd.
Proof.
  intros Hch Hb Hst Hno Habs [I1 I2 I3 I4 I5 I6 I7].
  assert (forall j c x, chains !! j = Some c -> x ∈ c -> x ≠ l) as Hne.
  { intros j c x Hj Hx ->. by destruct (I2 j c l Hj Hx). }
  split; [| | | | | |done].
  - intros j. rw lookup_insert_is_Some' I1. split; [|by right]. intros [<-|?]; [|done]. apply I1. by eexists.
  - intros j c x [[<- <-]|[Hj Hc]]%lookup_insert_Some Hx.
    + apply elem_of_cons in Hx as [->|Hx]; [rw !lookup_insert_eq; split; [done|by eexists]|].
      rw !lookup_insert_ne; [by apply I2 with ch|by intros ->; eapply Hne..].
    + rw !lookup_insert_ne; [by apply I2 with c|by intros ->; eapply Hne..].
  - intros j c [[<- <-]|[Hj Hc]]%lookup_insert_Some; [|by eapply I3]. constructor; [|by eapply I3].
    intros Hin. by eapply Hne.
  - intros j c x y ix iy [[<- <-]|[Hj Hc]]%lookup_insert_Some Hx Hy.
    + apply elem_of_cons in Hx as [->|Hx]; apply elem_of_cons in Hy as [->|Hy]; [done|..].
      * rw lookup_insert_eq. intros [= <-]. rw lookup_insert_ne; [|by intros ->; eapply Hne].
        intros Hiy. destruct (Habs y Hy) as (k & Hk & Heq). cbn. rw Hiy in Hk. injection Hk as <-.
        rw (equal_sym (e_id e)). congruence.
      * rw (lookup_insert_ne _ l x); [|by intros ->; eapply Hne]. intros Hix. rw lookup_insert_eq. intros [= <-].
        destruct (Habs x Hx) as (k & Hk & Heq). cbn. rw Hix in Hk. injection Hk as <-. congruence.
      * pose proof (Hne i ch x Hch Hx). pose proof (Hne i ch y Hch Hy).
        rw (lookup_insert_ne _ l x); [|done]. rw (lookup_insert_ne _ l y); [|done]. by apply I4 with i ch.
    + pose proof (Hne j c x Hc Hx). pose proof (Hne j c y Hc Hy).
      rw (lookup_insert_ne _ l x); [|done]. rw (lookup_insert_ne _ l y); [|done]. by apply I4 with j c.
  - intros y inf [[<- _]|[Hy Hp]]%lookup_insert_Some.
    + rw lookup_insert_eq. intros [= <-]. exists (l :: ch). cbn. rw Hb lookup_insert_eq. split; [done|by left].
    + rw lookup_insert_ne; [|done]. intros Hinf. destruct (I5 y inf Hp Hinf) as (c & Hc & Hin).
      destruct (decide (i = bucket (in_id inf))) as [->|Hb'].
      * exists (l :: ch). rw lookup_insert_eq. split; [done|]. right. congruence.
      * exists c. by rw lookup_insert_ne.
  - intros y. rw I6 lookup_insert_Some. split.
    + intros [Hp Hls]. split; [|done]. right. split; [|done]. intros <-. rw Hno in Hls. by destruct Hls.
    + intros [[[<- _]|[_ Hp]] Hls]; [|done]. rw Hno in Hls. by destruct Hls.
Qed.

Lemma chain_publish s i ch l e (inf : info) :
  newborn e -> bucket (e_id e) = i ->
  shared γ s -∗ locked γ (LBucket i) -∗ i ↪[n_chains γ] ch -∗
  l ↪[n_entries γ] e -∗ l ↪[n_status γ] Private -∗ l ↪[n_infos γ] inf -∗
  claims γ CFree -∗ buffer_at γ (info_of e) -∗ absent (e_id e) ch ==∗
  shared γ s ∗ locked γ (LBucket i) ∗ i ↪[n_chains γ] (l :: ch) ∗ claims γ (CRef l) ∗ known γ l (info_of e).
Proof.
  iIntros (Hnb Hb) "S Hx Hch Hent Hst Hinf Hfree Hbuf #Habs".
  iDestruct (locked_held with "S Hx") as %Hh.
  iDestruct (unlisted with "S Hinf") as (X Y heads ends locks chains order st infos lsd Hno) "[S Hinf]".
  open_with. iDestruct (ghost_map_lookup with "Sent Hent") as %Ee.
  iDestruct (ghost_map_lookup with "Sst Hst") as %Est. iDestruct (ghost_map_lookup with "Sch Hch") as %Ech.
  iDestruct (ghost_map_lookup with "Sinf Hinf") as %Einf.
  assert (st !! l ≠ Some Public) as Hnp by congruence.
  iAssert ⌜forall x, x ∈ ch -> exists k, infos !! x = Some k /\ kes_extent_equal (in_id k) (e_id e) = false⌝%I as %Habs.
  { iIntros (x (n & Hn)%list_elem_of_lookup).
    iDestruct (big_sepL_lookup with "Habs") as (k) "[Hk %Hk]"; [exact Hn|].
    iDestruct (ghost_map_lookup with "Sinf Hk") as %E. by iExists k. }
  iDestruct (claim_in with "SX Hfree") as %[X' ->].
  iMod (claim_swap _ _ _ (CRef l) with "SX Hfree") as "[SX $]".
  iMod (ghost_map_update Public with "Sst Hst") as "[Sst Hst]".
  iMod (ghost_map_update (l :: ch) with "Sch Hch") as "[Sch $]".
  iMod (ghost_map_update (info_of e) with "Sinf Hinf") as "[Sinf Hinf]".
  iMod (ghost_map_elem_persist with "Hinf") as "#Hk".
  assert (cs_held s !! LEntry l = None) as Hel.
  { apply eq_None_not_Some. intros Hs. destruct (lo_entry _ _ _ _ _ Hl l Hs); congruence. }
  iDestruct (entries_take γ (cs_held s) st l Private with "Kent") as "[_ Kent]"; [done|].
  iSpecialize ("Kent" $! (cs_held s) Public with "[//] [Hent Hst Hbuf]").
  { rw Hel. cbn. iSplitL "Hbuf"; [iExists (info_of e); by iFrame "Hk Hbuf"|]. iExists e. iFrame.
    iPureIntro. intros H. rw (nb_error _ Hnb) in H. discriminate. }
  iDestruct (kept_update (cs_held s) chains i ch (l :: ch) Hh Ech with "Kch") as "Kch".
  iModIntro. iFrame "Hx Hk".
  close_with ({[+ CRef l +]} ⊎ X') Y heads ends locks (<[i := l :: ch]> chains) order (<[l := Public]> st)
    (<[l := info_of e]> infos) lsd.
  iFrame "∗%". iPureIntro. split_and!.
  - destruct (chains_update _ _ _ _ _ i ch (l :: ch) Hl Hh Ech) as [L1 L2 L3 L4 L5]. split; [done..|].
    intros y Hy. destruct (decide (l = y)) as [<-|Hne]; [left; by rw lookup_insert_eq|].
    rw lookup_insert_ne; [by apply L5|done].
  - apply (claims_swap_ok CFree); [|intros y [= <-]; by rw lookup_insert_eq].
    destruct Hcl as [C1 C2]. split; [done|]. intros c y Hcin Hon. rw lookup_insert_ne; [by apply (C2 c)|].
    intros <-. by apply Hnp, (C2 c).
  - by apply (pins_swap _ _ CFree).
  - by apply entries_publish.
  - by apply index_publish.
  - intros y Hy. destruct (Hf y Hy) as (? & ? & ? & ? & ? & ?).
    rw !lookup_insert_ne; [done|by intros <-; congruence..].
Qed.

(** What the evictor has checked under the entry's lock and, with both other
    locks held, about the pins. *)
Definition unused s l e : Prop :=
  e_ref_count e = 0 /\ e_cond_waiters e = 0 /\ cs_pins s !! l = Some 0.

Lemma index_close chains order st infos lsd i ch l e :
  chains !! i = Some ch -> bucket (e_id e) = i -> st !! l = Some Public -> infos !! l = Some (info_of e) ->
  index_ok chains order st infos lsd ->
  index_ok (<[i := without l ch]> chains) (without l order) (<[l := Closed]> st) infos lsd.
Proof.
  intros Hch Hb Hst Hinf [I1 I2 I3 I4 I5 I6 I7].
  assert (forall j c y, <[i := without l ch]> chains !! j = Some c -> y ∈ c ->
    y ≠ l /\ exists c', chains !! j = Some c' /\ y ∈ c') as Hback.
  { intros j c y [[<- <-]|[Hj Hc]]%lookup_insert_Some Hy.
    - apply elem_of_without in Hy as [? ?]. eauto.
    - split; [|by exists c]. intros ->. destruct (I2 j c l Hc Hy) as (_ & k & Hk & Hbk).
      rw Hinf in Hk. injection Hk as <-. cbn in Hbk. congruence. }
  split.
  - intros j. rw lookup_insert_is_Some' I1. split; [|by right]. intros [<-|?]; [|done]. apply I1. by eexists.
  - intros j c y Hj Hy. destruct (Hback j c y Hj Hy) as (Hne & c' & Hc' & Hy').
    rw lookup_insert_ne; [by apply I2 with c'|congruence].
  - intros j c [[<- <-]|[Hj Hc]]%lookup_insert_Some; [apply NoDup_without|]; by eapply I3.
  - intros j c x y ix iy Hj Hx Hy. destruct (Hback j c x Hj Hx) as (_ & c' & Hc' & Hx').
    destruct (Hback j c y Hj Hy) as (_ & c2 & Hc2 & Hy'). rw Hc' in Hc2. injection Hc2 as <-.
    by apply I4 with j c'.
  - intros y inf [[_ ?]|[Hy Hp]]%lookup_insert_Some Hk; [done|]. destruct (I5 y inf Hp Hk) as (c & Hc & Hin).
    destruct (decide (i = bucket (in_id inf))) as [E|E].
    + exists (without l ch). subst i. rw E lookup_insert_eq. split; [done|].
      apply elem_of_without. split; [congruence|]. rw E in Hch. congruence.
    + exists c. by rw lookup_insert_ne.
  - intros y. rw elem_of_without I6 lookup_insert_Some. split.
    + intros (? & ? & ?). split; [by right|done].
    + intros [[[_ ?]|[? ?]] ?]; done.
  - by apply NoDup_without.
Qed.

Lemma chain_close s i ch (order0 : list loc) l e :
  bucket (e_id e) = i -> unused s l e ->
  shared γ s -∗ locked γ (LBucket i) -∗ locked γ LCache -∗ locked γ (LEntry l) -∗ entry_at γ l e -∗
  i ↪[n_chains γ] ch -∗ tt ↪[n_order γ] order0 ==∗
  shared γ s ∗ locked γ (LBucket i) ∗ locked γ LCache ∗ locked γ (LEntry l) ∗
  l ↪[n_entries γ] e ∗ l ↪[n_status γ] Closed ∗ buffer_at γ (info_of e) ∗
  i ↪[n_chains γ] (without l ch) ∗ tt ↪[n_order γ] (without l order0) ∗
  ⌜l ∈ ch /\ NoDup ch /\ l ∈ order0 /\ NoDup order0⌝.
Proof.
  iIntros (Hb (Hr & Hw & Hpin)) "S Hx HL Hl Hent Hch Ho".
  iDestruct (locked_held with "S Hx") as %Hh. iDestruct (locked_held with "S Hl") as %Hlh.
  open_shared. iDestruct "Hent" as "(Hent & Hst & %Hfl)".
  iDestruct (ghost_map_lookup with "Sent Hent") as %Ee.
  iDestruct (ghost_map_lookup with "Sst Hst") as %Est. iDestruct (ghost_map_lookup with "Sch Hch") as %Ech.
  iDestruct (ghost_map_lookup with "Sord Ho") as %E. rw lookup_singleton_eq in E. injection E as ->.
  pose proof (eo_info _ _ _ _ _ He l e Ee Est) as Einf.
  assert (forall c, claim_on c = Some l -> multiplicity c X = 0%nat) as Hnone.
  { pose proof (eo_ref _ _ _ _ _ He l e Ee Est). pose proof (eo_wait _ _ _ _ _ He l e Ee Est).
    pose proof (Hp l) as Hpl. rw Hpin Ee in Hpl. cbn in Hpl. injection Hpl as Hpl.
    intros [|y|y|y]; [done|by intros [= ->]; lia..]. }
  assert (is_Some (lsd !! l)) as Hls.
  { apply not_eq_None_Some. intros Hno. destruct (eo_loading _ _ _ _ _ He l e Ee Est Hno) as [_ Hin].
    pose proof (proj1 (elem_of_multiplicity _ _) Hin) as Hpos. rw (Hnone (CRef l) eq_refl) in Hpos. lia. }
  destruct (io_public _ _ _ _ _ Hi l _ Est Einf) as (c & Hc' & Hlc). cbn in Hc'. rw Hb Ech in Hc'. injection Hc' as <-.
  iMod (ghost_map_update Closed with "Sst Hst") as "[Sst $]".
  iMod (ghost_map_update (without l ch) with "Sch Hch") as "[Sch $]".
  iMod (ghost_map_update (without l order0) with "Sord Ho") as "[Sord $]". rw insert_singleton_eq.
  iDestruct (entries_take γ (cs_held s) st l Public with "Kent") as "[[(%inf & #Hk & Hbuf) _] Kent]"; [done|].
  iSpecialize ("Kent" $! (cs_held s) Closed with "[//] [//]").
  iDestruct (ghost_map_lookup with "Sinf Hk") as %Ek. rw Einf in Ek. injection Ek as <-.
  iDestruct (kept_update (cs_held s) chains i ch (without l ch) Hh Ech with "Kch") as "Kch".
  iModIntro. iFrame "Hx HL Hl Hent Hbuf". iSplitL; [|iPureIntro; split_and!; [done| | |]].
  - close_with X Y heads ends locks (<[i := without l ch]> chains) (without l order0) (<[l := Closed]> st) infos lsd.
    iFrame "∗%". iPureIntro. split_and!.
    + destruct (chains_update _ _ _ _ _ i ch (without l ch) Hl Hh Ech) as [L1 L2 L3 L4 L5]. split; [done..|].
      intros y Hy. destruct (decide (l = y)) as [<-|Hne]; [right; by rw lookup_insert_eq|].
      rw lookup_insert_ne; [by apply L5|done].
    + destruct Hcl as [C1 C2]. split; [done|]. intros x y Hx Hy. rw lookup_insert_ne; [by apply (C2 x)|].
      intros <-. pose proof (proj1 (elem_of_multiplicity _ _) Hx) as Hpos. rw (Hnone x Hy) in Hpos. lia.
    + destruct He as [E1 E2 E3 E4 E5]. split.
      { intros y. rw lookup_insert_is_Some' E1. split; [intros [<-|?]; [by eexists|done]|by right]. }
      all: intros y d Hy [[_ ?]|[_ Hst]]%lookup_insert_Some; [done|eauto].
    + by eapply index_close.
    + intros y Hy. destruct (Hf y Hy) as (? & ? & ? & ? & ? & ?).
      rw lookup_insert_ne; [done|by intros <-; congruence..].
  - by apply (io_nodup _ _ _ _ _ Hi i).
  - by apply (io_order _ _ _ _ _ Hi).
  - by apply (io_order_nodup _ _ _ _ _ Hi).
Qed.
End shifts.
