(* ===== verification/CacheAccess.v ===== *)
(** * Buffers, callbacks and lists

    The remaining rules: reading a chain under its lock, allocating and using
    buffers, and the check of the pins that lets an evictor take an entry out. *)
From iris.proofmode Require Import proofmode.
From iris.algebra Require Import auth gmultiset.
From iris.base_logic Require Import base_logic.
From iris.base_logic.lib Require Import own iprop ghost_map.
From S2P Require Import Prelude Types CacheTypes CacheState Cache CacheLinks CacheWf CacheFacts.
From S2P Require Import CacheSystem CacheClients CacheThreads CacheWp CacheGhost CacheRules CacheLocking CacheOwned CacheShifts.

Section access.
Context {D : Type} `{!cacheG Σ} (γ : names).
Implicit Types (s : cstate D) (l : loc) (e : kes_extent_entry) (ch : list loc)
  (chains : gmap Z (list loc)) (st : gmap loc status).
Local Abbreviation W := (wp (shared (D := D) γ)).

(** ** Steps that leave everything alone *)

Lemma wp_out_of_fuel {A} (Q : A -> iProp Σ) : ⊢ W out_of_fuel Q.
Proof. iApply wp_act. iIntros (s) "S". iModIntro. iSplitR; [done|]. iIntros (y s' [=]). Qed.
Lemma wp_walk_fuel Q : (∀ n, Q n) -∗ W walk_fuel Q.
Proof. iIntros "HQ". iApply wp_reads. iIntros (s) "S". iExists _. iFrame "S". by iSplitR. Qed.
Lemma wp_get_timestamp Q : (∀ t, Q t) -∗ W get_timestamp Q.
Proof. iIntros "HQ". iApply wp_reads. iIntros (s) "S". iExists _. iFrame "S". by iSplitR. Qed.
Lemma wp_elapse sec nsec script Q : Q tt -∗ W (elapse sec nsec script) Q.
Proof.
  iIntros "HQ". iApply wp_writes. iIntros (s) "S". iExists _. iSplitR; [done|]. iFrame "HQ". iModIntro.
  open_shared. close_with X Y heads ends locks chains order st infos lsd. iFrame "∗%".
Qed.

(** ** Chains under a lock *)

Lemma nodes_seg (γl : gname) (m : gmap loc links) ls :
  ghost_map_auth γl 1 m -∗ nodes γl ls -∗ ⌜seg m None ls None⌝.
Proof.
  iIntros "Hm (%m' & Hn & %Hs & %Hd)". iDestruct (ghost_map_lookup_big with "Hm Hn") as %Hsub.
  iPureIntro. eapply seg_frame; [|exact Hs]. intros x [k Hk]%Hd. rw Hk. by eapply lookup_weaken.
Qed.

(** A bucket with this chain in memory. *)
Definition has_chain s (i : Z) ch : Prop :=
  (c ← cs_cache s; c_heads c !! Z.to_nat i) = Some (head ch) /\ seg (cs_hash s) None ch None.

Class Holds (R : iProp Σ) (i : Z) (ch : list loc) : Prop :=
  holds s : shared γ s -∗ R -∗ ⌜has_chain s i ch⌝.
#[export] Instance holds_chain i ch : Holds (chain_at γ i ch) i ch.
Proof.
  iIntros (s) "S (_ & Hh & Hn)". open_shared. iDestruct (nodes_seg with "Shash Hn") as %Hs.
  iDestruct (ghost_map_lookup with "Sheads Hh") as %Eh. iPureIntro. split; [|done].
  destruct (cache_there _ _ _ Hc) as (c & Hcs & _). rw Hcs. by apply (co_heads _ _ _ Hc c i).
Qed.
#[export] Instance holds_reading i ch : Holds (reading γ i ch) i ch.
Proof.
  iIntros (s) "S Hr". open_shared. iDestruct (reading_in with "SY Hr") as %Hin.
  pose proof (lo_readers _ _ _ _ _ Hl i ch Hin) as Hch. pose proof (lo_count _ _ _ _ _ Hl i ch Hch) as Hm.
  pose proof (proj1 (elem_of_multiplicity _ _) Hin) as Hpos. rw Hm in Hpos.
  iDestruct (big_sepM_lookup _ chains i ch with "Kch") as "K"; [done|].
  destruct (cs_held s !! LBucket i) as [[|n]|]; [lia| |lia]. cbn [chain_kept].
  iDestruct "K" as "(_ & Hh & Hn)". iDestruct (nodes_seg with "Shash Hn") as %Hs.
  iDestruct (ghost_map_lookup with "Sheads Hh") as %Eh. iPureIntro. split; [|done].
  destruct (cache_there _ _ _ Hc) as (c & Hcs & _). rw Hcs. by apply (co_heads _ _ _ Hc c i).
Qed.

Lemma wp_head_of R i ch Q : Holds R i ch -> R -∗ (R -∗ Q (head ch)) -∗ W (load_head i) Q.
Proof.
  iIntros (HR) "HR HQ". iApply wp_reads. iIntros (s) "S". iDestruct (HR with "S HR") as %[Hh _].
  iExists _. iFrame "S". iSplitR; [done|]. by iApply "HQ".
Qed.
Lemma wp_hash_of R i ch1 l ch2 Q :
  Holds R i (ch1 ++ l :: ch2) -> R -∗ (∀ k, ⌜lk_next k = head ch2⌝ -∗ R -∗ Q k) -∗ W (load_hash l) Q.
Proof.
  iIntros (HR) "HR HQ". iApply wp_reads. iIntros (s) "S". iDestruct (HR with "S HR") as %[_ Hs].
  apply seg_links in Hs. iExists _. iFrame "S". iSplitR; [done|]. iApply ("HQ" with "[] HR").
  iPureIntro. cbn. apply nxt_head.
Qed.

(** ** The last check of an evictor *)

Definition in_hand i ch (order0 : list loc) l e : iProp Σ :=
  locked γ (LBucket i) ∗ locked γ LCache ∗ locked γ (LEntry l) ∗ entry_at γ l e ∗
  i ↪[n_chains γ] ch ∗ tt ↪[n_order γ] order0.
Definition taken_out i ch (order0 : list loc) l e : iProp Σ :=
  locked γ (LBucket i) ∗ locked γ LCache ∗ locked γ (LEntry l) ∗
  l ↪[n_entries γ] e ∗ l ↪[n_status γ] Closed ∗ buffer_at γ (info_of e) ∗
  i ↪[n_chains γ] (without l ch) ∗ tt ↪[n_order γ] (without l order0) ∗
  ⌜l ∈ ch /\ NoDup ch /\ l ∈ order0 /\ NoDup order0⌝.

Lemma wp_pins_load i ch (order0 : list loc) l e Q :
  bucket (e_id e) = i -> e_ref_count e = 0 -> e_cond_waiters e = 0 ->
  in_hand i ch order0 l e -∗
  (∀ p, (if p =? 0 then taken_out i ch order0 l e else in_hand i ch order0 l e) -∗ Q p) -∗
  W (pins_load l) Q.
Proof.
  iIntros (Hb Hr Hw) "(Hx & HL & Hl & He & Hch & Ho) HQ". iApply wp_reads. iIntros (s) "S".
  iDestruct (public_entry γ _ l with "S He") as "#(%e1 & %E1 & _)".
  iAssert ⌜is_Some (cs_pins s !! l)⌝%I as %[p Ep].
  { open_shared. iPureIntro. rw (Hp l) E1. by eexists. }
  iExists p. iSplitR; [done|]. destruct (Z.eqb_spec p 0) as [->|Hp].
  - iMod (chain_close γ s i ch order0 l e with "S Hx HL Hl He Hch Ho") as "($ & Hrest)"; [done|done|].
    iModIntro. iApply "HQ". iFrame "Hrest".
  - iModIntro. iFrame "S". iApply "HQ". destruct (Z.eqb_spec p 0); [done|]. iFrame.
Qed.

(** ** Buffers *)

Lemma wp_alloc_buffer size Q :
  (∀ r, match r with Some p => p ↪[n_bufs γ] Z.to_nat size | None => True end -∗ Q r) -∗
  W (alloc_buffer size) Q.
Proof.
  iIntros "HQ". iApply wp_act. iIntros (s) "S".
  destruct (next_failure (cs_env s)) as [[] v] eqn:Ev; cbn -[bump].
  { iSplitR; [done|]. iIntros "!>" (y s' [= <- <-]). iSplitR "HQ"; [|by iApply "HQ"].
    open_shared. close_with X Y heads ends locks chains order st infos lsd. iFrame "∗%". iPureIntro.
    unfold next_failure in Ev. destruct (env_script (cs_env s)); by simplify_eq/=. }
  iModIntro. iSplitR; [done|]. iIntros (y s' [= <- <-]). set (p := env_next v). open_shared.
  assert (p = env_next (cs_env s)) as Ep.
  { unfold next_failure, p in *. destruct (env_script (cs_env s)); by simplify_eq/=. }
  destruct (Hf p) as (F1 & F2 & F3 & F4 & F5 & F6); [lia|].
  set (content := take (Z.to_nat size) (env_junk v p size ++ replicate (Z.to_nat size) 0)).
  assert (length content = Z.to_nat size) as Hlen.
  { unfold content. rw length_take length_app length_replicate. lia. }
  iMod (ghost_map_insert p (Z.to_nat size) with "Sbufs") as "[Sbufs H1]"; [by rw lookup_fmap F6|].
  iModIntro. iSplitR "HQ H1"; [|by iApply "HQ"].
  close_with X Y heads ends locks chains order st infos lsd. rw fmap_insert Hlen. iFrame "∗%". iPureIntro.
  intros z Hz. cbn in Hz. assert (p ≠ z) by lia. destruct (Hf z) as (? & ? & ? & ? & ? & ?); [lia|].
  rw lookup_insert_ne; done.
Qed.

Lemma wp_free_buffer p (n : nat) Q : p ↪[n_bufs γ] n -∗ Q tt -∗ W (free_buffer p) Q.
Proof.
  iIntros "Hb HQ". iApply wp_writes. iIntros (s) "S". open_shared.
  iDestruct (ghost_map_lookup with "Sbufs Hb") as %E. rw lookup_fmap in E.
  apply fmap_Some in E as (b & Hb & _). rw Hb. cbn. iExists _. iSplitR; [done|].
  iMod (ghost_map_delete with "Sbufs Hb") as "Sbufs". iModIntro. iFrame "HQ".
  close_with X Y heads ends locks chains order st infos lsd. rw fmap_delete. iFrame "∗%". iPureIntro.
  intros z Hz. destruct (Hf z Hz) as (? & ? & ? & ? & ? & ?). rw lookup_delete_None. tauto.
Qed.

(** A published entry has its buffer. *)
Lemma public_buffer P s l inf :
  Shows (D := D) γ P l -> shared γ s -∗ (P ∗ known γ l inf) -∗
  ⌜exists p b, in_data inf = Some p /\ cs_bufs s !! p = Some b /\ in_size inf <= Z.of_nat (length b) /\
    in_size inf = extent_data_size (in_id inf) /\ is_Some (cs_cache s)⌝.
Proof.
  intros HP. iIntros "S [HP #Hk]". open_shared.
  iAssert ⌜st !! l = Some Public⌝%I as %Hst.
  { iApply (HP s with "[-HP] HP"). unfold shared_with. iFrame "∗%". }
  iDestruct (big_sepM_lookup _ st l Public with "Kent") as "[(%inf' & #Hk' & Hb) _]"; [exact Hst|].
  iDestruct (ghost_map_lookup with "Sinf Hk") as %E1. iDestruct (ghost_map_lookup with "Sinf Hk'") as %E2.
  rw E1 in E2. injection E2 as <-. iDestruct "Hb" as (p n Hp' Hs' Hn) "Hb".
  iDestruct (ghost_map_lookup with "Sbufs Hb") as %E. rw lookup_fmap in E.
  apply fmap_Some in E as (b & Hb & ->). iPureIntro. exists p, b. split_and!; [done..|].
  destruct (cache_there _ _ _ Hc) as (c & -> & _). by eexists.
Qed.

(** Storing into a buffer does not change what is owned. *)
Lemma shared_store s p (b b' : list Z) d :
  cs_bufs s !! p = Some b -> length b' = length b ->
  shared γ s -∗ shared γ (set_dev d (set_bufs (<[p := b']> (cs_bufs s)) s)).
Proof.
  iIntros (Hb Hlen) "S". open_shared. close_with X Y heads ends locks chains order st infos lsd.
  rw fmap_insert Hlen (insert_id (_ <$> cs_bufs s)); [|by rw lookup_fmap Hb]. iFrame "∗%". iPureIntro.
  intros z Hz. destruct (Hf z Hz) as (? & ? & ? & ? & ? & ?).
  rw lookup_insert_ne; [done|]. intros <-. congruence.
Qed.
Lemma shared_dev s d : shared γ s -∗ shared γ (set_dev d s).
Proof. iIntros "S". open_shared. close_with X Y heads ends locks chains order st infos lsd. iFrame "∗%". Qed.

Lemma wp_call_read P f id l inf Q :
  Shows (D := D) γ P l -> reads_succeed f ->
  P -∗ known γ l inf -∗ (P -∗ Q KES_SUCCESS) -∗ W (call_read f id (in_data inf) (in_size inf)) Q.
Proof.
  intros HP Hf. iIntros "HP #Hk HQ". iApply wp_act. iIntros (s) "S".
  iDestruct (public_buffer P s l inf HP with "S [$HP $Hk]") as %(p & b & Hp & Hb & Hn & _ & [c Hcs]).
  rw Hcs Hp Hb. destruct (Z.ltb_spec (Z.of_nat (length b)) (in_size inf)); [lia|].
  pose proof (Hf (cc_device_handle (c_config c)) id (in_size inf) (cs_dev s)) as Hsucc.
  destruct (f _ _ _ _) as [[r bytes] d]. cbn in Hsucc. subst r.
  iModIntro. iSplitR; [done|]. iIntros (y s' [= <- <-]). iModIntro.
  iSplitL "S"; [|by iApply "HQ"]. iApply (shared_store with "S"); [done|].
  rw length_splice length_take. lia.
Qed.
Lemma wp_call_write P f id l inf Q :
  Shows (D := D) γ P l ->
  P -∗ known γ l inf -∗ (∀ r, P -∗ Q r) -∗ W (call_write f id (in_data inf) (in_size inf)) Q.
Proof.
  intros HP. iIntros "HP #Hk HQ". iApply wp_act. iIntros (s) "S".
  iDestruct (public_buffer P s l inf HP with "S [$HP $Hk]") as %(p & b & Hp & Hb & Hn & _ & [c Hcs]).
  rw Hcs Hp Hb. destruct (Z.ltb_spec (Z.of_nat (length b)) (in_size inf)); [lia|].
  destruct (f _ _ _ _) as [r d]. iModIntro. iSplitR; [done|]. iIntros (y s' [= <- <-]). iModIntro.
  iSplitL "S"; [by iApply shared_dev|by iApply "HQ"].
Qed.
Lemma wp_client_store P p bytes l inf Q :
  Shows (D := D) γ P l -> in_data inf = Some p -> Z.of_nat (length bytes) <= extent_data_size (in_id inf) ->
  P -∗ known γ l inf -∗ (P -∗ Q tt) -∗ W (client_store p bytes) Q.
Proof.
  intros HP Hp Hlen. iIntros "HP #Hk HQ". iApply wp_writes. iIntros (s) "S".
  iDestruct (public_buffer P s l inf HP with "S [$HP $Hk]") as %(p' & b & Hp' & Hb & Hn & Hsz & _).
  rw Hp in Hp'. injection Hp' as <-. rw Hb. cbn -[splice]. destruct (Nat.leb_spec (length bytes) (length b)); [|lia].
  iExists _. iSplitR; [done|]. iModIntro. iSplitL "S"; [|by iApply "HQ"].
  assert (set_bufs (<[p:=splice 0 bytes b]> (cs_bufs s)) s =
    set_dev (cs_dev s) (set_bufs (<[p:=splice 0 bytes b]> (cs_bufs s)) s)) as -> by done.
  iApply (shared_store with "S"); [done|]. rw length_splice. lia.
Qed.
End access.
