(* ===== verification/CacheListRules.v ===== *)
(** * Linking and unlinking, for the owner of a list

    The LRU operations and the surgery on chains, as changes of the list that
    the holder of the lock owns ([nodes]). *)
From iris.proofmode Require Import proofmode.
From iris.base_logic Require Import base_logic.
From iris.base_logic.lib Require Import own iprop ghost_map.
From S2P Require Import Prelude Types CacheTypes CacheState Cache CacheLinks CacheWf CacheFacts.
From S2P Require Import CacheSystem CacheClients CacheThreads CacheWp CacheGhost CacheRules CacheLocking CacheOwned CacheShifts CacheAccess.

Section lists.
Context {D : Type} `{!cacheG Σ} (γ : names).
Implicit Types (s : cstate D) (l : loc) (m : gmap loc links) (ls : list loc) (k : links).
Local Abbreviation W := (wp (shared (D := D) γ)).
Local Abbreviation all γl m := ([∗ map] y ↦ k ∈ m, y ↪[γl] k)%I.

(** ** One node of a list in memory *)

Lemma wp_node (γl : gname) (op : prog D links) m l k Q :
  (forall k Q, l ↪[γl] k -∗ (l ↪[γl] k -∗ Q k) -∗ W op Q) -> m !! l = Some k ->
  all γl m -∗ (all γl m -∗ Q k) -∗ W op Q.
Proof.
  iIntros (Hop Hl) "Hm HQ". iDestruct (big_sepM_lookup_acc with "Hm") as "[Hk Hm]"; [exact Hl|].
  iApply (Hop with "Hk"). iIntros "Hk". iApply "HQ". by iApply "Hm".
Qed.

Lemma wp_alter (γl : gname) (op : prog D ()) f m l Q :
  (forall k Q, l ↪[γl] k -∗ (l ↪[γl] f k -∗ Q tt) -∗ W op Q) -> is_Some (m !! l) ->
  all γl m -∗ (all γl (alter f l m) -∗ Q tt) -∗ W op Q.
Proof.
  iIntros (Hop [k Hl]) "Hm HQ". iDestruct (big_sepM_insert_acc with "Hm") as "[Hk Hm]"; [exact Hl|].
  iApply (Hop with "Hk"). iIntros "Hk". iApply "HQ". iDestruct ("Hm" with "Hk") as "Hm".
  assert (alter f l m = <[l := f k]> m) as ->; [|done]. apply map_eq. intros y.
  destruct (decide (l = y)) as [<-|Hne]; [by rw lookup_alter_eq lookup_insert_eq Hl|].
  by rw lookup_alter_ne; [rw lookup_insert_ne|].
Qed.

(** The same through a pointer that may be null. *)
Lemma wp_alter_some (γl : gname) (op : loc -> prog D ()) f m p Q :
  (forall l k Q, l ↪[γl] k -∗ (l ↪[γl] f k -∗ Q tt) -∗ W (op l) Q) ->
  (forall l, p = Some l -> is_Some (m !! l)) ->
  all γl m -∗ (all γl (alter_some f p m) -∗ Q tt) -∗
  W (match p with Some l => op l | None => Ret tt end) Q.
Proof.
  iIntros (Hop Hp) "Hm HQ". destruct p as [l|]; [|by iApply "HQ"].
  iApply (wp_alter with "Hm HQ"); [apply Hop|by apply Hp].
Qed.

(** ** Whole lists *)

Lemma nodes_unlinked (γl : gname) m ls1 l ls2 :
  NoDup (ls1 ++ l :: ls2) -> seg m None (ls1 ++ l :: ls2) None ->
  (forall y, is_Some (m !! y) <-> y ∈ ls1 ++ l :: ls2) ->
  all γl (unlink l (mkLinks (head ls2) (last ls1)) m) -∗
  nodes γl (ls1 ++ ls2) ∗ l ↪[γl] no_links.
Proof.
  iIntros (Hnd Hs Hd) "Hm". assert (is_Some (m !! l)) as Hl.
  { apply Hd. rw elem_of_app. right. by left. }
  assert (l ∉ ls1 ++ ls2) as Hout.
  { rw -(without_split l ls1 ls2 Hnd) elem_of_without. by intros [? _]. }
  pose proof (seg_unlink m ls1 l ls2 Hnd Hs) as Hs'. rw nxt_head prv_last in Hs'.
  assert (forall y, is_Some (unlink l (mkLinks (head ls2) (last ls1)) m !! y) <-> y ∈ ls1 ++ l :: ls2) as Hd'.
  { intros y. rw (is_Some_unlink l _ m y Hl). apply Hd. }
  set (m' := unlink _ _ _) in *.
  iDestruct (big_sepM_delete _ m' l no_links with "Hm") as "[Hl Hm]"; [by apply lookup_insert_eq|].
  iFrame "Hl". iExists (delete l m'). iFrame "Hm". iPureIntro. split.
  - eapply seg_frame; [|exact Hs']. intros y Hy. apply lookup_delete_ne. by intros <-.
  - intros y. rw lookup_delete_is_Some Hd' !elem_of_app elem_of_cons. rw elem_of_app in Hout.
    split; [intros (? & [?|[?|?]]); [by left|congruence|by right]|].
    intros Hy. split; [intros <-; by apply Hout|tauto].
Qed.

Lemma nodes_pushed (γl : gname) m l ls :
  NoDup (l :: ls) -> seg m None ls None -> (forall y, is_Some (m !! y) <-> y ∈ ls) ->
  all γl (alter_some (with_prev (Some l)) (head ls) m) -∗ l ↪[γl] mkLinks (head ls) None -∗
  nodes γl (l :: ls).
Proof.
  iIntros (Hnd Hs Hd) "Hm Hl". pose proof (proj1 (NoDup_cons _ _) Hnd) as [Hin _].
  pose proof (seg_push m l ls Hnd Hs) as Hs'.
  assert (m !! l = None) as Hno by (apply eq_None_not_Some; by rw Hd).
  assert (push l (head ls) m = <[l := mkLinks (head ls) None]> (alter_some (with_prev (Some l)) (head ls) m)) as E.
  { unfold push. apply map_eq. intros y. rw !lookup_alter_some. destruct (decide (l = y)) as [<-|Hne].
    - rw !lookup_insert_eq. case_decide as Hh; [|done]. by destruct Hin; apply head_Some_elem_of.
    - rw !lookup_insert_ne; [|done..]. by rw lookup_alter_some. }
  rw E in Hs'. iExists _. iSplitL; [|iSplit; [iPureIntro; exact Hs'|]].
  - iApply big_sepM_insert; [|by iFrame]. rw lookup_alter_some. case_decide; by rw Hno.
  - iPureIntro. intros y. rw lookup_insert_is_Some' is_Some_alter_some Hd elem_of_cons.
    by split; (intros [?|?]; [left|by right]).
Qed.

(** ** The LRU list *)

Lemma last_none_nil {A} (ls : list A) : last ls = None -> ls = [].
Proof. by destruct ls using rev_ind; [|rw last_snoc]. Qed.
Lemma head_none_nil {A} (ls : list A) : head ls = None -> ls = [].
Proof. by destruct ls. Qed.
Lemma member_split (l : loc) ls : l ∈ ls -> NoDup ls -> exists ls1 ls2, ls = ls1 ++ l :: ls2 /\ without l ls = ls1 ++ ls2.
Proof.
  intros (ls1 & ls2 & ->)%list_elem_of_split Hnd. exists ls1, ls2. split; [done|]. by apply without_split.
Qed.

Lemma cleared l m :
  is_Some (m !! l) -> alter (with_prev None) l (alter (with_next None) l m) = <[l := no_links]> m.
Proof.
  intros [k Hk]. apply map_eq. intros y. destruct (decide (l = y)) as [<-|Hne].
  - by rw !lookup_alter_eq lookup_insert_eq Hk.
  - by rw !lookup_alter_ne; [rw lookup_insert_ne|..].
Qed.

(** The two ways of bypassing a node: in its neighbour, or at the end. *)
Lemma wp_bypass (γl : gname) (set : loc -> prog D ()) (first : prog D ()) f (P P' : iProp Σ) (p : option loc) m Q :
  (forall l k Q, l ↪[γl] k -∗ (l ↪[γl] f k -∗ Q tt) -∗ W (set l) Q) ->
  (forall l, p = Some l -> is_Some (m !! l)) ->
  match p with
  | Some _ => P ⊢ P'
  | None => forall Q, P -∗ (P' -∗ Q tt) -∗ W first Q
  end ->
  all γl m -∗ P -∗ (all γl (alter_some f p m) -∗ P' -∗ Q tt) -∗
  W (match p with Some l => set l | None => first end) Q.
Proof.
  iIntros (Hset Hp HP) "Hm P HQ". destruct p as [l|].
  - iApply (wp_alter with "Hm"); [apply Hset|by apply Hp|]. iIntros "Hm".
    iApply ("HQ" with "Hm"). by iApply HP.
  - iApply (HP with "P"). iIntros "P". iApply ("HQ" with "Hm P").
Qed.

Lemma wp_lru_remove l ls Q :
  l ∈ ls -> NoDup ls ->
  tt ↪[n_ends γ] (head ls, last ls) -∗ nodes (n_list γ) ls -∗
  (tt ↪[n_ends γ] (head (without l ls), last (without l ls)) -∗ nodes (n_list γ) (without l ls) -∗
    l ↪[n_list γ] no_links -∗ Q tt) -∗
  W (lru_remove l) Q.
Proof.
  iIntros (Hin Hnd) "Hend (%m & Hm & %Hs & %Hd) HQ".
  destruct (member_split l ls Hin Hnd) as (ls1 & ls2 & -> & ->).
  pose proof (seg_links _ _ _ _ _ _ Hs) as Hk. rw nxt_head prv_last in Hk.
  assert (forall y, last ls1 = Some y -> is_Some (m !! y)) as Hprev.
  { intros y Hy. apply Hd, elem_of_app. left. by apply last_Some_elem_of. }
  assert (forall y, head ls2 = Some y -> is_Some (m !! y)) as Hnext.
  { intros y Hy. apply Hd, elem_of_app. right. right. by apply head_Some_elem_of. }
  iApply wp_seq. iApply (wp_node with "Hm"); [apply (wp_load_list γ)|exact Hk|]. iIntros "Hm". cbn [lk_next lk_prev].
  iApply wp_seq. iApply (wp_bypass _ _ _ (with_next (head ls2)) _
    (tt ↪[n_ends γ] (head (ls1 ++ ls2), last (ls1 ++ l :: ls2)))%I with "Hm Hend");
    [intros y k R; apply wp_set_list_next|done| |].
  { destruct (last ls1) eqn:El.
    - apply last_Some in El as [ls0 ->]. destruct ls0; done.
    - apply last_none_nil in El as ->. intros R. apply wp_set_mru. }
  iIntros "Hm Hend". iApply wp_seq.
  iApply (wp_bypass _ _ _ (with_prev (last ls1)) _
    (tt ↪[n_ends γ] (head (ls1 ++ ls2), last (ls1 ++ ls2)))%I with "Hm Hend");
    [intros y k R; apply wp_set_list_prev| | |].
  { intros y Hy. rw is_Some_alter_some. by apply Hnext. }
  { destruct (head ls2) eqn:Eh.
    - destruct ls2 as [|z ls2]; [done|]. rw !last_app !last_cons. by destruct (last ls2).
    - apply head_none_nil in Eh as ->. intros R. rw app_nil_r. apply wp_set_tail. }
  iIntros "Hm Hend". iApply wp_seq. iApply (wp_alter with "Hm"); [intros k R; apply wp_set_list_next| |].
  { rw !is_Some_alter_some. apply Hd. rw elem_of_app. right. by left. }
  iIntros "Hm". iApply (wp_alter with "Hm"); [intros k R; apply wp_set_list_prev| |].
  { rw lookup_alter_is_Some !is_Some_alter_some. apply Hd. rw elem_of_app. right. by left. }
  iIntros "Hm". rw cleared; [|rw !is_Some_alter_some; apply Hd, elem_of_app; right; by left].
  iDestruct (nodes_unlinked _ m ls1 l ls2 with "Hm") as "[Hn Hl]"; [done..|].
  iApply ("HQ" with "Hend Hn Hl").
Qed.

Lemma wp_lru_add_head l ls k Q :
  NoDup (l :: ls) ->
  tt ↪[n_ends γ] (head ls, last ls) -∗ nodes (n_list γ) ls -∗ l ↪[n_list γ] k -∗
  (tt ↪[n_ends γ] (Some l, last (l :: ls)) -∗ nodes (n_list γ) (l :: ls) -∗ Q tt) -∗
  W (lru_add_head l) Q.
Proof.
  iIntros (Hnd) "Hend (%m & Hm & %Hs & %Hd) Hl HQ".
  iApply wp_seq. iApply (wp_load_cache_ends with "Hend"). iIntros (c (_ & -> & ->)) "Hend".
  iApply wp_seq. iApply (wp_set_list_next with "Hl"). iIntros "Hl".
  iApply wp_seq. iApply (wp_set_list_prev with "Hl"). iIntros "Hl".
  iApply wp_seq. iApply (wp_alter_some _ (fun h => set_list_prev h (Some l)) with "Hm");
    [intros y k' R; apply wp_set_list_prev| |].
  { intros y Hy. by apply Hd, head_Some_elem_of. }
  iIntros "Hm". iDestruct (nodes_pushed _ m l ls with "Hm Hl") as "Hn"; [done..|].
  iApply wp_seq. iApply (wp_set_mru with "Hend"). iIntros "Hend". rw last_cons.
  destruct (last ls) as [t|] eqn:El; [by iApply ("HQ" with "Hend Hn")|].
  iApply (wp_set_tail with "Hend"). iIntros "Hend". iApply ("HQ" with "Hend Hn").
Qed.

Lemma touched_perm l ls : l ∈ ls -> NoDup ls -> l :: without l ls ≡ₚ ls.
Proof.
  intros Hin Hnd. destruct (member_split l ls Hin Hnd) as (ls1 & ls2 & -> & ->).
  apply Permutation_middle.
Qed.

Lemma wp_lru_touch l ls Q :
  l ∈ ls -> NoDup ls ->
  lru_at γ ls -∗ (lru_at γ (l :: without l ls) -∗ Q tt) -∗ W (lru_touch l) Q.
Proof.
  iIntros (Hin Hnd) "(Ho & Hend & Hn) HQ". pose proof (touched_perm l ls Hin Hnd) as Hperm.
  iApply wp_ghost; [done|]. iIntros (s) "S".
  iMod (lru_permute γ s ls (l :: without l ls) Hperm with "S Ho") as "[S Ho]". iModIntro. iFrame "S".
  iApply wp_seq. iApply (wp_load_cache_ends with "Hend"). iIntros (c (_ & -> & Et)) "Hend".
  case_decide as Hh.
  - assert (l :: without l ls = ls) as E.
    { destruct ls as [|y ls]; [done|]. cbn in Hh. injection Hh as ->.
      apply NoDup_cons in Hnd as [Hy _]. unfold without. rw filter_cons_False; [|by intros H].
      f_equal. by apply without_notin. }
    cbn. rw E. iApply "HQ". iFrame.
  - assert (NoDup (l :: without l ls)) as Hnd' by by rw Hperm.
    iApply wp_seq. iApply (wp_lru_remove with "Hend Hn"); [done..|]. iIntros "Hend Hn Hl".
    iApply (wp_lru_add_head with "Hend Hn Hl"); [done|]. iIntros "Hend Hn". iApply "HQ". iFrame.
Qed.

(** ** Chains *)

(** Removal from a chain, as [try_evict_entry_locked] does it. *)
Lemma wp_hash_unlink {B} i l ls (rest : prog D B) Q :
  l ∈ ls -> NoDup ls ->
  i ↪[n_heads γ] head ls -∗ nodes (n_hash γ) ls -∗
  (i ↪[n_heads γ] head (without l ls) -∗ nodes (n_hash γ) (without l ls) -∗ l ↪[n_hash γ] no_links -∗ W rest Q) -∗
  W (let* k := load_hash l in
     (match lk_prev k with
      | Some p => set_hash_next p (lk_next k)
      | None => set_head i (lk_next k)
      end) ;;;
     (match lk_next k with Some n => set_hash_prev n (lk_prev k) | None => Ret tt end) ;;;
     set_hash_next l None ;;;
     set_hash_prev l None ;;;
     rest) Q.
Proof.
  iIntros (Hin Hnd) "Hh (%m & Hm & %Hs & %Hd) HQ".
  destruct (member_split l ls Hin Hnd) as (ls1 & ls2 & -> & ->).
  pose proof (seg_links _ _ _ _ _ _ Hs) as Hk. rw nxt_head prv_last in Hk.
  iApply wp_seq. iApply (wp_node with "Hm"); [apply (wp_load_hash γ)|exact Hk|]. iIntros "Hm". cbn [lk_next lk_prev].
  iApply wp_seq. iApply (wp_bypass _ _ _ (with_next (head ls2)) _
    (i ↪[n_heads γ] head (ls1 ++ ls2))%I with "Hm Hh"); [intros y k R; apply wp_set_hash_next| | |].
  { intros y Hy. apply Hd, elem_of_app. left. by apply last_Some_elem_of. }
  { destruct (last ls1) eqn:El.
    - apply last_Some in El as [ls0 ->]. destruct ls0; done.
    - apply last_none_nil in El as ->. intros R. apply wp_set_head. }
  iIntros "Hm Hh". iApply wp_seq.
  iApply (wp_alter_some _ (fun n => set_hash_prev n (last ls1)) with "Hm"); [intros y k R; apply wp_set_hash_prev| |].
  { intros y Hy. rw is_Some_alter_some. apply Hd, elem_of_app. right. right. by apply head_Some_elem_of. }
  iIntros "Hm". iApply wp_seq. iApply (wp_alter with "Hm"); [intros k R; apply wp_set_hash_next| |].
  { rw !is_Some_alter_some. apply Hd. rw elem_of_app. right. by left. }
  iIntros "Hm". iApply wp_seq. iApply (wp_alter with "Hm"); [intros k R; apply wp_set_hash_prev| |].
  { rw lookup_alter_is_Some !is_Some_alter_some. apply Hd. rw elem_of_app. right. by left. }
  iIntros "Hm". rw cleared; [|rw !is_Some_alter_some; apply Hd, elem_of_app; right; by left].
  iDestruct (nodes_unlinked _ m ls1 l ls2 with "Hm") as "[Hn Hl]"; [done..|].
  iApply ("HQ" with "Hh Hn Hl").
Qed.

(** Insertion in front, as [hash_find_or_insert] does it. *)
Lemma wp_hash_push i l ls k Q :
  NoDup (l :: ls) ->
  i ↪[n_heads γ] head ls -∗ nodes (n_hash γ) ls -∗ l ↪[n_hash γ] k -∗
  (i ↪[n_heads γ] Some l -∗ nodes (n_hash γ) (l :: ls) -∗ Q tt) -∗
  W (set_hash_next l (head ls) ;;;
     set_hash_prev l None ;;;
     (match head ls with Some h => set_hash_prev h (Some l) | None => Ret tt end) ;;;
     set_head i (Some l)) Q.
Proof.
  iIntros (Hnd) "Hh (%m & Hm & %Hs & %Hd) Hl HQ".
  iApply wp_seq. iApply (wp_set_hash_next with "Hl"). iIntros "Hl".
  iApply wp_seq. iApply (wp_set_hash_prev with "Hl"). iIntros "Hl".
  iApply wp_seq. iApply (wp_alter_some _ (fun h => set_hash_prev h (Some l)) with "Hm");
    [intros y k' R; apply wp_set_hash_prev| |].
  { intros y Hy. by apply Hd, head_Some_elem_of. }
  iIntros "Hm". iDestruct (nodes_pushed _ m l ls with "Hm Hl") as "Hn"; [done..|].
  iApply (wp_set_head with "Hh"). iIntros "Hh". iApply ("HQ" with "Hh Hn").
Qed.
End lists.
