(* ===== verification/CacheFind.v ===== *)
(** * Lookup and insertion, with ownership

    What [hash_find] and [hash_find_or_insert] need and give: a pin on the
    entry found, or the published entry. *)
From iris.proofmode Require Import proofmode.
From iris.base_logic Require Import base_logic.
From iris.base_logic.lib Require Import own iprop ghost_map.
From S2P Require Import Prelude Types CacheTypes CacheState Cache CacheLinks CacheWf CacheFacts.
From S2P Require Import CacheSystem CacheClients CacheThreads CacheWp CacheGhost CacheRules CacheLocking CacheOwned CacheShifts CacheAccess CacheListRules.

Section find.
Context {D : Type} `{!cacheG Σ} (γ : names).
Implicit Types (s : cstate D) (l : loc) (e : kes_extent_entry) (ch : list loc) (id : kes_extent_id).
Local Abbreviation W := (wp (shared (D := D) γ)).

Lemma bucket_idx_usual (c : kes_cache D) id : usual c -> bucket_idx c id = bucket id.
Proof. intros [Hm _]. unfold bucket_idx, bucket. by rw Hm. Qed.

Lemma bucket_equal id id' : kes_extent_equal id id' = true -> bucket id = bucket id'.
Proof. intros H. unfold bucket. by rw (extent_equal_hash _ _ H). Qed.

(** ** The walk along a chain *)

(** The result of a search in [ch]. *)
Definition found id ch (r : option loc) : iProp Σ :=
  match r with
  | Some l => ⌜l ∈ ch⌝ ∗ ∃ inf, known γ l inf ∗ ⌜kes_extent_equal (in_id inf) id = true⌝
  | None => absent γ id ch
  end.
#[export] Instance found_persistent id ch r : Persistent (found id ch r).
Proof. destruct r; apply _. Qed.

Lemma wp_find_in_chain R i ch id Q :
  Sees (D := D) γ R i ch -> Holds (D := D) γ R i ch -> forall fuel ch1 ch2, ch = ch1 ++ ch2 ->
  R -∗ absent γ id ch1 -∗ (∀ r, R -∗ found id ch r -∗ Q r) -∗ W (find_in_chain id fuel (head ch2)) Q.
Proof.
  intros HS HH. induction fuel as [|fuel IH]; intros ch1 [|l ch2] Hch; iIntros "HR #Habs HQ"; cbn [find_in_chain head].
  - iApply ("HQ" with "HR"). rw Hch app_nil_r. iApply "Habs".
  - iApply wp_out_of_fuel.
  - iApply ("HQ" with "HR"). rw Hch app_nil_r. iApply "Habs".
  - assert (l ∈ ch) as Hin by (rw Hch elem_of_app; right; by left).
    iApply wp_seq. iApply (wp_load_entry_public γ R l with "HR"); [by eapply sees_shows|]. iIntros (e) "#Hk HR".
    destruct (kes_extent_equal (e_id e) id) eqn:Eq.
    + iApply ("HQ" with "HR"). iSplit; [done|]. by iExists (info_of e); iFrame "Hk".
    + iApply wp_seq. iApply (wp_hash_of γ R i ch1 l ch2 with "HR"); [by rw -Hch|]. iIntros (k ->) "HR".
      iApply (IH (ch1 ++ [l]) ch2 with "HR [] HQ"); [by rw -app_assoc|].
      iApply big_sepL_app. iFrame "Habs". iSplit; [|done]. by iExists (info_of e); iFrame "Hk".
Qed.

(** ** Lookup *)

(** A reference of the caller, if it has one to show. *)
Definition evidence (w : option (loc * info)) : iProp Σ :=
  match w with Some (l, inf) => claims γ (CRef l) ∗ known γ l inf | None => True end.
(** A reference makes the search find its entry. *)
Definition decided (w : option (loc * info)) id (r : option loc) : Prop :=
  forall l inf, w = Some (l, inf) -> kes_extent_equal (in_id inf) id = true -> r = Some l.

Lemma found_decided R s i ch w id r :
  Sees (D := D) γ R i ch -> i = bucket id ->
  shared γ s -∗ (R ∗ evidence w ∗ found id ch r) -∗ ⌜decided w id r⌝.
Proof.
  iIntros (HR ->) "S (HR & Hw & #Hf)". destruct w as [[l inf]|]; [|iPureIntro; by intros l inf].
  iDestruct "Hw" as "[Hx #Hk]". iIntros (l' inf' [= <- <-] Heq).
  iDestruct (sees_member γ R (claims γ (CRef l)) s (bucket id) ch l inf with "S [$HR $Hx $Hk]") as %Hin.
  { by apply bucket_equal. }
  destruct r as [l2|]; cbn.
  - iDestruct "Hf" as (Hin2 inf2) "[Hk2 %Heq2]".
    iDestruct (sees_unique γ R s (bucket id) ch l2 l inf2 inf with "S [$HR $Hk $Hk2]") as %->; [done..| |done].
    by rw (equal_trans _ id _ Heq2) equal_sym.
  - apply list_elem_of_lookup in Hin as [n Hn].
    iDestruct (big_sepL_lookup with "Hf") as (k) "[Hk2 %Hk]"; [exact Hn|].
    iDestruct (ghost_map_elem_agree with "Hk Hk2") as %->. congruence.
Qed.

(** A pin on the entry for [id]. *)
Definition pinned id l : iProp Σ :=
  claims γ (CPin l) ∗ ∃ inf, known γ l inf ∗ ⌜kes_extent_equal (in_id inf) id = true⌝.

Lemma wp_hash_find w id Q :
  claims γ CFree -∗ evidence w -∗
  (∀ r, ⌜decided w id r⌝ -∗ evidence w -∗
    match r with Some l => pinned id l | None => claims γ CFree end -∗ Q r) -∗
  W (hash_find id) Q.
Proof.
  iIntros "Hx Hw HQ". iApply wp_seq. iApply wp_load_cache. iIntros (c Hc).
  rw (bucket_idx_usual c id Hc). iApply wp_seq.
  iApply (wp_rdlock_bucket γ); [apply bucket_range|]. iIntros (ch) "HR".
  iApply wp_seq. iApply (wp_head_of γ with "HR"). iIntros "HR". iApply wp_seq. iApply wp_walk_fuel. iIntros (fuel).
  iApply wp_seq. iApply (wp_find_in_chain _ _ ch id _ _ _ fuel [] ch with "HR []"); [done|by unfold absent|].
  iIntros (r) "HR #Hf". iApply (wp_know γ _ (reading γ (bucket id) ch ∗ evidence w ∗ found id ch r)%I
    ⌜decided w id r⌝%I with "[$HR $Hw $Hf]").
  { by destruct r. }
  { iIntros (s) "S HR". by iApply (found_decided with "S HR"). }
  iIntros "(HR & Hw & _) %Hd". iApply wp_seq. destruct r as [l|].
  - iDestruct "Hf" as (Hin inf) "[Hk %Heq]".
    iApply (wp_pin γ _ l with "HR Hx"); [by eapply (sees_shows γ); [apply _|]|]. iIntros "HR Hx".
    iApply wp_seq. iApply (wp_runlock_bucket γ with "HR"). iApply ("HQ" with "[//] Hw"). iFrame. by iFrame "Hk".
  - iApply wp_seq. iApply (wp_runlock_bucket γ with "HR"). by iApply ("HQ" with "[//] Hw").
Qed.

(** ** Insertion *)

(** A complete entry that is not published yet, with its buffer. *)
Definition candidate_at l e : iProp Σ :=
  l ↪[n_entries γ] e ∗ l ↪[n_status γ] Private ∗ (∃ k : links, l ↪[n_list γ] k) ∗
  (∃ k : links, l ↪[n_hash γ] k) ∗ (∃ inf : info, l ↪[n_infos γ] inf) ∗ buffer_at γ (info_of e).

Lemma private_outside s i ch l :
  shared γ s -∗ (chain_at γ i ch ∗ l ↪[n_status γ] Private) -∗ ⌜NoDup (l :: ch)⌝.
Proof.
  iIntros "S [Hc Hst]". iDestruct (chain_nodup γ s with "S Hc") as %Hnd.
  iAssert ⌜l ∉ ch⌝%I as %Hin; [|iPureIntro; by constructor]. iIntros (Hin). open_shared.
  iDestruct (ghost_map_lookup with "Sst Hst") as %Est.
  iAssert ⌜st !! l = Some Public⌝%I as %Hp'; [|congruence].
  iApply (sees_shows γ _ i ch l _ Hin s with "[-Hc] Hc"). unfold shared_with. iFrame "∗%".
Qed.

Lemma wp_hash_find_or_insert l e Q :
  newborn e ->
  candidate_at l e -∗ claims γ CFree -∗
  (∀ r, match r with
    | None => claims γ (CRef l) ∗ known γ l (info_of e) ∗ ∃ k : links, l ↪[n_list γ] k
    | Some other => candidate_at l e ∗ pinned (e_id e) other
    end -∗ Q r) -∗
  W (hash_find_or_insert l) Q.
Proof.
  iIntros (Hnb) "(Hent & Hst & Hlist & (%kh & Hhash) & Hinf & Hbuf) Hx HQ".
  iApply wp_seq. iApply wp_load_cache. iIntros (c Hc).
  iApply wp_seq. iApply (wp_load_entry_own γ with "Hent"). iIntros "Hent".
  rw (bucket_idx_usual c (e_id e) Hc). set (i := bucket (e_id e)). iApply wp_seq.
  iApply (wp_lock_bucket γ); [apply bucket_range|]. iIntros (ch) "HL HR".
  iApply wp_seq. iApply (wp_head_of γ with "HR"). iIntros "HR". iApply wp_seq. iApply wp_walk_fuel. iIntros (fuel).
  iApply wp_seq. iApply (wp_find_in_chain _ _ ch (e_id e) _ _ _ fuel [] ch with "HR []"); [done|by unfold absent|].
  iIntros ([other|]) "HR #Hf".
  - iDestruct "Hf" as (Hin inf) "[Hk %Heq]". iApply wp_seq.
    iApply (wp_pin γ _ other with "HR Hx"); [by eapply (sees_shows γ); [apply _|]|]. iIntros "HR Hx".
    iApply wp_seq. iApply (wp_unlock_bucket γ with "HL HR"). iApply "HQ". iFrame. by iFrame "Hk".
  - iApply wp_seq.
    iApply (wp_know γ _ (chain_at γ i ch ∗ l ↪[n_status γ] Private)%I ⌜NoDup (l :: ch)⌝%I with "[$HR $Hst]"); [done| |].
    { intros s. apply private_outside. }
    iIntros "[(Hch & Hh & Hn) Hst] %Hnd".
    iApply (wp_hash_push γ i l ch kh with "Hh Hn Hhash"); [done|]. iIntros "Hh Hn".
    iApply wp_seq. iDestruct "Hinf" as (inf) "Hinf". iApply wp_ghost; [done|]. iIntros (s) "S".
    iMod (chain_publish γ s i ch l e inf Hnb eq_refl with "S HL Hch Hent Hst Hinf Hx Hbuf Hf")
      as "($ & HL & Hch & Hx & #Hk)". iModIntro.
    iApply (wp_unlock_bucket γ _ (l :: ch) with "HL [$Hch $Hh $Hn]"). iApply "HQ". by iFrame "Hk ∗".
Qed.
End find.
