(* ===== verification/CacheEvict.v ===== *)
(** * Write-back and eviction, with ownership

    The sweeps of [kes_cache_sync] and of the background threads, eviction and
    the search for room: what they take from the shared structures, and that
    they give back whatever they do not free. *)
From iris.proofmode Require Import proofmode.
From iris.base_logic Require Import base_logic.
From iris.base_logic.lib Require Import own iprop ghost_map.
From S2P Require Import Prelude Types CacheTypes CacheState Cache CacheLinks CacheWf CacheFacts.
From S2P Require Import CacheSystem CacheClients CacheThreads CacheWp CacheGhost CacheRules CacheLocking CacheOwned CacheShifts CacheAccess CacheListRules CacheFind.

(** Evaluates what a change of an entry must not touch, its flags included. *)
Ltac allowing :=
  let H := fresh in
  intros H; split;
  [done | revert H; flags; try done; try tauto | cbn | cbn | try done; intros _; flags; try done; try tauto];
  try lia.

Section evict.
Context {D : Type} `{!cacheG Σ} (γ : names).
Implicit Types (s : cstate D) (l : loc) (e : kes_extent_entry) (ch : list loc) (id : kes_extent_id).
Local Abbreviation W := (wp (shared (D := D) γ)).

(** ** Statistics *)

Lemma plain_stats g : plain (D := D) (cache_set_stats g).
Proof. intros c. split_and!; try done. by left. Qed.
Lemma plain_inflight (f : kes_cache D -> Z) : plain (fun c => cache_set_inflight (f c) c).
Proof. intros c. split_and!; try done. by left. Qed.
Lemma wp_modify_stats g Q : Q tt -∗ W (modify_stats g) Q.
Proof. apply wp_modify_cache, plain_stats. Qed.

(** A change of the statistics under the cache lock. *)
Lemma wp_count {B} g (rest : prog D B) Q :
  W rest Q -∗ W (lock LCache ;;; modify_stats g ;;; unlock LCache ;;; rest) Q.
Proof.
  iIntros "HQ". iApply wp_seq. iApply wp_lock_cache. iIntros (ls) "HL Hlru".
  iApply wp_seq. iApply wp_modify_stats. iApply wp_seq. by iApply (wp_unlock_cache with "HL Hlru").
Qed.
Lemma wp_count_last g Q : Q tt -∗ W (lock LCache ;;; modify_stats g ;;; unlock LCache) Q.
Proof.
  iIntros "HQ". iApply wp_seq. iApply wp_lock_cache. iIntros (ls) "HL Hlru".
  iApply wp_seq. iApply wp_modify_stats. by iApply (wp_unlock_cache with "HL Hlru").
Qed.

(** ** Entries under their lock *)

Lemma wp_update l f e seen Q :
  ((is_error e = true -> is_dirty e = true) -> allowed e (f e) (e_ref_count e) (e_cond_waiters e) seen) ->
  entry_at γ l e -∗ seen_in γ seen l -∗ (entry_at γ l (f e) -∗ Q tt) -∗ W (modify_entry l f) Q.
Proof.
  iIntros (Ha) "(He & Hst & %Hfl) Hs HQ". iApply (wp_modify_at γ l f e seen with "[$He $Hst //] Hs HQ"). by apply Ha.
Qed.

Lemma entry_known s l e : shared γ s -∗ entry_at γ l e -∗ known γ l (info_of e).
Proof.
  iIntros "S He". iDestruct (public_entry γ _ l s with "S He") as (e1 E1) "#Hk".
  iAssert ⌜cs_entries s !! l = Some e⌝%I as %E.
  { open_shared. iDestruct "He" as "(He & _)". by iApply (ghost_map_lookup with "Sent He"). }
  by rw E in E1; injection E1 as <-.
Qed.
Lemma wp_entry_known {A} (m : prog D A) l e Q :
  ended m = false -> entry_at γ l e -∗ (entry_at γ l e -∗ known γ l (info_of e) -∗ W m Q) -∗ W m Q.
Proof. intros Hm. apply wp_know; [apply _|done|intros s; apply entry_known]. Qed.

(** An entry locked by the thread. *)
Definition mine l : iProp Σ := locked γ (LEntry l) ∗ ∃ e, entry_at γ l e.

Lemma wp_unlock_mine l Q : mine l -∗ Q tt -∗ W (unlock (LEntry l)) Q.
Proof. iIntros "[Hx (%e & He)]". by iApply (wp_unlock_entry with "Hx He"). Qed.

(** ** Eviction *)

Lemma evictable_unused b e : evictable b e = true -> e_ref_count e = 0 /\ e_cond_waiters e = 0.
Proof. unfold evictable. rw !andb_true_iff !Z.eqb_eq. tauto. Qed.

Lemma wp_free_data inf Q :
  buffer_at γ inf -∗ Q tt -∗ W (extent_free_data (in_data inf) (in_size inf)) Q.
Proof.
  iIntros "(%p & %n & -> & _ & _ & Hb) HQ". iApply wp_seq. iApply (wp_free_buffer with "Hb").
  by iApply wp_modify_stats.
Qed.

Lemma wp_try_evict l b Q :
  mine l -∗ (∀ r : bool, (if r then True else mine l) -∗ Q r) -∗ W (try_evict_entry_locked l b) Q.
Proof.
  iIntros "[Hl (%e & He)] HQ". iApply wp_seq. iApply (wp_load_entry_at with "He"). iIntros "He".
  destruct (evictable b e) eqn:Hev; cbn [negb]; [|iApply ("HQ" $! false); iFrame].
  apply evictable_unused in Hev as [Hr Hw].
  iApply wp_seq. iApply wp_load_cache. iIntros (c Hc). rw (bucket_idx_usual c (e_id e) Hc).
  set (i := bucket (e_id e)).
  iApply wp_seq. iApply (wp_lock_bucket γ); [apply bucket_range|]. iIntros (ch) "HB (Hch & Hh & Hn)".
  iApply wp_seq. iApply wp_lock_cache. iIntros (ls) "HL (Ho & Hend & Hln)".
  iApply wp_seq. iApply (wp_pins_load γ i ch ls l e with "[$HB $HL $Hl $He $Hch $Ho]"); [done..|].
  iIntros (p) "Hres". destruct (p =? 0); cbn [negb].
  - iDestruct "Hres" as "(HB & HL & Hl & Hent & Hst & Hbuf & Hch & Ho & %Hin & %Hnd & %Hlin & %Hlnd)".
    iApply (wp_hash_unlink γ i l ch with "Hh Hn"); [done..|]. iIntros "Hh Hn Hhash".
    iApply wp_seq. iApply (wp_lru_remove γ l ls with "Hend Hln"); [done..|]. iIntros "Hend Hln Hlist".
    iApply wp_seq. iApply (wp_free_data (info_of e) with "Hbuf").
    iApply wp_seq. iApply wp_modify_stats.
    iApply wp_seq. iApply (wp_unlock_cache γ (without l ls) with "HL [$Ho $Hend $Hln]").
    iApply wp_seq. iApply (wp_unlock_bucket γ i (without l ch) with "HB [$Hch $Hh $Hn]").
    iApply wp_seq. iApply (wp_unlock_closed γ with "Hl Hent Hst"). iIntros "Hent Hst".
    iApply wp_seq. iApply (wp_destroy_lock γ with "Hst"). iIntros "Hst".
    iApply wp_seq. iApply (wp_free_entry γ l e with "[$Hent $Hst $Hlist $Hhash]"). by iApply ("HQ" $! true).
  - iDestruct "Hres" as "(HB & HL & Hl & He & Hch & Ho)".
    iApply wp_seq. iApply (wp_unlock_cache γ ls with "HL [$Ho $Hend $Hln]").
    iApply wp_seq. iApply (wp_unlock_bucket γ i ch with "HB [$Hch $Hh $Hn]").
    iApply ("HQ" $! false). iFrame.
Qed.

(** ** Write-back *)

Lemma wp_flush_done l e n Q :
  entry_at γ l e -∗ (∀ e', entry_at γ l e' -∗ Q tt) -∗ W (flush_done l n) Q.
Proof.
  iIntros "He HQ". iApply wp_seq. iApply (wp_update l _ e false with "He [//]"); [allowing|]. iIntros "He".
  iApply wp_count_last. by iApply "HQ".
Qed.

Lemma wp_write_entry l e f id Q :
  is_dirty e = true ->
  entry_at γ l e -∗ (∀ e', entry_at γ l e' -∗ Q tt) -∗
  W (let* result := call_write f id (e_data e) (e_data_size e) in
     if result =? KES_SUCCESS then flush_done l (e_data_size e)
     else modify_entry l (entry_set_flag KES_EXTENT_ERROR)) Q.
Proof.
  iIntros (Hd) "He HQ". iApply (wp_entry_known with "He"); [done|]. iIntros "He #Hk".
  iApply wp_seq. iApply (wp_call_write γ _ f id l (info_of e) with "He Hk"). iIntros (r) "He".
  destruct (r =? KES_SUCCESS); [by iApply (wp_flush_done with "He")|].
  iApply (wp_update l _ e false with "He [//]"); [|iIntros "He"; by iApply "HQ"].
  rw dirty_bit in Hd. allowing.
Qed.

Lemma wp_write_back l Q : mine l -∗ (mine l -∗ Q tt) -∗ W (write_back l) Q.
Proof.
  iIntros "[Hl (%e & He)] HQ". iApply wp_seq. iApply (wp_load_entry_at with "He"). iIntros "He".
  destruct (has_flag (e_state e) KES_EXTENT_DIRTY) eqn:Hd; [|iApply "HQ"; iFrame].
  destruct (has_flag (e_state e) KES_EXTENT_LOADING); [iApply "HQ"; iFrame|]. cbn [andb negb].
  iApply wp_seq. iApply wp_load_cache. iIntros (c _). destruct (c_write_extent c) as [f|]; [|iApply "HQ"; iFrame].
  iApply (wp_write_entry with "He"); [done|]. iIntros (e') "He". iApply "HQ". iFrame.
Qed.

(** ** Sweeps *)

(** An entry of the LRU list that the thread has pinned. *)
Definition next_in_hand (p : option loc) : iProp Σ :=
  match p with Some l => claims γ (CPin l) ∗ listed γ l | None => claims γ CFree end.

(** Pinning an entry of the LRU list, under the cache lock. *)
Lemma wp_pin_if_some ls (p : option loc) Q :
  (forall l, p = Some l -> l ∈ ls) ->
  lru_at γ ls -∗ claims γ CFree -∗ (lru_at γ ls -∗ next_in_hand p -∗ Q tt) -∗ W (pin_if_some p) Q.
Proof.
  iIntros (Hp) "Hlru Hx HQ". destruct p as [l|]; [|iApply ("HQ" with "Hlru Hx")].
  iApply (wp_know γ _ (lru_at γ ls) (listed γ l) with "Hlru"); [done|intros s; apply lru_listed; by apply Hp|].
  iIntros "Hlru #Hl". iApply (wp_pin γ _ l with "Hlru Hx"); [by apply shows_lru; apply Hp|].
  iIntros "Hlru Hx". iApply ("HQ" with "Hlru [$Hx $Hl]").
Qed.

(** Reading the links of an entry that is on the list. *)
Lemma wp_load_listed P l ls Q :
  Shows (D := D) γ P l ->
  lru_at γ ls -∗ P -∗ listed γ l -∗
  (∀ k, ⌜(forall x, lk_next k = Some x -> x ∈ ls) /\ (forall x, lk_prev k = Some x -> x ∈ ls)⌝ -∗
    lru_at γ ls -∗ P -∗ Q k) -∗ W (load_list l) Q.
Proof.
  iIntros (HP) "Hlru HP #Hls HQ".
  iApply (wp_know γ _ (lru_at γ ls ∗ P ∗ listed γ l)%I ⌜l ∈ ls⌝%I with "[$Hlru $HP $Hls]"); [done| |].
  { intros s. by apply lru_member. }
  iIntros "((Ho & He & (%m & Hm & %Hs & %Hd)) & HP & _) %Hin".
  destruct (list_elem_of_split _ _ Hin) as (ls1 & ls2 & ->).
  pose proof (seg_links _ _ _ _ _ _ Hs) as Hk. rw nxt_head prv_last in Hk.
  iApply (wp_node γ with "Hm"); [apply (wp_load_list γ)|exact Hk|]. iIntros "Hm".
  iApply ("HQ" with "[] [Ho He Hm] HP"); [|iFrame; by iPureIntro].
  iPureIntro. cbn. split; intros x Hx; rw elem_of_app.
  - right. right. by apply head_Some_elem_of.
  - left. by apply last_Some_elem_of.
Qed.

Lemma wp_lock_pinned l Q :
  claims γ (CPin l) -∗ (mine l -∗ claims γ CFree -∗ Q tt) -∗
  W (lock (LEntry l) ;;; pins_add l (-1)) Q.
Proof.
  iIntros "Hx HQ". iApply wp_seq. iApply (wp_lock_entry γ _ l with "Hx"). iIntros (e) "Hl He Hx".
  iApply (wp_unpin with "Hx"). iIntros "Hx". iApply ("HQ" with "[$Hl $He] Hx").
Qed.

Lemma wp_sweep_visit l Q :
  claims γ (CPin l) -∗ (claims γ CFree -∗ Q tt) -∗ W (sweep_flush_and_maybe_evict l) Q.
Proof.
  iIntros "Hx HQ". iApply wp_seq. iApply (wp_lock_entry γ _ l with "Hx"). iIntros (e) "Hl He Hx".
  iApply wp_seq. iApply (wp_unpin with "Hx"). iIntros "Hx".
  iApply wp_seq. iApply (wp_write_back with "[$Hl $He]"). iIntros "Hl".
  iApply wp_seq. iApply (wp_try_evict with "Hl"). iIntros ([]) "Hl"; [by iApply "HQ"|].
  iApply (wp_unlock_mine with "Hl"). by iApply "HQ".
Qed.

Lemma wp_walk_list fuel : forall p Q,
  claims γ CFree -∗ next_in_hand p -∗ (claims γ CFree -∗ claims γ CFree -∗ Q tt) -∗
  W (walk_list sweep_flush_and_maybe_evict fuel p) Q.
Proof.
  induction fuel as [|fuel IH]; intros [l|] Q; iIntros "Hx Hp HQ"; cbn [walk_list].
  - iApply wp_out_of_fuel.
  - iApply ("HQ" with "Hx Hp").
  - iDestruct "Hp" as "[Hp #Hls]". iApply wp_seq. iApply wp_lock_cache. iIntros (ls) "HL Hlru".
    iApply wp_seq. iApply (wp_load_listed _ l ls with "Hlru Hp Hls"). iIntros (k [Hnx _]) "Hlru Hp".
    iApply wp_seq. iApply (wp_pin_if_some ls with "Hlru Hx"); [done|]. iIntros "Hlru Hn".
    iApply wp_seq. iApply (wp_unlock_cache with "HL Hlru").
    iApply wp_seq. iApply (wp_sweep_visit with "Hp"). iIntros "Hx". by iApply (IH with "Hx Hn").
  - iApply ("HQ" with "Hx Hp").
Qed.

Lemma wp_cache_sweep Q :
  claims γ CFree -∗ claims γ CFree -∗ (claims γ CFree -∗ claims γ CFree -∗ Q tt) -∗ W cache_sweep Q.
Proof.
  iIntros "Hx Hy HQ". iApply wp_seq. iApply wp_lock_cache. iIntros (ls) "HL Hlru".
  iApply wp_seq. iApply (wp_load_cache_lru with "Hlru"). iIntros (c (_ & -> & _)) "Hlru".
  iApply wp_seq. iApply (wp_pin_if_some ls with "Hlru Hx"); [apply head_Some_elem_of|]. iIntros "Hlru Hn".
  iApply wp_seq. iApply (wp_unlock_cache with "HL Hlru").
  iApply wp_seq. iApply wp_walk_fuel. iIntros (fuel). by iApply (wp_walk_list with "Hy Hn").
Qed.

(** ** Making room *)

Lemma wp_evict_loop need fuel : forall p fits Q,
  (is_Some p -> fits = false) ->
  next_in_hand p -∗ (∀ r, claims γ CFree -∗ Q r) -∗ W (evict_loop need fuel p fits) Q.
Proof.
  induction fuel as [|fuel IH]; intros [l|] fits Q Hfits; iIntros "Hp HQ"; cbn [evict_loop].
  - iApply wp_out_of_fuel.
  - by iApply "HQ".
  - rw Hfits; [|by eexists]. cbn [negb]. iDestruct "Hp" as "[Hp #Hls]".
    iApply wp_seq. iApply (wp_lock_entry γ _ l with "Hp"). iIntros (e) "Hl He Hp".
    iApply wp_seq. iApply (wp_unpin with "Hp"). iIntros "Hx".
    iApply wp_seq. iApply (wp_write_back with "[$Hl $He]"). iIntros "[Hl (%e' & He)]".
    iApply wp_seq. iApply wp_lock_cache. iIntros (ls) "HL Hlru".
    iApply wp_seq. iApply (wp_load_listed _ l ls with "Hlru He Hls"). iIntros (k [_ Hpv]) "Hlru He".
    iApply wp_seq. iApply (wp_pin_if_some ls with "Hlru Hx"); [done|]. iIntros "Hlru Hn".
    iApply wp_seq. iApply (wp_unlock_cache with "HL Hlru").
    iApply wp_seq. iApply (wp_try_evict with "[$Hl $He]"). iIntros ([]) "Hl"; iApply wp_seq.
    + iApply wp_seq. iApply wp_lock_cache. iIntros (ls') "HL Hlru". iApply wp_seq. iApply wp_modify_stats.
      iApply wp_seq. iApply wp_load_cache. iIntros (c _). iApply wp_seq. iApply (wp_unlock_cache with "HL Hlru").
      cbn [wp]. destruct (fits_now c need), (lk_prev k) as [y|]; try (iApply (IH with "Hn HQ"); done).
      iDestruct "Hn" as "[Hn _]". iApply wp_seq. iApply (wp_unpin with "Hn"). iIntros "Hx".
      iApply (IH None with "Hx HQ"). by intros [].
    + iApply wp_seq. iApply (wp_unlock_mine with "Hl"). cbn [wp]. iApply (IH with "Hn HQ"). done.
  - by iApply "HQ".
Qed.

Lemma wp_make_room n Q :
  claims γ CFree -∗ (∀ r, claims γ CFree -∗ Q r) -∗ W (make_room_for_new_entry n) Q.
Proof.
  iIntros "Hx HQ". iApply wp_seq. iApply wp_lock_cache. iIntros (ls) "HL Hlru".
  iApply wp_seq. iApply (wp_load_cache_lru with "Hlru"). iIntros (c (_ & _ & ->)) "Hlru".
  set (fits := fits_now _ _). set (p := if fits then None else last ls).
  iApply wp_seq. iApply (wp_pin_if_some ls p with "Hlru Hx").
  { unfold p. destruct fits; [done|]. apply last_Some_elem_of. }
  iIntros "Hlru Hn". iApply wp_seq. iApply (wp_unlock_cache with "HL Hlru").
  iApply wp_seq. iApply wp_walk_fuel. iIntros (fuel). iApply (wp_evict_loop with "Hn HQ").
  unfold p. by destruct fits; [intros []|].
Qed.
End evict.
