(* ===== verification/CacheCalls.v ===== *)
(** * The calls of the interface, with ownership

    A successful [kes_cache_get_extent] gives the caller a reference; the
    other calls need at most the right to one pin.  With these specifications
    no call depends on what other threads do. *)
From iris.proofmode Require Import proofmode.
From iris.base_logic Require Import base_logic.
From iris.base_logic.lib Require Import own iprop ghost_map.
From S2P Require Import Prelude Types CacheTypes CacheState Cache CacheLinks CacheWf CacheFacts CacheSpec CacheGet.
From S2P Require Import CacheSystem CacheClients CacheThreads CacheWp CacheGhost CacheRules CacheLocking CacheOwned CacheShifts CacheAccess CacheListRules CacheFind CacheEvict.

Section calls.
Context {D : Type} `{!cacheG Σ} (γ : names).
Implicit Types (s : cstate D) (l : loc) (e : kes_extent_entry) (ch : list loc) (id : kes_extent_id).
Local Abbreviation W := (wp (shared (D := D) γ)).

(** ** Counting references and waiters *)

Local Ltac counting :=
  let Hr := fresh in let Hw := fresh in let H := fresh in
  intros Hr Hw; split; cbn [e_ref_count e_cond_waiters entry_set_ref entry_set_waiters];
  [done|done|unfold one_if in *; repeat case_decide; try congruence; rw ?u32_small; lia..|done].

Lemma wp_change_count l f e x y seen Q :
  for_lock l x -> for_lock l y -> (x = CRef l -> seen = true) ->
  ((is_error e = true -> is_dirty e = true) ->
   one_if x (CRef l) <= e_ref_count e < 2 ^ 32 - (1 - one_if x (CRef l)) ->
   one_if x (CWait l) <= e_cond_waiters e < 2 ^ 32 - (1 - one_if x (CWait l)) ->
   allowed e (f e) (e_ref_count e - one_if x (CRef l) + one_if y (CRef l))
     (e_cond_waiters e - one_if x (CWait l) + one_if y (CWait l)) seen) ->
  entry_at γ l e -∗ claims γ x -∗ seen_in γ seen l -∗
  (entry_at γ l (f e) -∗ claims γ y -∗ Q tt) -∗ W (modify_entry l f) Q.
Proof.
  iIntros (Hx Hy Hs Ha) "(He & Hst & %Hfl) Hx Hsn HQ".
  iApply (wp_exchange γ l f e x y seen with "[$He $Hst //] Hx Hsn HQ"); [done..|]. by apply Ha.
Qed.

Lemma wp_add_waiter l e Q :
  entry_at γ l e -∗ claims γ CFree -∗ ((∃ e', entry_at γ l e') -∗ claims γ (CWait l) -∗ Q tt) -∗
  W (modify_entry l (fun e => entry_set_waiters (u32 (e_cond_waiters e + 1)) e)) Q.
Proof.
  iIntros "He Hx HQ". iApply (wp_change_count l _ e CFree (CWait l) false with "He Hx [//]").
  - by left.
  - by right; right.
  - done.
  - intros Hfl. counting.
  - iIntros "He". iApply "HQ". by iExists _.
Qed.
Lemma wp_drop_waiter l e Q :
  entry_at γ l e -∗ claims γ (CWait l) -∗
  ((∃ e', entry_at γ l e' ∗ ⌜is_loading e' = is_loading e⌝) -∗ claims γ CFree -∗ Q tt) -∗
  W (modify_entry l (fun e => entry_set_waiters (u32 (e_cond_waiters e - 1)) e)) Q.
Proof.
  iIntros "He Hx HQ". iApply (wp_change_count l _ e (CWait l) CFree false with "He Hx [//]").
  - by right; right.
  - by left.
  - done.
  - intros Hfl. counting.
  - iIntros "He". iApply "HQ". iExists _. by iFrame "He".
Qed.
Lemma wp_add_ref l e Q :
  entry_at γ l e -∗ claims γ CFree -∗ ((∃ e', entry_at γ l e') -∗ claims γ (CRef l) -∗ Q tt) -∗
  W (modify_entry l (fun e => entry_set_ref (u32 (e_ref_count e + 1)) e)) Q.
Proof.
  iIntros "He Hx HQ". iApply (wp_change_count l _ e CFree (CRef l) false with "He Hx [//]").
  - by left.
  - by right; left.
  - done.
  - intros Hfl. counting.
  - iIntros "He". iApply "HQ". by iExists _.
Qed.
(** The decrement of [kes_cache_put_extent], which never goes below zero. *)
Lemma wp_drop_ref l e Q :
  entry_at γ l e -∗ claims γ (CRef l) -∗ listed γ l -∗ ((∃ e', entry_at γ l e') -∗ claims γ CFree -∗ Q tt) -∗
  W (modify_entry l (fun e => if 0 <? e_ref_count e then entry_set_ref (u32 (e_ref_count e - 1)) e else e)) Q.
Proof.
  iIntros "He Hx #Hls HQ". iApply (wp_change_count l _ e (CRef l) CFree true with "He Hx Hls").
  - by right; left.
  - by left.
  - done.
  - intros Hfl Hr Hw. assert (0 < e_ref_count e) as Hpos by (unfold one_if in Hr; case_decide; [lia|congruence]).
    apply Z.ltb_lt in Hpos. rw Hpos. revert Hr Hw. apply Z.ltb_lt in Hpos. counting.
  - iIntros "He". iApply "HQ". by iExists _.
Qed.

(** ** Waiting for a load *)

(** An entry locked by the thread, loaded. *)
Definition loaded l : iProp Σ := locked γ (LEntry l) ∗ ∃ e, entry_at γ l e ∗ ⌜is_loading e = false⌝.

Lemma wp_wait_loaded l Q :
  mine γ l -∗ claims γ CFree -∗ (loaded l -∗ claims γ CFree -∗ Q tt) -∗ W (wait_loaded l) Q.
Proof.
  iIntros "[Hl (%e & He)] Hx HQ". iApply wp_seq. iApply (wp_load_entry_at with "He"). iIntros "He".
  destruct (has_flag (e_state e) KES_EXTENT_LOADING) eqn:Hld.
  - iApply wp_seq. iApply (wp_add_waiter with "He Hx"). iIntros "(%e' & He) Hx".
    iApply wp_seq. iApply wp_seq. iApply (wp_unlock_entry with "Hl He").
    iApply (wp_await with "Hx"). iIntros (e2 Hld2) "Hl He Hx".
    iApply (wp_drop_waiter with "He Hx"). iIntros "(%e3 & He & %Hld3) Hx". iApply ("HQ" with "[Hl He] Hx").
    iFrame "Hl". iExists e3. iFrame "He". iPureIntro. congruence.
  - iApply ("HQ" with "[Hl He] Hx"). iFrame "Hl". iExists e. by iFrame "He".
Qed.

(** ** References *)

(** What a successful [kes_cache_get_extent] for [id] gives: a reference to an
    entry whose buffer is [p]. *)
Definition holds_extent id (p : loc) : iProp Σ :=
  ∃ l inf, claims γ (CRef l) ∗ known γ l inf ∗ listed γ l ∗ ⌜in_data inf = Some p⌝ ∗
    ⌜kes_extent_equal (in_id inf) id = true⌝.
Definition got id (r : Z * option loc) : iProp Σ :=
  (if r.1 =? KES_SUCCESS then ∃ p, ⌜r.2 = Some p⌝ ∗ holds_extent id p else claims γ CFree)%I.

Lemma wp_leave_lookup {B} (rest : prog D B) Q : W rest Q -∗ W (leave_lookup ;;; rest) Q.
Proof.
  iIntros "HQ". iApply wp_seq. iApply wp_seq. iApply wp_lock_cache. iIntros (ls) "HL Hlru".
  iApply wp_seq. iApply wp_modify_cache; [apply (plain_inflight (fun c => u32 (c_inflight_lookups c - 1)))|].
  by iApply (wp_unlock_cache with "HL Hlru").
Qed.

Lemma known_buffer P l inf s :
  Shows (D := D) γ P l -> shared γ s -∗ (P ∗ known γ l inf) -∗ ⌜exists p, in_data inf = Some p⌝.
Proof.
  iIntros (HP) "S H". iDestruct (public_buffer γ P s l inf HP with "S H") as %(p & _ & ? & _). by iExists p.
Qed.
Lemma loaded_known l s e :
  is_loading e = false -> shared γ s -∗ entry_at γ l e -∗ listed γ l ∗ known γ l (info_of e) ∗
    ⌜exists p, e_data e = Some p⌝.
Proof.
  iIntros (Hld) "S He". iDestruct (loaded_listed γ s l e Hld with "S He") as "#$".
  iDestruct (entry_known γ s l e with "S He") as "#Hk". iFrame "Hk".
  iApply (known_buffer (entry_at γ l e) l (info_of e) s _ with "S [$He $Hk]").
Qed.
Lemma wp_loaded_known {A} (m : prog D A) l e Q :
  ended m = false -> is_loading e = false -> entry_at γ l e -∗
  (entry_at γ l e -∗ listed γ l ∗ known γ l (info_of e) ∗ ⌜exists p, e_data e = Some p⌝ -∗ W m Q) -∗ W m Q.
Proof. intros Hm Hld. apply wp_know; [apply _|done|intros s; by apply loaded_known]. Qed.

(** The last steps of a hit. *)
Lemma wp_count_hit l ls (r : Z * option loc) Q :
  l ∈ ls -> NoDup ls ->
  locked γ LCache -∗ lru_at γ ls -∗ Q r -∗
  W (lru_touch l ;;; modify_stats stat_hit ;;;
     modify_cache (fun c => cache_set_inflight (u32 (c_inflight_lookups c - 1)) c) ;;;
     unlock LCache ;;; Ret r) Q.
Proof.
  iIntros (Hin Hnd) "HL Hlru HQ". iApply wp_seq. iApply (wp_lru_touch with "Hlru"); [done..|]. iIntros "Hlru".
  iApply wp_seq. iApply wp_modify_stats. iApply wp_seq.
  iApply wp_modify_cache; [apply (plain_inflight (fun c => u32 (c_inflight_lookups c - 1)))|].
  iApply wp_seq. by iApply (wp_unlock_cache with "HL Hlru").
Qed.

Lemma wp_attach_entry id l Q :
  pinned γ id l -∗ (∀ r, got id r -∗ Q r) -∗ W (attach_entry l id) Q.
Proof.
  iIntros "[Hx (%inf & #Hk & %Heq)] HQ". iApply wp_seq.
  iApply (wp_lock_entry γ _ l with "Hx"). iIntros (e0) "Hl He Hx".
  iApply wp_seq. iApply (wp_unpin with "Hx"). iIntros "Hx".
  iApply wp_seq. iApply (wp_wait_loaded with "[$Hl $He] Hx"). iIntros "[Hl (%e & He & %Hld)] Hx".
  iApply wp_seq. iApply (wp_loaded_known with "He"); [done..|]. iIntros "He (#Hls & #Hk2 & (%p & %Hp))".
  iDestruct (ghost_map_elem_agree with "Hk Hk2") as %Einf.
  iApply (wp_load_entry_at with "He"). iIntros "He". iDestruct "He" as "(Hent & Hst & %Hfl)".
  change (has_flag (e_state e) KES_EXTENT_ERROR) with (is_error e).
  change (has_flag (e_state e) KES_EXTENT_DIRTY) with (is_dirty e).
  assert (is_error e && negb (is_dirty e) = false) as ->.
  { destruct (is_error e); [|done]. by rw Hfl. }
  iAssert (entry_at γ l e) with "[$Hent $Hst //]" as "He".
  iApply wp_seq. cbn [wp]. iApply wp_seq. iApply (wp_load_entry_at with "He"). iIntros "He".
  change (has_flag (e_state e) KES_EXTENT_ERROR) with (is_error e). destruct (is_error e).
  { iApply wp_seq. iApply (wp_unlock_entry with "Hl He"). iApply wp_leave_lookup. by iApply "HQ". }
  iApply wp_seq. iApply (wp_add_ref with "He Hx"). iIntros "(%e1 & He) Hx".
  iApply wp_seq. iApply wp_get_timestamp. iIntros (t).
  iApply wp_seq. iApply (wp_update γ l _ e1 false with "He [//]"); [allowing|]. iIntros "He".
  iApply wp_seq. iApply (wp_entry_known γ with "He"); [done|]. iIntros "He #Hk3".
  iDestruct (ghost_map_elem_agree with "Hk Hk3") as %Einf3. iApply (wp_load_entry_at with "He"). iIntros "He".
  iApply wp_seq. iApply (wp_unlock_entry with "Hl He").
  iApply wp_seq. iApply wp_lock_cache. iIntros (ls) "HL Hlru".
  iApply (wp_know γ _ (lru_at γ ls ∗ claims γ (CRef l) ∗ listed γ l)%I ⌜l ∈ ls /\ NoDup ls⌝%I with "[$Hlru $Hx $Hls]"); [done| |].
  { iIntros (s) "S H". iDestruct (lru_member γ _ s with "S H") as %?. iDestruct "H" as "[Hlru _]".
    by iDestruct (lru_nodup with "S Hlru") as %?. }
  iIntros "(Hlru & Hx & _) [%Hin %Hnd]". iApply (wp_count_hit with "HL Hlru"); [done..|].
  iApply "HQ". iExists p. subst inf. injection Einf3 as _ E2 _. cbn in E2. iSplitR.
  { iPureIntro. cbn. congruence. }
  iExists l, (info_of e). iFrame "Hx Hk Hls". iPureIntro. by split.
Qed.

(** ** The miss path *)

Lemma wp_init_entry l id Q :
  private_at γ l zero_entry -∗ (∀ t, private_at γ l (mkEntry id None 0 0 0 t 0 (extent_data_size id) 0) -∗ Q tt) -∗
  W (init_extent_entry l id) Q.
Proof.
  iIntros "(He & Hst & (%k & Hk) & %kh & Hkh) HQ". iApply wp_seq. iApply wp_get_timestamp. iIntros (t).
  iApply wp_seq. iApply (wp_modify_private γ with "He Hst"). iIntros "He Hst".
  iApply wp_seq. iApply (wp_set_hash_next with "Hkh"). iIntros "Hkh".
  iApply wp_seq. iApply (wp_set_hash_prev with "Hkh"). iIntros "Hkh".
  iApply wp_seq. iApply (wp_set_list_next with "Hk"). iIntros "Hk".
  iApply (wp_set_list_prev with "Hk"). iIntros "Hk". iApply "HQ". iFrame.
Qed.

Lemma wp_make_candidate id Q :
  id_ok id -> id_accepted id = true ->
  (∀ r, match r with
    | Some l => ∃ e, candidate_at γ l e ∗ ⌜newborn e /\ e_id e = id⌝
    | None => True
    end -∗ Q r) -∗ W (make_candidate id) Q.
Proof.
  iIntros (Hid Hacc) "HQ". iApply wp_seq. iApply (wp_calloc_entry γ). iIntros ([l|]) "Hl"; cbn [pbind].
  2:{ iApply wp_leave_lookup. by iApply "HQ". }
  iDestruct "Hl" as "[Hl Hinf]". iApply wp_seq. iApply (wp_init_entry with "Hl").
  iIntros (t) "(He & Hst & Hk & %kh & Hkh)".
  iApply wp_seq. iApply (wp_modify_private γ with "He Hst"). iIntros "He Hst".
  iApply wp_seq. iApply (wp_load_entry_own with "He"). iIntros "He". iApply wp_seq.
  iApply (wp_alloc_buffer γ). iIntros (r) "Hb". cbn [e_data_size entry_set_ref entry_set_state] in *.
  iApply wp_seq. iApply (wp_modify_private γ with "He Hst"). iIntros "He Hst". destruct r as [p|].
  - iApply ("HQ" $! (Some l)). iExists _. iFrame "He Hst Hk Hinf". iSplitL; [iSplitL "Hkh"; [by iExists _|]|].
    + iExists p, _. iFrame "Hb". iPureIntro. split_and!; [done|done|]. cbn -[KES_ALIGN extent_data_size Z.of_nat Z.to_nat].
      destruct (align_spec (extent_data_size id)) as [_ ?]; [by apply accepted_size|]. lia.
    + iPureIntro. split; [|done]. split; done.
  - iApply wp_seq. iApply (wp_destroy_lock γ with "Hst"). iIntros "Hst".
    iApply wp_seq. iApply (wp_free_entry γ with "[$He $Hst $Hk Hkh]"); [by iExists _|].
    iApply wp_leave_lookup. by iApply ("HQ" $! None).
Qed.

Lemma list_outside s l (k : links) ls :
  shared γ s -∗ (lru_at γ ls ∗ l ↪[n_list γ] k) -∗ ⌜NoDup (l :: ls)⌝.
Proof.
  iIntros "S [Hlru Hk]". iDestruct (lru_nodup with "S Hlru") as %Hnd.
  iDestruct "Hlru" as "(_ & _ & (%m & Hm & _ & %Hd))".
  iAssert ⌜l ∉ ls⌝%I as %?; [|iPureIntro; by constructor]. iIntros ([k' Hk']%Hd).
  iDestruct (big_sepM_lookup with "Hm") as "Hk'"; [exact Hk'|].
  by iDestruct (ghost_map_elem_ne with "Hk Hk'") as %[].
Qed.

Lemma wp_publish_entry l (k : links) Q :
  claims γ (CRef l) -∗ l ↪[n_list γ] k -∗ (claims γ (CRef l) -∗ listed γ l -∗ Q tt) -∗ W (publish_entry l) Q.
Proof.
  iIntros "Hx Hk HQ". iApply wp_seq. iApply (wp_load_entry_public γ _ l with "Hx"). iIntros (e) "_ Hx".
  iApply wp_seq. iApply wp_lock_cache. iIntros (ls) "HL Hlru". iApply wp_seq.
  iApply (wp_know γ _ (lru_at γ ls ∗ l ↪[n_list γ] k)%I ⌜NoDup (l :: ls)⌝%I with "[$Hlru $Hk]"); [done| |].
  { intros s. apply list_outside. }
  iIntros "[(Ho & Hend & Hn) Hk] %Hnd". iApply wp_modify_stats.
  iApply wp_seq. iApply (wp_lru_add_head γ l ls k with "Hend Hn Hk"); [done|]. iIntros "Hend Hn".
  iApply wp_seq. iApply wp_ghost; [done|]. iIntros (s) "S". apply NoDup_cons in Hnd as [Hin _].
  iMod (lru_publish γ _ s l ls _ Hin with "S Hx Ho") as "($ & Hx & Ho & #Hls)". iModIntro.
  iApply wp_modify_stats. iApply wp_seq. iApply wp_modify_stats.
  iApply wp_seq. iApply wp_modify_cache; [apply (plain_inflight (fun c => u32 (c_inflight_lookups c - 1)))|].
  iApply (wp_unlock_cache γ (l :: ls) with "HL [$Ho $Hend $Hn]"). by iApply ("HQ" with "Hx").
Qed.

Lemma wp_read_entry l id Q :
  claims γ (CRef l) -∗ (claims γ (CRef l) -∗ Q KES_SUCCESS) -∗ W (read_entry l id) Q.
Proof.
  iIntros "Hx HQ". iApply wp_seq. iApply wp_load_cache. iIntros (c (_ & f & -> & Hf)).
  iApply wp_seq. iApply (wp_load_entry_public γ _ l with "Hx"). iIntros (e) "#Hk Hx".
  iApply (wp_call_read γ _ f id l (info_of e) with "Hx Hk"); [done|]. done.
Qed.

Lemma wp_finish_load l id inf Q :
  kes_extent_equal (in_id inf) id = true ->
  claims γ (CRef l) -∗ known γ l inf -∗ listed γ l -∗ (∀ r, got id r -∗ Q r) -∗ W (finish_load l KES_SUCCESS) Q.
Proof.
  iIntros (Heq) "Hx #Hk #Hls HQ". iApply wp_seq. iApply (wp_lock_entry γ _ l with "Hx"). iIntros (e) "Hl He Hx".
  iApply wp_seq. iApply wp_seq. iApply (wp_update γ l _ e true with "He Hls"); [allowing|].
  iIntros "He". iApply wp_seq.
  iApply (wp_know γ _ (entry_at γ l (entry_set_state KES_EXTENT_CLEAN e))
    (known γ l (info_of e) ∗ ⌜exists p, e_data e = Some p⌝)%I with "He"); [done| |].
  { iIntros (s) "S He". iDestruct (entry_known γ s l with "S He") as "#Hk". iFrame "Hk".
    by iApply (known_buffer (entry_at γ l (entry_set_state KES_EXTENT_CLEAN e)) l (info_of e) s _ with "S [$He $Hk]"). }
  iIntros "He [#Hk2 (%p & %Hp)]". iDestruct (ghost_map_elem_agree with "Hk Hk2") as %->.
  iApply (wp_load_entry_at with "He"). iIntros "He". cbn [wp].
  iApply wp_seq. iApply (wp_unlock_entry with "Hl He"). rw Z.eqb_refl.
  iApply wp_seq. iApply wp_seq. iApply wp_lock_cache. iIntros (ls) "HL Hlru". iApply wp_seq.
  iApply (wp_load_entry_public γ _ l with "Hx"). iIntros (e2) "_ Hx". iApply wp_seq. iApply wp_modify_stats.
  iApply (wp_unlock_cache with "HL Hlru"). iApply "HQ". iExists p. iSplitR; [done|].
  iExists l, (info_of e). iFrame "Hx Hk Hls". by iPureIntro.
Qed.

Lemma wp_get_miss id Q :
  id_ok id -> id_accepted id = true ->
  claims γ CFree -∗ (∀ r, got id r -∗ Q r) -∗ W (get_miss id) Q.
Proof.
  iIntros (Hid Hacc) "Hx HQ". iApply wp_seq. iApply (wp_make_room with "Hx"). iIntros ([]) "Hx"; cbn [negb].
  2:{ iApply wp_leave_lookup. by iApply "HQ". }
  iApply wp_seq. iApply (wp_make_candidate id); [done..|]. iIntros ([l|]) "Hl"; [|by iApply "HQ"].
  iDestruct "Hl" as (e) "[Hl [%Hnb %He]]". iApply wp_seq.
  iApply (wp_hash_find_or_insert γ l e with "Hl Hx"); [done|]. iIntros ([other|]) "H".
  - iDestruct "H" as "[(He & Hst & Hk & Hkh & _ & Hbuf) Hp]".
    iApply wp_seq. iApply (wp_load_entry_own with "He"). iIntros "He". iApply wp_seq.
    iDestruct "Hbuf" as (p n Hp Hs Hn) "Hb". cbn in Hp. rw Hp. iApply (wp_free_buffer γ with "Hb").
    iApply wp_seq. iApply (wp_destroy_lock γ with "Hst"). iIntros "Hst".
    iApply wp_seq. iApply (wp_free_entry γ with "[$He $Hst $Hk $Hkh]").
    rw He. iApply (wp_attach_entry with "Hp HQ").
  - iDestruct "H" as "(Hx & #Hk & %k & Hlk)". iApply wp_seq. iApply (wp_publish_entry with "Hx Hlk").
    iIntros "Hx #Hls". iApply wp_seq. iApply (wp_read_entry with "Hx"). iIntros "Hx".
    iApply (wp_finish_load l id (info_of e) with "Hx Hk Hls HQ"). cbn. rw He. apply extent_equal_refl.
Qed.

(** ** [kes_cache_get_extent] *)

Definition answered (id : option kes_extent_id) (r : Z * option (option loc)) : iProp Σ :=
  match id, r.2 with
  | Some id, Some b => got id (r.1, b)
  | _, _ => claims γ CFree
  end.

Lemma accepted_tests id :
  negb (KES_IS_POWER_OF_2 (id_block_size id)) || (id_block_size id <? KES_MIN_BLOCK_SIZE) ||
    (KES_MAX_BLOCK_SIZE <? id_block_size id) = false -> (id_block_count id =? 0) = false ->
  id_accepted id = true.
Proof.
  unfold id_accepted. intros [[Hp Hlo]%orb_false_iff Hhi]%orb_false_iff Hc.
  apply negb_false_iff in Hp. apply Z.ltb_ge in Hlo, Hhi.
  rw Hp Hc. apply Z.leb_le in Hlo, Hhi. by rw Hlo Hhi.
Qed.

Lemma wp_get_extent (id : option kes_extent_id) Q :
  (forall i, id = Some i -> id_ok i) ->
  claims γ CFree -∗ (∀ r, answered id r -∗ Q r) -∗ W (kes_cache_get_extent true id true) Q.
Proof.
  iIntros (Hid) "Hx HQ". destruct id as [id|]; [|by iApply ("HQ" $! (_, None))].
  unfold kes_cache_get_extent. cbn [negb orb]. specialize (Hid id eq_refl).
  destruct (negb _ || _ || _) eqn:Ht; [by iApply ("HQ" $! (_, None))|].
  destruct (id_block_count id =? 0) eqn:Hz; [by iApply ("HQ" $! (_, None))|].
  pose proof (accepted_tests id Ht Hz) as Hacc.
  iApply wp_seq. iApply wp_lock_cache. iIntros (ls) "HL Hlru". iApply wp_seq. iApply wp_load_cache. iIntros (c _).
  destruct (c_destroying c).
  { iApply wp_seq. iApply (wp_unlock_cache with "HL Hlru"). by iApply ("HQ" $! (_, None)). }
  iApply wp_seq. iApply wp_modify_cache; [apply (plain_inflight (fun c => u32 (c_inflight_lookups c + 1)))|].
  iApply wp_seq. iApply (wp_unlock_cache with "HL Hlru"). iApply wp_seq.
  iApply (wp_hash_find γ None id with "Hx [//]"). iIntros (r _) "_ Hr". iApply wp_seq. destruct r as [l|].
  - iApply (wp_attach_entry with "Hr"). iIntros ([code b]) "Hr". by iApply ("HQ" $! (code, Some b)).
  - iApply (wp_get_miss with "Hr"); [done..|]. iIntros ([code b]) "Hr". by iApply ("HQ" $! (code, Some b)).
Qed.

(** ** The calls on a cached extent *)

Lemma wp_with_entry w (id : option kes_extent_id) k Q :
  claims γ CFree -∗ evidence γ w -∗
  ((∀ r, claims γ CFree -∗ evidence γ w -∗ ⌜forall i, id = Some i -> decided w i None⌝ -∗ Q r) ∧
   (∀ l, ⌜forall i, id = Some i -> decided w i (Some l)⌝ -∗ mine γ l -∗ claims γ CFree -∗ evidence γ w -∗ W (k l) Q)) -∗
  W (with_entry true id k) Q.
Proof.
  iIntros "Hx Hw HQ". destruct id as [id|]; cbn [with_entry negb].
  2:{ iDestruct "HQ" as "[HQ _]". iApply ("HQ" with "Hx Hw"). iPureIntro. done. }
  iApply wp_seq. iApply (wp_hash_find γ w id with "Hx Hw"). iIntros ([l|] Hd) "Hw Hr".
  - iDestruct "HQ" as "[_ HQ]". iDestruct "Hr" as "[Hx _]". iApply wp_seq.
    iApply (wp_lock_entry γ _ l with "Hx"). iIntros (e) "Hl He Hx". iApply wp_seq. iApply (wp_unpin with "Hx").
    iIntros "Hx". iApply ("HQ" with "[] [$Hl $He] Hx Hw"). iPureIntro. by intros i [= <-].
  - iDestruct "HQ" as "[HQ _]". iApply ("HQ" with "Hr Hw"). iPureIntro. by intros i [= <-].
Qed.


(** A reference is given back by [kes_cache_put_extent]. *)
Lemma wp_put_extent id id' p Q :
  kes_extent_equal id' id = true ->
  claims γ CFree -∗ holds_extent id' p -∗ (∀ r, claims γ CFree -∗ claims γ CFree -∗ Q r) -∗
  W (kes_cache_put_extent true (Some id)) Q.
Proof.
  iIntros (Heq) "Hx (%l & %inf & Hr & #Hk & #Hls & _ & %Heq') HQ".
  assert (kes_extent_equal (in_id inf) id = true) as Hid.
  { by rw (equal_trans _ id' _ Heq'). }
  iApply (wp_with_entry (Some (l, inf)) with "Hx [$Hr $Hk]"). iSplit.
  - iIntros (r) "_ _ %Hd". discriminate (Hd id eq_refl l inf eq_refl Hid).
  - iIntros (l' Hd) "[Hl (%e & He)] Hx [Hr _]". injection (Hd id eq_refl l inf eq_refl Hid) as ->.
    iApply wp_seq. iApply (wp_drop_ref with "He Hr Hls"). iIntros "He Hr".
    iApply wp_seq. iApply (wp_unlock_mine with "[$Hl $He]"). iApply ("HQ" with "Hx Hr").
Qed.

(** The others leave the references alone. *)
Local Ltac on_entry :=
  iIntros "Hx HQ"; iApply (wp_with_entry None with "Hx [//]"); iSplit;
  [iIntros (r) "Hx _ _"; by iApply "HQ" | iIntros (l _) "[Hl (%e & He)] Hx _"].

Lemma wp_mark_dirty (id : option kes_extent_id) Q :
  claims γ CFree -∗ (∀ r, claims γ CFree -∗ Q r) -∗ W (kes_cache_mark_dirty true id) Q.
Proof.
  on_entry. iApply wp_seq. iApply (wp_load_entry_at with "He"). iIntros "He". iApply wp_seq.
  destruct (has_flag _ _); [iApply wp_seq; iApply (wp_unlock_mine with "[$Hl $He]"); by iApply "HQ"|].
  iApply wp_seq. iApply (wp_update γ l _ e false with "He [//]"); [allowing|]. iIntros "He".
  iApply wp_count_last. iApply wp_seq. iApply (wp_unlock_mine with "[$Hl $He]"). by iApply "HQ".
Qed.

Lemma wp_pin_extent (id : option kes_extent_id) Q :
  claims γ CFree -∗ (∀ r, claims γ CFree -∗ Q r) -∗ W (kes_cache_pin_extent true id) Q.
Proof.
  on_entry. iApply wp_seq. iApply (wp_load_entry_at with "He"). iIntros "He". iApply wp_seq.
  iAssert (∀ e', entry_at γ l e' -∗ W (modify_entry l (fun e => entry_set_pin (u32 (e_pin_count e + 1)) e) ;;;
    unlock (LEntry l) ;;; Ret KES_SUCCESS) Q)%I with "[Hl Hx HQ]" as "Hrest".
  { iIntros (e') "He". iApply wp_seq. iApply (wp_update γ l _ e' false with "He [//]"); [allowing|]. iIntros "He".
    iApply wp_seq. iApply (wp_unlock_mine with "[$Hl $He]"). by iApply "HQ". }
  destruct (e_pin_count e =? 0); [|by iApply "Hrest"].
  iApply wp_seq. iApply (wp_update γ l _ e false with "He [//]"); [allowing|]. iIntros "He".
  iApply wp_count_last. by iApply "Hrest".
Qed.

Lemma wp_unpin_extent (id : option kes_extent_id) Q :
  claims γ CFree -∗ (∀ r, claims γ CFree -∗ Q r) -∗ W (kes_cache_unpin_extent true id) Q.
Proof.
  on_entry. iApply wp_seq. iApply (wp_load_entry_at with "He"). iIntros "He". iApply wp_seq.
  iAssert (∀ e', entry_at γ l e' -∗ W (unlock (LEntry l) ;;; Ret KES_SUCCESS) Q)%I with "[Hl Hx HQ]" as "Hrest".
  { iIntros (e') "He". iApply wp_seq. iApply (wp_unlock_mine with "[$Hl $He]"). by iApply "HQ". }
  destruct (0 <? e_pin_count e); [|by iApply "Hrest"].
  iApply wp_seq. iApply (wp_update γ l _ e false with "He [//]"); [allowing|]. iIntros "He".
  iApply wp_seq. iApply (wp_load_entry_at with "He"). iIntros "He".
  destruct (_ =? 0); [|by iApply "Hrest"].
  iApply wp_seq. iApply (wp_update γ l _ _ false with "He [//]"); [allowing|]. iIntros "He".
  iApply wp_count_last. by iApply "Hrest".
Qed.

Lemma wp_flush_extent (id : option kes_extent_id) Q :
  claims γ CFree -∗ (∀ r, claims γ CFree -∗ Q r) -∗ W (kes_cache_flush_extent true id) Q.
Proof.
  on_entry. iApply wp_seq. iApply (wp_wait_loaded with "[$Hl $He] Hx"). iIntros "[Hl (%e1 & He & _)] Hx".
  iApply wp_seq. iApply (wp_load_entry_at with "He"). iIntros "He".
  destruct (has_flag _ _) eqn:Hd; [|iApply wp_seq; iApply (wp_unlock_mine with "[$Hl $He]"); by iApply "HQ"].
  iApply wp_seq. iApply wp_load_cache. iIntros (c _). destruct (c_write_extent c) as [f|].
  2:{ iApply wp_seq. iApply (wp_unlock_mine with "[$Hl $He]"). by iApply "HQ". }
  iApply wp_seq. iApply (wp_entry_known γ with "He"); [done|]. iIntros "He #Hk".
  iApply (wp_call_write γ _ f _ l (info_of e1) with "He Hk"). iIntros (r) "He".
  destruct (r =? KES_SUCCESS); iApply wp_seq.
  - iApply (wp_flush_done γ with "He"). iIntros (e2) "He". iApply wp_seq.
    iApply (wp_unlock_mine with "[$Hl $He]"). by iApply "HQ".
  - iApply (wp_update γ l _ e1 false with "He [//]").
    { change (is_dirty e1 = true) in Hd. rw dirty_bit in Hd. allowing. }
    iIntros "He". iApply wp_seq. iApply (wp_unlock_mine with "[$Hl $He]"). by iApply "HQ".
Qed.

Lemma wp_invalidate (id : option kes_extent_id) Q :
  claims γ CFree -∗ (∀ r, claims γ CFree -∗ Q r) -∗ W (kes_cache_invalidate true id) Q.
Proof.
  on_entry. iApply wp_seq. iApply (wp_load_entry_at with "He"). iIntros "He".
  destruct (_ || _); [iApply wp_seq; iApply (wp_unlock_mine with "[$Hl $He]"); by iApply "HQ"|].
  iApply wp_seq. iApply (wp_try_evict with "[$Hl $He]"). iIntros ([]) "Hl"; cbn [negb].
  - iApply wp_seq. destruct (has_flag _ _); [iApply wp_count_last|]; by iApply "HQ".
  - iApply wp_seq. iApply (wp_unlock_mine with "Hl"). by iApply "HQ".
Qed.

(** ** The whole cache *)

Lemma wp_get_stats Q : (∀ r, Q r) -∗ W (kes_cache_get_stats true true) Q.
Proof.
  iIntros "HQ". iApply wp_seq. iApply wp_lock_cache. iIntros (ls) "HL Hlru". iApply wp_seq.
  iApply wp_load_cache. iIntros (c _). iApply wp_seq. iApply (wp_unlock_cache with "HL Hlru"). iApply "HQ".
Qed.
Lemma wp_reset_stats Q : (∀ r, Q r) -∗ W (kes_cache_reset_stats true) Q.
Proof. iIntros "HQ". iApply wp_count. iApply "HQ". Qed.

Lemma wp_set_callbacks r w y Q :
  (exists f, r = Some f /\ reads_succeed f) -> (∀ r, Q r) -∗ W (kes_cache_set_io_callbacks true r w y) Q.
Proof.
  iIntros ((f & -> & Hf)) "HQ". iApply wp_seq. iApply wp_modify_cache; [|iApply "HQ"].
  intros c. split_and!; try done. right. by exists f.
Qed.

(** A round of a background thread; the cache lock is held in between. *)
Lemma wp_bg_rounds rounds : forall ls Q,
  locked γ LCache -∗ lru_at γ ls -∗ claims γ CFree -∗ claims γ CFree -∗
  (∀ ls', locked γ LCache -∗ lru_at γ ls' -∗ claims γ CFree -∗ claims γ CFree -∗ Q tt) -∗
  W (bg_rounds rounds) Q.
Proof.
  induction rounds as [|n IH]; intros ls Q; iIntros "HL Hlru Hx Hy HQ"; cbn [bg_rounds].
  { iApply ("HQ" with "HL Hlru Hx Hy"). }
  iApply wp_seq. iApply wp_load_cache. iIntros (c _). destruct (c_shutdown c).
  { iApply ("HQ" with "HL Hlru Hx Hy"). }
  iApply wp_seq. iApply (wp_unlock_cache with "HL Hlru").
  iApply wp_seq. iApply wp_lock_cache. iIntros (ls1) "HL Hlru". iApply wp_seq. iApply wp_seq.
  iApply wp_load_cache. iIntros (c1 _). destruct (c_shutdown c1).
  { iApply ("HQ" with "HL Hlru Hx Hy"). }
  iApply wp_seq. iApply (wp_unlock_cache with "HL Hlru").
  iApply wp_seq. iApply (wp_cache_sweep with "Hx Hy"). iIntros "Hx Hy".
  iApply wp_seq. iApply wp_lock_cache. iIntros (ls2) "HL Hlru". iApply (IH with "HL Hlru Hx Hy HQ").
Qed.
Lemma wp_bg_thread rounds Q :
  claims γ CFree -∗ claims γ CFree -∗ Q tt -∗ W (cache_bg_thread_func rounds) Q.
Proof.
  iIntros "Hx Hy HQ". iApply wp_seq. iApply wp_lock_cache. iIntros (ls) "HL Hlru".
  iApply wp_seq. iApply (wp_bg_rounds with "HL Hlru Hx Hy"). iIntros (ls1) "HL Hlru _ _".
  by iApply (wp_unlock_cache with "HL Hlru").
Qed.
End calls.
