(* ===== verification/CacheSafety.v ===== *)
(** * No use after free, whatever the interleaving

    Clients that give back only references they hold and write only into
    buffers of extents they hold, on a device whose reads succeed, together
    with background threads: no interleaving of their steps is undefined
    behaviour, and the shared lists are intact whenever no lock is held. *)
From iris.proofmode Require Import proofmode.
From iris.algebra Require Import auth gmultiset.
From iris.base_logic Require Import base_logic.
From iris.base_logic.lib Require Import own iprop ghost_map.
From S2P Require Import Prelude Types CacheTypes CacheState Cache CacheLinks CacheWf CacheFacts CacheSpec CacheGet.
From S2P Require Import CacheSystem CacheThreads CacheWp CacheGhost CacheRules CacheLocking CacheOwned CacheShifts CacheAccess CacheListRules CacheFind CacheEvict CacheCalls CacheClients.

Section safety.
Context {D : Type} `{!cacheG Σ} (γ : names).
Implicit Types (s : cstate D) (held : holding).
Local Abbreviation W := (wp (shared (D := D) γ)).

(** What a client owns between two calls. *)
Definition purse (most : nat) held : iProp Σ :=
  ∃ n, ⌜(n + length held = most + 2)%nat⌝ ∗ credits γ n ∗ [∗ list] x ∈ held, holds_extent γ x.1 x.2.

Lemma credits_take n : credits γ (S n) ⊣⊢ claims γ CFree ∗ credits γ n.
Proof. done. Qed.

(** One right to a claim, lent to a call. *)
Lemma purse_lend most held :
  (length held <= most)%nat -> purse most held -∗ claims γ CFree ∗ (claims γ CFree -∗ purse most held).
Proof.
  iIntros (Hm) "(%n & %Hn & Hc & Hh)". destruct n as [|n]; [lia|]. rw credits_take.
  iDestruct "Hc" as "[$ Hc]". iIntros "Hx". iExists (S n). rw credits_take. by iFrame.
Qed.

Lemma purse_lend_two most held :
  (length held <= most)%nat ->
  purse most held -∗ claims γ CFree ∗ claims γ CFree ∗ (claims γ CFree -∗ claims γ CFree -∗ purse most held).
Proof.
  iIntros (Hm) "(%n & %Hn & Hc & Hh)". destruct n as [|[|n]]; [lia|lia|]. rw !credits_take.
  iDestruct "Hc" as "($ & $ & Hc)". iIntros "Hx Hy". iExists (S (S n)). rw !credits_take. by iFrame.
Qed.

Lemma drop_one_split id held :
  existsb (is_for id) held = true ->
  exists h1 x h2, held = h1 ++ x :: h2 /\ is_for id x = true /\ drop_one id held = h1 ++ h2.
Proof.
  induction held as [|x held IH]; [done|]. cbn. destruct (is_for id x) eqn:Hx.
  - intros _. by exists [], x, held.
  - cbn. intros H. destruct (IH H) as (h1 & y & h2 & -> & Hy & Hd). exists (x :: h1), y, h2. by rw Hd.
Qed.

Lemma wp_lent {X} (m : prog D X) most held (Q : X -> iProp Σ) :
  (length held <= most)%nat ->
  (forall R, claims γ CFree -∗ (∀ r, claims γ CFree -∗ R r) -∗ W m R) ->
  purse most held -∗ (∀ r, purse most held -∗ Q r) -∗ W m Q.
Proof.
  iIntros (Hh Hm) "Hp HQ". iDestruct (purse_lend with "Hp") as "[Hx Hp]"; [done|].
  iApply (Hm with "Hx"). iIntros (r) "Hx". iApply "HQ". by iApply "Hp".
Qed.

Lemma wp_exec most held op Q :
  may_call most held op -> (length held <= most)%nat ->
  purse most held -∗
  (∀ r, ⌜(length (holding_after held op r) <= most)%nat⌝ -∗ purse most (holding_after held op r) -∗ Q r) -∗
  W (exec op) Q.
Proof.
  intros Hop Hh. destruct op as [id|id|id|id|id|id|id| | | |r w y|p bytes|sec nsec script]; iIntros "Hp HQ"; cbn [exec].
  - destruct id as [id|].
    + destruct Hop as [Hid Hm]. iApply wp_seq. iDestruct "Hp" as (n Hn) "[Hc Hh]". destruct n as [|n]; [lia|].
      rw credits_take. iDestruct "Hc" as "[Hx Hc]".
      iApply (wp_get_extent γ with "Hx"); [by intros i [= <-]|]. iIntros ([code [b|]]) "Hr"; cbn [wp answered fst snd].
      * unfold got. cbn [fst snd]. destruct (code =? KES_SUCCESS) eqn:Ec.
        -- iDestruct "Hr" as (p ->) "Hr". iApply "HQ"; cbn [holding_after]; rw Ec.
           ++ iPureIntro. cbn. lia.
           ++ iExists n. iFrame. iPureIntro. cbn. lia.
        -- assert (holding_after held (OpGet (D := D) (Some id)) (RBuffer code (Some b)) = held) as E
             by (cbn; destruct b; [by rw Ec|done]).
           iApply "HQ"; rw E; [done|]. iExists (S n). rw credits_take. by iFrame.
      * iApply "HQ"; [done|]. iExists (S n). rw credits_take. by iFrame.
    + iApply ("HQ" with "[//] Hp").
  - destruct id as [id|]; [|iApply ("HQ" with "[//] Hp")]. cbn in Hop.
    destruct (drop_one_split id held Hop) as (h1 & x & h2 & -> & Hx & Hd).
    iApply wp_seq. iDestruct "Hp" as (n Hn) "[Hc Hh]". destruct n as [|n]; [lia|].
    rw credits_take. iDestruct "Hc" as "[Hx Hc]". rw big_sepL_app big_sepL_cons. iDestruct "Hh" as "(H1 & Hr & H2)".
    iApply (wp_put_extent γ id x.1 x.2 with "Hx Hr"); [exact Hx|]. iIntros (r) "Hx Hy". cbn [wp].
    rw length_app in Hh. rw length_app in Hn. cbn in Hh, Hn.
    iApply "HQ"; cbn [holding_after]; rw Hd; [iPureIntro; rw length_app; lia|].
    iExists (S (S n)). rw !credits_take big_sepL_app. iFrame. iPureIntro. rw length_app. lia.
  - iApply wp_seq. iApply (wp_lent with "Hp"); [done|intros R; apply wp_mark_dirty|]. iIntros (r) "Hp". by iApply "HQ".
  - iApply wp_seq. iApply (wp_lent with "Hp"); [done|intros R; apply wp_pin_extent|]. iIntros (r) "Hp". by iApply "HQ".
  - iApply wp_seq. iApply (wp_lent with "Hp"); [done|intros R; apply wp_unpin_extent|]. iIntros (r) "Hp". by iApply "HQ".
  - iApply wp_seq. iApply (wp_lent with "Hp"); [done|intros R; apply wp_flush_extent|]. iIntros (r) "Hp". by iApply "HQ".
  - iApply wp_seq. iApply (wp_lent with "Hp"); [done|intros R; apply wp_invalidate|]. iIntros (r) "Hp". by iApply "HQ".
  - iApply wp_seq. iApply wp_seq. iDestruct (purse_lend_two with "Hp") as "(Hx & Hy & Hp)"; [done|].
    iApply (wp_cache_sweep γ with "Hx Hy"). iIntros "Hx Hy". iApply "HQ"; [done|]. iApply ("Hp" with "Hx Hy").
  - iApply wp_seq. iApply wp_get_stats. iIntros ([r t]). iApply ("HQ" with "[//] Hp").
  - iApply wp_seq. iApply wp_reset_stats. iIntros (r). iApply ("HQ" with "[//] Hp").
  - iApply wp_seq. iApply wp_set_callbacks; [done|]. iIntros (r'). iApply ("HQ" with "[//] Hp").
  - destruct Hop as (id & Hin & Hlen). iApply wp_seq. iDestruct "Hp" as (n Hn) "[Hc Hh]".
    apply list_elem_of_lookup in Hin as [i Hi].
    iDestruct (big_sepL_lookup_acc with "Hh") as "[(%l & %inf & Hr & #Hk & #Hls & %Hp & %Heq) Hh]"; [exact Hi|].
    iApply (wp_client_store γ _ p bytes l inf with "Hr Hk"); [done| |].
    { by rw (equal_size _ _ Heq). }
    iIntros "Hr". iApply "HQ"; [done|]. iExists n. iFrame "Hc". iSplitR; [done|]. iApply "Hh".
    iExists l, inf. iFrame "Hr Hk Hls". by iPureIntro.
  - iApply wp_seq. iApply wp_elapse. iApply ("HQ" with "[//] Hp").
Qed.

Lemma wp_client most c : forall held,
  careful most held c -> (length held <= most)%nat -> purse most held -∗ W (client_prog c) (fun _ => True).
Proof.
  induction c as [|op k IH]; intros held; cbn [careful client_prog]; [by iIntros|].
  iIntros ([Hop Hk] Hh) "Hp". iApply wp_seq. iApply (wp_exec with "Hp"); [done..|].
  iIntros (r Hr) "Hp". iApply (IH r with "Hp"); [apply Hk|done].
Qed.

Lemma wp_task t : task_ok t -> credits γ (task_need t) -∗ W (task_prog t) (fun _ => True).
Proof.
  destruct t as [most c|rounds]; iIntros (Hok) "Hc".
  - iApply (wp_client most c []); [done|cbn; lia|]. iExists (most + 2)%nat. cbn [length]. iFrame.
    iSplit; [iPureIntro; lia|done].
  - iDestruct "Hc" as "(Hx & Hy & _)". by iApply (wp_bg_thread with "Hx Hy").
Qed.
End safety.

(** ** The ghost state of a new cache *)

Definition all_buckets : gset Z := list_to_set (Z.of_nat <$> seq 0 1024).
Lemma elem_of_buckets i : i ∈ all_buckets <-> 0 <= i < 1024.
Proof.
  unfold all_buckets. rw elem_of_list_to_set list_elem_of_fmap. split.
  - intros (n & -> & Hn%elem_of_seq). lia.
  - intros H. exists (Z.to_nat i). split; [lia|]. apply elem_of_seq. lia.
Qed.
Definition all_empty : gmap Z (list loc) := gset_to_gmap [] all_buckets.
Definition all_null : gmap Z (option loc) := gset_to_gmap None all_buckets.

Lemma all_empty_Some i ch : all_empty !! i = Some ch <-> 0 <= i < 1024 /\ ch = [].
Proof. unfold all_empty. rw lookup_gset_to_gmap_Some elem_of_buckets. split; intros [? ?]; by subst. Qed.
Lemma all_null_Some i (p : option loc) : all_null !! i = Some p <-> 0 <= i < 1024 /\ p = None.
Proof. unfold all_null. rw lookup_gset_to_gmap_Some elem_of_buckets. split; intros [? ?]; by subst. Qed.

Lemma blank_cache {D} (s : cstate D) c : blank s c -> cache_ok (Some c) all_null (None, None).
Proof.
  intros [B1 B2 B3 B4 B5 B6 _ _ _ _ _ _]. split.
  - by intros k [= <-].
  - by intros k [= <-].
  - cbn. by rw B4 B5.
  - intros i. split; [intros [p Hp]; by apply all_null_Some in Hp as [? _]|].
    intros Hi. exists None. by apply all_null_Some.
  - intros k i p [= <-] [Hi ->]%all_null_Some. rw B3. apply lookup_replicate. split; [done|lia].
Qed.
Lemma blank_locks : locks_ok ∅ ∅ ∅ all_empty ∅.
Proof.
  split.
  - intros x. rw !lookup_empty. split; [by intros []|done].
  - intros i ch Hin. multiset_solver.
  - intros i ch _. by rw lookup_empty multiplicity_empty.
  - intros x n. by rw lookup_empty.
  - intros l. rw lookup_empty. by intros [].
Qed.
Lemma blank_index : index_ok all_empty [] ∅ ∅ ∅.
Proof.
  split.
  - intros i. split; [intros [ch Hch]; by apply all_empty_Some in Hch as [? _]|].
    intros Hi. exists []. by apply all_empty_Some.
  - intros i ch l [_ ->]%all_empty_Some Hl. by apply elem_of_nil in Hl.
  - intros i ch [_ ->]%all_empty_Some. constructor.
  - intros i ch x y ix iy [_ ->]%all_empty_Some Hx. by apply elem_of_nil in Hx.
  - done.
  - intros l. rw elem_of_nil lookup_empty. split; [done|]. by intros [? _].
  - constructor.
Qed.

Section start.
Context {D : Type} `{!cacheG Σ}.

Lemma nodes_nil γl : ⊢ nodes γl [].
Proof.
  iExists ∅. rw big_sepM_empty. iPureIntro. split_and!; [done|done|]. intros l.
  rw lookup_empty elem_of_nil. split; [by intros []|done].
Qed.

Lemma alloc_claims n :
  ⊢ |==> ∃ γc X, own γc (● X) ∗ ⌜size X = n /\ forall x, x ∈ X -> x = CFree⌝ ∗
    [∗] replicate n (own γc (◯ {[+ CFree +]})).
Proof.
  induction n as [|n IH].
  - iMod (own_alloc (● (∅ : gmultiset claim))) as (γc) "H"; [by apply auth_auth_valid|].
    iModIntro. iExists γc, ∅. iFrame. iSplit; [|done]. iPureIntro. split; [done|]. intros x. multiset_solver.
  - iMod IH as (γc X) "(HX & [%Hsz %Hall] & Hc)".
    iMod (own_update with "HX") as "[HX Hx]".
    { apply (auth_update_alloc X ({[+ CFree +]} ⊎ X) {[+ CFree +]}), gmultiset_local_update. multiset_solver. }
    iModIntro. iExists γc, ({[+ CFree +]} ⊎ X). iFrame. iPureIntro. split.
    + rw gmultiset_size_disj_union gmultiset_size_singleton Hsz. done.
    + intros x [?%gmultiset_elem_of_singleton|?]%gmultiset_elem_of_disj_union; [done|by apply Hall].
Qed.

Lemma blank_shared s (c : kes_cache D) n :
  blank s c -> Z.of_nat n < 2 ^ 32 -> ⊢ |==> ∃ γ, shared γ s ∗ credits γ n.
Proof.
  intros Hb Hn. pose proof Hb as [B1 _ _ _ _ _ B7 B8 B9 B10 B11 B12].
  iMod (alloc_claims n) as (g1 X) "(SX & [%Hsz %Hall] & Hc)".
  iMod (own_alloc (● (∅ : gmultiset (Z * list loc)))) as (g2) "SY"; [by apply auth_auth_valid|].
  iMod (ghost_map_alloc (∅ : gmap loc kes_extent_entry)) as (g3) "[Sent _]".
  iMod (ghost_map_alloc (∅ : gmap loc links)) as (g4) "[Slist _]".
  iMod (ghost_map_alloc (∅ : gmap loc links)) as (g5) "[Shash _]".
  iMod (ghost_map_alloc all_null) as (g6) "[Sheads Hheads]".
  iMod (ghost_map_alloc (∅ : gmap loc nat)) as (g7) "[Sbufs _]".
  iMod (ghost_map_alloc (∅ : gmap loc status)) as (g8) "[Sst _]".
  iMod (ghost_map_alloc all_empty) as (g9) "[Sch Hch]".
  iMod (ghost_map_alloc (∅ : gmap loc info)) as (g10) "[Sinf _]".
  iMod (ghost_map_alloc (∅ : gmap loc ())) as (g11) "[Slsd _]".
  iMod (ghost_map_alloc (∅ : gmap lock_name ())) as (g12) "[Slk _]".
  iMod (ghost_map_alloc ({[ tt := [] ]} : gmap () (list loc))) as (g13) "[Sord Hord]".
  iMod (ghost_map_alloc ({[ tt := (None, None) ]} : gmap () (option loc * option loc))) as (g14) "[Send Hend]".
  rw !big_sepM_singleton. unfold all_null, all_empty. rw !big_sepM_gset_to_gmap.
  iModIntro. iExists (mkNames g1 g2 g3 g4 g5 g6 g7 g8 g9 g10 g11 g12 g13 g14). iSplitR "Hc"; [|done].
  iExists X, ∅, all_null, (None, None), ∅, all_empty, [], ∅, ∅, ∅. unfold shared_with. rw B1 B7 B8 B9 B10 B11 B12.
  rw !lookup_empty fmap_empty. cbn [n_claims n_readers n_entries n_list n_hash n_heads n_bufs n_status n_chains
    n_infos n_listed n_locks n_order n_ends].
  iFrame "SX SY Sent Slist Shash Sheads Sbufs Sst Sch Sinf Slsd Slk Sord Send".
  iSplitR; [iPureIntro; by apply (blank_cache s)|]. iSplitR; [iPureIntro; by apply blank_locks|].
  iSplitR; [iPureIntro; split; [by rw Hsz|]; intros x l Hx Hl; by rw (Hall x Hx) in Hl|].
  iSplitR; [iPureIntro; by intros l|]. iSplitR; [iPureIntro; by split; [intros l; split; intros []|..]|].
  iSplitR; [iPureIntro; by apply blank_index|]. iSplitR; [iPureIntro; by intros l|].
  iSplitL "Hord Hend".
  { iExists []. iFrame. iApply nodes_nil. }
  rw !big_sepM_empty big_sepM_gset_to_gmap. iSplitL; [|done]. iCombine "Hch Hheads" as "H". rw -big_sepS_sep.
  iApply (big_sepS_mono with "H"). iIntros (i _) "[Hc Hh]". rw lookup_empty. iFrame. iApply nodes_nil.
Qed.
End start.

(** ** What the interpretation says about the state *)

Section intact.
Context {D : Type} `{!cacheG Σ} (γ : names).


Lemma shared_intact (s : cstate D) :
  shared γ s -∗ ⌜cs_held s = ∅ -> exists order chain, intact s order chain⌝.
Proof.
  iIntros "S %Hh". open_shared. rw Hh. rw lookup_empty. cbn [lru_kept].
  iDestruct "Klru" as (ls) "(Ho & Hend & Hn)".
  iDestruct (ghost_map_lookup with "Sord Ho") as %E. rw lookup_singleton_eq in E. injection E as ->.
  iDestruct (ghost_map_lookup with "Send Hend") as %E. rw lookup_singleton_eq in E. injection E as ->.
  iDestruct (nodes_seg with "Slist Hn") as %Hlru. destruct (cache_there _ _ _ Hc) as (c & Ec & _ & Eends).
  set (chain := fun i => default [] (chains !! i)). iExists ls, chain.
  assert (forall i, 0 <= i < 1024 -> chains !! i = Some (chain i)) as Hch.
  { intros i [ch Hi']%(io_dom _ _ _ _ _ Hi). unfold chain. by rw Hi'. }
  iAssert ⌜forall i, 0 <= i < 1024 -> c_heads c !! Z.to_nat i = Some (head (chain i)) /\
    seg (cs_hash s) None (chain i) None⌝%I as %Hheads.
  { iIntros (i Hir). iDestruct (big_sepM_lookup _ chains i (chain i) with "Kch") as "K"; [by apply Hch|].
    rw lookup_empty. iDestruct "K" as "(_ & Hhead & Hnd)". iDestruct (nodes_seg with "Shash Hnd") as %Hs.
    iDestruct (ghost_map_lookup with "Sheads Hhead") as %Eh. iPureIntro. split; [|done].
    by apply (co_heads _ _ _ Hc c i). }
  iAssert ⌜forall l e, st !! l = Some Public -> cs_entries s !! l = Some e ->
    exists p b, e_data e = Some p /\ cs_bufs s !! p = Some b /\ e_data_size e <= Z.of_nat (length b)⌝%I as %Hbufs.
  { iIntros (l e Hst Hent). iDestruct (big_sepM_lookup _ st l Public with "Kent") as "[(%inf & #Hk & Hb) _]"; [done|].
    iDestruct (ghost_map_lookup with "Sinf Hk") as %Ei. rw (eo_info _ _ _ _ _ He l e Hent Hst) in Ei.
    injection Ei as <-. iDestruct "Hb" as (p n Hp' _ Hn') "Hb". iDestruct (ghost_map_lookup with "Sbufs Hb") as %Eb.
    rw lookup_fmap in Eb. apply fmap_Some in Eb as (b & Eb & ->). iPureIntro. by exists p, b. }
  iPureIntro. assert (forall l, st !! l = Some Public -> exists e, cs_entries s !! l = Some e /\
    infos !! l = Some (info_of e) /\ l ∈ chain (bucket (e_id e))) as Hpub.
  { intros l Hst. destruct (proj1 (eo_dom _ _ _ _ _ He l)) as [e Hent]; [by eexists|].
    pose proof (eo_info _ _ _ _ _ He l e Hent Hst) as Hinf. exists e. split_and!; [done..|].
    destruct (io_public _ _ _ _ _ Hi l _ Hst Hinf) as (ch & Hc' & Hin). unfold chain. cbn in Hc'. by rw Hc'. }
  split.
  - intros c' Hc'. rw Ec in Hc'. injection Hc' as <-. by injection Eends.
  - split; [done|]. by apply (io_order_nodup _ _ _ _ _ Hi).
  - intros c' i Hc' Hir. rw Ec in Hc'. injection Hc' as <-. by apply Hheads.
  - intros i Hir. split; [by apply Hheads|]. by apply (io_nodup _ _ _ _ _ Hi i), Hch.
  - intros l [Hst _]%(io_order _ _ _ _ _ Hi). destruct (Hpub l Hst) as (e & ? & _ & ?). by exists e.
  - intros i l Hir Hin. destruct (io_chain _ _ _ _ _ Hi i (chain i) l) as (Hst & inf & Hinf & Hb); [by apply Hch|done|].
    destruct (Hpub l Hst) as (e & Hent & Hinf' & _). exists e. rw Hinf in Hinf'. injection Hinf' as ->.
    split_and!; [done|done| |by apply (Hbufs l)]. destruct (lsd !! l) as [[]|] eqn:El.
    + left. apply (io_order _ _ _ _ _ Hi). by split; [|eexists].
    + right. by destruct (eo_loading _ _ _ _ _ He l e Hent Hst El).
  - intros i x y e e' Hir Hx Hy Hex Hey. 
    destruct (io_chain _ _ _ _ _ Hi i (chain i) x) as (Hsx & _); [by apply Hch|done|].
    destruct (io_chain _ _ _ _ _ Hi i (chain i) y) as (Hsy & _); [by apply Hch|done|].
    apply (io_unique _ _ _ _ _ Hi i (chain i) x y (info_of e) (info_of e')); [by apply Hch|done|done|..].
    + by apply (eo_info _ _ _ _ _ He).
    + by apply (eo_info _ _ _ _ _ He).
Qed.
End intact.

(** ** All threads *)

Definition cache_functors : gFunctors :=
  #[ GFunctor (authR (gmultisetUR claim)); GFunctor (authR (gmultisetUR (Z * list loc)));
     ghost_mapΣ loc kes_extent_entry; ghost_mapΣ loc links; ghost_mapΣ Z (option loc);
     ghost_mapΣ loc nat; ghost_mapΣ loc status; ghost_mapΣ Z (list loc); ghost_mapΣ loc info;
     ghost_mapΣ loc (); ghost_mapΣ lock_name (); ghost_mapΣ () (list loc);
     ghost_mapΣ () (option loc * option loc) ].
#[export] Instance subG_cache_functors Σ : subG cache_functors Σ -> cacheG Σ.
Proof. solve_inG. Qed.

Lemma credits_tasks `{!cacheG Σ} {D} γ (tasks : list (task D)) :
  credits γ (sum_list (task_need <$> tasks)) -∗ [∗ list] t ∈ tasks, credits γ (task_need t).
Proof.
  induction tasks as [|t tasks IH]; [by iIntros|]. cbn. unfold credits. rw replicate_add big_sepL_app.
  iIntros "[$ H]". by iApply IH.
Qed.

Lemma population_runs {D} (tasks : list (task D)) cfg rd (s0 s : cstate D) ts :
  opened cfg rd s0 -> population_ok tasks -> rtc pool_step (task_prog <$> tasks, s0) (ts, s) ->
  (cs_held s = ∅ -> exists order chain, intact s order chain) /\ ~ undefined ts s.
Proof.
  intros Hop [Hok Hfit] Hr. destruct (opened_blank cfg rd s0 Hop) as [c Hb].
  apply (wp_adequate (Σ := cache_functors) (fun s => cs_held s = ∅ -> exists order chain, intact s order chain)
    (task_prog <$> tasks) s0); [|done].
  iMod (blank_shared s0 c _ Hb Hfit) as (γ) "[S Hc]". iModIntro. iExists (shared γ). iFrame "S".
  iSplitL; [|iIntros "!>" (s1) "S"; by iApply shared_intact].
  iDestruct (credits_tasks with "Hc") as "Hc". unfold threads_ok. rw big_sepL_fmap.
  iApply (big_sepL_impl with "Hc"). iIntros "!>" (i t Hi) "Hc". iApply (wp_task with "Hc").
  by eapply (Forall_lookup_1 task_ok).
Qed.
