(* ===== verification/CacheMemory.v ===== *)
(** * Memory safety under concurrency

    What the ownership proof of [CacheSafety] gives for every interleaving of
    careful clients and background threads on a cache from its creation on:
    no step is undefined behaviour ([no_undefined_behaviour]), the lists are
    intact whenever no lock is held ([lists_stay_intact]), and the threads
    finish unless a walk outruns its fuel ([careful_threads_finish]). *)
From S2P Require Import Prelude Types CacheTypes CacheState Cache CacheLinks CacheWf CacheFacts CacheSystem CacheLifecycle.
From S2P Require Import CacheThreads CacheDiscipline CacheOrdered CacheConcurrent CacheDemo CacheClients CacheSafety.

(** ** Threads to run *)

(** Two clients that load the same extent, change it and give it back, and a
    background thread, on the device of [CacheDemo]. *)
Definition demo_client : client kv :=
  Call (OpGet (Some (demo_id 0))) (fun r =>
    match r with
    | RBuffer code (Some (Some p)) =>
        if code =? KES_SUCCESS then
          Call (OpStore p [1; 2; 3]) (fun _ =>
          Call (OpMarkDirty (Some (demo_id 0))) (fun _ =>
          Call (OpPut (Some (demo_id 0))) (fun _ => Done)))
        else Done
    | _ => Done
    end).
Definition demo_tasks : list (task kv) := [Caller 1 demo_client; Caller 1 demo_client; Sweeper 1].
Definition demo_open : cstate kv :=
  after (run (kes_cache_set_io_callbacks true (Some kv_read) (Some kv_write) None) demo_created).
(** The second client finds the extent while the first is loading it; the
    background thread writes it back in between. *)
Definition demo_order : list nat := turn 0 50 ++ turn 1 11 ++ turn 0 33 ++ turn 2 33 ++ turn 1 42.
Definition all_done {D} (o : outcome (list (prog D ()) * cstate D)) : bool :=
  match o with
  | Returns (ts, s) => forallb ended ts && bool_decide (cs_held s = ∅)
  | _ => false
  end.

Lemma callbacks_set {D} (s : cstate D) c rd wr sy :
  cs_cache s = Some c ->
  run (kes_cache_set_io_callbacks true rd wr sy) s =
    Returns (KES_SUCCESS, set_cache (Some (cache_set_callbacks rd wr sy c)) s).
Proof. intros Hc. cbn. by rewrite Hc. Qed.

Lemma demo_opened : opened demo_config kv_read demo_open.
Proof.
  exists demo_start, demo_created, (Some kv_write), None, KES_SUCCESS.
  assert (exists c, cs_cache demo_created = Some c) as [c Hc] by (vm_compute; by eexists).
  split_and!; [apply demo_no_cache|apply demo_creates| |done].
  unfold demo_open. by rewrite (callbacks_set demo_created c).
Qed.

Lemma demo_careful : careful 1 [] demo_client.
Proof.
  split; [split; [by apply demo_id_ok|cbn; lia]|]. intros [r|r [[p|]|]|r t|]; try done. cbn [holding_after].
  destruct (r =? KES_SUCCESS); [|done]. split.
  { exists (demo_id 0). split; [by left|vm_compute; discriminate]. }
  intros r1. split; [done|]. intros r2. split; [vm_compute; reflexivity|]. done.
Qed.

Lemma demo_population : population_ok demo_tasks.
Proof.
  split; [|vm_compute; reflexivity].
  repeat constructor; apply demo_careful.
Qed.

Lemma demo_reaches : exists ts s, follow demo_order (task_prog <$> demo_tasks) demo_open = Returns (ts, s) /\
  Forall (fun m => ended m = true) ts /\ cs_held s = ∅.
Proof.
  assert (all_done (follow demo_order (task_prog <$> demo_tasks) demo_open) = true) as H by (vm_compute; reflexivity).
  destruct (follow demo_order (task_prog <$> demo_tasks) demo_open) as [[ts s]| |]; [|done|done].
  apply andb_prop in H as [Ht Hh]. exists ts, s. split_and!; [done| |by apply bool_decide_eq_true in Hh].
  apply Forall_forall. intros m Hm. rewrite forallb_forall in Ht. apply Ht. by apply list_elem_of_In.
Qed.

(** ** What holds in every interleaving *)

(** C11: no use after free, no unlocking of a free lock.  However the steps of
    careful clients and background threads are interleaved, from the creation
    of the cache on, no thread is ever about to access a freed entry or
    buffer, to write past the end of a buffer, or to release a lock nobody
    holds.  Careful means that a client gives back only references it holds,
    writes only into buffers of extents it holds, and holds a bounded number
    at a time; the read callback never fails. *)
Theorem no_undefined_behaviour {D} (tasks : list (task D)) cfg rd (s0 s : cstate D) ts :
  opened cfg rd s0 -> population_ok tasks -> rtc pool_step (task_prog <$> tasks, s0) (ts, s) ->
  ~ undefined ts s.
Proof. intros Ho Hp Hr. by apply (population_runs tasks cfg rd s0 s ts). Qed.

Lemma no_undefined_behaviour_witness :
  exists ts s, follow demo_order (task_prog <$> demo_tasks) demo_open = Returns (ts, s) /\
    ~ undefined ts s.
Proof.
  destruct demo_reaches as (ts & s & Hf & _ & Hh). exists ts, s. split; [exact Hf|].
  apply (no_undefined_behaviour demo_tasks demo_config kv_read demo_open s ts).
  - apply demo_opened.
  - apply demo_population.
  - apply follow_steps with demo_order, Hf.
Defined.

(** C12: the shared lists are intact whenever no lock is held.  The LRU list and
    every hash chain are then doubly linked lists without repetition from
    their head (and tail) pointers; every entry on them exists, hangs in the
    bucket of its identifier, is the only one for its extent and has a buffer
    as large as the extent; an entry that is in a chain but not on the LRU
    list is still being loaded. *)
Theorem lists_stay_intact {D} (tasks : list (task D)) cfg rd (s0 s : cstate D) ts :
  opened cfg rd s0 -> population_ok tasks -> rtc pool_step (task_prog <$> tasks, s0) (ts, s) ->
  cs_held s = ∅ -> exists order chain, intact s order chain.
Proof. intros Ho Hp Hr. by apply (population_runs tasks cfg rd s0 s ts). Qed.

Lemma lists_stay_intact_witness :
  exists ts s, follow demo_order (task_prog <$> demo_tasks) demo_open = Returns (ts, s) /\
    cs_held s = ∅ /\ exists order chain, intact s order chain.
Proof.
  destruct demo_reaches as (ts & s & Hf & _ & Hh). exists ts, s. split; [exact Hf|].
  split; [exact Hh|].
  apply (lists_stay_intact demo_tasks demo_config kv_read demo_open s ts).
  - apply demo_opened.
  - apply demo_population.
  - apply follow_steps with demo_order, Hf.
  - exact Hh.
Defined.


